(** * file_my_photos: the catalog, organize and revert engines, verified

    A shallow embedding of the backend services of the repository
    (dateResolver.js, duplicateDetector.js, organizer.js, revert.js,
    scanner.js, hasher.js and the query layer of database/index.js) and the
    properties of them that the specification states.

    Part I holds the embedding, Part II the theorems. *)

From stdpp Require Import gmap strings list fin_maps sorting.
From Stdlib Require Import ZArith Ascii DecimalString DecimalNat.

Local Open Scope Z_scope.
Local Open Scope nat_scope.

(** * Part I: the embedding *)

(** ** JavaScript values and exceptions *)

(** An [Error] object: its [message] and, for the errors Node's [fs] raises,
    its [code] (['ENOENT'], ['EEXIST'], ...). *)
Record JsError := mkError { message : string; code : option string }.

Global Instance JsError_eq_dec : EqDecision JsError.
Proof. solve_decision. Defined.

Definition Error (msg : string) : JsError := mkError msg None.
Definition SystemError (c msg : string) : JsError := mkError msg (Some c).

(** A computation that returns or throws. *)
Inductive result (A : Type) : Type :=
| Ok (a : A)
| Throw (e : JsError).
Arguments Ok {A} a.
Arguments Throw {A} e.

Definition is_ok {A} (r : result A) : bool :=
  match r with Ok _ => true | Throw _ => false end.

(** Truthiness of a nullable string: [null], [undefined] and [''] are falsy. *)
Definition truthy (s : option string) : bool :=
  match s with
  | Some s => negb (bool_decide (s = ""))
  | None => false
  end.

(** [a || b] on a nullable string with a string fallback. *)
Definition or_else (a : option string) (b : string) : string :=
  match a with
  | Some s => if bool_decide (s = "") then b else s
  | None => b
  end.

(** [`${n}`] and [String(n)] for a non-negative integer. *)
Definition String_of_nat (n : nat) : string :=
  NilEmpty.string_of_uint (Nat.to_uint n).

(** [s.padStart(2, '0')]. *)
Definition padStart2 (s : string) : string :=
  match String.length s with
  | 0 => "00"
  | 1 => "0" +:+ s
  | _ => s
  end.

(** ** Node's [path] module (POSIX flavour)

    The services call [path.dirname], [path.extname], [path.basename] and
    [path.join]; these are their POSIX definitions, over the list of
    characters of the path. *)
Module NodePath.

Definition slash : ascii := "/"%char.
Definition dot : ascii := "."%char.

Definition is_slash (c : ascii) : bool := bool_decide (c = slash).

Fixpoint chars (s : string) : list ascii :=
  match s with
  | EmptyString => []
  | String c s => c :: chars s
  end.

Fixpoint unchars (l : list ascii) : string :=
  match l with
  | [] => EmptyString
  | c :: l => String c (unchars l)
  end.

Fixpoint drop_while (p : ascii → bool) (l : list ascii) : list ascii :=
  match l with
  | [] => []
  | c :: l' => if p c then drop_while p l' else l
  end.

Fixpoint take_while (p : ascii → bool) (l : list ascii) : list ascii :=
  match l with
  | [] => []
  | c :: l' => if p c then c :: take_while p l' else []
  end.

(** The trailing separators of a path, and its last component: what is
    left of the separator before them. *)
Definition trailing (l : list ascii) : list ascii :=
  take_while is_slash (rev l).

Definition last_component (l : list ascii) : list ascii :=
  rev (take_while (λ c, negb (is_slash c)) (drop_while is_slash (rev l))).

(** [path.dirname]: the scan runs from the end down to index 1 and stops
    at the first separator left of the last component. *)
Definition dirname_chars (l : list ascii) : list ascii :=
  match l with
  | [] => [dot]
  | c0 :: tl =>
      let r1 := drop_while is_slash (rev tl) in
      let r2 := drop_while (λ c, negb (is_slash c)) r1 in
      match r2 with
      | [] => if is_slash c0 then [slash] else [dot]
      | _ :: rest =>
          match rest with
          | [] => if is_slash c0 then [slash; slash] else [c0]
          | _ => c0 :: rev rest
          end
      end
  end.

Definition dirname (p : string) : string := unchars (dirname_chars (chars p)).

(** Index of the last dot of a component, if it has one. *)
Fixpoint last_dot (l : list ascii) : option nat :=
  match l with
  | [] => None
  | c :: l' =>
      match last_dot l' with
      | Some i => Some (S i)
      | None => if bool_decide (c = dot) then Some 0 else None
      end
  end.

(** [path.extname]: from the last dot of the last component, unless that
    dot starts the component or the component is [..]. *)
Definition extname_chars (l : list ascii) : list ascii :=
  let comp := last_component l in
  match last_dot comp with
  | None => []
  | Some 0 => []
  | Some d => if bool_decide (comp = [dot; dot]) then [] else drop d comp
  end.

Definition extname (p : string) : string := unchars (extname_chars (chars p)).

Definition is_suffix (s l : list ascii) : bool :=
  bool_decide (drop (length l - length s) l = s) && bool_decide (length s ≤ length l).

(** [path.basename(path, suffix)]. *)
Definition basename_chars (l suffix : list ascii) : list ascii :=
  let comp := last_component l in
  match suffix with
  | [] => comp
  | _ =>
      if bool_decide (length l < length suffix) then comp
      else if bool_decide (suffix = l) then []
      else if is_suffix suffix comp then
        (if bool_decide (comp = suffix) then comp
         else take (length comp - length suffix) comp)
      else if is_suffix comp suffix then comp ++ trailing l
      else comp
  end.

Definition basename (p suffix : string) : string :=
  unchars (basename_chars (chars p) (chars suffix)).

(** The segments of a path: what stands between separators. *)
Fixpoint split_go (cur : list ascii) (l : list ascii) : list (list ascii) :=
  match l with
  | [] => [rev cur]
  | c :: l' => if is_slash c then rev cur :: split_go [] l' else split_go (c :: cur) l'
  end.

Definition split (l : list ascii) : list (list ascii) := split_go [] l.

(** One step of [normalizeString]: the stack holds the kept segments,
    last first. *)
Definition norm_step (allowAboveRoot : bool) (stack : list (list ascii))
    (seg : list ascii) : list (list ascii) :=
  if bool_decide (seg = []) then stack
  else if bool_decide (seg = [dot]) then stack
  else if bool_decide (seg = [dot; dot]) then
    match stack with
    | top :: below =>
        if bool_decide (top = [dot; dot]) then
          (if allowAboveRoot then seg :: stack else stack)
        else below
    | [] => if allowAboveRoot then [seg] else []
    end
  else seg :: stack.

Fixpoint intercalate (segs : list (list ascii)) : list ascii :=
  match segs with
  | [] => []
  | [s] => s
  | s :: rest => s ++ slash :: intercalate rest
  end.

Definition ends_with_slash (l : list ascii) : bool :=
  match rev l with
  | c :: _ => is_slash c
  | [] => false
  end.

(** [path.normalize]. *)
Definition normalize_chars (l : list ascii) : list ascii :=
  match l with
  | [] => [dot]
  | c0 :: _ =>
      let isAbsolute := is_slash c0 in
      let trailingSeparator := ends_with_slash l in
      let segs := rev (foldl (norm_step (negb isAbsolute)) [] (split l)) in
      match segs with
      | [] =>
          if isAbsolute then [slash]
          else if trailingSeparator then [dot; slash] else [dot]
      | _ =>
          let body := intercalate segs ++ (if trailingSeparator then [slash] else []) in
          if isAbsolute then slash :: body else body
      end
  end.

(** [path.join(a, b)]: the non-empty arguments joined by a separator and
    normalized. *)
Definition join_chars (a b : list ascii) : list ascii :=
  match a, b with
  | [], [] => [dot]
  | [], _ => normalize_chars b
  | _, [] => normalize_chars a
  | _, _ => normalize_chars (a ++ slash :: b)
  end.

Definition join (a b : string) : string :=
  unchars (join_chars (chars a) (chars b)).

End NodePath.

(** Names without a separator, and names that [path.join] keeps as the
    last segment of its result. *)
Definition no_slash (l : list ascii) : Prop := Forall (λ c, c ≠ NodePath.slash) l.

Definition plain_name (n : list ascii) : Prop :=
  no_slash n ∧ n ≠ [] ∧ n ≠ [NodePath.dot] ∧ n ≠ [NodePath.dot; NodePath.dot].

(** ** The platform

    What the services take from Node, SQLite and the operating system and
    the repository does not define: the SHA-256 digest, [Date] parsing and
    formatting, the local calendar, the wall clock and SQLite's
    [CURRENT_TIMESTAMP]. Times are milliseconds since the Unix epoch. *)
Class Platform := {
  (** [crypto.createHash('sha256').update(content).digest('hex')] *)
  sha256 : string → string;
  (** [new Date(s).getTime()], [None] for an invalid date ([NaN]) *)
  Date_parse : string → option Z;
  (** [date.toISOString()] *)
  toISOString : Z → string;
  (** [getFullYear()], [getMonth()] (0 to 11) and [getDate()], local time *)
  getFullYear : Z → nat;
  getMonth : Z → nat;
  getDate : Z → nat;
  (** [d.setDate(d.getDate() + 1)]: the same local time on the next day *)
  nextDay : Z → Z;
  (** [new Date()]: the wall clock, held fixed over one modelled run *)
  now : Z;
  (** the [CURRENT_TIMESTAMP] (whole seconds) SQLite stamps on the row that
      gets the given [id] of the operations table, and of the files table *)
  CURRENT_TIMESTAMP : nat → nat;
  CURRENT_TIMESTAMP_files : nat → nat;
  (** [JSON.stringify({ category, exif })] *)
  JSON_stringify : string → option string → string;
}.

(** ** services/dateResolver.js *)
Section DateResolver.
Context `{Platform}.

(** The metadata object [extractAllMetadata] builds and [resolveDate] reads. *)
Record Metadata := mkMetadata {
  md_filename : string;
  md_originalPath : string;
  md_extension : string;
  md_category : string;
  md_mimeType : string;
  md_size : nat;
  createdAt : option string;
  modifiedAt : option string;
  md_exif : option string;
  exifDate : option string;
}.

(** [{ date, source }] *)
Record ResolvedDate := mkResolved { date : string; source : string }.

(** [new Date(value)] for a nullable string: [new Date(null)] is the epoch. *)
Definition new_Date (value : option string) : option Z :=
  match value with
  | Some s => Date_parse s
  | None => Some 0%Z
  end.

(** [isValidDate(date)] on a [Date] object: its time value is not [NaN]
    and lies between 1970-01-01 and now plus one day. *)
Definition isValidDate (date : option Z) : bool :=
  match date with
  | None => false
  | Some t =>
      let minDate := 0%Z in
      let maxDate := nextDay now in
      (minDate <=? t)%Z && (t <=? maxDate)%Z
  end.

(** One rung of the priority chain: [if (field) { const date = new
    Date(field); if (isValidDate(date)) return ... }]. *)
Definition candidate (field : option string) : option Z :=
  if truthy field then
    match new_Date field with
    | Some t => if isValidDate (Some t) then Some t else None
    | None => None
    end
  else None.

Definition resolveDate (metadata : Metadata) : ResolvedDate :=
  match candidate (exifDate metadata) with
  | Some t => mkResolved (toISOString t) "exif"
  | None =>
      match candidate (createdAt metadata) with
      | Some t => mkResolved (toISOString t) "created"
      | None =>
          match candidate (modifiedAt metadata) with
          | Some t => mkResolved (toISOString t) "modified"
          | None => mkResolved (toISOString now) "discovered"
          end
      end
  end.

(** [{ year, month, day }] *)
(** A candidate field is usable, with time value [t], when it is present
    and not empty, parses to [t], and [t] is neither before the epoch nor
    after now plus one day. *)
Definition usable (field : option string) (t : Z) : Prop :=
  ∃ str, field = Some str ∧ str ≠ "" ∧ Date_parse str = Some t
         ∧ (0 ≤ t ≤ nextDay now)%Z.

Record DateComponents := mkComponents { year : string; month : string; day : string }.

Definition components_of (t : Z) : DateComponents :=
  mkComponents (String_of_nat (getFullYear t))
               (padStart2 (String_of_nat (getMonth t + 1)))
               (padStart2 (String_of_nat (getDate t))).

Definition extractDateComponents (dateStr : option string) : DateComponents :=
  let date := new_Date dateStr in
  if isValidDate date then
    match date with
    | Some t => components_of t
    | None => components_of now
    end
  else components_of now.

Definition generateDestinationPath (destinationBase : string)
    (dateStr : option string) (filename : string) : string :=
  let c := extractDateComponents dateStr in
  destinationBase +:+ "/" +:+ year c +:+ "/" +:+ month c +:+ "/" +:+ day c
                  +:+ "/" +:+ filename.

End DateResolver.

(** ** The catalog: database/migrations.js and database/index.js

    Tables are lists of rows in rowid order. The [TEXT] columns that only
    ever hold one of a fixed set of constants are enumerations. A batch id
    (a UUID in the source) is a number drawn from a counter. Foreign keys
    hold by construction (every [file_id] and [duplicate_of] written is the
    id of a row just read) and are not checked again; the column
    [updated_timestamp], which no query reads, is left out. *)

Inductive FileStatus := st_pending | st_moved | st_duplicate | st_error.
Inductive OperationType :=
  op_scan | op_move | op_skip | op_duplicate | op_error | op_revert.
Inductive OperationStatus := completed | reverted | failed.

Global Instance FileStatus_eq_dec : EqDecision FileStatus.
Proof. solve_decision. Defined.
Global Instance OperationType_eq_dec : EqDecision OperationType.
Proof. solve_decision. Defined.
Global Instance OperationStatus_eq_dec : EqDecision OperationStatus.
Proof. solve_decision. Defined.

(** Table [files]. *)
Module Files.
Record row := mk {
  id : nat;
  original_path : string;
  current_path : option string;
  filename : string;
  extension : option string;
  size : nat;
  hash_sha256 : option string;
  hash_partial : option string;
  mime_type : option string;
  created_at : option string;
  modified_at : option string;
  exif_date : option string;
  resolved_date : option string;
  date_source : option string;
  status : FileStatus;
  duplicate_of : option nat;
  metadata_json : option string;
  created_timestamp : nat;
}.

(** The named parameters of [fileQueries.updateFile()]. *)
Record update := mkUpdate {
  u_id : nat;
  u_current_path : option string;
  u_hash_sha256 : option string;
  u_hash_partial : option string;
  u_mime_type : option string;
  u_exif_date : option string;
  u_resolved_date : option string;
  u_date_source : option string;
  u_status : FileStatus;
  u_duplicate_of : option nat;
  u_metadata_json : option string;
}.
End Files.

(** Table [operations], the ledger. *)
Module Operations.
Record row := mk {
  id : nat;
  batch_id : nat;
  file_id : nat;
  operation_type : OperationType;
  source_path : string;
  destination_path : option string;
  hash_used : option string;
  reason : string;
  status : OperationStatus;
  created_at : nat;
}.
End Operations.

(** Table [errors]. *)
Module Errors.
Record row := mk {
  file_id : option nat;
  file_path : string;
  error_type : string;
  error_message : string;
}.
End Errors.

Global Instance Files_row_eq_dec : EqDecision Files.row.
Proof. solve_decision. Defined.
Global Instance Operations_row_eq_dec : EqDecision Operations.row.
Proof. solve_decision. Defined.
Global Instance Errors_row_eq_dec : EqDecision Errors.row.
Proof. solve_decision. Defined.

(** [INTEGER PRIMARY KEY AUTOINCREMENT]: one more than the largest id. *)
Definition next_id (ids : list nat) : nat := S (max_list ids).

Section Queries.

(** [UPDATE files SET ... WHERE id = @id] *)
Definition apply_update (u : Files.update) (r : Files.row) : Files.row :=
  if bool_decide (Files.id r = Files.u_id u) then
    Files.mk (Files.id r) (Files.original_path r) (Files.u_current_path u)
      (Files.filename r) (Files.extension r) (Files.size r)
      (Files.u_hash_sha256 u) (Files.u_hash_partial u) (Files.u_mime_type u)
      (Files.created_at r) (Files.modified_at r) (Files.u_exif_date u)
      (Files.u_resolved_date u) (Files.u_date_source u) (Files.u_status u)
      (Files.u_duplicate_of u) (Files.u_metadata_json u)
      (Files.created_timestamp r)
  else r.

Definition updateFile (u : Files.update) (tbl : list Files.row) : list Files.row :=
  apply_update u <$> tbl.

(** The parameter object every caller in the services builds: the row's
    own columns, with [current_path], [status] and [duplicate_of] given. *)
Definition keeping (file : Files.row) (cp : option string) (st : FileStatus)
    (dup : option nat) : Files.update :=
  Files.mkUpdate (Files.id file) cp (Files.hash_sha256 file)
    (Files.hash_partial file) (Files.mime_type file) (Files.exif_date file)
    (Files.resolved_date file) (Files.date_source file) st dup
    (Files.metadata_json file).

(** [SELECT * FROM files WHERE id = ?] *)
Definition getFileById (i : nat) (tbl : list Files.row) : option Files.row :=
  find (λ r, bool_decide (Files.id r = i)) tbl.

(** [SELECT * FROM files WHERE original_path = ?] *)
Definition getFileByPath (p : string) (tbl : list Files.row) : option Files.row :=
  find (λ r, bool_decide (Files.original_path r = p)) tbl.

(** [SELECT * FROM files WHERE status = ?] *)
Definition getFilesByStatus (st : FileStatus) (tbl : list Files.row) : list Files.row :=
  filter (λ r, Files.status r = st) tbl.

(** [UPDATE operations SET status = ? WHERE id = ?] *)
Definition set_status (st : OperationStatus) (o : Operations.row) : Operations.row :=
  Operations.mk (Operations.id o) (Operations.batch_id o) (Operations.file_id o)
    (Operations.operation_type o) (Operations.source_path o)
    (Operations.destination_path o) (Operations.hash_used o)
    (Operations.reason o) st (Operations.created_at o).

Definition updateOperationStatus (st : OperationStatus) (i : nat)
    (tbl : list Operations.row) : list Operations.row :=
  (λ o, if bool_decide (Operations.id o = i) then set_status st o else o) <$> tbl.

Context `{Platform}.

(** [INSERT INTO operations ...]: the row gets the next id and the
    current timestamp. *)
Definition insertOperation (batch file : nat) (type : OperationType)
    (src : string) (dst : option string) (hash : option string) (reason : string)
    (st : OperationStatus) (tbl : list Operations.row) : list Operations.row :=
  let i := next_id (Operations.id <$> tbl) in
  tbl ++ [Operations.mk i batch file type src dst hash reason st (CURRENT_TIMESTAMP i)].

End Queries.

(** [ORDER BY key ASC] and [ORDER BY key DESC]: a sort of the rows, taken in
    rowid order, by the key. SQL leaves the order of rows with equal keys
    open; this sort keeps them in rowid order. *)
Fixpoint insert_by {A} (le : A → A → bool) (x : A) (l : list A) : list A :=
  match l with
  | [] => [x]
  | y :: l' => if le x y then x :: l else y :: insert_by le x l'
  end.

Definition order_by {A} (le : A → A → bool) (l : list A) : list A :=
  foldr (insert_by le) [] l.

Definition order_by_asc {A} (key : A → nat) : list A → list A :=
  order_by (λ x y, bool_decide (key x ≤ key y)).

Definition order_by_desc {A} (key : A → nat) : list A → list A :=
  order_by (λ x y, bool_decide (key y ≤ key x)).

(** ** services/duplicateDetector.js *)
Section DuplicateDetector.

(** One element of the array [findAllDuplicateGroups] returns. *)
Record Group := mkGroup {
  g_hash : string;
  g_count : nat;
  g_totalSize : nat;
  g_files : list Files.row;
  g_original : option Files.row;
  g_duplicates : list Files.row;
}.

(** The first query: [SELECT hash_sha256, COUNT( * ) FROM files WHERE
    hash_sha256 IS NOT NULL AND status != 'error' GROUP BY hash_sha256
    HAVING COUNT( * ) > 1]. SQL leaves the order of the groups open; here they
    come in the order their hash first occurs. *)
Definition countable_row (r : Files.row) : bool :=
  bool_decide (Files.hash_sha256 r ≠ None) && bool_decide (Files.status r ≠ st_error).

Definition hash_count (h : string) (tbl : list Files.row) : nat :=
  length (filter (λ r, countable_row r = true ∧ Files.hash_sha256 r = Some h) tbl).

Definition duplicateHashes (tbl : list Files.row) : list string :=
  filter (λ h, 1 < hash_count h tbl)
    (remove_dups (omap (λ r, if countable_row r then Files.hash_sha256 r else None) tbl)).

(** The second query: [SELECT * FROM files WHERE hash_sha256 = ? ORDER BY
    created_timestamp ASC]. *)
Definition files_with_hash (h : string) (tbl : list Files.row) : list Files.row :=
  order_by_asc Files.created_timestamp
    (filter (λ r, Files.hash_sha256 r = Some h) tbl).

Definition findAllDuplicateGroups (tbl : list Files.row) : list Group :=
  (λ h, let files := files_with_hash h tbl in
        mkGroup h (length files) (foldl (λ sum f, sum + Files.size f) 0 files)
                files (head files) (tail files))
    <$> duplicateHashes tbl.

(** [markDuplicates]: the groups are read once; every duplicate that is
    still [pending] in that snapshot is updated. A group always has an
    original (its hash occurs in the table). *)
Definition mark_group (g : Group) (acc : list Files.row * nat) : list Files.row * nat :=
  match g_original g with
  | None => acc
  | Some original =>
      foldl (λ '(tbl, marked) duplicate,
               if bool_decide (Files.status duplicate = st_pending) then
                 (updateFile (keeping duplicate (Files.current_path duplicate)
                                st_duplicate (Some (Files.id original))) tbl,
                  S marked)
               else (tbl, marked))
            acc (g_duplicates g)
  end.

(** Returns the table and [{ groupsFound, filesMarked }]. *)
Definition markDuplicates (tbl : list Files.row) : list Files.row * (nat * nat) :=
  let groups := findAllDuplicateGroups tbl in
  let '(tbl', marked) := foldl (λ acc g, mark_group g acc) (tbl, 0) groups in
  (tbl', (length groups, marked)).

(** [checkForExistingDuplicate(hash, excludeFileId)]: [SELECT * FROM files
    WHERE hash_sha256 = ? AND status = 'moved' [AND id != ?] LIMIT 1]. A
    [NULL] hash matches no row; a falsy [excludeFileId] (0) adds no
    condition. *)
Definition checkForExistingDuplicate (hash : option string) (excludeFileId : nat)
    (tbl : list Files.row) : option Files.row :=
  match hash with
  | None => None
  | Some h =>
      find (λ r, bool_decide (Files.hash_sha256 r = Some h)
                 && bool_decide (Files.status r = st_moved)
                 && (bool_decide (excludeFileId = 0)
                     || negb (bool_decide (Files.id r = excludeFileId))))
           tbl
  end.

End DuplicateDetector.

(** The statuses the services write to [files.status] are ['pending']
    ([insertFile], [revertOperation]), ['duplicate'] ([markDuplicates],
    [organizeFile]), ['moved'] ([organizeFile]) and the row's own
    ([rescanFile]): a catalog holds no row with status ['error']. *)
Definition no_error_rows (tbl : list Files.row) : Prop :=
  Forall (λ r, Files.status r ≠ st_error) tbl.

(** ** The world the organizer and the revert engine act on

    The filesystem is the set of regular files, each with its content, and
    the set of directories; the catalog is the three tables. [uuid_counter]
    is the source of fresh batch ids ([uuidv4()]). *)
Record State := mkState {
  fs_files : gmap string string;
  fs_dirs : gset string;
  tbl_files : list Files.row;
  tbl_operations : list Operations.row;
  tbl_errors : list Errors.row;
  uuid_counter : nat;
}.

Definition with_fs (files : gmap string string) (dirs : gset string) (s : State) : State :=
  mkState files dirs (tbl_files s) (tbl_operations s) (tbl_errors s) (uuid_counter s).
Definition with_files_table (tbl : list Files.row) (s : State) : State :=
  mkState (fs_files s) (fs_dirs s) tbl (tbl_operations s) (tbl_errors s) (uuid_counter s).
Definition with_operations (tbl : list Operations.row) (s : State) : State :=
  mkState (fs_files s) (fs_dirs s) (tbl_files s) tbl (tbl_errors s) (uuid_counter s).
Definition with_errors (tbl : list Errors.row) (s : State) : State :=
  mkState (fs_files s) (fs_dirs s) (tbl_files s) (tbl_operations s) tbl (uuid_counter s).

(** [uuidv4()] *)
Definition uuidv4 (s : State) : nat * State :=
  (uuid_counter s,
   mkState (fs_files s) (fs_dirs s) (tbl_files s) (tbl_operations s) (tbl_errors s)
           (S (uuid_counter s))).

(** ** A directory and what is below it

    Paths are names: what is below a directory is what its path, followed
    by a separator, begins. [relative dir p] is [p] as seen from [dir]: the
    empty string for [dir] itself, the rest of the path, from the separator
    on, for an entry below it. *)
Fixpoint strip_prefix (pre p : string) : option string :=
  match pre with
  | EmptyString => Some p
  | String a pre' =>
      match p with
      | String b p' => if bool_decide (a = b) then strip_prefix pre' p' else None
      | EmptyString => None
      end
  end.

Definition relative (dir p : string) : option string :=
  match strip_prefix dir p with
  | Some EmptyString => Some EmptyString
  | Some (String c rest) => if NodePath.is_slash c then Some (String c rest) else None
  | None => None
  end.

(** [p] is [dir] or lies below it. *)
Definition below (dir p : string) : bool := bool_decide (is_Some (relative dir p)).

(** The files and the directories once the directory [src], with all that
    is below it, is at [dst]: every entry at or below [src] is at the same
    place below [dst]; the other entries stay. *)
Definition move_tree (src dst : string) (m : gmap string string) : gmap string string :=
  list_to_map (omap (λ entry, (λ rest, (dst +:+ rest, entry.2)) <$> relative src entry.1)
                    (map_to_list m))
  ∪ filter (λ entry, relative src entry.1 = None) m.

Definition move_dirs (src dst : string) (dirs : gset string) : gset string :=
  set_omap (λ p, (λ rest, dst +:+ rest) <$> relative src p) dirs
  ∪ filter (λ p, relative src p = None) dirs.

(** ** Node's [fs/promises], as far as the services use it *)
Section Filesystem.
Context `{Platform}.

Definition ENOENT : JsError := SystemError "ENOENT" "no such file or directory".
Definition EEXIST : JsError := SystemError "EEXIST" "file already exists".
Definition EISDIR : JsError := SystemError "EISDIR" "illegal operation on a directory".
Definition ENOTEMPTY : JsError := SystemError "ENOTEMPTY" "directory not empty".
Definition ENOTDIR : JsError := SystemError "ENOTDIR" "not a directory".
Definition EINVAL : JsError := SystemError "EINVAL" "invalid argument".
Definition EBUSY : JsError := SystemError "EBUSY" "resource busy or locked".

Definition is_file (p : string) (s : State) : bool :=
  bool_decide (is_Some (fs_files s !! p)).
Definition is_dir (p : string) (s : State) : bool :=
  bool_decide (p ∈ fs_dirs s).
Definition occupied (p : string) (s : State) : bool := is_file p s || is_dir p s.

(** [fs.access(path)]; a [null] path makes it throw as well. *)
Definition fs_access (p : option string) (s : State) : result unit :=
  match p with
  | Some p => if occupied p s then Ok () else Throw ENOENT
  | None => Throw (Error "The path argument must be of type string")
  end.

(** [calculateHash(filePath)] of hasher.js: the digest of the content read. *)
Definition calculateHash (p : string) (s : State) : result string :=
  match fs_files s !! p with
  | Some content => Ok (sha256 content)
  | None => Throw (if is_dir p s then EISDIR else ENOENT)
  end.

(** A directory and those above it: [path.dirname] iterated until it
    returns its argument. *)
Fixpoint chain (fuel : nat) (p : string) : list string :=
  match fuel with
  | 0 => []
  | S fuel' =>
      p :: (if bool_decide (NodePath.dirname p = p) then []
            else chain fuel' (NodePath.dirname p))
  end.

Definition ancestors (p : string) : list string := chain (String.length p + 2) p.

(** [fs.mkdir(dir, { recursive: true })]: creates the directory and the
    missing ones above it; throws when a regular file is in the way. *)
Definition fs_mkdir (dir : string) (s : State) : result State :=
  if existsb (λ a, is_file a s) (ancestors dir) then Throw EEXIST
  else Ok (with_fs (fs_files s) (fs_dirs s ∪ list_to_set (ancestors dir)) s).

(** The entries of a directory (by full path). *)
Definition children (dir : string) (s : State) : list string :=
  filter (λ p, NodePath.dirname p = dir ∧ p ≠ dir)
         (elements (dom (fs_files s) ∪ fs_dirs s)).

(** [fs.rename(from, to)] of a directory: it moves with all that is below
    it. Renaming it to itself does nothing; a root, a destination below the
    directory itself, a regular file or a directory that is not empty at
    the destination, and a destination whose directory is missing make it
    throw. *)
Definition rename_directory (src dst : string) (s : State) : result State :=
  if bool_decide (src = dst) then Ok s
  else if bool_decide (NodePath.dirname src = src) then Throw EBUSY
  else if below src dst then Throw EINVAL
  else if is_file dst s then Throw ENOTDIR
  else if is_dir dst s && negb (bool_decide (children dst s = [])) then Throw ENOTEMPTY
  else if negb (is_dir (NodePath.dirname dst) s) then Throw ENOENT
  else Ok (with_fs (move_tree src dst (fs_files s)) (move_dirs src dst (fs_dirs s)) s).

(** [fs.rename(from, to)]. A regular file: [to] must not be a directory
    and the directory of [to] must exist; a regular file at [to] is
    replaced. A directory: see [rename_directory]. Nothing at [from]: it
    throws. *)
Definition fs_rename (src dst : string) (s : State) : result State :=
  match fs_files s !! src with
  | Some content =>
      if is_dir dst s then Throw EISDIR
      else if negb (is_dir (NodePath.dirname dst) s) then Throw ENOENT
      else Ok (with_fs (<[dst := content]> (delete src (fs_files s))) (fs_dirs s) s)
  | None => if is_dir src s then rename_directory src dst s else Throw ENOENT
  end.

(** [fs.readdir(dir)] *)
Definition fs_readdir (dir : string) (s : State) : result (list string) :=
  if is_dir dir s then Ok (children dir s) else Throw ENOENT.

(** [fs.rmdir(dir)] *)
Definition fs_rmdir (dir : string) (s : State) : result State :=
  if is_dir dir s then
    match children dir s with
    | [] => Ok (with_fs (fs_files s) (fs_dirs s ∖ {[dir]}) s)
    | _ => Throw ENOTEMPTY
    end
  else Throw ENOENT.

End Filesystem.

(** What shows that the directory [src] and all that is below it are at
    [dst]: every file, and every directory, that was at or below [src] is at
    the same place below [dst], and away from [dst] nothing is left at or
    below [src] and the rest is as it was. *)
Definition tree_files_moved (src dst : string) (m m' : gmap string string) : Prop :=
  (∀ p rest content,
     relative src p = Some rest → m !! p = Some content →
     m' !! (dst +:+ rest) = Some content)
  ∧ (∀ p, below dst p = false → m' !! p = if below src p then None else m !! p).

Definition tree_dirs_moved (src dst : string) (dirs dirs' : gset string) : Prop :=
  (∀ p rest, relative src p = Some rest → p ∈ dirs → dst +:+ rest ∈ dirs')
  ∧ (∀ p, below dst p = false → p ∈ dirs' ↔ below src p = false ∧ p ∈ dirs).

(** ** services/organizer.js *)
Section Organizer.
Context `{Platform}.

(** One element of [currentOrganizeStatus.operations]. *)
Record OrganizeOp := mkOrgOp {
  oo_fileId : nat;
  oo_source : string;
  oo_destination : string;
  oo_action : string;
}.

(** [currentOrganizeStatus], the module-level status object, passed
    explicitly. *)
Record OrganizeStatus := mkOrgStatus {
  os_batchId : nat;
  os_destinationBase : string;
  os_dryRun : bool;
  os_status : string;
  os_totalFiles : nat;
  os_processedFiles : nat;
  os_movedFiles : nat;
  os_skippedFiles : nat;
  os_duplicateFiles : nat;
  os_errorFiles : nat;
  os_operations : list OrganizeOp;
}.

Definition count_skipped (st : OrganizeStatus) : OrganizeStatus :=
  mkOrgStatus (os_batchId st) (os_destinationBase st) (os_dryRun st) (os_status st)
    (os_totalFiles st) (os_processedFiles st) (os_movedFiles st)
    (S (os_skippedFiles st)) (os_duplicateFiles st) (os_errorFiles st)
    (os_operations st).
Definition count_duplicate (st : OrganizeStatus) : OrganizeStatus :=
  mkOrgStatus (os_batchId st) (os_destinationBase st) (os_dryRun st) (os_status st)
    (os_totalFiles st) (os_processedFiles st) (os_movedFiles st)
    (os_skippedFiles st) (S (os_duplicateFiles st)) (os_errorFiles st)
    (os_operations st).
Definition count_error (st : OrganizeStatus) : OrganizeStatus :=
  mkOrgStatus (os_batchId st) (os_destinationBase st) (os_dryRun st) (os_status st)
    (os_totalFiles st) (os_processedFiles st) (os_movedFiles st)
    (os_skippedFiles st) (os_duplicateFiles st) (S (os_errorFiles st))
    (os_operations st).
(** [movedFiles++; operations.push(op)] *)
Definition count_moved (op : OrganizeOp) (st : OrganizeStatus) : OrganizeStatus :=
  mkOrgStatus (os_batchId st) (os_destinationBase st) (os_dryRun st) (os_status st)
    (os_totalFiles st) (os_processedFiles st) (S (os_movedFiles st))
    (os_skippedFiles st) (os_duplicateFiles st) (os_errorFiles st)
    (os_operations st ++ [op]).
Definition count_processed (st : OrganizeStatus) : OrganizeStatus :=
  mkOrgStatus (os_batchId st) (os_destinationBase st) (os_dryRun st) (os_status st)
    (os_totalFiles st) (S (os_processedFiles st)) (os_movedFiles st)
    (os_skippedFiles st) (os_duplicateFiles st) (os_errorFiles st)
    (os_operations st).
Definition finish (status : string) (st : OrganizeStatus) : OrganizeStatus :=
  mkOrgStatus (os_batchId st) (os_destinationBase st) (os_dryRun st) status
    (os_totalFiles st) (os_processedFiles st) (os_movedFiles st)
    (os_skippedFiles st) (os_duplicateFiles st) (os_errorFiles st)
    (os_operations st).

(** [fileExists(filePath)] *)
Definition fileExists (filePath : string) (s : State) : bool :=
  is_ok (fs_access (Some filePath) s).

(** [logOperation(...)]: the row is always written with status
    ['completed']. *)
Definition logOperation (batchId fileId : nat) (operationType : OperationType)
    (sourcePath : string) (destPath : option string) (hash : option string)
    (reason : string) (s : State) : State :=
  with_operations
    (insertOperation batchId fileId operationType sourcePath destPath hash reason
                     completed (tbl_operations s)) s.

(** [logError(fileId, filePath, errorType, message, stack)] *)
Definition logError (fileId : option nat) (filePath errorType message : string)
    (s : State) : State :=
  with_errors (tbl_errors s ++ [Errors.mk fileId filePath errorType message]) s.

(** The candidates of [handleCollision]: [`${base} (${counter})${ext}`]
    and [`${base} (${hashPrefix})${ext}`] in the directory of [destPath]. *)
Definition suffixed (destPath tag : string) : string :=
  let dir := NodePath.dirname destPath in
  let ext := NodePath.extname destPath in
  let base := NodePath.basename destPath ext in
  NodePath.join dir (base +:+ " (" +:+ tag +:+ ")" +:+ ext).

Definition numbered (destPath : string) (counter : nat) : string :=
  suffixed destPath (String_of_nat counter).

Definition hashed (destPath hash : string) : string :=
  suffixed destPath (String.substring 0 8 hash).

(** The [while] loop of [handleCollision]; [fuel] bounds the number of
    times its condition is evaluated, [None] is fuel exhausted. *)
Fixpoint handleCollision_loop (fuel : nat) (s : State) (destPath : string)
    (hash : option string) (finalPath : string) (counter : nat) : option string :=
  match fuel with
  | 0 => None
  | S fuel' =>
      if fileExists finalPath s then
        let finalPath' := numbered destPath counter in
        let counter' := S counter in
        if bool_decide (100 < counter') && truthy hash then
          Some (hashed destPath (default "" hash))
        else handleCollision_loop fuel' s destPath hash finalPath' counter'
      else Some finalPath
  end.

Definition handleCollision (fuel : nat) (destPath : string) (hash : option string)
    (s : State) : option string :=
  handleCollision_loop fuel s destPath hash destPath 1.

(** The shape of a fingerprint as [calculateHash] returns it: 64 lower-case
    hexadecimal digits. *)
Definition is_hex (c : ascii) : bool :=
  let n := nat_of_ascii c in
  bool_decide (48 ≤ n ≤ 57) || bool_decide (97 ≤ n ≤ 102).

Definition is_sha256_hex (hash : string) : bool :=
  bool_decide (String.length hash = 64) && forallb is_hex (NodePath.chars hash).

(** The decimal numerals the loop can form are short and hold no separator. *)
Definition short_numeral (j : nat) : bool :=
  bool_decide (String.length (String_of_nat j) ≤ 3)
  && forallb (λ c, negb (NodePath.is_slash c)) (NodePath.chars (String_of_nat j)).

(** The candidates [handleCollision] examines: number 0 is the proposed
    path itself. *)
Definition candidate_path (destPath : string) (i : nat) : string :=
  match i with
  | 0 => destPath
  | _ => numbered destPath i
  end.

(** What [organizeFile] decides for a file before it acts. *)
Inductive Plan :=
| SkipMissing
| DuplicateOf (existing : Files.row)
| MoveTo (destPath : string).

Definition sourcePath_of (file : Files.row) : string :=
  or_else (Files.current_path file) (Files.original_path file).

Definition plan_file (fuel : nat) (file : Files.row) (destinationBase : string)
    (s : State) : option Plan :=
  if negb (is_ok (fs_access (Some (sourcePath_of file)) s)) then Some SkipMissing
  else
    match checkForExistingDuplicate (Files.hash_sha256 file) (Files.id file) (tbl_files s) with
    | Some existing => Some (DuplicateOf existing)
    | None =>
        MoveTo <$> handleCollision fuel
          (generateDestinationPath destinationBase (Files.resolved_date file)
                                   (Files.filename file))
          (Files.hash_sha256 file) s
    end.

(** The [catch] of [organizeFile]. *)
Definition organize_failed (file : Files.row) (batchId : nat) (e : JsError)
    (st : OrganizeStatus) (s : State) : OrganizeStatus * State :=
  let sourcePath := sourcePath_of file in
  (count_error st,
   logOperation batchId (Files.id file) op_error sourcePath None
                (Files.hash_sha256 file) (message e)
     (logError (Some (Files.id file)) sourcePath "organize_error" (message e) s)).

(** [organizeFile(file, destinationBase, batchId, dryRun)]. [None] only
    when [handleCollision] runs out of fuel. *)
Definition organizeFile (fuel : nat) (file : Files.row) (destinationBase : string)
    (batchId : nat) (dryRun : bool) (st : OrganizeStatus) (s : State)
    : option (OrganizeStatus * State) :=
  let sourcePath := sourcePath_of file in
  let hash := Files.hash_sha256 file in
  decision ← plan_file fuel file destinationBase s;
  Some
    match decision with
    | SkipMissing =>
        (count_skipped st,
         logOperation batchId (Files.id file) op_skip sourcePath None hash
                      "Source file not found" s)
    | DuplicateOf existing =>
        let s1 := with_files_table
                    (updateFile (keeping file (Files.current_path file) st_duplicate
                                         (Some (Files.id existing))) (tbl_files s)) s in
        (count_duplicate st,
         logOperation batchId (Files.id file) op_duplicate sourcePath
                      (Files.current_path existing) hash
                      ("Duplicate of file " +:+ String_of_nat (Files.id existing)) s1)
    | MoveTo destPath =>
        if dryRun then
          (count_moved (mkOrgOp (Files.id file) sourcePath destPath "would_move") st,
           logOperation batchId (Files.id file) op_move sourcePath (Some destPath) hash
                        "Dry run - would move" s)
        else
          match fs_mkdir (NodePath.dirname destPath) s with
          | Throw e => organize_failed file batchId e st s
          | Ok s1 =>
              match fs_rename sourcePath destPath s1 with
              | Throw e => organize_failed file batchId e st s1
              | Ok s2 =>
                  let s3 := with_files_table
                              (updateFile (keeping file (Some destPath) st_moved None)
                                          (tbl_files s2)) s2 in
                  (count_moved (mkOrgOp (Files.id file) sourcePath destPath "moved") st,
                   logOperation batchId (Files.id file) op_move sourcePath
                                (Some destPath) hash "File moved successfully" s3)
              end
          end
    end.

(** A row of the ledger records the decision [op] of the status object. *)
Definition records (dryRun : bool) (op : OrganizeOp) (e : Operations.row) : Prop :=
  Operations.file_id e = oo_fileId op
  ∧ Operations.source_path e = oo_source op
  ∧ Operations.destination_path e = Some (oo_destination op)
  ∧ Operations.operation_type e = op_move
  ∧ Operations.status e = completed
  ∧ oo_action op = (if dryRun then "would_move" else "moved")
  ∧ Operations.reason e = (if dryRun then "Dry run - would move"
                           else "File moved successfully").

(** What a ledger row says was decided, and the row a plan calls for. *)
Definition ledger_view (e : Operations.row)
    : nat * OperationType * string * option string :=
  (Operations.file_id e, Operations.operation_type e, Operations.source_path e,
   Operations.destination_path e).

Definition planned_entry (file : Files.row) (plan : Plan)
    : nat * OperationType * string * option string :=
  match plan with
  | SkipMissing => (Files.id file, op_skip, sourcePath_of file, None)
  | DuplicateOf existing =>
      (Files.id file, op_duplicate, sourcePath_of file, Files.current_path existing)
  | MoveTo destPath => (Files.id file, op_move, sourcePath_of file, Some destPath)
  end.

(** The files [organizeFiles] selects: the pending rows among [fileIds],
    or all pending rows. *)
Definition filesToOrganize (fileIds : option (list nat)) (tbl : list Files.row)
    : list Files.row :=
  match fileIds with
  | Some (_ :: _ as ids) =>
      filter (λ r, Files.id r ∈ ids ∧ Files.status r = st_pending) tbl
  | _ => getFilesByStatus st_pending tbl
  end.

(** The [for] loop of [organizeFiles]. *)
Fixpoint organize_loop (fuel : nat) (files : list Files.row) (destinationBase : string)
    (batchId : nat) (dryRun : bool) (st : OrganizeStatus) (s : State)
    : option (OrganizeStatus * State) :=
  match files with
  | [] => Some (st, s)
  | file :: rest =>
      '(st1, s1) ← organizeFile fuel file destinationBase batchId dryRun st s;
      organize_loop fuel rest destinationBase batchId dryRun (count_processed st1) s1
  end.

(** [organizeFiles(destinationBase, dryRun, fileIds)] *)
Definition organizeFiles (fuel : nat) (destinationBase : string) (dryRun : bool)
    (fileIds : option (list nat)) (s : State) : option (OrganizeStatus * State) :=
  let '(batchId, s0) := uuidv4 s in
  let files := filesToOrganize fileIds (tbl_files s0) in
  let st0 := mkOrgStatus batchId destinationBase dryRun "in_progress"
                         (length files) 0 0 0 0 0 [] in
  '(st1, s1) ← organize_loop fuel files destinationBase batchId dryRun st0 s0;
  Some (finish "completed" st1, s1).

End Organizer.

(** The row a dry run of [organizeFiles] leaves in the place of [r], when
    it selects [selected] in state [s]: a selected row whose file is there
    and whose fingerprint a moved row has is marked as its duplicate. *)
Definition dry_run_row `{Platform} (selected : list Files.row) (s : State)
    (r : Files.row) : Files.row :=
  if bool_decide (Files.id r ∈ Files.id <$> selected)
     && fileExists (sourcePath_of r) s then
    match checkForExistingDuplicate (Files.hash_sha256 r) (Files.id r) (tbl_files s) with
    | Some existing =>
        apply_update (keeping r (Files.current_path r) st_duplicate
                              (Some (Files.id existing))) r
    | None => r
    end
  else r.

(** ** services/revert.js *)
Section Revert.
Context `{Platform}.

(** The errors [revertOperation] raises itself. *)
Definition E_not_a_move : JsError := Error "Only move operations can be reverted".
Definition E_already_reverted : JsError := Error "Operation already reverted".
Definition E_file_not_found : JsError := Error "Associated file not found".
Definition E_missing_at_destination : JsError :=
  Error "File no longer exists at destination path".
Definition E_modified : JsError := Error "File has been modified since it was moved".
Definition E_original_occupied : JsError :=
  Error "A file already exists at the original location".

(** What [revertOperation] returns. *)
Record RevertResult := mkRevertResult {
  rr_success : bool;
  rr_operationId : nat;
  rr_fileId : nat;
  rr_originalPath : string;
  rr_revertedFrom : string;
}.

(** [cleanupEmptyDirectories(dirPath)]: while the directory is empty,
    remove it and go on with the one above; any error ends the walk.
    [fuel] bounds the walk by the length of the chain above [dirPath]. *)
Fixpoint cleanup_loop (fuel : nat) (dirPath : string) (s : State) : State :=
  match fuel with
  | 0 => s
  | S fuel' =>
      match fs_readdir dirPath s with
      | Throw _ => s
      | Ok entries =>
          match entries with
          | [] =>
              match fs_rmdir dirPath s with
              | Throw _ => s
              | Ok s1 => cleanup_loop fuel' (NodePath.dirname dirPath) s1
              end
          | _ => s
          end
      end
  end.

Definition cleanupEmptyDirectories (dirPath : string) (s : State) : State :=
  cleanup_loop (String.length dirPath + 2) dirPath s.

(** [revertOperation(operation)]: the result, and the state it leaves
    (also when it throws). *)
Definition revertOperation (operation : Operations.row) (s : State)
    : result RevertResult * State :=
  if bool_decide (Operations.operation_type operation ≠ op_move) then
    (Throw E_not_a_move, s)
  else if bool_decide (Operations.status operation = reverted) then
    (Throw E_already_reverted, s)
  else
    match getFileById (Operations.file_id operation) (tbl_files s) with
    | None => (Throw E_file_not_found, s)
    | Some file =>
        let originalPath := Operations.source_path operation in
        match Operations.destination_path operation,
              fs_access (Operations.destination_path operation) s with
        | Some currentPath, Ok _ =>
            (* Optionally verify file integrity *)
            let integrity :=
              if truthy (Operations.hash_used operation) then
                match calculateHash currentPath s with
                | Throw e => Throw e
                | Ok currentHash =>
                    if bool_decide (Some currentHash ≠ Operations.hash_used operation)
                    then Throw E_modified else Ok ()
                end
              else Ok () in
            match integrity with
            | Throw e => (Throw e, s)
            | Ok _ =>
                (* Check if original location is available *)
                let originalDir := NodePath.dirname originalPath in
                let made :=
                  match fs_access (Some originalDir) s with
                  | Ok _ => Ok s
                  | Throw _ => fs_mkdir originalDir s
                  end in
                match made with
                | Throw e => (Throw e, s)
                | Ok s1 =>
                    match fs_access (Some originalPath) s1 with
                    | Ok _ => (Throw E_original_occupied, s1)
                    | Throw e =>
                        if bool_decide (code e ≠ Some "ENOENT") then (Throw e, s1)
                        else
                          (* Move file back *)
                          match fs_rename currentPath originalPath s1 with
                          | Throw e => (Throw e, s1)
                          | Ok s2 =>
                              let s3 := with_files_table
                                          (updateFile (keeping file (Some originalPath)
                                                               st_pending None)
                                                      (tbl_files s2)) s2 in
                              let s4 := with_operations
                                          (updateOperationStatus reverted
                                             (Operations.id operation)
                                             (tbl_operations s3)) s3 in
                              let '(batchId, s5) := uuidv4 s4 in
                              let s6 := with_operations
                                          (insertOperation batchId (Files.id file) op_revert
                                             currentPath (Some originalPath)
                                             (Operations.hash_used operation)
                                             ("Reverted operation " +:+
                                                String_of_nat (Operations.id operation))
                                             completed (tbl_operations s5)) s5 in
                              let s7 := cleanupEmptyDirectories
                                          (NodePath.dirname currentPath) s6 in
                              (Ok (mkRevertResult true (Operations.id operation)
                                     (Files.id file) originalPath currentPath), s7)
                          end
                    end
                end
            end
        | _, _ => (Throw E_missing_at_destination, s)
        end
    end.

(** The directory step of [revertOperation] on its own: the state after
    [fs.access(originalDir)] and, when that throws, [fs.mkdir]. *)
Definition after_directory_step (originalPath : string) (s : State) : result State :=
  match fs_access (Some (NodePath.dirname originalPath)) s with
  | Ok _ => Ok s
  | Throw _ => fs_mkdir (NodePath.dirname originalPath) s
  end.

(** [{ operationId, error }] *)
Record BatchError := mkBatchError { be_operationId : nat; be_error : string }.

(** What [revertBatch] returns. *)
Record BatchResult := mkBatchResult {
  br_batchId : nat;
  br_totalOperations : nat;
  br_reverted : nat;
  br_failed : nat;
  br_skipped : nat;
  br_errors : list BatchError;
}.

(** [SELECT * FROM operations WHERE batch_id = ? AND operation_type =
    'move' AND status = 'completed' ORDER BY created_at DESC] *)
Definition revertible (batchId : nat) (o : Operations.row) : Prop :=
  Operations.batch_id o = batchId ∧ Operations.operation_type o = op_move
  ∧ Operations.status o = completed.

Global Instance revertible_dec b o : Decision (revertible b o).
Proof. unfold revertible. apply _. Defined.

Definition select_revertible (batchId : nat) (tbl : list Operations.row)
    : list Operations.row :=
  order_by_desc Operations.created_at (filter (revertible batchId) tbl).

(** One turn of the [for] loop of [revertBatch]. *)
Definition revert_step (acc : BatchResult * State) (operation : Operations.row)
    : BatchResult * State :=
  let '(results, s) := acc in
  match revertOperation operation s with
  | (Ok _, s') =>
      (mkBatchResult (br_batchId results) (br_totalOperations results)
         (S (br_reverted results)) (br_failed results) (br_skipped results)
         (br_errors results), s')
  | (Throw e, s') =>
      if bool_decide (message e = "Operation already reverted") then
        (mkBatchResult (br_batchId results) (br_totalOperations results)
           (br_reverted results) (br_failed results) (S (br_skipped results))
           (br_errors results), s')
      else
        (mkBatchResult (br_batchId results) (br_totalOperations results)
           (br_reverted results) (S (br_failed results)) (br_skipped results)
           (br_errors results ++ [mkBatchError (Operations.id operation) (message e)]),
         s')
  end.

(** [revertBatch(batchId)] *)
Definition revertBatch (batchId : nat) (s : State) : result BatchResult * State :=
  let operations := select_revertible batchId (tbl_operations s) in
  match operations with
  | [] => (Throw (Error "No revertible operations found in batch"), s)
  | _ =>
      let '(results, s') :=
        foldl revert_step (mkBatchResult batchId (length operations) 0 0 0 [], s)
              operations in
      (Ok results, s')
  end.

(** The sweep of [revertBatch] told entry by entry: each entry is
    reverted from the state the one before it left, whether that one
    succeeded or not; the outcomes come with the final state. *)
Fixpoint sweep (operations : list Operations.row) (s : State)
    : list (Operations.row * result RevertResult) * State :=
  match operations with
  | [] => ([], s)
  | operation :: rest =>
      let '(r, s1) := revertOperation operation s in
      let '(outcomes, s') := sweep rest s1 in
      ((operation, r) :: outcomes, s')
  end.

Definition succeeded (outcome : Operations.row * result RevertResult) : Prop :=
  is_ok outcome.2 = true.

Definition failure_of (outcome : Operations.row * result RevertResult)
    : option BatchError :=
  match outcome.2 with
  | Ok _ => None
  | Throw e => Some (mkBatchError (Operations.id outcome.1) (message e))
  end.

End Revert.

(** ** A batch of moves, as the files see it

    [moved_by m moves m']: the renames [moves], each of a file that is
    there when its turn comes, take the files [m] to [m']. *)
Inductive moved_by : gmap string string → list (string * string)
                     → gmap string string → Prop :=
| moved_nil (m : gmap string string) : moved_by m [] m
| moved_cons (m : gmap string string) (src dst content : string)
    (moves : list (string * string)) (m' : gmap string string) :
    m !! src = Some content →
    moved_by (<[dst := content]> (delete src m)) moves m' →
    moved_by m ((src, dst) :: moves) m'.

(** [relocated moves m0 m]: [m] is [m0] with every file of [moves] at its
    destination instead of its source. *)
Definition relocated (moves : list (string * string)) (m0 m : gmap string string)
    : Prop :=
  (∀ src dst, (src, dst) ∈ moves → m !! dst = m0 !! src ∧ m !! src = None)
  ∧ (∀ p, p ∉ moves.*1 → p ∉ moves.*2 → m !! p = m0 !! p).

(** The move a ledger row records. *)
Definition move_of (e : Operations.row) : string * string :=
  (Operations.source_path e, default "" (Operations.destination_path e)).

(** The ledger row of a move of [file] to [dst] in the batch. *)
Definition move_entry (batchId : nat) (file : Files.row) (dst : string)
    (e : Operations.row) : Prop :=
  Operations.batch_id e = batchId ∧ Operations.file_id e = Files.id file
  ∧ Operations.operation_type e = op_move
  ∧ Operations.source_path e = sourcePath_of file
  ∧ Operations.destination_path e = Some dst
  ∧ Operations.hash_used e = Files.hash_sha256 file
  ∧ Operations.status e = completed.

(** The entry of [operations] for a real move of [file] to [dst]. *)
Definition moved_op (move : Files.row * string) : OrganizeOp :=
  mkOrgOp (Files.id move.1) (sourcePath_of move.1) move.2 "moved".

(** What makes the row [e] of a move revertible once the files of the
    batch are where the batch put them, [m0] being the files before the
    batch and [dsts] the destinations of the batch: its destination was
    free, its source held the content its fingerprint is of, and the
    directories above its source hold no file and are no destination. *)
Definition revert_ready `{Platform} (m0 : gmap string string) (dsts : list string)
    (e : Operations.row) : Prop :=
  Operations.operation_type e = op_move
  ∧ Operations.status e = completed
  ∧ (∃ dst, Operations.destination_path e = Some dst ∧ m0 !! dst = None)
  ∧ (∃ content, m0 !! Operations.source_path e = Some content
                ∧ (truthy (Operations.hash_used e) = true →
                   Operations.hash_used e = Some (sha256 content)))
  ∧ (∀ a, a ∈ ancestors (NodePath.dirname (Operations.source_path e)) →
          m0 !! a = None ∧ a ∉ dsts).

(** ** config.js (the defaults) *)
Module config.
Definition batchSize : nat := 100.
Definition partialHashSize : nat := 2 ^ 16. (* 65536, 64KB *)
Definition imageExtensions : list string :=
  [".jpg"; ".jpeg"; ".png"; ".gif"; ".bmp"; ".webp"; ".heic"; ".heif"; ".tiff";
   ".tif"; ".raw"; ".cr2"; ".nef"; ".arw"].
Definition videoExtensions : list string :=
  [".mp4"; ".mov"; ".avi"; ".mkv"; ".wmv"; ".flv"; ".webm"; ".m4v"; ".3gp"].
Definition documentExtensions : list string :=
  [".pdf"; ".doc"; ".docx"; ".xls"; ".xlsx"; ".ppt"; ".pptx"; ".txt"; ".rtf";
   ".odt"; ".ods"; ".odp"].
Definition skipFiles : list string :=
  [".DS_Store"; "Thumbs.db"; "desktop.ini"; ".gitkeep"; ".gitignore"].
Definition skipDirectories : list string :=
  ["node_modules"; ".git"; "__pycache__"; ".cache"; ".Trash"].
End config.

(** ** The directory tree a scan walks

    What [fs.readdir(dir, { withFileTypes: true })] yields at every level,
    with what reading each file would yield. [Unreadable] is a directory
    whose [readdir] throws (missing, not a directory, no permission); a
    file entry with no [FileInfo] is one whose [stat] or read throws. *)
Record FileInfo := mkFileInfo {
  fi_content : string;
  fi_birthtime : Z;
  fi_mtime : Z;
  (** what [fileTypeFromFile] sniffs *)
  fi_mime : option string;
  (** what [exifr.parse] returns, and the date [extractExifDate] finds in it *)
  fi_exif : option string;
  fi_exifDate : option string;
}.

Inductive Dir :=
| Unreadable (e : JsError)
| Listing (entries : list Dirent)
with Dirent :=
| FileEntry (name : string) (info : option FileInfo)
| DirEntry (name : string) (dir : Dir)
| OtherEntry (name : string).

(** ** services/metadata.js and services/hasher.js *)
Section Metadata.
Context `{Platform}.

Definition startsWith_dot (name : string) : bool :=
  match name with
  | String c _ => bool_decide (c = NodePath.dot)
  | EmptyString => false
  end.

Definition shouldSkipFile (filename : string) : bool :=
  startsWith_dot filename || bool_decide (filename ∈ config.skipFiles).

Definition shouldSkipDirectory (dirname : string) : bool :=
  startsWith_dot dirname || bool_decide (dirname ∈ config.skipDirectories).

Definition lower (c : ascii) : ascii :=
  let n := nat_of_ascii c in
  if bool_decide (65 ≤ n ≤ 90) then ascii_of_nat (n + 32) else c.

Fixpoint toLowerCase (s : string) : string :=
  match s with
  | EmptyString => EmptyString
  | String c s' => String (lower c) (toLowerCase s')
  end.

(** [getFileTypeInfo(filePath)]: [(extension, category)] *)
Definition getFileTypeInfo (filePath : string) : string * string :=
  let ext := toLowerCase (NodePath.extname filePath) in
  (ext,
   if bool_decide (ext ∈ config.imageExtensions) then "image"
   else if bool_decide (ext ∈ config.videoExtensions) then "video"
   else if bool_decide (ext ∈ config.documentExtensions) then "document"
   else "other").

(** [ext.slice(1)] *)
Definition slice1 (s : string) : string :=
  match s with String _ s' => s' | EmptyString => EmptyString end.

(** [extractAllMetadata(filePath)]; throws when [fs.stat] does. *)
Definition extractAllMetadata (filePath : string) (info : option FileInfo)
    : result Metadata :=
  match info with
  | None => Throw ENOENT
  | Some fi =>
      let '(ext, category) := getFileTypeInfo filePath in
      let image := bool_decide (category = "image") in
      Ok (mkMetadata (NodePath.basename filePath "") filePath ext category
            (or_else (fi_mime fi)
                     ("application/" +:+ or_else (Some (slice1 ext)) "octet-stream"))
            (String.length (fi_content fi))
            (Some (toISOString (fi_birthtime fi)))
            (Some (toISOString (fi_mtime fi)))
            (if image then fi_exif fi else None)
            (if image then fi_exifDate fi else None))
  end.

(** [calculateHashes(filePath, fileSize)]: [(full, partial)] *)
Definition calculateHashes (info : option FileInfo) (fileSize : nat)
    : result (string * string) :=
  match info with
  | None => Throw ENOENT
  | Some fi =>
      if bool_decide (fileSize ≤ config.partialHashSize) then
        let hash := sha256 (fi_content fi) in Ok (hash, hash)
      else
        Ok (sha256 (fi_content fi),
            sha256 (String.substring 0 config.partialHashSize (fi_content fi)))
  end.

End Metadata.

(** ** services/scanner.js *)
Section Scanner.
Context `{Platform}.

(** Table [scan_sessions]. *)
Record SessionRow := mkSession {
  ss_id : nat;
  ss_total_files : nat;
  ss_processed_files : nat;
  ss_status : string;
  ss_completed : bool;
}.

(** [currentScanStatus], the module-level status object. *)
Record ScanStatus := mkScanStatus {
  sc_sessionId : option nat;
  sc_sourcePath : string;
  sc_status : string;
  sc_totalFiles : nat;
  sc_processedFiles : nat;
  sc_newFiles : nat;
  sc_skippedFiles : nat;
  sc_errorFiles : nat;
  sc_error : option string;
}.

(** What a scan reads and writes: its status object and the tables. *)
Record ScanWorld := mkWorld {
  w_status : ScanStatus;
  w_files : list Files.row;
  w_errors : list Errors.row;
  w_sessions : list SessionRow;
}.

Definition map_status (f : ScanStatus → ScanStatus) (w : ScanWorld) : ScanWorld :=
  mkWorld (f (w_status w)) (w_files w) (w_errors w) (w_sessions w).

(** [processedFiles++] with [skippedFiles++], [newFiles++] or [errorFiles++] *)
Definition tally (new skipped errors : nat) (st : ScanStatus) : ScanStatus :=
  mkScanStatus (sc_sessionId st) (sc_sourcePath st) (sc_status st) (sc_totalFiles st)
    (S (sc_processedFiles st)) (new + sc_newFiles st) (skipped + sc_skippedFiles st)
    (errors + sc_errorFiles st) (sc_error st).

(** [skippedFiles++] alone *)
Definition skip_one (st : ScanStatus) : ScanStatus :=
  mkScanStatus (sc_sessionId st) (sc_sourcePath st) (sc_status st) (sc_totalFiles st)
    (sc_processedFiles st) (sc_newFiles st) (S (sc_skippedFiles st))
    (sc_errorFiles st) (sc_error st).

Definition set_total (n : nat) (st : ScanStatus) : ScanStatus :=
  mkScanStatus (sc_sessionId st) (sc_sourcePath st) (sc_status st) n
    (sc_processedFiles st) (sc_newFiles st) (sc_skippedFiles st)
    (sc_errorFiles st) (sc_error st).

Definition set_scan_status (status : string) (err : option string) (st : ScanStatus)
    : ScanStatus :=
  mkScanStatus (sc_sessionId st) (sc_sourcePath st) status (sc_totalFiles st)
    (sc_processedFiles st) (sc_newFiles st) (sc_skippedFiles st)
    (sc_errorFiles st) err.

(** [if (sessionId) scanSessionQueries.updateSession().run({...})]: [null]
    and [0] are falsy. *)
Definition updateSession (status : string) (done : bool) (w : ScanWorld) : ScanWorld :=
  match sc_sessionId (w_status w) with
  | None | Some 0 => w
  | Some i =>
      mkWorld (w_status w) (w_files w) (w_errors w)
        ((λ r, if bool_decide (ss_id r = i) then
                 mkSession i (sc_totalFiles (w_status w))
                           (sc_processedFiles (w_status w)) status done
               else r) <$> w_sessions w)
  end.

(** [logError(db, fileId, filePath, errorType, message, stack)] *)
Definition scan_logError (filePath errorType msg : string) (w : ScanWorld) : ScanWorld :=
  mkWorld (w_status w) (w_files w) (w_errors w ++ [Errors.mk None filePath errorType msg])
          (w_sessions w).

(** [fileQueries.insertFile().run(fileData)]: [original_path] is [UNIQUE]. *)
Definition insertFile (filePath : string) (metadata : Metadata) (hashes : string * string)
    (resolved : ResolvedDate) (tbl : list Files.row) : result (list Files.row) :=
  if bool_decide (is_Some (getFileByPath filePath tbl)) then
    Throw (SystemError "SQLITE_CONSTRAINT_UNIQUE"
                       "UNIQUE constraint failed: files.original_path")
  else
    let i := next_id (Files.id <$> tbl) in
    Ok (tbl ++ [Files.mk i filePath (Some filePath) (md_filename metadata)
                  (Some (md_extension metadata)) (md_size metadata)
                  (Some hashes.1) (Some hashes.2) (Some (md_mimeType metadata))
                  (createdAt metadata) (modifiedAt metadata) (exifDate metadata)
                  (Some (date resolved)) (Some (source resolved)) st_pending None
                  (Some (JSON_stringify (md_category metadata) (md_exif metadata)))
                  (CURRENT_TIMESTAMP_files i)]).

(** The [try] block of [processFile], after the lookup by path. *)
Definition ingest (filePath : string) (info : option FileInfo) (tbl : list Files.row)
    : result (list Files.row) :=
  match extractAllMetadata filePath info with
  | Throw e => Throw e
  | Ok metadata =>
      match calculateHashes info (md_size metadata) with
      | Throw e => Throw e
      | Ok hashes => insertFile filePath metadata hashes (resolveDate metadata) tbl
      end
  end.

(** [processFile(filePath, db)] *)
Definition processFile (file : string * option FileInfo) (w : ScanWorld) : ScanWorld :=
  let '(filePath, info) := file in
  match getFileByPath filePath (w_files w) with
  | Some existingFile => map_status (tally 0 1 0) w
  | None =>
      match ingest filePath info (w_files w) with
      | Ok tbl =>
          mkWorld (tally 1 0 0 (w_status w)) tbl (w_errors w) (w_sessions w)
      | Throw error =>
          scan_logError filePath "file_processing" (message error)
                        (map_status (tally 0 0 1) w)
      end
  end.

(** [processBatch(filePaths, db)] *)
Definition processBatch (filePaths : list (string * option FileInfo)) (w : ScanWorld)
    : ScanWorld :=
  foldl (λ w file, processFile file w) w filePaths.

(** The loop [for (let i = 0; i < files.length; i += config.batchSize)]
    of [processDirectory]; it runs at most [files.length] times. *)
Fixpoint batch_loop (fuel i : nat) (files : list (string * option FileInfo))
    (w : ScanWorld) : ScanWorld :=
  match fuel with
  | 0 => w
  | S fuel' =>
      if bool_decide (i < length files) then
        let batch := take config.batchSize (drop i files) in
        let w1 := processBatch batch w in
        let w2 := if bool_decide (i `mod` (config.batchSize * 5) = 0)
                  then updateSession "in_progress" false w1 else w1 in
        batch_loop fuel' (i + config.batchSize) files w2
      else w
  end.

(** The first loop of [processDirectory]: the files to process, by path,
    and the count of the entries it skips. *)
Definition files_of (dirPath : string) (entries : list Dirent)
    : list (string * option FileInfo) :=
  omap (λ entry, match entry with
                 | FileEntry name info =>
                     if shouldSkipFile name then None
                     else Some (NodePath.join dirPath name, info)
                 | _ => None
                 end) entries.

Definition is_skipped_file (entry : Dirent) : bool :=
  match entry with
  | FileEntry name _ => shouldSkipFile name
  | _ => false
  end.

Definition skipped_of (entries : list Dirent) : nat :=
  length (filter (λ entry, is_skipped_file entry = true) entries).

(** [countFiles(dirPath, recursive)]: a [readdir] that throws is logged
    to the console and counts for nothing. *)
Fixpoint countFiles (dir : Dir) (recursive : bool) : nat :=
  match dir with
  | Unreadable _ => 0
  | Listing entries =>
      (fix count_entries (l : list Dirent) : nat :=
         match l with
         | [] => 0
         | FileEntry name _ :: l' =>
             (if shouldSkipFile name then 0 else 1) + count_entries l'
         | DirEntry name sub :: l' =>
             (if recursive && negb (shouldSkipDirectory name)
              then countFiles sub recursive else 0) + count_entries l'
         | OtherEntry _ :: l' => count_entries l'
         end) entries
  end.

(** [processDirectory(dirPath, recursive, sessionId)]: the files of the
    level in batches, then the subdirectories in turn (the entries that
    the first loop collected in [subdirs]); a [readdir] that throws is
    caught and recorded. *)
Fixpoint processDirectory (dirPath : string) (dir : Dir) (recursive : bool)
    (w : ScanWorld) : ScanWorld :=
  match dir with
  | Unreadable error =>
      scan_logError dirPath "directory_access" (message error) w
  | Listing entries =>
      let files := files_of dirPath entries in
      let w1 := map_status (Nat.iter (skipped_of entries) skip_one) w in
      let w2 := batch_loop (length files) 0 files w1 in
      (fix subdirs_loop (l : list Dirent) (w : ScanWorld) : ScanWorld :=
         match l with
         | [] => w
         | DirEntry name sub :: l' =>
             if recursive && negb (shouldSkipDirectory name) then
               subdirs_loop l' (processDirectory (NodePath.join dirPath name) sub
                                                 recursive w)
             else subdirs_loop l' w
         | _ :: l' => subdirs_loop l' w
         end) entries w2
  end.

(** [scanDirectory(sourcePath, recursive, sessionId)] over the tree
    found at [sourcePath]. Nothing in its [try] block throws ([countFiles]
    and [processDirectory] catch what they raise), so the [catch] that
    sets the status ['error'] is never entered. *)
Definition scanDirectory (sourcePath : string) (root : Dir) (recursive : bool)
    (sessionId : option nat) (tbl_f : list Files.row) (tbl_e : list Errors.row)
    (tbl_s : list SessionRow) : ScanWorld :=
  let st0 := mkScanStatus sessionId sourcePath "in_progress" 0 0 0 0 0 None in
  let totalFiles := countFiles root recursive in
  let w0 := updateSession "in_progress" false
              (mkWorld (set_total totalFiles st0) tbl_f tbl_e tbl_s) in
  let w1 := processDirectory sourcePath root recursive w0 in
  updateSession "completed" true (map_status (set_scan_status "completed" None) w1).

(** *** The scan as a sequence of events

    What [processDirectory] meets, in the order it deals with it: at each
    directory the entries it skips, then its files, then its subdirectories;
    a directory that cannot be read is one event. *)
Inductive ScanEvent :=
| Skipped
| VisitFile (file : string * option FileInfo)
| DirFailed (dirPath : string) (error : JsError).

Fixpoint events (dirPath : string) (dir : Dir) (recursive : bool) : list ScanEvent :=
  match dir with
  | Unreadable error => [DirFailed dirPath error]
  | Listing entries =>
      replicate (skipped_of entries) Skipped
      ++ (VisitFile <$> files_of dirPath entries)
      ++ (fix subdirs_events (l : list Dirent) : list ScanEvent :=
            match l with
            | [] => []
            | DirEntry name sub :: l' =>
                (if recursive && negb (shouldSkipDirectory name)
                 then events (NodePath.join dirPath name) sub recursive else [])
                ++ subdirs_events l'
            | _ :: l' => subdirs_events l'
            end) entries
  end.

Definition handle (w : ScanWorld) (event : ScanEvent) : ScanWorld :=
  match event with
  | Skipped => map_status skip_one w
  | VisitFile file => processFile file w
  | DirFailed dirPath error =>
      scan_logError dirPath "directory_access" (message error) w
  end.

(** The files a scan visits, and the directories it fails to read. *)
Definition visited (evs : list ScanEvent) : list (string * option FileInfo) :=
  omap (λ ev, match ev with VisitFile file => Some file | _ => None end) evs.

Definition failed_dirs (evs : list ScanEvent) : list (string * JsError) :=
  omap (λ ev, match ev with DirFailed p e => Some (p, e) | _ => None end) evs.

(** The [directory_access] rows of a scan: one for each directory that
    [readdir] fails on. *)
Definition directory_errors (evs : list ScanEvent) : list Errors.row :=
  (λ failure, Errors.mk None failure.1 "directory_access" (message failure.2))
    <$> failed_dirs evs.

Definition file_errors (errs : list Errors.row) : list Errors.row :=
  filter (λ r, Errors.error_type r = "file_processing") errs.

(** What handling [evs] from [w] to [w'] leaves as it is and what it adds
    to the counters and to the table of errors. *)
Definition accounted (w : ScanWorld) (evs : list ScanEvent) (w' : ScanWorld) : Prop :=
  sc_status (w_status w') = sc_status (w_status w)
  ∧ sc_error (w_status w') = sc_error (w_status w)
  ∧ sc_totalFiles (w_status w') = sc_totalFiles (w_status w)
  ∧ sc_processedFiles (w_status w')
    = sc_processedFiles (w_status w) + length (visited evs)
  ∧ ∃ errs,
      w_errors w' = w_errors w ++ errs
      ∧ filter (λ r, Errors.error_type r = "directory_access") errs
        = directory_errors evs
      ∧ length errs = length (file_errors errs) + length (failed_dirs evs)
      ∧ sc_errorFiles (w_status w')
        = sc_errorFiles (w_status w) + length (file_errors errs).

(** Two worlds with the same status object, files and errors (the session
    table apart). *)
Definition same_catalog (w1 w2 : ScanWorld) : Prop :=
  w_status w1 = w_status w2 ∧ w_files w1 = w_files w2 ∧ w_errors w1 = w_errors w2.

(** A file that can be read: [extractAllMetadata] and [calculateHashes]
    return. *)
Definition readable (file : string * option FileInfo) : bool :=
  match extractAllMetadata file.1 file.2 with
  | Ok metadata => is_ok (calculateHashes file.2 (md_size metadata))
  | Throw _ => false
  end.

End Scanner.

(** ** The services' other exports

    The functions of hasher.js, duplicateDetector.js and dateResolver.js
    that the organizer and the scanner do not call. *)
Section OtherExports.
Context `{Platform}.

(** [compareFiles(filePath1, filePath2)] of hasher.js: both files are
    read ([Promise.all]); it rejects when a read fails, with the error of
    the read that fails first, which the model leaves open ([None]). *)
Definition compareFiles (filePath1 filePath2 : string) (s : State) : option bool :=
  match calculateHash filePath1 s, calculateHash filePath2 s with
  | Ok hash1, Ok hash2 => Some (bool_decide (hash1 = hash2))
  | _, _ => None
  end.

(** [verifyDuplicate(filePath1, filePath2)] of duplicateDetector.js: the
    same comparison, with [false] for any error. *)
Definition verifyDuplicate (filePath1 filePath2 : string) (s : State) : bool :=
  match calculateHash filePath1 s, calculateHash filePath2 s with
  | Ok hash1, Ok hash2 => bool_decide (hash1 = hash2)
  | _, _ => false
  end.

(** [fileQueries.getFileByHash().all(hash, status)]: [SELECT * FROM files
    WHERE hash_sha256 = ? AND status != ?] *)
Definition getFileByHash (hash : string) (excluded : FileStatus) (tbl : list Files.row)
    : list Files.row :=
  filter (λ r, Files.hash_sha256 r = Some hash ∧ Files.status r ≠ excluded) tbl.

(** [fileQueries.getFilesByPartialHash().all(hash, size)]: [SELECT * FROM
    files WHERE hash_partial = ? AND size = ?] *)
Definition getFilesByPartialHash (hash : string) (size : nat) (tbl : list Files.row)
    : list Files.row :=
  filter (λ r, Files.hash_partial r = Some hash ∧ Files.size r = size) tbl.

(** [{ ...match, matchType, confidence }] *)
Record DuplicateMatch := mkMatch {
  dm_file : Files.row;
  dm_matchType : string;
  dm_confidence : string;
}.

(** [findDuplicatesForFile(file)]: the rows with the file's fingerprint
    that are not in error, the file itself apart; with none of these, a
    partial fingerprint and a size that is not 0, the rows with the same
    partial fingerprint and size. *)
Definition findDuplicatesForFile (file : Files.row) (tbl : list Files.row)
    : list DuplicateMatch :=
  let duplicates :=
    match Files.hash_sha256 file with
    | Some hash =>
        if truthy (Some hash) then
          (λ m, mkMatch m "hash" "exact")
            <$> filter (λ m, Files.id m ≠ Files.id file) (getFileByHash hash st_error tbl)
        else []
    | None => []
    end in
  match Files.hash_partial file with
  | Some partial =>
      if truthy (Some partial) && negb (bool_decide (Files.size file = 0))
         && bool_decide (length duplicates = 0) then
        foldl (λ duplicates m,
                 if bool_decide (Files.id m ≠ Files.id file)
                    && negb (existsb (λ d, bool_decide (Files.id (dm_file d) = Files.id m))
                                     duplicates)
                 then duplicates ++ [mkMatch m "partial_hash" "likely"]
                 else duplicates)
              duplicates (getFilesByPartialHash partial (Files.size file) tbl)
      else duplicates
  | None => duplicates
  end.

(** [stats.largestDuplicateGroup] *)
Record LargestGroup := mkLargest {
  lg_hash : string;
  lg_count : nat;
  lg_totalSize : nat;
}.

(** What [calculateDuplicateStats] returns. *)
Record DuplicateStats := mkStats {
  ds_duplicateGroups : nat;
  ds_totalDuplicateFiles : nat;
  ds_potentialSpaceSavings : nat;
  ds_largestDuplicateGroup : option LargestGroup;
}.

(** One turn of the loop of [calculateDuplicateStats]. *)
Definition stats_step (stats : DuplicateStats) (group : Group) : DuplicateStats :=
  mkStats (ds_duplicateGroups stats)
    (ds_totalDuplicateFiles stats + length (g_duplicates group))
    (ds_potentialSpaceSavings stats
     + foldl (λ sum f, sum + Files.size f) 0 (g_duplicates group))
    (match ds_largestDuplicateGroup stats with
     | Some largest =>
         if bool_decide (lg_count largest < g_count group)
         then Some (mkLargest (g_hash group) (g_count group) (g_totalSize group))
         else Some largest
     | None => Some (mkLargest (g_hash group) (g_count group) (g_totalSize group))
     end).

(** [calculateDuplicateStats()] *)
Definition calculateDuplicateStats (tbl : list Files.row) : DuplicateStats :=
  let groups := findAllDuplicateGroups tbl in
  foldl stats_step (mkStats (length groups) 0 0 None) groups.

(** [compareDates(dateA, dateB)] of dateResolver.js: valid dates by their
    time values, an invalid date after every valid one. *)
Definition compareDates (dateA dateB : option string) : Z :=
  let a := new_Date dateA in
  let b := new_Date dateB in
  if negb (isValidDate a) && negb (isValidDate b) then 0%Z
  else if negb (isValidDate a) then 1%Z
  else if negb (isValidDate b) then (-1)%Z
  else match a, b with
       | Some ta, Some tb => (ta - tb)%Z
       | _, _ => 0%Z
       end.

(** [formatDate(dateStr, format)]; [toLocaleDateString] is the platform's
    and comes in as the two functions [short] and [long]. *)
Definition formatDate (short long : Z → string) (dateStr : option string)
    (format : string) : string :=
  let date := new_Date dateStr in
  if negb (isValidDate date) then "Unknown date"
  else
    match date with
    | None => "Unknown date"
    | Some t =>
        if bool_decide (format = "short") then short t
        else if bool_decide (format = "long") then long t
        else if bool_decide (format = "iso") then toISOString t
        else if bool_decide (format = "path") then
          let c := extractDateComponents dateStr in
          year c +:+ "/" +:+ month c +:+ "/" +:+ day c
        else short t
    end.

(** The updates [markDuplicates] issues: each duplicate of a group that is
    pending in the snapshot, with the original of its group. *)
Definition group_marks (g : Group) : list (Files.row * Files.row) :=
  match g_original g with
  | Some original =>
      (λ duplicate, (duplicate, original))
        <$> filter (λ duplicate, Files.status duplicate = st_pending) (g_duplicates g)
  | None => []
  end.

Definition marks_of (tbl : list Files.row) : list (Files.row * Files.row) :=
  findAllDuplicateGroups tbl ≫= group_marks.

(** A row after the update for one duplicate. *)
Definition apply_mark (r : Files.row) (m : Files.row * Files.row) : Files.row :=
  apply_update (keeping m.1 (Files.current_path m.1) st_duplicate (Some (Files.id m.2))) r.

(** A row after [markDuplicates], by the update that names it. *)
Definition marked_by (ms : list (Files.row * Files.row)) (r : Files.row) : Files.row :=
  match find (λ m, bool_decide (m.1 = r)) ms with
  | Some m => apply_mark r m
  | None => r
  end.

End OtherExports.

(** ** services/revert.js: the checks before a revert, and the history *)
Section RevertChecks.
Context `{Platform}.

(** What [canRevert] returns: [{ canRevert, reason }]. *)
Record Revertability := mkRevertability {
  rv_canRevert : bool;
  rv_reason : option string;
}.

(** [canRevert(operation)] *)
Definition canRevert (operation : Operations.row) (s : State) : Revertability :=
  if bool_decide (Operations.operation_type operation ≠ op_move) then
    mkRevertability false (Some "Only move operations can be reverted")
  else if bool_decide (Operations.status operation = reverted) then
    mkRevertability false (Some "Operation already reverted")
  else
    match fs_access (Operations.destination_path operation) s with
    | Throw _ => mkRevertability false (Some "File no longer exists at destination")
    | Ok _ =>
        match fs_access (Some (Operations.source_path operation)) s with
        | Ok _ =>
            mkRevertability false (Some "A file already exists at the original location")
        | Throw error =>
            if bool_decide (code error ≠ Some "ENOENT") then
              mkRevertability false
                (Some ("Cannot access original path: " +:+ message error))
            else mkRevertability true None
        end
    end.

(** One element of the array [previewBatchRevert] returns. *)
Record RevertPreview := mkRevertPreview {
  rp_operationId : nat;
  rp_fileId : nat;
  rp_currentPath : option string;
  rp_originalPath : string;
  rp_canRevert : bool;
  rp_reason : option string;
}.

(** [previewBatchRevert(batchId)]: the query is the one of [revertBatch]. *)
Definition previewBatchRevert (batchId : nat) (s : State) : list RevertPreview :=
  (λ operation,
     let revertability := canRevert operation s in
     mkRevertPreview (Operations.id operation) (Operations.file_id operation)
       (Operations.destination_path operation) (Operations.source_path operation)
       (rv_canRevert revertability) (rv_reason revertability))
    <$> select_revertible batchId (tbl_operations s).

(** [operationQueries.getOperationsByFile().all(fileId)]: [SELECT * FROM
    operations WHERE file_id = ? ORDER BY created_at DESC] *)
Definition getOperationsByFile (fileId : nat) (tbl : list Operations.row)
    : list Operations.row :=
  order_by_desc Operations.created_at (filter (λ o, Operations.file_id o = fileId) tbl).

(** [getFileHistory(fileId)] *)
Definition getFileHistory (fileId : nat) (s : State) : list Operations.row :=
  getOperationsByFile fileId (tbl_operations s).

(** [operationQueries.getOperationsByBatch().all(batchId)]: [SELECT * FROM
    operations WHERE batch_id = ? ORDER BY created_at] *)
Definition getOperationsByBatch (batchId : nat) (tbl : list Operations.row)
    : list Operations.row :=
  order_by_asc Operations.created_at (filter (λ o, Operations.batch_id o = batchId) tbl).

(** [SELECT * FROM operations WHERE id = ?] *)
Definition getOperationById (i : nat) (tbl : list Operations.row)
    : option Operations.row :=
  find (λ o, bool_decide (Operations.id o = i)) tbl.

(** A ledger that extends another: the rows that were there, each as it
    was or with status ['reverted'], followed by rows of type ['revert']. *)
Definition ledger_extends (tbl tbl' : list Operations.row) : Prop :=
  ∃ old new,
    tbl' = old ++ new
    ∧ Forall2 (λ o o', o' = o ∨ o' = set_status reverted o) tbl old
    ∧ Forall (λ e, Operations.operation_type e = op_revert) new.

End RevertChecks.

(** ** services/organizer.js: the preview *)
Section OrganizerPreview.
Context `{Platform}.

(** One element of the array [previewOrganization] returns. *)
Record PreviewEntry := mkPreviewEntry {
  pv_id : nat;
  pv_filename : string;
  pv_sourcePath : string;
  pv_destinationPath : string;
  pv_resolvedDate : option string;
  pv_dateSource : option string;
  pv_size : nat;
  pv_action : string;
  pv_duplicateOf : option nat;
}.

(** [previewOrganization(destinationBase, fileIds)]; [existingDuplicate?.id
    || null] is [null] also for an id that is 0. *)
Definition previewOrganization (destinationBase : string) (fileIds : option (list nat))
    (tbl : list Files.row) : list PreviewEntry :=
  (λ file,
     let destPath := generateDestinationPath destinationBase (Files.resolved_date file)
                                             (Files.filename file) in
     let existingDuplicate :=
       checkForExistingDuplicate (Files.hash_sha256 file) (Files.id file) tbl in
     mkPreviewEntry (Files.id file) (Files.filename file) (sourcePath_of file) destPath
       (Files.resolved_date file) (Files.date_source file) (Files.size file)
       (match existingDuplicate with Some _ => "duplicate" | None => "move" end)
       (match existingDuplicate with
        | Some existing =>
            if bool_decide (Files.id existing = 0) then None else Some (Files.id existing)
        | None => None
        end))
    <$> filesToOrganize fileIds tbl.

End OrganizerPreview.

(** ** services/scanner.js: [rescanFile] *)
Section Rescan.
Context `{Platform}.

(** [rescanFile(fileId)]: what it returns or throws, and the table it
    leaves. [read] is what reading the file at a path yields. The row
    returned is the one [getFileById] finds after the update. *)
Definition rescanFile (fileId : nat) (read : string → option FileInfo)
    (tbl : list Files.row) : result (option Files.row) * list Files.row :=
  match getFileById fileId tbl with
  | None => (Throw (Error "File not found"), tbl)
  | Some file =>
      let filePath := or_else (Files.current_path file) (Files.original_path file) in
      match extractAllMetadata filePath (read filePath) with
      | Throw e => (Throw e, tbl)
      | Ok metadata =>
          match calculateHashes (read filePath) (md_size metadata) with
          | Throw e => (Throw e, tbl)
          | Ok hashes =>
              let resolved := resolveDate metadata in
              let tbl' :=
                updateFile
                  (Files.mkUpdate fileId (Some filePath) (Some hashes.1) (Some hashes.2)
                     (Some (md_mimeType metadata)) (exifDate metadata)
                     (Some (date resolved)) (Some (source resolved))
                     (Files.status file) (Files.duplicate_of file)
                     (Some (JSON_stringify (md_category metadata) (md_exif metadata))))
                  tbl in
              (Ok (getFileById fileId tbl'), tbl')
          end
      end
  end.

End Rescan.

(** The row [processFile] inserts for a file it reads: the columns of
    [fileData], from the metadata and the content read. *)
Definition scanned_row `{Platform} (file : string * option FileInfo) (r : Files.row)
    : Prop :=
  ∃ fi metadata,
    file.2 = Some fi
    ∧ extractAllMetadata file.1 (Some fi) = Ok metadata
    ∧ Files.original_path r = file.1
    ∧ Files.current_path r = Some file.1
    ∧ Files.filename r = NodePath.basename file.1 ""
    ∧ Files.size r = String.length (fi_content fi)
    ∧ Files.hash_sha256 r = Some (sha256 (fi_content fi))
    ∧ Files.hash_partial r
      = Some (sha256 (String.substring 0 config.partialHashSize (fi_content fi)))
    ∧ Files.resolved_date r = Some (date (resolveDate metadata))
    ∧ Files.date_source r = Some (source (resolveDate metadata))
    ∧ Files.status r = st_pending
    ∧ Files.duplicate_of r = None.

(** The files of a tree that a scan reaches: the files of the directory
    that [shouldSkipFile] lets through and, in a recursive scan, those it
    reaches in the subdirectories that [shouldSkipDirectory] lets through. *)
Inductive scan_reaches `{Platform} (recursive : bool)
    : string → Dir → string * option FileInfo → Prop :=
| reaches_file (dirPath : string) (entries : list Dirent) (name : string)
    (info : option FileInfo) :
    FileEntry name info ∈ entries → shouldSkipFile name = false →
    scan_reaches recursive dirPath (Listing entries) (NodePath.join dirPath name, info)
| reaches_subdirectory (dirPath : string) (entries : list Dirent) (name : string)
    (sub : Dir) (file : string * option FileInfo) :
    DirEntry name sub ∈ entries → recursive = true → shouldSkipDirectory name = false →
    scan_reaches recursive (NodePath.join dirPath name) sub file →
    scan_reaches recursive dirPath (Listing entries) file.

(** ** routes/operations.js, with the error middleware of the application *)

(** A response: [res.status(status).json(body)] ([res.json] alone is 200),
    or [res.status(status).json({ error: { message } })]. *)
Inductive Response (A : Type) : Type :=
| Json (status : nat) (body : A)
| JsonError (status : nat) (msg : string).
Arguments Json {A} status body.
Arguments JsonError {A} status msg.

Section Routes.
Context `{Platform}.

(** The error middleware, where [next(error)] ends: [err.status || 500]
    and [err.message || 'Internal server error']. The errors of the
    services carry no [status]. *)
Definition error_middleware {A} (err : JsError) : Response A :=
  JsonError 500 (or_else (Some (message err)) "Internal server error").

(** [POST /api/operations/:id/revert], [id] being the number the
    parameter denotes. *)
Definition post_operation_revert (id : nat) (s : State)
    : Response RevertResult * State :=
  match getOperationById id (tbl_operations s) with
  | None => (JsonError 404 "Operation not found", s)
  | Some operation =>
      if bool_decide (Operations.status operation = reverted) then
        (JsonError 400 "Operation already reverted", s)
      else if bool_decide (Operations.operation_type operation ≠ op_move) then
        (JsonError 400 "Only move operations can be reverted", s)
      else
        match revertOperation operation s with
        | (Ok result, s') => (Json 200 result, s')
        | (Throw error, s') => (error_middleware error, s')
        end
  end.

(** [POST /api/operations/batch/:batchId/revert] *)
Definition post_batch_revert (batchId : nat) (s : State)
    : Response BatchResult * State :=
  let operations := getOperationsByBatch batchId (tbl_operations s) in
  if bool_decide (length operations = 0) then (JsonError 404 "Batch not found", s)
  else
    let alreadyReverted :=
      length (filter (λ op, Operations.status op = reverted) operations) in
    if bool_decide (alreadyReverted = length operations) then
      (JsonError 400 "All operations in batch already reverted", s)
    else
      match revertBatch batchId s with
      | (Ok result, s') => (Json 200 result, s')
      | (Throw error, s') => (error_middleware error, s')
      end.

(** *** routes/files.js *)

(** One element of [groups] in the answer of [GET
    /api/files/duplicates/all]. *)
Record RouteGroup := mkRouteGroup {
  rg_hash : string;
  rg_count : nat;
  rg_files : list Files.row;
}.

(** [GET /api/files/duplicates/all]: [{ groups, totalGroups }]. The first
    query is [SELECT hash_sha256, COUNT( * ) FROM files WHERE hash_sha256 IS
    NOT NULL GROUP BY hash_sha256 HAVING COUNT( * ) > 1], the second [SELECT *
    FROM files WHERE hash_sha256 = ?]; the groups come in the order their
    hash first occurs and the files in rowid order. *)
Definition get_duplicates_all (tbl : list Files.row) : list RouteGroup * nat :=
  let duplicateHashes :=
    filter (λ h, 1 < length (filter (λ r, Files.hash_sha256 r = Some h) tbl))
           (remove_dups (omap Files.hash_sha256 tbl)) in
  let duplicateGroups :=
    (λ h, let files := filter (λ r, Files.hash_sha256 r = Some h) tbl in
          mkRouteGroup h (length files) files) <$> duplicateHashes in
  (duplicateGroups, length duplicateGroups).

(** *** routes/organize.js *)

(** One element of [preview] in the answer of [GET /api/organize/preview]. *)
Record RoutePreview := mkRoutePreview {
  rpv_id : nat;
  rpv_sourcePath : string;
  rpv_destinationPath : string;
  rpv_resolvedDate : option string;
  rpv_dateSource : option string;
}.

(** [date.getFullYear()] and the like in a template or under [String]:
    ['NaN'] for an invalid date. *)
Definition or_NaN (f : Z → string) (date : option Z) : string :=
  match date with
  | Some t => f t
  | None => "NaN"
  end.

(** The callback of [pendingFiles.map]. *)
Definition route_preview_entry (destinationPath : string) (file : Files.row)
    : RoutePreview :=
  let date := new_Date (Files.resolved_date file) in
  let year := or_NaN (λ t, String_of_nat (getFullYear t)) date in
  let month := padStart2 (or_NaN (λ t, String_of_nat (getMonth t + 1)) date) in
  let day := padStart2 (or_NaN (λ t, String_of_nat (getDate t)) date) in
  mkRoutePreview (Files.id file) (Files.original_path file)
    (destinationPath +:+ "/" +:+ year +:+ "/" +:+ month +:+ "/" +:+ day +:+ "/"
       +:+ Files.filename file)
    (Files.resolved_date file) (Files.date_source file).

(** [GET /api/organize/preview]: [{ totalFiles, preview }]. The query is
    [SELECT * FROM files WHERE status = 'pending' AND resolved_date IS NOT
    NULL ORDER BY resolved_date], text compared byte by byte. *)
Definition get_organize_preview (destinationPath : option string)
    (tbl : list Files.row) : Response (nat * list RoutePreview) :=
  match destinationPath with
  | Some base =>
      if truthy (Some base) then
        let pendingFiles :=
          order_by (λ a b, String.leb (default "" (Files.resolved_date a))
                                      (default "" (Files.resolved_date b)))
                   (filter (λ r, Files.status r = st_pending
                                 ∧ Files.resolved_date r ≠ None) tbl) in
        let preview := route_preview_entry base <$> pendingFiles in
        Json 200 (length preview, take 100 preview)
      else JsonError 400 "destinationPath query parameter is required"
  | None => JsonError 400 "destinationPath query parameter is required"
  end.

End Routes.

(** ** A concrete platform, for the worked examples

    A calendar in UTC, a table of the dates the examples use, and a
    stand-in digest: the hexadecimal code of the first 32 characters of the
    content, padded to the 64 characters of a SHA-256 digest. *)
Module Demo.

Definition hex_digit (n : nat) : ascii :=
  match n with
  | 0 => "0" | 1 => "1" | 2 => "2" | 3 => "3" | 4 => "4" | 5 => "5" | 6 => "6"
  | 7 => "7" | 8 => "8" | 9 => "9" | 10 => "a" | 11 => "b" | 12 => "c"
  | 13 => "d" | 14 => "e" | _ => "f"
  end%char.

Fixpoint hex_of (l : list ascii) : list ascii :=
  match l with
  | [] => []
  | c :: l' =>
      hex_digit (nat_of_ascii c / 16) :: hex_digit (nat_of_ascii c `mod` 16) :: hex_of l'
  end.

Definition digest (content : string) : string :=
  NodePath.unchars
    (take 64 (hex_of (NodePath.chars content) ++ replicate 64 "0"%char)).

Definition dates : list (string * Z) :=
  [("2023-07-15T10:30:00.000Z", 1689417000000%Z);
   ("2023-08-01T00:00:00.000Z", 1690848000000%Z);
   ("2023-09-01T00:00:00.000Z", 1693526400000%Z);
   ("1960-01-01T00:00:00.000Z", (-315619200000)%Z);
   ("2023-11-14T22:13:20.000Z", 1700000000000%Z)].

Definition parse (str : string) : option Z :=
  snd <$> find (λ d, bool_decide (d.1 = str)) dates.

Definition iso (t : Z) : string :=
  default "" (fst <$> find (λ d, bool_decide (d.2 = t)) dates).

(** The civil date of a time value, UTC: (year, month 1..12, day). *)
Definition civil (t : Z) : Z * Z * Z :=
  let z := (t / 86400000 + 719468)%Z in
  let era := (z / 146097)%Z in
  let doe := (z - era * 146097)%Z in
  let yoe := ((doe - doe / 1460 + doe / 36524 - doe / 146096) / 365)%Z in
  let doy := (doe - (365 * yoe + yoe / 4 - yoe / 100))%Z in
  let mp := ((5 * doy + 2) / 153)%Z in
  let d := (doy - (153 * mp + 2) / 5 + 1)%Z in
  let m := (if (mp <? 10)%Z then mp + 3 else mp - 9)%Z in
  ((yoe + era * 400 + (if (m <=? 2)%Z then 1 else 0))%Z, m, d).

Definition platform : Platform := {|
  sha256 := digest;
  Date_parse := parse;
  toISOString := iso;
  getFullYear := λ t, Z.to_nat (civil t).1.1;
  getMonth := λ t, Z.to_nat ((civil t).1.2 - 1);
  getDate := λ t, Z.to_nat (civil t).2;
  nextDay := λ t, (t + 86400000)%Z;
  now := 1700000000000%Z;
  CURRENT_TIMESTAMP := λ i, 1000 + i;
  CURRENT_TIMESTAMP_files := λ i, 500 + i;
  JSON_stringify := λ category exif, "{category:" +:+ category +:+ "}";
|}.

(** A photo with an embedded date and both filesystem dates, as in the
    unit test of the date resolver. *)
Definition photo : Metadata :=
  mkMetadata "photo.jpg" "/src/photo.jpg" ".jpg" "image" "image/jpeg" 5
    (Some "2023-08-01T00:00:00.000Z") (Some "2023-09-01T00:00:00.000Z")
    None (Some "2023-07-15T10:30:00.000Z").

Definition without_exif (m : Metadata) : Metadata :=
  mkMetadata (md_filename m) (md_originalPath m) (md_extension m) (md_category m)
    (md_mimeType m) (md_size m) (createdAt m) (modifiedAt m) (md_exif m) None.
Definition without_created (m : Metadata) : Metadata :=
  mkMetadata (md_filename m) (md_originalPath m) (md_extension m) (md_category m)
    (md_mimeType m) (md_size m) None (modifiedAt m) (md_exif m) (exifDate m).
Definition without_modified (m : Metadata) : Metadata :=
  mkMetadata (md_filename m) (md_originalPath m) (md_extension m) (md_category m)
    (md_mimeType m) (md_size m) (createdAt m) None (md_exif m) (exifDate m).

(** A catalog row for a file at [path] with the digest [hash]. *)
Definition file_row (i : nat) (path : string) (hash : option string)
    (st : FileStatus) (discovered : nat) : Files.row :=
  Files.mk i path (Some path) (NodePath.basename path "")
    (Some (NodePath.extname path)) 5 hash hash (Some "text/plain")
    (Some "2023-08-01T00:00:00.000Z") (Some "2023-09-01T00:00:00.000Z") None
    (Some "2023-08-01T00:00:00.000Z") (Some "created") st None None discovered.

(** Three rows with one fingerprint; the earliest has status ['error']. *)
Definition catalog_with_error_row : list Files.row :=
  [file_row 1 "/src/a.txt" (Some (digest "hello")) st_error 10;
   file_row 2 "/src/b.txt" (Some (digest "hello")) st_pending 20;
   file_row 3 "/src/c.txt" (Some (digest "hello")) st_pending 30].

(** Three copies of one file, the first moved, and a fourth file. *)
Definition catalog_of_copies : list Files.row :=
  [file_row 1 "/src/a.txt" (Some (digest "hello")) st_moved 10;
   file_row 2 "/src/b.txt" (Some (digest "hello")) st_pending 20;
   file_row 3 "/src/c.txt" (Some (digest "hello")) st_duplicate 30;
   file_row 4 "/src/d.txt" (Some (digest "world")) st_pending 40].

(** Two pending files in [/src], an empty [/dest]. *)
Definition pending_row (i : nat) (path content : string) : Files.row :=
  Files.mk i path (Some path) (NodePath.basename path "")
    (Some (NodePath.extname path)) (String.length content)
    (Some (digest content)) (Some (digest content)) (Some "text/plain")
    (Some "2023-08-01T00:00:00.000Z") (Some "2023-09-01T00:00:00.000Z") None
    (Some "2023-07-15T10:30:00.000Z") (Some "created") st_pending None None (500 + i).

Definition world : State :=
  mkState {[ "/src/a.txt" := "hello"; "/src/b.txt" := "world" ]}
          {[ "/"; "/src"; "/dest" ]}
          [pending_row 1 "/src/a.txt" "hello"; pending_row 2 "/src/b.txt" "world"]
          [] [] 1.

(** Two pending files with one name and one date, in two directories. *)
Definition colliding_world : State :=
  mkState {[ "/src/a.txt" := "hello"; "/other/a.txt" := "world" ]}
          {[ "/"; "/src"; "/other"; "/dest" ]}
          [pending_row 1 "/src/a.txt" "hello"; pending_row 2 "/other/a.txt" "world"]
          [] [] 1.

(** A pending file edited after it was scanned: the catalog has the
    fingerprint of the content it had. *)
Definition stale_world : State :=
  mkState {[ "/src/a.txt" := "hello, world" ]}
          {[ "/"; "/src"; "/dest" ]}
          [pending_row 1 "/src/a.txt" "hello"]
          [] [] 1.

(** A source tree: a photo, a file the scan skips, a file that is gone
    when the scan comes to read it, an album with one file, and a directory
    that cannot be listed. *)
Definition EACCES : JsError := SystemError "EACCES" "permission denied, scandir".

Definition plain_file (content : string) : FileInfo :=
  mkFileInfo content 1690848000000 1693526400000 None None None.

Definition tree : Dir :=
  Listing
    [FileEntry "photo.jpg"
       (Some (mkFileInfo "pixels" 1690848000000 1693526400000 (Some "image/jpeg")
                (Some "{Make:X}") (Some "2023-07-15T10:30:00.000Z")));
     FileEntry ".DS_Store" (Some (plain_file "x"));
     FileEntry "gone.txt" None;
     DirEntry "album" (Listing [FileEntry "notes.txt" (Some (plain_file "hello"))]);
     DirEntry "locked" (Unreadable EACCES)].

(** The demo world after a real [organizeFiles] into [/dest], and the
    first row the batch wrote. *)
Definition organized_world : State :=
  match @organizeFiles platform 101 "/dest" false None world with
  | Some (_, s) => s
  | None => world
  end.

Definition first_move : Operations.row :=
  default (Operations.mk 0 0 0 op_scan "" None None "" completed 0)
          (head (tbl_operations organized_world)).

(** The world after a first batch has moved [/src/a.txt] into [/dest] and a
    later scan has catalogued one more file. *)
Definition later_world (path content : string) : State :=
  match @organizeFiles platform 101 "/dest" false None
          (mkState {[ "/src/a.txt" := "hello" ]} {[ "/"; "/src"; "/dest" ]}
                   [pending_row 1 "/src/a.txt" "hello"] [] [] 1) with
  | Some (_, s) =>
      mkState (<[path := content]> (fs_files s)) (fs_dirs s)
              (tbl_files s ++ [pending_row 2 path content])
              (tbl_operations s) (tbl_errors s) (uuid_counter s)
  | None => world
  end.

(** The new file is a copy of the moved one. *)
Definition copy_world : State := later_world "/src/copy.txt" "hello".

(** The new file is another file. *)
Definition next_world : State := later_world "/src/b.txt" "world".

(** A pending row whose path holds a directory now, with a file in it. *)
Definition directory_world : State :=
  mkState {[ "/src/a.txt/inner.txt" := "hello" ]}
          {[ "/"; "/src"; "/src/a.txt"; "/dest" ]}
          [pending_row 1 "/src/a.txt" "hello"]
          [] [] 1.

End Demo.

(** * Part II: verification *)

Example dirname_examples :
  NodePath.dirname "/dest/2023/07/15/photo.jpg" = "/dest/2023/07/15" ∧
  NodePath.dirname "/a" = "/" ∧ NodePath.dirname "a" = "." ∧
  NodePath.dirname "/a//b/" = "/a/" ∧ NodePath.dirname "//a" = "//" ∧
  NodePath.dirname "" = "." ∧ NodePath.dirname "/" = "/" ∧
  NodePath.dirname "a/b" = "a".
Proof. vm_compute. repeat split. Qed.

Example extname_examples :
  NodePath.extname "/d/photo.jpg" = ".jpg" ∧ NodePath.extname "/d/.bashrc" = "" ∧
  NodePath.extname "/d/a.b.c/" = ".c" ∧ NodePath.extname ".." = "" ∧
  NodePath.extname "..." = "." ∧ NodePath.extname "a." = "." ∧
  NodePath.extname "/x.y/z" = "".
Proof. vm_compute. repeat split. Qed.

Example basename_examples :
  NodePath.basename "/d/photo.jpg" ".jpg" = "photo" ∧
  NodePath.basename "/d/photo.jpg" "" = "photo.jpg" ∧
  NodePath.basename "/d/.jpg" ".jpg" = ".jpg" ∧
  NodePath.basename "/d/photo.jpg/" ".jpg" = "photo" ∧
  NodePath.basename "/d/photo.jpg" ".png" = "photo.jpg".
Proof. vm_compute. repeat split. Qed.

Example join_examples :
  NodePath.join "/dest/2023/07/15" "photo (1).jpg" = "/dest/2023/07/15/photo (1).jpg" ∧
  NodePath.join "/a/../b/" "c" = "/b/c" ∧ NodePath.join "." "c" = "c" ∧
  NodePath.join "/" "c" = "/c" ∧ NodePath.join "a//b" "../c/" = "a/c/" ∧
  NodePath.join "../x" "../../y" = "../../y".
Proof. vm_compute. repeat split. Qed.

Example generateDestinationPath_example :
  @generateDestinationPath Demo.platform "/dest" (Some "2023-07-15T10:30:00.000Z")
    "photo.jpg" = "/dest/2023/07/15/photo.jpg".
Proof. vm_compute. reflexivity. Qed.

(** ** The date resolver (C5) *)
Section DateResolverFacts.
Context `{Platform}.

Lemma isValidDate_spec (t : Z) :
  isValidDate (Some t) = true ↔ (0 ≤ t ≤ nextDay now)%Z.
Proof.
  unfold isValidDate. rewrite andb_true_iff, !Z.leb_le. tauto.
Qed.

Lemma candidate_usable (field : option string) (t : Z) :
  candidate field = Some t ↔ usable field t.
Proof.
  unfold candidate, usable, truthy, new_Date. split.
  - destruct field as [str|]; [|discriminate].
    case_bool_decide as Hstr; cbn [negb]; [discriminate|].
    destruct (Date_parse str) as [t'|] eqn:Hp; [|discriminate].
    destruct (isValidDate (Some t')) eqn:Hv; [|discriminate].
    intros [= <-]. exists str. by rewrite <- isValidDate_spec.
  - intros (str & -> & Hne & Hp & Hr).
    rewrite bool_decide_eq_false_2 by done. cbn [negb]. rewrite Hp.
    by rewrite (proj2 (isValidDate_spec t) Hr).
Qed.

Lemma candidate_unusable (field : option string) :
  candidate field = None ↔ ∀ t, ¬ usable field t.
Proof.
  split.
  - intros Hc t Hu. apply candidate_usable in Hu. congruence.
  - intros Hn. destruct (candidate field) as [t|] eqn:Hc; [|done].
    apply candidate_usable in Hc. by destruct (Hn t).
Qed.

End DateResolverFacts.

Section DateResolverTheorems.
Context `{Platform}.

(** C5 (as amended): [resolveDate] returns the first usable date of the
    chain embedded date, filesystem creation time, filesystem modification
    time, else the current time, and tags it ['exif'], ['created'],
    ['modified'] or ['discovered'] accordingly. *)
Theorem resolveDate_priority_chain (m : Metadata) :
  (∀ t, usable (exifDate m) t →
        resolveDate m = mkResolved (toISOString t) "exif") ∧
  ((∀ t, ¬ usable (exifDate m) t) →
   ∀ t, usable (createdAt m) t →
        resolveDate m = mkResolved (toISOString t) "created") ∧
  ((∀ t, ¬ usable (exifDate m) t) → (∀ t, ¬ usable (createdAt m) t) →
   ∀ t, usable (modifiedAt m) t →
        resolveDate m = mkResolved (toISOString t) "modified") ∧
  ((∀ t, ¬ usable (exifDate m) t) → (∀ t, ¬ usable (createdAt m) t) →
   (∀ t, ¬ usable (modifiedAt m) t) →
        resolveDate m = mkResolved (toISOString now) "discovered") ∧
  source (resolveDate m) ∈ ["exif"; "created"; "modified"; "discovered"].
Proof.
  unfold resolveDate. repeat split.
  - intros t Ht%candidate_usable. by rewrite Ht.
  - intros He%candidate_unusable t Ht%candidate_usable. by rewrite He, Ht.
  - intros He%candidate_unusable Hc%candidate_unusable t Ht%candidate_usable.
    by rewrite He, Hc, Ht.
  - intros He%candidate_unusable Hc%candidate_unusable Hm%candidate_unusable.
    by rewrite He, Hc, Hm.
  - destruct (candidate (exifDate m)), (candidate (createdAt m)),
      (candidate (modifiedAt m)); cbn; set_solver.
Qed.

End DateResolverTheorems.

(** The four steps of the specification's scenario, on the demo platform:
    the tags are ['exif'], ['created'], ['modified'], ['discovered']. *)
Example resolveDate_scenario :
  let m := Demo.photo in
  source (@resolveDate Demo.platform m) = "exif" ∧
  source (@resolveDate Demo.platform (Demo.without_exif m)) = "created" ∧
  source (@resolveDate Demo.platform (Demo.without_created (Demo.without_exif m)))
    = "modified" ∧
  source (@resolveDate Demo.platform
            (Demo.without_modified (Demo.without_created (Demo.without_exif m))))
    = "discovered".
Proof. vm_compute. repeat split. Qed.

(** C5, counterexample: with the embedded date and both filesystem dates
    present and valid, the source tag is ['exif'], not ['metadata']. *)
Lemma resolveDate_tag_is_exif_not_metadata :
  (∃ t1 t2 t3, @usable Demo.platform (exifDate Demo.photo) t1 ∧
               @usable Demo.platform (createdAt Demo.photo) t2 ∧
               @usable Demo.platform (modifiedAt Demo.photo) t3) ∧
  source (@resolveDate Demo.platform Demo.photo) = "exif" ∧
  source (@resolveDate Demo.platform Demo.photo) ≠ "metadata".
Proof.
  split; [|split; [by vm_compute|by vm_compute]].
  exists 1689417000000%Z, 1690848000000%Z, 1693526400000%Z.
  repeat split; eexists; (split; [reflexivity|]);
    (split; [done|]); (split; [by vm_compute|]); by vm_compute.
Qed.

(** ** The duplicate detector (C4) *)

(** The member query of [findAllDuplicateGroups] has no [status != 'error']
    condition: were a row with status ['error'] in the table, a group would
    hold it, here as its original, and [markDuplicates] would link the
    pending rows to it. No statement of the services writes that status
    (section "The statuses of the catalog" below), so the groups hold no
    such row. *)
Lemma findAllDuplicateGroups_keeps_error_rows :
  let tbl := Demo.catalog_with_error_row in
  (Files.id <$> tbl) = [1; 2; 3] ∧
  ((λ g, (Files.id <$> g_files g, Files.id <$> g_original g,
          Files.id <$> g_duplicates g)) <$> findAllDuplicateGroups tbl)
    = [([1; 2; 3], Some 1, [2; 3])] ∧
  (Files.status <$> (findAllDuplicateGroups tbl ≫= g_files))
    = [st_error; st_pending; st_pending] ∧
  ((λ r, (Files.id r, Files.status r, Files.duplicate_of r)) <$> (markDuplicates tbl).1)
    = [(1, st_error, None); (2, st_duplicate, Some 1); (3, st_duplicate, Some 1)].
Proof. vm_compute. repeat split. Qed.

(** ** Sorting by a key *)
Section OrderBy.
Context {A : Type}.

Lemma insert_by_perm (le : A → A → bool) (x : A) (l : list A) :
  insert_by le x l ≡ₚ x :: l.
Proof.
  induction l as [|y l IH]; cbn; [done|].
  destruct (le x y); [done|]. rewrite IH. apply Permutation_swap.
Qed.

Lemma order_by_perm (le : A → A → bool) (l : list A) : order_by le l ≡ₚ l.
Proof.
  induction l as [|x l IH]; cbn; [done|].
  fold (order_by le l). by rewrite insert_by_perm, IH.
Qed.

Lemma elem_of_order_by (le : A → A → bool) (l : list A) (x : A) :
  x ∈ order_by le l ↔ x ∈ l.
Proof. by rewrite order_by_perm. Qed.

Lemma order_by_nil_inv (le : A → A → bool) (l : list A) :
  order_by le l = [] → l = [].
Proof.
  intros Hnil. apply Permutation_nil_r. rewrite <- Hnil.
  symmetry. apply order_by_perm.
Qed.

Lemma length_order_by (le : A → A → bool) (l : list A) :
  length (order_by le l) = length l.
Proof. by rewrite order_by_perm. Qed.

Section Total.
Context (R : A → A → Prop) (le : A → A → bool).
Context (le_spec : ∀ x y, le x y = true ↔ R x y).
Context (R_total : ∀ x y, R x y ∨ R y x) (R_trans : Transitive R).

Lemma insert_by_sorted (x : A) (l : list A) :
  StronglySorted R l → StronglySorted R (insert_by le x l).
Proof.
  induction 1 as [|y l Hl IH Hy]; cbn.
  - by repeat constructor.
  - destruct (le x y) eqn:Hxy.
    + apply le_spec in Hxy. constructor; [by constructor|].
      constructor; [done|]. eapply Forall_impl; [exact Hy|].
      intros z Hz. by transitivity y.
    + constructor; [done|].
      rewrite insert_by_perm. constructor; [|done].
      destruct (R_total x y) as [Hxy'|]; [|done].
      apply le_spec in Hxy'. congruence.
Qed.

Lemma order_by_sorted (l : list A) : StronglySorted R (order_by le l).
Proof.
  induction l as [|x l IH]; cbn; [constructor|].
  by apply insert_by_sorted.
Qed.
End Total.

Lemma order_by_desc_sorted (key : A → nat) (l : list A) :
  StronglySorted (λ x y, key y ≤ key x) (order_by_desc key l).
Proof.
  apply order_by_sorted.
  - intros x y. apply bool_decide_eq_true.
  - intros x y. lia.
  - intros x y z. lia.
Qed.

Lemma order_by_asc_sorted (key : A → nat) (l : list A) :
  StronglySorted (λ x y, key x ≤ key y) (order_by_asc key l).
Proof.
  apply order_by_sorted.
  - intros x y. apply bool_decide_eq_true.
  - intros x y. lia.
  - intros x y z. lia.
Qed.

(** Rows whose keys strictly increase come back in reverse. *)
Lemma insert_by_desc_last (key : A → nat) (x : A) (l : list A) :
  Forall (λ y, key x < key y) l →
  insert_by (λ a b, bool_decide (key b ≤ key a)) x l = l ++ [x].
Proof.
  induction 1 as [|y l Hy Hl IH]; cbn; [done|].
  rewrite bool_decide_eq_false_2 by lia. by rewrite IH.
Qed.

Lemma order_by_desc_increasing (key : A → nat) (l : list A) :
  StronglySorted (λ x y, key x < key y) l →
  order_by_desc key l = reverse l.
Proof.
  induction 1 as [|x l Hl IH Hx]; [done|].
  rewrite reverse_cons. unfold order_by_desc, order_by in *. cbn.
  rewrite IH. apply insert_by_desc_last.
  by rewrite Forall_reverse.
Qed.

End OrderBy.

(** ** The groups of the duplicate detector *)

(** What holds of every group, whatever the table. *)
Lemma findAllDuplicateGroups_shape (tbl : list Files.row) :
  Forall (λ g,
            1 < hash_count (g_hash g) tbl
            ∧ g_files g ≡ₚ filter (λ r, Files.hash_sha256 r = Some (g_hash g)) tbl
            ∧ StronglySorted
                (λ a b, Files.created_timestamp a ≤ Files.created_timestamp b)
                (g_files g)
            ∧ g_original g = head (g_files g)
            ∧ g_duplicates g = tail (g_files g)
            ∧ g_files g = from_option (λ o, [o]) [] (g_original g) ++ g_duplicates g
            ∧ g_count g = length (g_files g)
            ∧ 1 < g_count g)
         (findAllDuplicateGroups tbl).
Proof.
  unfold findAllDuplicateGroups. apply Forall_fmap, Forall_forall.
  intros h [Hcount _]%list_elem_of_filter. cbn.
  split; [done|]. split; [apply order_by_perm|].
  split; [apply order_by_asc_sorted|]. split; [done|]. split; [done|].
  split; [by destruct (files_with_hash h tbl)|]. split; [done|].
  unfold files_with_hash, order_by_asc. rewrite length_order_by.
  eapply Nat.lt_le_trans; [exact Hcount|]. unfold hash_count. clear Hcount.
  induction tbl as [|r tbl IH]; [done|]. rewrite !filter_cons.
  destruct (decide (countable_row r = true ∧ Files.hash_sha256 r = Some h))
    as [[_ Hr]|Hr].
  - rewrite decide_True by done. cbn. lia.
  - destruct (decide (Files.hash_sha256 r = Some h)); cbn; lia.
Qed.

(** C4: on a catalog that holds no row with status ['error'] (no statement
    of the services writes that status), every group of
    [findAllDuplicateGroups] has at least two records; they are the rows of
    the catalog with the fingerprint of the group, none of them with status
    ['error'], in ascending order of discovery; the original is the first,
    so no member was discovered before it; the duplicates are all the
    others, in that order. *)
Theorem findAllDuplicateGroups_groups (tbl : list Files.row) :
  no_error_rows tbl →
  Forall (λ g,
            1 < length (g_files g)
            ∧ g_count g = length (g_files g)
            ∧ Forall (λ r, Files.hash_sha256 r = Some (g_hash g)) (g_files g)
            ∧ Forall (λ r, Files.status r ≠ st_error) (g_files g)
            ∧ g_files g ≡ₚ filter (λ r, Files.hash_sha256 r = Some (g_hash g)) tbl
            ∧ StronglySorted
                (λ a b, Files.created_timestamp a ≤ Files.created_timestamp b)
                (g_files g)
            ∧ (∃ original,
                 g_original g = Some original
                 ∧ g_files g = original :: g_duplicates g
                 ∧ Forall (λ r, Files.created_timestamp original
                                ≤ Files.created_timestamp r) (g_duplicates g)))
         (findAllDuplicateGroups tbl).
Proof.
  intros Hclean. eapply Forall_impl; [apply findAllDuplicateGroups_shape|].
  intros g (_ & Hperm & Hsorted & Horig & Hdups & Hfiles & Hcount & Hmany). cbn beta.
  rewrite <- Hcount. do 2 (split; [done|]).
  assert (∀ r, r ∈ g_files g → r ∈ tbl ∧ Files.hash_sha256 r = Some (g_hash g))
    as Hmem.
  { intros r Hr. rewrite Hperm in Hr. apply list_elem_of_filter in Hr. tauto. }
  split; [apply Forall_forall; intros r Hr; by apply Hmem|].
  split.
  { apply Forall_forall. intros r Hr. unfold no_error_rows in Hclean.
    rewrite Forall_forall in Hclean. apply Hclean. by apply Hmem. }
  do 2 (split; [done|]).
  destruct (g_files g) as [|original rest] eqn:Hg.
  { rewrite Hcount in Hmany. cbn in Hmany. lia. }
  exists original. cbn in Horig, Hdups. rewrite Hdups. do 2 (split; [done|]).
  by apply StronglySorted_inv in Hsorted as [_ Hfirst].
Qed.

(** C4 on a catalog with three copies of one file and a fourth file. *)
Lemma findAllDuplicateGroups_groups_witness :
  no_error_rows Demo.catalog_of_copies
  ∧ Forall (λ g,
            1 < length (g_files g)
            ∧ g_count g = length (g_files g)
            ∧ Forall (λ r, Files.hash_sha256 r = Some (g_hash g)) (g_files g)
            ∧ Forall (λ r, Files.status r ≠ st_error) (g_files g)
            ∧ g_files g ≡ₚ filter (λ r, Files.hash_sha256 r = Some (g_hash g))
                                 Demo.catalog_of_copies
            ∧ StronglySorted
                (λ a b, Files.created_timestamp a ≤ Files.created_timestamp b)
                (g_files g)
            ∧ (∃ original,
                 g_original g = Some original
                 ∧ g_files g = original :: g_duplicates g
                 ∧ Forall (λ r, Files.created_timestamp original
                                ≤ Files.created_timestamp r) (g_duplicates g)))
         (findAllDuplicateGroups Demo.catalog_of_copies).
Proof.
  assert (no_error_rows Demo.catalog_of_copies) as Hclean
    by (unfold no_error_rows, Demo.catalog_of_copies; repeat constructor; done).
  split; [exact Hclean|]. exact (findAllDuplicateGroups_groups _ Hclean).
Defined.

(** ** The filesystem: a directory and what is below it *)
Section TreeFacts.

Lemma strip_prefix_app (dir rest : string) : strip_prefix dir (dir +:+ rest) = Some rest.
Proof.
  induction dir as [|a dir IH]; [done|].
  change (String a dir +:+ rest) with (String a (dir +:+ rest)). cbn.
  by rewrite bool_decide_eq_true_2.
Qed.

Lemma strip_prefix_Some (dir p rest : string) :
  strip_prefix dir p = Some rest → p = dir +:+ rest.
Proof.
  revert p. induction dir as [|a dir IH]; intros p; cbn; [by intros [= ->]|].
  destruct p as [|b p]; [done|]. case_bool_decide as Hab; [|done]. subst b.
  intros Hrest. change (String a dir +:+ rest) with (String a (dir +:+ rest)).
  f_equal. by apply IH.
Qed.

Lemma relative_Some (dir p rest : string) :
  relative dir p = Some rest → p = dir +:+ rest.
Proof.
  unfold relative. destruct (strip_prefix dir p) as [[|c r]|] eqn:Hs; [| |done].
  - intros [= <-]. by apply strip_prefix_Some.
  - destruct (NodePath.is_slash c); [|done]. intros [= <-]. by apply strip_prefix_Some.
Qed.

Lemma relative_rebase (dir dir' p rest : string) :
  relative dir p = Some rest → relative dir' (dir' +:+ rest) = Some rest.
Proof.
  unfold relative. rewrite strip_prefix_app.
  destruct (strip_prefix dir p) as [[|c r]|]; [| |done].
  - by intros [= <-].
  - destruct (NodePath.is_slash c) eqn:Hc; [|done]. intros [= <-]. by rewrite Hc.
Qed.

Lemma string_app_nil_r (p : string) : p +:+ "" = p.
Proof.
  induction p as [|a p IH]; [done|].
  change (String a p +:+ "") with (String a (p +:+ "")). by rewrite IH.
Qed.

Lemma relative_self (p : string) : relative p p = Some EmptyString.
Proof.
  unfold relative. rewrite <- (string_app_nil_r p) at 2. by rewrite strip_prefix_app.
Qed.

Lemma below_self (p : string) : below p p = true.
Proof. unfold below. rewrite relative_self. by apply bool_decide_eq_true_2. Qed.

Lemma below_false (dir p : string) : below dir p = false ↔ relative dir p = None.
Proof.
  unfold below. rewrite bool_decide_eq_false. destruct (relative dir p) as [rest|].
  - split; [|done]. intros Hn. exfalso. apply Hn. by eexists.
  - split; [done|]. by intros _ [? ?].
Qed.

Lemma below_true (dir p : string) : below dir p = true ↔ ∃ rest, relative dir p = Some rest.
Proof. unfold below. by rewrite bool_decide_eq_true. Qed.

Lemma below_ne (dir p : string) : below dir p = false → p ≠ dir.
Proof. intros Hb ->. by rewrite below_self in Hb. Qed.

Section MoveTree.
Context (src dst : string).

Let image (entry : string * string) : option (string * string) :=
  (λ rest, (dst +:+ rest, entry.2)) <$> relative src entry.1.

Lemma moved_entry (m : gmap string string) (p c : string) :
  (p, c) ∈ omap image (map_to_list m)
  ↔ ∃ q rest, m !! q = Some c ∧ relative src q = Some rest ∧ p = dst +:+ rest.
Proof.
  rewrite list_elem_of_omap. split.
  - intros ([q c'] & Hin%elem_of_map_to_list & Himg). unfold image in Himg. cbn in Himg.
    destruct (relative src q) as [rest|] eqn:Hrel; [|done]. cbn in Himg.
    injection Himg as <- <-. by exists q, rest.
  - intros (q & rest & Hq & Hrel & ->). exists (q, c). split; [by apply elem_of_map_to_list|].
    unfold image. cbn. by rewrite Hrel.
Qed.

Lemma move_tree_moved (m : gmap string string) (q rest c : string) :
  m !! q = Some c → relative src q = Some rest →
  move_tree src dst m !! (dst +:+ rest) = Some c.
Proof.
  intros Hq Hrel. unfold move_tree. apply lookup_union_Some_l.
  apply elem_of_list_to_map_1'.
  - intros c' (q' & rest' & Hq' & Hrel' & Heq)%moved_entry.
    apply relative_Some in Hrel as Hqe. apply relative_Some in Hrel' as Hqe'.
    assert (rest' = rest) as ->.
    { pose proof (strip_prefix_app dst rest) as H1. rewrite Heq in H1.
      rewrite strip_prefix_app in H1. by injection H1. }
    congruence.
  - apply moved_entry. by exists q, rest.
Qed.

Lemma move_tree_not_moved (m : gmap string string) (p : string) :
  relative dst p = None →
  move_tree src dst m !! p = if below src p then None else m !! p.
Proof.
  intros Hdst. unfold move_tree.
  assert ((list_to_map (omap image (map_to_list m)) : gmap string string) !! p = None)
    as Hnone.
  { apply not_elem_of_list_to_map_1. intros ([p' c] & -> & Hin)%list_elem_of_fmap.
    apply moved_entry in Hin as (q & rest & _ & Hrel & Hp). cbn in Hdst.
    rewrite Hp in Hdst. by rewrite (relative_rebase _ _ _ _ Hrel) in Hdst. }
  rewrite lookup_union_r by done.
  destruct (below src p) eqn:Hb.
  - apply map_lookup_filter_None. right. intros c _ Hrel. cbn in Hrel.
    apply below_false in Hrel. congruence.
  - apply below_false in Hb. destruct (m !! p) as [c|] eqn:Hp.
    + by apply map_lookup_filter_Some.
    + apply map_lookup_filter_None. by left.
Qed.

Lemma move_dirs_elem (dirs : gset string) (p : string) :
  p ∈ move_dirs src dst dirs
  ↔ (∃ q rest, q ∈ dirs ∧ relative src q = Some rest ∧ p = dst +:+ rest)
    ∨ (p ∈ dirs ∧ relative src p = None).
Proof.
  unfold move_dirs. rewrite elem_of_union, elem_of_set_omap, elem_of_filter.
  split; (intros [Hl|Hr]; [left|right]); try tauto.
  - destruct Hl as (q & Hq & Himg). destruct (relative src q) as [rest|] eqn:Hrel; [|done].
    cbn in Himg. injection Himg as <-. by exists q, rest.
  - destruct Hl as (q & rest & Hq & Hrel & ->). exists q. split; [done|]. by rewrite Hrel.
Qed.

End MoveTree.

Lemma move_tree_spec (src dst : string) (m : gmap string string) :
  tree_files_moved src dst m (move_tree src dst m).
Proof.
  split.
  - intros p rest content Hrel Hp. by eapply move_tree_moved.
  - intros p Hp. apply move_tree_not_moved. by apply below_false.
Qed.

Lemma move_dirs_spec (src dst : string) (dirs : gset string) :
  tree_dirs_moved src dst dirs (move_dirs src dst dirs).
Proof.
  split.
  - intros p rest Hrel Hp. apply move_dirs_elem. left. by exists p, rest.
  - intros p Hp%below_false. rewrite move_dirs_elem, below_false. split.
    + intros [(q & rest & _ & Hrel & ->)|[? ?]]; [|done].
      by rewrite (relative_rebase _ _ _ _ Hrel) in Hp.
    + intros [? ?]. by right.
Qed.

Lemma tree_files_moved_refl (src : string) (m : gmap string string) :
  tree_files_moved src src m m.
Proof.
  split.
  - intros p rest content Hrel Hp. by rewrite <- (relative_Some _ _ _ Hrel).
  - intros p Hp. by rewrite Hp.
Qed.

Lemma tree_dirs_moved_refl (src : string) (dirs : gset string) :
  tree_dirs_moved src src dirs dirs.
Proof.
  split.
  - intros p rest Hrel Hp. by rewrite <- (relative_Some _ _ _ Hrel).
  - intros p Hp. by split; [|intros [_ ?]].
Qed.

End TreeFacts.

(** ** The revert engine: one entry (C2) *)
Section RevertOperation.
Context `{Platform}.

Lemma fs_mkdir_frame (dir : string) (s s' : State) :
  fs_mkdir dir s = Ok s' →
  fs_files s' = fs_files s ∧ fs_dirs s' = fs_dirs s ∪ list_to_set (ancestors dir)
  ∧ tbl_files s' = tbl_files s ∧ tbl_operations s' = tbl_operations s
  ∧ tbl_errors s' = tbl_errors s ∧ uuid_counter s' = uuid_counter s.
Proof. unfold fs_mkdir. case_match; [done|]. by intros [= <-]. Qed.

(** A rename writes no row. *)
Lemma fs_rename_tables (src dst : string) (s s' : State) :
  fs_rename src dst s = Ok s' →
  tbl_files s' = tbl_files s ∧ tbl_operations s' = tbl_operations s
  ∧ tbl_errors s' = tbl_errors s ∧ uuid_counter s' = uuid_counter s.
Proof.
  unfold fs_rename, rename_directory. repeat case_match; try done; by intros [= <-].
Qed.

(** What a rename that returns has done: it has moved a regular file, or
    a directory with all that is below it. *)
Lemma fs_rename_cases (src dst : string) (s s' : State) :
  fs_rename src dst s = Ok s' →
  (∃ content, fs_files s !! src = Some content
     ∧ fs_files s' = <[dst := content]> (delete src (fs_files s))
     ∧ (dst ∉ fs_dirs s) ∧ (NodePath.dirname dst ∈ fs_dirs s)
     ∧ fs_dirs s' = fs_dirs s)
  ∨ (fs_files s !! src = None ∧ src ∈ fs_dirs s
     ∧ tree_files_moved src dst (fs_files s) (fs_files s')
     ∧ tree_dirs_moved src dst (fs_dirs s) (fs_dirs s')
     ∧ dst ∈ fs_dirs s').
Proof.
  unfold fs_rename, is_dir. destruct (fs_files s !! src) as [c|].
  - repeat case_bool_decide; cbn; try done. intros [= <-]. left. exists c.
    by repeat split.
  - case_bool_decide as Hsrc; [|done]. unfold rename_directory.
    case_bool_decide as Hsame.
    { intros [= <-]. subst dst. right. do 2 (split; [done|]).
      split; [apply tree_files_moved_refl|]. split; [apply tree_dirs_moved_refl|done]. }
    repeat case_match; try done. intros [= <-]. right. cbn.
    do 2 (split; [done|]). split; [apply move_tree_spec|].
    split; [apply move_dirs_spec|]. apply move_dirs_elem. left.
    exists src, EmptyString. split; [done|]. split; [apply relative_self|].
    by rewrite string_app_nil_r.
Qed.

(** A rename leaves alone what is at or below neither path. *)
Lemma fs_rename_other (src dst : string) (s s' : State) (p : string) :
  fs_rename src dst s = Ok s' → below src p = false → below dst p = false →
  fs_files s' !! p = fs_files s !! p ∧ (p ∈ fs_dirs s' ↔ p ∈ fs_dirs s).
Proof.
  intros [(c & _ & -> & _ & _ & ->)|(_ & _ & [_ Hf] & [_ Hd] & _)]%fs_rename_cases
         Hsrc Hdst.
  - apply below_ne in Hsrc, Hdst. split; [|done].
    by rewrite lookup_insert_ne, lookup_delete_ne.
  - rewrite Hf, Hd, Hsrc by done. split; [done|]. by split; [intros [_ ?]|].
Qed.

Lemma after_directory_step_frame (p : string) (s s' : State) :
  after_directory_step p s = Ok s' →
  fs_files s' = fs_files s ∧ fs_dirs s ⊆ fs_dirs s'
  ∧ tbl_files s' = tbl_files s ∧ tbl_operations s' = tbl_operations s
  ∧ tbl_errors s' = tbl_errors s ∧ uuid_counter s' = uuid_counter s.
Proof.
  unfold after_directory_step. case_match.
  - by intros [= <-].
  - intros (? & -> & ? & ? & ? & ?)%fs_mkdir_frame. repeat split; try done.
    set_solver.
Qed.

(** What is free after directories were added was free before. *)
Lemma occupied_mono (p : string) (s s1 : State) :
  fs_files s1 = fs_files s → fs_dirs s ⊆ fs_dirs s1 →
  occupied p s1 = false → occupied p s = false.
Proof.
  unfold occupied, is_file, is_dir. intros -> Hsub [Hf Hd]%orb_false_iff.
  rewrite Hf. cbn. apply bool_decide_eq_false in Hd. apply bool_decide_eq_false.
  intros Hin. by apply Hd, Hsub.
Qed.

(** A failed revert has moved no file and written no row. *)
Lemma revertOperation_throw_frame (operation : Operations.row) (s s' : State)
    (e : JsError) :
  revertOperation operation s = (Throw e, s') →
  fs_files s' = fs_files s ∧ fs_dirs s ⊆ fs_dirs s'
  ∧ tbl_files s' = tbl_files s ∧ tbl_operations s' = tbl_operations s
  ∧ tbl_errors s' = tbl_errors s ∧ uuid_counter s' = uuid_counter s.
Proof.
  unfold revertOperation. fold (after_directory_step (Operations.source_path operation) s).
  intros Hrun.
  repeat (case_match; simplify_eq; try done);
    match goal with
    | Hd : after_directory_step _ _ = Ok _ |- _ =>
        by apply after_directory_step_frame in Hd
    end.
Qed.

Lemma revert_errors_distinct :
  NoDup [E_not_a_move; E_already_reverted; E_missing_at_destination; E_modified;
         E_original_occupied].
Proof. apply (bool_decide_unpack _). by vm_compute. Qed.

(** C2: [revertOperation] raises its own error for each precondition that
    is violated (entry not a move; entry already reverted; nothing at the
    destination path; content at the destination no longer hashing to the
    recorded fingerprint; original path occupied), and whenever it raises
    any error, no file has moved and the files table and the ledger are as
    they were. *)
Theorem revertOperation_fails_atomically (operation : Operations.row) (s : State) :
  let run := revertOperation operation s in
  let dest := Operations.destination_path operation in
  let originalPath := Operations.source_path operation in
  let recorded := Operations.hash_used operation in
  (Operations.operation_type operation ≠ op_move → run.1 = Throw E_not_a_move) ∧
  (Operations.operation_type operation = op_move →
   Operations.status operation = reverted → run.1 = Throw E_already_reverted) ∧
  (Operations.operation_type operation = op_move →
   Operations.status operation ≠ reverted →
   is_Some (getFileById (Operations.file_id operation) (tbl_files s)) →
   (fs_access dest s ≠ Ok () → run.1 = Throw E_missing_at_destination) ∧
   (∀ currentPath, dest = Some currentPath → occupied currentPath s = true →
      (truthy recorded = true →
       ∀ h, calculateHash currentPath s = Ok h → Some h ≠ recorded →
            run.1 = Throw E_modified) ∧
      (truthy recorded = false
       ∨ (∃ h, calculateHash currentPath s = Ok h ∧ Some h = recorded) →
       occupied (NodePath.dirname originalPath) s = true →
       occupied originalPath s = true →
       run.1 = Throw E_original_occupied))) ∧
  NoDup [E_not_a_move; E_already_reverted; E_missing_at_destination; E_modified;
         E_original_occupied] ∧
  (∀ e, run.1 = Throw e →
        fs_files run.2 = fs_files s ∧ tbl_files run.2 = tbl_files s
        ∧ tbl_operations run.2 = tbl_operations s).
Proof.
  cbv zeta. split; [|split; [|split; [|split]]].
  - intros Htype. unfold revertOperation. by rewrite bool_decide_eq_true_2.
  - intros Htype Hst. unfold revertOperation.
    rewrite bool_decide_eq_false_2 by (by rewrite Htype; intros []).
    by rewrite bool_decide_eq_true_2.
  - intros Htype Hst [file Hfile].
    assert (∀ r, revertOperation operation s = r →
                 r = match Operations.destination_path operation,
                           fs_access (Operations.destination_path operation) s with
                     | Some _, Ok _ => r
                     | _, _ => (Throw E_missing_at_destination, s)
                     end) as Hhead.
    { intros r <-. unfold revertOperation.
      rewrite bool_decide_eq_false_2 by (by rewrite Htype; intros []).
      rewrite bool_decide_eq_false_2 by done. rewrite Hfile.
      by repeat case_match. }
    split.
    + intros Hacc. rewrite (Hhead _ eq_refl).
      destruct (Operations.destination_path operation) as [p|]; [|done].
      destruct (fs_access (Some p) s) as [[]|]; done.
    + intros currentPath Hdest Hocc.
      assert (fs_access (Some currentPath) s = Ok ()) as Hacc
        by (cbn; by rewrite Hocc).
      split.
      * intros Htruthy h Hh Hne. unfold revertOperation.
        rewrite bool_decide_eq_false_2 by (by rewrite Htype; intros []).
        rewrite bool_decide_eq_false_2 by done. rewrite Hfile, Hdest, Hacc.
        rewrite Htruthy, Hh. by rewrite bool_decide_eq_true_2.
      * intros Hpass Hdir Horig. unfold revertOperation.
        rewrite bool_decide_eq_false_2 by (by rewrite Htype; intros []).
        rewrite bool_decide_eq_false_2 by done. rewrite Hfile, Hdest, Hacc.
        assert ((if truthy (Operations.hash_used operation)
                 then match calculateHash currentPath s with
                      | Ok currentHash =>
                          if bool_decide (Some currentHash ≠ Operations.hash_used operation)
                          then Throw E_modified else Ok ()
                      | Throw e => Throw e
                      end
                 else Ok ()) = Ok ()) as ->.
        { destruct Hpass as [->|(h & -> & Hh)]; [done|].
          rewrite bool_decide_eq_false_2 by (intros Hn; by apply Hn).
          by destruct (truthy _). }
        cbn [fs_access]. rewrite Hdir. cbn [fs_access]. by rewrite Horig.
  - apply revert_errors_distinct.
  - intros e He. destruct (revertOperation operation s) as [r s'] eqn:Hrun.
    cbn in He. subst r.
    by apply revertOperation_throw_frame in Hrun as (? & _ & ? & ? & _).
Qed.

End RevertOperation.

(** ** The revert engine: a batch (C3) *)
Section RevertBatch.
Context `{Platform}.

Lemma cleanup_loop_frame (fuel : nat) (dir : string) (s : State) :
  let s' := cleanup_loop fuel dir s in
  fs_files s' = fs_files s ∧ fs_dirs s' ⊆ fs_dirs s
  ∧ tbl_files s' = tbl_files s ∧ tbl_operations s' = tbl_operations s
  ∧ tbl_errors s' = tbl_errors s ∧ uuid_counter s' = uuid_counter s.
Proof.
  cbv zeta. revert dir s. induction fuel as [|fuel IH]; intros dir s; cbn.
  { by repeat split. }
  destruct (fs_readdir dir s) as [[|? ?]|]; try by repeat split.
  unfold fs_rmdir. destruct (is_dir dir s); [|by repeat split].
  destruct (children dir s); [|by repeat split].
  specialize (IH (NodePath.dirname dir)
                 (with_fs (fs_files s) (fs_dirs s ∖ {[dir]}) s)).
  cbn in IH. destruct IH as (? & Hsub & ? & ? & ? & ?).
  repeat split; try done. intros x Hx. apply Hsub in Hx.
  by apply elem_of_difference in Hx as [? _].
Qed.

(** What a successful revert has done. *)
Lemma revertOperation_ok (operation : Operations.row) (s s' : State)
    (r : RevertResult) :
  revertOperation operation s = (Ok r, s') →
  ∃ file currentPath s1 s2,
    Operations.operation_type operation = op_move
    ∧ Operations.status operation ≠ reverted
    ∧ getFileById (Operations.file_id operation) (tbl_files s) = Some file
    ∧ Operations.destination_path operation = Some currentPath
    ∧ occupied currentPath s = true
    ∧ (truthy (Operations.hash_used operation) = true →
       ∃ content, fs_files s !! currentPath = Some content
                  ∧ Operations.hash_used operation = Some (sha256 content))
    ∧ after_directory_step (Operations.source_path operation) s = Ok s1
    ∧ occupied (Operations.source_path operation) s1 = false
    ∧ fs_rename currentPath (Operations.source_path operation) s1 = Ok s2
    ∧ fs_files s' = fs_files s2
    ∧ fs_dirs s' ⊆ fs_dirs s2
    ∧ tbl_files s' = updateFile (keeping file (Some (Operations.source_path operation))
                                         st_pending None) (tbl_files s)
    ∧ tbl_operations s' =
        insertOperation (uuid_counter s) (Files.id file) op_revert currentPath
          (Some (Operations.source_path operation)) (Operations.hash_used operation)
          ("Reverted operation " +:+ String_of_nat (Operations.id operation))
          completed
          (updateOperationStatus reverted (Operations.id operation) (tbl_operations s))
    ∧ tbl_errors s' = tbl_errors s
    ∧ uuid_counter s' = S (uuid_counter s)
    ∧ r = mkRevertResult true (Operations.id operation) (Files.id file)
                         (Operations.source_path operation) currentPath.
Proof.
  unfold revertOperation.
  fold (after_directory_step (Operations.source_path operation) s).
  case_bool_decide as Htype; [done|]. case_bool_decide as Hst; [done|].
  destruct (getFileById _ _) as [file|] eqn:Hfile; [|done].
  destruct (Operations.destination_path operation) as [currentPath|] eqn:Hdest;
    [|done].
  destruct (fs_access (Some currentPath) s) as [[]|] eqn:Hacc; [|done].
  destruct (if truthy (Operations.hash_used operation) then _ else _)
    as [[]|] eqn:Hint; [|done].
  destruct (after_directory_step _ s) as [s1|] eqn:Hdir; [|done].
  destruct (fs_access (Some (Operations.source_path operation)) s1)
    as [|e] eqn:Horig; [done|].
  case_bool_decide as Hcode; [done|].
  destruct (fs_rename currentPath _ s1) as [s2|] eqn:Hren; [|done].
  intros [= <- <-].
  pose proof (fs_rename_tables _ _ _ _ Hren) as (Htf & Hto & Hte & Hu).
  pose proof (after_directory_step_frame _ _ _ Hdir)
    as (Hf1 & Hd1 & Htf1 & Hto1 & Hte1 & Hu1).
  exists file, currentPath, s1, s2.
  pose proof (cleanup_loop_frame (String.length (NodePath.dirname currentPath) + 2)
                (NodePath.dirname currentPath)) as Hclean.
  unfold cleanupEmptyDirectories.
  match goal with |- context [cleanup_loop _ _ ?s6] => specialize (Hclean s6) end.
  cbv zeta in Hclean. destruct Hclean as (Hcf & Hcd & Hctf & Hcto & Hcte & Hcu).
  repeat split; try done;
    try (first [rewrite Hcf | rewrite Hctf | rewrite Hcto | rewrite Hcte | rewrite Hcu];
         cbn; by rewrite ?Htf, ?Hto, ?Hte, ?Hu, ?Htf1, ?Hto1, ?Hte1, ?Hu1).
  - unfold fs_access in Hacc. by destruct (occupied currentPath s).
  - intros Htr. rewrite Htr in Hint. unfold calculateHash in Hint.
    destruct (fs_files s !! currentPath) as [content|]; [|done].
    exists content. split; [done|]. by case_bool_decide as Hh.
  - unfold fs_access in Horig.
    by destruct (occupied (Operations.source_path operation) s1).
Qed.

(** Only the check of the entry's status raises "already reverted". *)
Lemma revertOperation_message (operation : Operations.row) (s s' : State)
    (e : JsError) :
  Operations.status operation ≠ reverted →
  revertOperation operation s = (Throw e, s') →
  message e ≠ "Operation already reverted".
Proof.
  intros Hst. unfold revertOperation.
  case_bool_decide; [by intros [= <- <-]|].
  rewrite bool_decide_eq_false_2 by done.
  unfold calculateHash, fs_mkdir, fs_rename, rename_directory, fs_access. intros Hrun.
  repeat (case_match; simplify_eq; try done).
Qed.

Lemma select_revertible_spec (batchId : nat) (tbl : list Operations.row) :
  select_revertible batchId tbl ≡ₚ filter (revertible batchId) tbl
  ∧ StronglySorted (λ a b, Operations.created_at b ≤ Operations.created_at a)
                   (select_revertible batchId tbl)
  ∧ Forall (revertible batchId) (select_revertible batchId tbl).
Proof.
  unfold select_revertible. split; [apply order_by_perm|].
  split; [apply order_by_desc_sorted|].
  apply Forall_forall. intros o Ho. apply elem_of_order_by in Ho.
  by apply list_elem_of_filter in Ho as [? _].
Qed.

(** The loop of [revertBatch] counts what [sweep] lists. *)
Lemma foldl_revert_step (operations : list Operations.row) (results : BatchResult)
    (s : State) :
  Forall (λ o, Operations.status o ≠ reverted) operations →
  let '(outcomes, s') := sweep operations s in
  foldl revert_step (results, s) operations =
    (mkBatchResult (br_batchId results) (br_totalOperations results)
       (br_reverted results + length (filter succeeded outcomes))
       (br_failed results + length (filter (λ o, ¬ succeeded o) outcomes))
       (br_skipped results)
       (br_errors results ++ omap failure_of outcomes), s')
  ∧ outcomes.*1 = operations.
Proof.
  revert results s. induction operations as [|o ops IH]; intros results s Hst; cbn.
  { rewrite !Nat.add_0_r, app_nil_r. by destruct results. }
  apply Forall_cons in Hst as [Ho Hops].
  destruct (revertOperation o s) as [r s1] eqn:Hrun.
  destruct r as [rr|e].
  - specialize (IH (mkBatchResult (br_batchId results) (br_totalOperations results)
                      (S (br_reverted results)) (br_failed results)
                      (br_skipped results) (br_errors results)) s1 Hops).
    destruct (sweep ops s1) as [outcomes s']. destruct IH as [-> <-]. cbn.
    rewrite decide_True by done. rewrite decide_False by (by intros []).
    cbn. split; [|done]. do 2 f_equal. by rewrite Nat.add_succ_r.
  - rewrite bool_decide_eq_false_2 by (by eapply revertOperation_message).
    specialize (IH (mkBatchResult (br_batchId results) (br_totalOperations results)
                      (br_reverted results) (S (br_failed results))
                      (br_skipped results)
                      (br_errors results ++ [mkBatchError (Operations.id o) (message e)]))
                   s1 Hops).
    destruct (sweep ops s1) as [outcomes s']. destruct IH as [-> <-]. cbn.
    rewrite decide_False by (by intros ?). rewrite decide_True by (by intros ?).
    cbn. split; [|done]. rewrite <- app_assoc. cbn. do 2 f_equal.
    by rewrite Nat.add_succ_r.
Qed.

Lemma set_status_not_revertible (batchId : nat) (o : Operations.row) :
  ¬ revertible batchId (set_status reverted o).
Proof. by intros (_ & _ & ?). Qed.

(** When every entry of the sweep is reverted, none is left to select. *)
Lemma sweep_all_ok (batchId : nat) (operations : list Operations.row) (s : State) :
  Forall succeeded (sweep operations s).1 →
  (∀ r, r ∈ tbl_operations s → revertible batchId r →
        ∃ r0, r0 ∈ operations ∧ Operations.id r0 = Operations.id r) →
  ∀ r, r ∈ tbl_operations (sweep operations s).2 → ¬ revertible batchId r.
Proof.
  revert s. induction operations as [|o ops IH]; intros s Hok Hcover; cbn in *.
  { intros r Hr Hrev. destruct (Hcover r Hr Hrev) as (r0 & Hr0 & _).
    by apply elem_of_nil in Hr0. }
  destruct (revertOperation o s) as [res s1] eqn:Hrun.
  destruct (sweep ops s1) as [outcomes s'] eqn:Hsweep. cbn in *.
  apply Forall_cons in Hok as [Ho Hok]. unfold succeeded in Ho. cbn in Ho.
  destruct res as [rr|]; [|done].
  specialize (IH s1). rewrite Hsweep in IH. apply IH; [done|].
  apply revertOperation_ok in Hrun
    as (file & cp & s0 & s2 & _ & _ & _ & _ & _ & _ & _ & _ & _ & _ & _ & _
        & Hops & _).
  rewrite Hops. unfold insertOperation, updateOperationStatus.
  intros r [Hr|Hr]%elem_of_app Hrev.
  - apply list_elem_of_fmap in Hr as (r1 & -> & Hr1).
    case_bool_decide as Hid.
    { by apply set_status_not_revertible in Hrev. }
    destruct (Hcover r1 Hr1 Hrev) as (r0 & [->|Hr0]%elem_of_cons & Heq); [done|].
    by exists r0.
  - apply list_elem_of_singleton in Hr as ->. by destruct Hrev as (_ & ? & _).
Qed.

(** With something selected, [revertBatch] returns the tally of the sweep
    over the selection. *)
Lemma revertBatch_runs (batchId : nat) (s : State) :
  let selected := select_revertible batchId (tbl_operations s) in
  let outcomes := (sweep selected s).1 in
  selected ≠ [] →
  revertBatch batchId s =
    (Ok (mkBatchResult batchId (length selected)
           (length (filter succeeded outcomes))
           (length (filter (λ o, ¬ succeeded o) outcomes))
           0 (omap failure_of outcomes)), (sweep selected s).2)
  ∧ outcomes.*1 = selected.
Proof.
  cbv zeta. intros Hne.
  destruct (select_revertible_spec batchId (tbl_operations s)) as (_ & _ & Hrev).
  unfold revertBatch.
  destruct (select_revertible batchId (tbl_operations s)) as [|o ops] eqn:Hsel; [done|].
  rewrite <- Hsel in *. clear Hne.
  assert (Forall (λ o, Operations.status o ≠ reverted)
                 (select_revertible batchId (tbl_operations s))) as Hst.
  { eapply Forall_impl; [exact Hrev|]. intros o' (_ & _ & ->). done. }
  pose proof (foldl_revert_step _ (mkBatchResult batchId
                (length (select_revertible batchId (tbl_operations s))) 0 0 0 []) s Hst)
    as Hfold.
  destruct (sweep (select_revertible batchId (tbl_operations s)) s)
    as [outcomes s'] eqn:Hsweep.
  destruct Hfold as [-> Hfst]. by cbn.
Qed.

(** C3 (as amended): [revertBatch] selects the completed move entries of
    the batch, newest first; with none it raises; otherwise it attempts
    every one of them in that order, each from the state the one before
    left, counts the successes and the failures, records every failure,
    and counts nothing as skipped. Once every entry is reverted, a second
    call on the same batch raises "No revertible operations found in
    batch" and changes nothing. *)
Theorem revertBatch_sweep (batchId : nat) (s : State) :
  let selected := select_revertible batchId (tbl_operations s) in
  let outcomes := (sweep selected s).1 in
  let s' := (sweep selected s).2 in
  let nothing := Throw (Error "No revertible operations found in batch") in
  selected ≡ₚ filter (revertible batchId) (tbl_operations s) ∧
  StronglySorted (λ a b, Operations.created_at b ≤ Operations.created_at a) selected ∧
  (selected = [] → revertBatch batchId s = (nothing, s)) ∧
  (selected ≠ [] →
     revertBatch batchId s =
       (Ok (mkBatchResult batchId (length selected)
              (length (filter succeeded outcomes))
              (length (filter (λ o, ¬ succeeded o) outcomes))
              0 (omap failure_of outcomes)), s')
     ∧ outcomes.*1 = selected
     ∧ (Forall succeeded outcomes → revertBatch batchId s' = (nothing, s'))).
Proof.
  cbv zeta.
  destruct (select_revertible_spec batchId (tbl_operations s)) as (Hperm & Hsort & Hrev).
  split; [done|]. split; [done|]. split.
  { unfold revertBatch. by intros ->. }
  intros Hne. destruct (revertBatch_runs batchId s Hne) as [Hrun Hatt].
  destruct (sweep (select_revertible batchId (tbl_operations s)) s)
    as [outcomes s'] eqn:Hsweep.
  cbn in Hrun, Hatt |- *. split; [done|]. split; [done|].
  intros Hall.
  assert (select_revertible batchId (tbl_operations s') = []) as Hnone.
  { unfold select_revertible.
    assert (filter (revertible batchId) (tbl_operations s') = []) as ->; [|done].
    destruct (filter (revertible batchId) (tbl_operations s')) as [|r rest] eqn:Hf;
      [done|].
    assert (r ∈ filter (revertible batchId) (tbl_operations s')) as Hr
      by (rewrite Hf; left).
    apply list_elem_of_filter in Hr as [Hr1 Hr2].
    pose proof (sweep_all_ok batchId (select_revertible batchId (tbl_operations s)) s)
      as Hdone.
    rewrite Hsweep in Hdone. cbn in Hdone. exfalso.
    eapply Hdone; [done| |exact Hr2|exact Hr1].
    intros r0 Hr0 Hrev0. exists r0. split; [|done].
    rewrite Hperm. by apply list_elem_of_filter. }
  unfold revertBatch. by rewrite Hnone.
Qed.

End RevertBatch.

(** C3, counterexample: after a batch of two moves is organized and
    reverted (both entries reverted, none failed), a second [revertBatch]
    on the same batch id raises instead of reporting the entries as
    skipped. *)
Lemma revertBatch_rerun_raises :
  ∃ st s1 r s2,
    @organizeFiles Demo.platform 101 "/dest" false None Demo.world = Some (st, s1)
    ∧ @revertBatch Demo.platform (os_batchId st) s1 = (Ok r, s2)
    ∧ br_reverted r = 2 ∧ br_failed r = 0 ∧ br_skipped r = 0
    ∧ @revertBatch Demo.platform (os_batchId st) s2 =
        (Throw (Error "No revertible operations found in batch"), s2).
Proof.
  do 4 eexists. split; [by vm_compute|]. split; [by vm_compute|].
  by vm_compute.
Qed.


(** ** The organizer and its ledger (C10) *)
Section OrganizerLedger.
Context `{Platform}.

(** Every path through [organizeFile] writes one row, of the batch and
    with status ['completed']; a move, dry or real, is the only path that
    writes a ['move'] row and the only one that adds to [operations]. *)
Lemma organizeFile_ledger (fuel : nat) (file : Files.row) (base : string)
    (batchId : nat) (dryRun : bool) (st st' : OrganizeStatus) (s s' : State) :
  organizeFile fuel file base batchId dryRun st s = Some (st', s') →
  ∃ e, tbl_operations s' = tbl_operations s ++ [e]
       ∧ Operations.batch_id e = batchId ∧ Operations.status e = completed
       ∧ os_batchId st' = os_batchId st
       ∧ ((∃ op, os_operations st' = os_operations st ++ [op] ∧ records dryRun op e)
          ∨ (os_operations st' = os_operations st
             ∧ Operations.operation_type e ≠ op_move)).
Proof.
  unfold organizeFile. destruct (plan_file fuel file base s) as [plan|]; [|done].
  cbn. intros [= Hrun]. destruct plan as [|existing|destPath].
  - simplify_eq. eexists. split; [reflexivity|]. cbn. repeat split; try done.
    by right.
  - simplify_eq. eexists. split; [reflexivity|]. cbn. repeat split; try done.
    by right.
  - destruct dryRun.
    + simplify_eq. eexists. split; [reflexivity|]. cbn. repeat split; try done.
      left. eexists. split; [reflexivity|]. by repeat split.
    + destruct (fs_mkdir _ s) as [s1|e1] eqn:Hmk.
      2:{ unfold organize_failed in Hrun. simplify_eq. eexists.
          split; [reflexivity|]. cbn. repeat split; try done. by right. }
      apply fs_mkdir_frame in Hmk as (_ & _ & _ & Hops1 & _).
      destruct (fs_rename _ _ s1) as [s2|e2] eqn:Hren.
      2:{ unfold organize_failed in Hrun. simplify_eq. eexists.
          split; [cbn; rewrite Hops1; reflexivity|]. cbn. repeat split; try done.
          by right. }
      apply fs_rename_tables in Hren as (_ & Hops2 & _).
      simplify_eq. eexists. split; [cbn; rewrite Hops2, Hops1; reflexivity|].
      cbn. repeat split; try done.
      left. eexists. split; [reflexivity|]. by repeat split.
Qed.

Lemma count_processed_frame (st : OrganizeStatus) :
  os_operations (count_processed st) = os_operations st
  ∧ os_batchId (count_processed st) = os_batchId st.
Proof. done. Qed.

Lemma organize_loop_ledger (fuel : nat) (files : list Files.row) (base : string)
    (batchId : nat) (dryRun : bool) (st st' : OrganizeStatus) (s s' : State) :
  organize_loop fuel files base batchId dryRun st s = Some (st', s') →
  ∃ entries ops,
    tbl_operations s' = tbl_operations s ++ entries
    ∧ os_operations st' = os_operations st ++ ops
    ∧ os_batchId st' = os_batchId st
    ∧ Forall (λ e, Operations.batch_id e = batchId ∧ Operations.status e = completed)
             entries
    ∧ Forall2 (records dryRun) ops
              (filter (λ e, Operations.operation_type e = op_move) entries).
Proof.
  revert st s. induction files as [|file rest IH]; intros st s; cbn.
  { intros [= <- <-]. exists [], []. rewrite !app_nil_r. repeat split; constructor. }
  destruct (organizeFile fuel file base batchId dryRun st s) as [[st1 s1]|] eqn:Hone;
    [|done].
  cbn. intros Hrest. apply IH in Hrest as (entries & ops & Hle & Hop & Hb & Hall & Hrec).
  apply organizeFile_ledger in Hone as (e & Hle1 & Hb1 & Hst1 & Hbid & Hcase).
  exists (e :: entries).
  destruct Hcase as [(op & Hop1 & Hrec1)|[Hop1 Hne]].
  - exists (op :: ops). rewrite Hle, Hle1, Hop, Hb. cbn. rewrite Hop1, Hbid.
    rewrite <- !app_assoc. repeat split; try done.
    + by constructor.
    + rewrite decide_True by apply Hrec1. by constructor.
  - exists ops. rewrite Hle, Hle1, Hop, Hb. cbn. rewrite Hop1, Hbid.
    rewrite <- !app_assoc. repeat split; try done.
    + by constructor.
    + by rewrite decide_False.
Qed.

(** A dry run touches neither the filesystem nor the error table. *)
Lemma organizeFile_dry_fs (fuel : nat) (file : Files.row) (base : string)
    (batchId : nat) (st st' : OrganizeStatus) (s s' : State) :
  organizeFile fuel file base batchId true st s = Some (st', s') →
  fs_files s' = fs_files s ∧ fs_dirs s' = fs_dirs s
  ∧ tbl_errors s' = tbl_errors s ∧ uuid_counter s' = uuid_counter s.
Proof.
  unfold organizeFile. destruct (plan_file fuel file base s) as [[| |]|]; [| | |done];
    cbn; by intros [= <- <-].
Qed.

Lemma organize_loop_dry_fs (fuel : nat) (files : list Files.row) (base : string)
    (batchId : nat) (st st' : OrganizeStatus) (s s' : State) :
  organize_loop fuel files base batchId true st s = Some (st', s') →
  fs_files s' = fs_files s ∧ fs_dirs s' = fs_dirs s
  ∧ tbl_errors s' = tbl_errors s ∧ uuid_counter s' = uuid_counter s.
Proof.
  revert st s. induction files as [|file rest IH]; intros st s; cbn.
  { by intros [= <- <-]. }
  destruct (organizeFile fuel file base batchId true st s) as [[st1 s1]|] eqn:Hone;
    [|done].
  cbn. intros (-> & -> & -> & ->)%IH. by apply organizeFile_dry_fs in Hone.
Qed.

(** [organizeFiles] runs the loop on the pending files under a fresh batch
    id. *)
Lemma organizeFiles_unfold (fuel : nat) (base : string) (dryRun : bool)
    (fileIds : option (list nat)) (s : State) (st : OrganizeStatus) (s' : State) :
  organizeFiles fuel base dryRun fileIds s = Some (st, s') →
  ∃ st1,
    organize_loop fuel (filesToOrganize fileIds (tbl_files s)) base (uuid_counter s)
      dryRun
      (mkOrgStatus (uuid_counter s) base dryRun "in_progress"
         (length (filesToOrganize fileIds (tbl_files s))) 0 0 0 0 0 [])
      (uuidv4 s).2 = Some (st1, s')
    ∧ st = finish "completed" st1.
Proof.
  unfold organizeFiles. cbn.
  destruct (organize_loop _ _ _ _ _ _ _) as [[st1 s1]|]; [|done].
  cbn. intros [= <- <-]. by exists st1.
Qed.

(** The rows a batch of [organizeFiles] writes: one row of kind ['move']
    and status ['completed'] for each element of [operations], dry run or
    real, and [revertBatch] on the batch id selects these rows and attempts
    each. *)
Lemma organizeFiles_ledger_rows (fuel : nat) (base : string) (dryRun : bool)
    (fileIds : option (list nat)) (s : State) (st : OrganizeStatus) (s' : State) :
  organizeFiles fuel base dryRun fileIds s = Some (st, s') →
  ∃ entries,
    let moves := filter (λ e, Operations.operation_type e = op_move) entries in
    let attempted :=
      (sweep (select_revertible (os_batchId st) (tbl_operations s')) s').1.*1 in
    tbl_operations s' = tbl_operations s ++ entries
    ∧ Forall2 (records dryRun) (os_operations st) moves
    ∧ Forall (revertible (os_batchId st)) moves
    ∧ (dryRun = true → fs_files s' = fs_files s ∧ fs_dirs s' = fs_dirs s)
    ∧ (moves ≠ [] →
       is_ok (revertBatch (os_batchId st) s').1 = true ∧ moves ⊆ attempted).
Proof.
  intros (st1 & Hloop & ->)%organizeFiles_unfold.
  pose proof (organize_loop_ledger _ _ _ _ _ _ _ _ _ Hloop)
    as (entries & ops & Hle & Hop & Hb & Hall & Hrec).
  cbn in Hle, Hop, Hb. exists entries. cbv zeta. cbn [os_batchId os_operations finish].
  rewrite Hb, Hop.
  assert (Forall (revertible (uuid_counter s))
            (filter (λ e, Operations.operation_type e = op_move) entries)) as Hrev.
  { apply Forall_forall. intros e [Hmove He]%list_elem_of_filter.
    rewrite Forall_forall in Hall. destruct (Hall e He) as [? ?]. by repeat split. }
  split; [done|]. split; [done|]. split; [done|]. split.
  { intros ->. apply organize_loop_dry_fs in Hloop as (-> & -> & _). done. }
  intros Hne.
  assert (filter (λ e, Operations.operation_type e = op_move) entries
            ⊆ select_revertible (uuid_counter s) (tbl_operations s')) as Hsub.
  { intros e He. unfold select_revertible. apply elem_of_order_by.
    apply list_elem_of_filter. split.
    - rewrite Forall_forall in Hrev. by apply Hrev.
    - rewrite Hle. apply elem_of_app. right.
      by apply list_elem_of_filter in He as [_ ?]. }
  destruct (revertBatch_runs (uuid_counter s) s') as (Hrun & Hatt).
  { intros Hnil. rewrite Hnil in Hsub.
    destruct (filter _ entries) as [|e ?]; [done|].
    specialize (Hsub e). rewrite elem_of_nil in Hsub. apply Hsub. left. }
  rewrite Hrun. split; [done|]. by rewrite Hatt.
Qed.

End OrganizerLedger.

(** [revertBatch] on the batch id of a dry run of the demo world: both
    rows are attempted and both attempts fail, as nothing is at the
    destinations. *)
Example revertBatch_of_a_dry_run :
  ('(st, s') ← @organizeFiles Demo.platform 101 "/dest" true None Demo.world;
   Some (@revertBatch Demo.platform (os_batchId st) s').1)
  = Some (Ok (mkBatchResult 1 2 0 2 0
                [mkBatchError 2 "File no longer exists at destination path";
                 mkBatchError 1 "File no longer exists at destination path"])).
Proof. vm_compute. reflexivity. Qed.


(** ** Dry runs (C8) *)
Section DryRun.
Context `{Platform}.

Lemma handleCollision_loop_ext (fuel : nat) (s1 s2 : State) (destPath : string)
    (hash : option string) (finalPath : string) (counter : nat) :
  (∀ p, occupied p s1 = occupied p s2) →
  handleCollision_loop fuel s1 destPath hash finalPath counter
  = handleCollision_loop fuel s2 destPath hash finalPath counter.
Proof.
  intros Hocc. revert finalPath counter.
  induction fuel as [|fuel IH]; intros finalPath counter; cbn; [done|].
  unfold fileExists, fs_access. rewrite Hocc.
  destruct (occupied finalPath s2); cbn; [|done].
  destruct (bool_decide (100 < S counter) && truthy hash); [done|]. apply IH.
Qed.

(** The plan for a file depends on the state through what is occupied and
    through the duplicate check only. *)
Lemma plan_file_ext (fuel : nat) (file : Files.row) (base : string) (s1 s2 : State) :
  fs_files s1 = fs_files s2 → fs_dirs s1 = fs_dirs s2 →
  (∀ h x, checkForExistingDuplicate h x (tbl_files s1)
          = checkForExistingDuplicate h x (tbl_files s2)) →
  plan_file fuel file base s1 = plan_file fuel file base s2.
Proof.
  intros Hf Hd Hc.
  assert (∀ p, occupied p s1 = occupied p s2) as Hocc.
  { intros p. unfold occupied, is_file, is_dir. by rewrite Hf, Hd. }
  unfold plan_file, fs_access, handleCollision. rewrite Hocc, Hc.
  destruct (occupied _ s2); cbn; [|done].
  destruct (checkForExistingDuplicate _ _ _); [done|].
  by rewrite (handleCollision_loop_ext _ s1 s2).
Qed.

Lemma updateFile_ids (u : Files.update) (tbl : list Files.row) :
  Files.id <$> updateFile u tbl = Files.id <$> tbl.
Proof.
  unfold updateFile. rewrite <- list_fmap_compose. apply list_fmap_ext.
  intros _ r _. cbn. unfold apply_update. by case_bool_decide.
Qed.

Lemma updateFile_other (u : Files.update) (tbl : list Files.row) (g : Files.row) :
  g ∈ tbl → Files.id g ≠ Files.u_id u → g ∈ updateFile u tbl.
Proof.
  intros Hg Hne. unfold updateFile. apply list_elem_of_fmap. exists g. split; [|done].
  unfold apply_update. by rewrite bool_decide_eq_false_2.
Qed.

(** The primary key: a row is determined by its id. *)
Lemma row_of_id (tbl : list Files.row) (f r : Files.row) :
  NoDup (Files.id <$> tbl) → f ∈ tbl → r ∈ tbl → Files.id r = Files.id f → r = f.
Proof.
  intros Hnd Hf Hr Hid.
  apply list_elem_of_lookup in Hf as [i Hi]. apply list_elem_of_lookup in Hr as [j Hj].
  assert (i = j) as ->; [|congruence].
  eapply NoDup_lookup; [exact Hnd| |]; rewrite list_lookup_fmap.
  - by rewrite Hi.
  - rewrite Hj. cbn. by rewrite Hid.
Qed.

Lemma updateFile_keeping_current_path (tbl : list Files.row) (f : Files.row)
    (st : FileStatus) (dup : option nat) :
  NoDup (Files.id <$> tbl) → f ∈ tbl →
  Files.current_path <$> updateFile (keeping f (Files.current_path f) st dup) tbl
  = Files.current_path <$> tbl.
Proof.
  intros Hnd Hf. unfold updateFile. rewrite <- list_fmap_compose.
  apply list_fmap_ext. intros i r Hr. cbn. unfold apply_update.
  case_bool_decide as Hid; [|done]. cbn in *.
  assert (r = f) as -> by (eapply row_of_id; eauto using list_elem_of_lookup_2).
  done.
Qed.

Lemma find_fmap_same {A} (p : A → bool) (g : A → A) (l : list A) :
  (∀ x, x ∈ l → g x = x ∨ (p x = false ∧ p (g x) = false)) →
  find p (g <$> l) = find p l.
Proof.
  induction l as [|x l IH]; intros Hg; cbn; [done|].
  destruct (Hg x) as [->|[-> ->]]; [left| |];
    (rewrite IH; [done|]); intros y Hy; apply Hg; by right.
Qed.

Lemma updateFile_keeping_check (tbl : list Files.row) (f : Files.row)
    (cp : option string) (st : FileStatus) (dup : option nat)
    (h : option string) (x : nat) :
  NoDup (Files.id <$> tbl) → f ∈ tbl → Files.status f ≠ st_moved → st ≠ st_moved →
  checkForExistingDuplicate h x (updateFile (keeping f cp st dup) tbl)
  = checkForExistingDuplicate h x tbl.
Proof.
  intros Hnd Hf Hnm Hst. unfold checkForExistingDuplicate. destruct h as [h|]; [|done].
  unfold updateFile. apply find_fmap_same. intros r Hr. unfold apply_update.
  case_bool_decide as Hid; [|by left]. right. cbn in *.
  assert (r = f) as -> by (eapply row_of_id; eauto).
  rewrite !(bool_decide_eq_false_2 (_ = st_moved)) by done.
  by rewrite !andb_false_r.
Qed.

(** One file of a dry run: the row written is the one the plan calls for;
    the filesystem stays, and so do the paths and the duplicate check. *)
Lemma organizeFile_dry_step (fuel : nat) (f : Files.row) (base : string)
    (batchId : nat) (st st1 : OrganizeStatus) (s s1 : State) :
  organizeFile fuel f base batchId true st s = Some (st1, s1) →
  NoDup (Files.id <$> tbl_files s) → f ∈ tbl_files s → Files.status f = st_pending →
  (∃ plan e, plan_file fuel f base s = Some plan
             ∧ tbl_operations s1 = tbl_operations s ++ [e]
             ∧ ledger_view e = planned_entry f plan)
  ∧ Files.current_path <$> tbl_files s1 = Files.current_path <$> tbl_files s
  ∧ Files.id <$> tbl_files s1 = Files.id <$> tbl_files s
  ∧ (∀ h x, checkForExistingDuplicate h x (tbl_files s1)
            = checkForExistingDuplicate h x (tbl_files s))
  ∧ (∀ g, g ∈ tbl_files s → Files.id g ≠ Files.id f → g ∈ tbl_files s1).
Proof.
  unfold organizeFile. intros Hrun Hnd Hf Hpend.
  destruct (plan_file fuel f base s) as [plan|] eqn:Hplan; [|done].
  cbn in Hrun. destruct plan as [|existing|destPath]; simplify_eq; cbn.
  - split; [|done]. eexists _, _. split; [done|]. split; [done|]. done.
  - split; [eexists _, _; split; [done|]; split; [done|]; done|].
    split; [by apply updateFile_keeping_current_path|].
    split; [by apply updateFile_ids|].
    split; [intros h x; apply updateFile_keeping_check; try done; by rewrite Hpend|].
    intros g Hg Hne. by apply updateFile_other.
  - split; [|done]. eexists _, _. split; [done|]. split; [done|]. done.
Qed.

Lemma organize_loop_dry_decisions (fuel : nat) (base : string) (batchId : nat)
    (files : list Files.row) (st st' : OrganizeStatus) (s s' : State) :
  organize_loop fuel files base batchId true st s = Some (st', s') →
  NoDup (Files.id <$> tbl_files s) → NoDup (Files.id <$> files) →
  Forall (λ f, f ∈ tbl_files s ∧ Files.status f = st_pending) files →
  Files.current_path <$> tbl_files s' = Files.current_path <$> tbl_files s
  ∧ ∃ entries,
      tbl_operations s' = tbl_operations s ++ entries
      ∧ Forall2 (λ file e, ∃ plan, plan_file fuel file base s = Some plan
                                   ∧ ledger_view e = planned_entry file plan)
                files entries.
Proof.
  revert st s. induction files as [|f rest IH]; intros st s; cbn.
  { intros [= <- <-] _ _ _. split; [done|]. exists []. by rewrite app_nil_r. }
  destruct (organizeFile fuel f base batchId true st s) as [[st1 s1]|] eqn:Hone;
    [|done].
  cbn. intros Hrest Hnd [Hfresh Hndf]%NoDup_cons [[Hf Hpend] Hall]%Forall_cons.
  pose proof (organizeFile_dry_fs _ _ _ _ _ _ _ _ Hone) as (Hfs & Hds & _).
  apply organizeFile_dry_step in Hone
    as ((plan & e & Hplan & Hops & Hview) & Hcp & Hids & Hchk & Hkeep); try done.
  apply IH in Hrest as (Hcp' & entries & Hops' & Hrec).
  - split; [by rewrite Hcp', Hcp|]. exists (e :: entries).
    split; [by rewrite Hops', Hops, <- app_assoc|].
    constructor; [by exists plan|].
    eapply Forall2_impl; [exact Hrec|]. intros g e' (plan' & Hp' & Hv').
    exists plan'. split; [|done]. rewrite <- Hp'. symmetry. by apply plan_file_ext.
  - by rewrite Hids.
  - done.
  - rewrite Forall_forall in Hall. apply Forall_forall. intros g Hg.
    destruct (Hall g Hg) as [Hgt Hgp]. split; [|done]. apply Hkeep; [done|].
    intros Heq. apply Hfresh. rewrite <- Heq. by apply list_elem_of_fmap_2.
Qed.

(** The pending rows selected are rows of the table, each once. *)
Lemma filesToOrganize_spec (fileIds : option (list nat)) (tbl : list Files.row) :
  NoDup (Files.id <$> tbl) →
  NoDup (Files.id <$> filesToOrganize fileIds tbl)
  ∧ Forall (λ f, f ∈ tbl ∧ Files.status f = st_pending) (filesToOrganize fileIds tbl).
Proof.
  intros Hnd. unfold filesToOrganize, getFilesByStatus.
  destruct fileIds as [[|i ids]|];
    (split;
     [ eapply sublist_NoDup; [exact Hnd|]; apply fmap_sublist, sublist_filter
     | apply Forall_forall; intros f Hf; apply list_elem_of_filter in Hf;
       destruct Hf as [Hp Hf]; split; [done|]; try done; by destruct Hp ]).
Qed.

(** What the real run does with a file, given the plan for it: the row the
    plan calls for, with the row of the file then at the planned
    destination, or, when creating the directory or renaming throws, an
    ['error'] row and no move. *)
Lemma organizeFile_real_follows_plan (fuel : nat) (file : Files.row) (base : string)
    (batchId : nat) (st : OrganizeStatus) (s : State) (plan : Plan) :
  plan_file fuel file base s = Some plan →
  ∃ st2 s2 e,
    organizeFile fuel file base batchId false st s = Some (st2, s2)
    ∧ tbl_operations s2 = tbl_operations s ++ [e]
    ∧ match plan with
      | MoveTo destPath =>
          (ledger_view e = planned_entry file plan
           ∧ tbl_files s2 = updateFile (keeping file (Some destPath) st_moved None)
                                       (tbl_files s))
          ∨ (Operations.operation_type e = op_error
             ∧ fs_files s2 = fs_files s ∧ tbl_files s2 = tbl_files s)
      | _ => ledger_view e = planned_entry file plan ∧ fs_files s2 = fs_files s
      end.
Proof.
  intros Hplan. unfold organizeFile. rewrite Hplan. cbn.
  destruct plan as [|existing|destPath].
  - eexists _, _, _. split; [done|]. by cbn.
  - eexists _, _, _. split; [done|]. by cbn.
  - destruct (fs_mkdir _ s) as [s1|e1] eqn:Hmk.
    2:{ eexists _, _, _. split; [done|]. cbn. split; [done|]. by right. }
    apply fs_mkdir_frame in Hmk as (Hf1 & _ & Ht1 & Hops1 & _).
    destruct (fs_rename _ _ s1) as [s2|e2] eqn:Hren.
    2:{ eexists _, _, _. split; [done|]. cbn. rewrite Hops1. split; [done|].
        right. by rewrite Hf1, Ht1. }
    apply fs_rename_tables in Hren as (Ht2 & Hops2 & _).
    eexists _, _, _. split; [done|]. cbn. rewrite Hops2, Hops1. split; [done|].
    left. split; [done|]. by rewrite Ht2, Ht1.
Qed.

(** A dry run leaves the filesystem and every [current_path] as they
    are, and records for each selected file the plan for it from the state
    before the batch; a real [organizeFile] from that state follows the
    same plan. *)
Lemma dry_run_follows_plan (fuel : nat) (base : string) (fileIds : option (list nat))
    (s : State) (st : OrganizeStatus) (s' : State) :
  NoDup (Files.id <$> tbl_files s) →
  organizeFiles fuel base true fileIds s = Some (st, s') →
  fs_files s' = fs_files s ∧ fs_dirs s' = fs_dirs s
  ∧ Files.current_path <$> tbl_files s' = Files.current_path <$> tbl_files s
  ∧ (∃ entries,
       tbl_operations s' = tbl_operations s ++ entries
       ∧ Forall2 (λ file e, ∃ plan, plan_file fuel file base s = Some plan
                                    ∧ ledger_view e = planned_entry file plan)
                 (filesToOrganize fileIds (tbl_files s)) entries)
  ∧ (∀ file plan batchId st0,
       plan_file fuel file base s = Some plan →
       ∃ st2 s2 e,
         organizeFile fuel file base batchId false st0 s = Some (st2, s2)
         ∧ tbl_operations s2 = tbl_operations s ++ [e]
         ∧ (ledger_view e = planned_entry file plan
            ∨ (∃ destPath, plan = MoveTo destPath)
              ∧ Operations.operation_type e = op_error ∧ fs_files s2 = fs_files s)).
Proof.
  intros Hnd (st1 & Hloop & ->)%organizeFiles_unfold.
  pose proof (organize_loop_dry_fs _ _ _ _ _ _ _ _ Hloop) as (Hf & Hd & _).
  destruct (filesToOrganize_spec fileIds (tbl_files s) Hnd) as [Hsel Hall].
  apply organize_loop_dry_decisions in Hloop as (Hcp & entries & Hops & Hrec);
    try done.
  split; [done|]. split; [done|]. split; [done|]. split.
  - exists entries. split; [done|].
    eapply Forall2_impl; [exact Hrec|]. intros f e (plan & Hp & Hv). exists plan.
    split; [|done]. rewrite <- Hp. by apply plan_file_ext.
  - intros file plan batchId st0 Hplan.
    destruct (organizeFile_real_follows_plan fuel file base batchId st0 s plan Hplan)
      as (st2 & s2 & e & Hrun & Hops2 & Hcase).
    exists st2, s2, e. split; [done|]. split; [done|].
    destruct plan as [|existing|destPath]; try (left; apply Hcase).
    destruct Hcase as [[Hv _]|(Herr & Hfs & _)]; [by left|right].
    split; [by exists destPath|]. done.
Qed.

End DryRun.

(** C8, the defect in the decisions: two pending files that map to one
    destination. The dry run records [/dest/2023/07/15/a.txt] for both; the
    real run that follows it moves the second to
    [/dest/2023/07/15/a (1).txt]. *)
Lemma dry_run_differs_from_real_run :
  ('(st_dry, s_dry) ← @organizeFiles Demo.platform 101 "/dest" true None
                        Demo.colliding_world;
   '(st_real, s_real) ← @organizeFiles Demo.platform 101 "/dest" false None s_dry;
   Some (oo_destination <$> os_operations st_dry,
         oo_destination <$> os_operations st_real))
  = Some (["/dest/2023/07/15/a.txt"; "/dest/2023/07/15/a.txt"],
          ["/dest/2023/07/15/a.txt"; "/dest/2023/07/15/a (1).txt"]).
Proof. vm_compute. reflexivity. Qed.


(** ** Paths: what collision resolution needs of [path.join] *)
Section PathFacts.
Import NodePath.

Lemma chars_unchars (l : list ascii) : chars (unchars l) = l.
Proof. induction l as [|c l IH]; cbn; [done|]. by rewrite IH. Qed.

Lemma unchars_chars (str : string) : unchars (chars str) = str.
Proof. induction str as [|c str IH]; cbn; [done|]. by rewrite IH. Qed.

Lemma chars_app (a b : string) : chars (a +:+ b) = chars a ++ chars b.
Proof.
  induction a as [|c a IH]; [done|].
  change (String c a +:+ b) with (String c (a +:+ b)). cbn. by rewrite IH.
Qed.

Lemma length_chars (str : string) : length (chars str) = String.length str.
Proof. induction str as [|c str IH]; cbn; [done|]. by rewrite IH. Qed.

Lemma chars_substring (n : nat) (str : string) :
  chars (String.substring 0 n str) = take n (chars str).
Proof.
  revert str. induction n as [|n IH]; intros [|c str]; cbn; try done.
  by rewrite IH.
Qed.

Lemma take_while_Forall (p : ascii → bool) (l : list ascii) :
  Forall (λ c, p c = true) (take_while p l).
Proof.
  induction l as [|c l IH]; cbn; [constructor|].
  destruct (p c) eqn:Hp; by constructor.
Qed.

Lemma last_component_no_slash (l : list ascii) : no_slash (last_component l).
Proof.
  unfold last_component, no_slash.
  apply Forall_rev. eapply Forall_impl; [apply take_while_Forall|].
  intros c Hc ->. by vm_compute in Hc.
Qed.

Lemma extname_chars_no_slash (l : list ascii) : no_slash (extname_chars l).
Proof.
  unfold extname_chars. pose proof (last_component_no_slash l) as Hc.
  destruct (last_dot _) as [[|d]|]; try constructor.
  case_bool_decide; [constructor|]. by apply Forall_drop.
Qed.

Lemma last_dot_lt (l : list ascii) (d : nat) : last_dot l = Some d → d < length l.
Proof.
  revert d. induction l as [|c l IH]; intros d; cbn; [done|].
  destruct (last_dot l) as [i|].
  - intros [= <-]. specialize (IH i eq_refl). lia.
  - case_bool_decide; [|done]. intros [= <-]. lia.
Qed.

Lemma extname_chars_is_suffix (l : list ascii) :
  extname_chars l ≠ [] → is_suffix (extname_chars l) (last_component l) = true.
Proof.
  unfold extname_chars, is_suffix. set (comp := last_component l).
  destruct (last_dot comp) as [[|d]|] eqn:Hd; try done.
  case_bool_decide; [done|]. intros _. apply last_dot_lt in Hd.
  rewrite length_drop. apply andb_true_iff. split; apply bool_decide_eq_true; [|lia].
  f_equal. lia.
Qed.

Lemma basename_of_extname_no_slash (l : list ascii) :
  no_slash (basename_chars l (extname_chars l)).
Proof.
  unfold basename_chars. pose proof (last_component_no_slash l) as Hc.
  pose proof (extname_chars_is_suffix l) as Hsuf.
  destruct (extname_chars l) as [|e0 ext]; [done|].
  rewrite Hsuf by done. repeat case_bool_decide; try done; try constructor.
  by apply Forall_take.
Qed.

Lemma dirname_chars_nonempty (l : list ascii) : dirname_chars l ≠ [].
Proof.
  unfold dirname_chars. destruct l as [|c0 tl]; [done|].
  repeat case_match; done.
Qed.

Lemma split_go_app (cur a b : list ascii) :
  split_go cur (a ++ slash :: b) = split_go cur a ++ split_go [] b.
Proof.
  revert cur. induction a as [|c a IH]; intros cur; cbn.
  - unfold is_slash. by rewrite bool_decide_eq_true_2.
  - destruct (is_slash c); cbn; by rewrite IH.
Qed.

Lemma split_go_no_slash (cur n : list ascii) :
  no_slash n → split_go cur n = [rev cur ++ n].
Proof.
  intros Hn. revert cur. induction Hn as [|c n Hc Hn IH]; intros cur; cbn.
  - by rewrite app_nil_r.
  - unfold is_slash. rewrite bool_decide_eq_false_2 by done. rewrite IH. cbn.
    by rewrite <- app_assoc.
Qed.

Lemma intercalate_snoc (segs : list (list ascii)) (n : list ascii) :
  intercalate (segs ++ [n]) = concat ((λ seg, seg ++ [slash]) <$> segs) ++ n.
Proof.
  induction segs as [|x segs IH]; cbn; [done|].
  rewrite IH. destruct segs; cbn; by rewrite <- !app_assoc.
Qed.

Lemma ends_with_slash_name (a n : list ascii) :
  plain_name n → ends_with_slash (a ++ slash :: n) = false.
Proof.
  intros (Hns & Hne & _). unfold ends_with_slash.
  destruct (rev n) as [|c r] eqn:Hr.
  { apply (f_equal (@rev _)) in Hr. rewrite rev_involutive in Hr. done. }
  replace (a ++ slash :: n) with ((a ++ [slash]) ++ n) by (by rewrite <- app_assoc).
  rewrite rev_app_distr, Hr. cbn.
  assert (c ∈ n) as Hc.
  { apply list_elem_of_In, in_rev. rewrite Hr. by left. }
  unfold no_slash in Hns. rewrite Forall_forall in Hns.
  unfold is_slash. apply bool_decide_eq_false_2. by apply Hns.
Qed.

Lemma norm_step_plain (allow : bool) (stack : list (list ascii)) (n : list ascii) :
  plain_name n → norm_step allow stack n = n :: stack.
Proof.
  intros (_ & ? & ? & ?). unfold norm_step. by rewrite !bool_decide_eq_false_2.
Qed.

(** Joining a plain name to a directory appends it to what the directory
    normalizes to. *)
Lemma join_chars_plain (a : list ascii) :
  a ≠ [] →
  ∃ prefix, ∀ n', plain_name n' → join_chars a n' = prefix ++ n'.
Proof.
  intros Ha. destruct a as [|c0 a]; [done|].
  set (stack := foldl (norm_step (negb (is_slash c0))) [] (split (c0 :: a))).
  exists ((if is_slash c0 then [slash] else [])
          ++ concat ((λ seg, seg ++ [slash]) <$> rev stack)).
  intros n' Hn'. pose proof Hn' as (Hns & Hne & Hd1 & Hd2).
  unfold join_chars. destruct n' as [|c n']; [done|].
  set (n := c :: n') in *. unfold normalize_chars.
  change ((c0 :: a) ++ slash :: n) with (c0 :: (a ++ slash :: n)).
  cbv zeta.
  change (c0 :: (a ++ slash :: n)) with ((c0 :: a) ++ slash :: n).
  rewrite ends_with_slash_name by done.
  unfold split. rewrite split_go_app, (split_go_no_slash [] n) by done. cbn [rev app].
  rewrite foldl_app. cbn [foldl]. fold (split (c0 :: a)). fold stack.
  rewrite !norm_step_plain by done.
  cbn [rev]. destruct (rev stack ++ [n]) as [|x l] eqn:Hsegs.
  { by destruct (rev stack). }
  rewrite <- Hsegs, intercalate_snoc, app_nil_r.
  destruct (is_slash c0); cbn; by rewrite <- ?app_assoc.
Qed.

Lemma join_chars_inj (a n1 n2 : list ascii) :
  a ≠ [] → plain_name n1 → plain_name n2 →
  join_chars a n1 = join_chars a n2 → n1 = n2.
Proof.
  intros Ha H1 H2. destruct (join_chars_plain a Ha) as [prefix Hp].
  rewrite (Hp n1 H1), (Hp n2 H2). by intros ?%app_inv_head.
Qed.

End PathFacts.

(** ** Collision resolution (C6) *)
Section Collision.
Context `{Platform}.
Import NodePath.

Lemma suffixed_name_plain (base tag ext : list ascii) :
  no_slash base → no_slash tag → no_slash ext →
  plain_name (base ++ chars " (" ++ tag ++ chars ")" ++ ext).
Proof.
  intros Hb Ht He. split.
  - unfold no_slash. rewrite !Forall_app. repeat split; try done.
    + by repeat constructor.
    + by repeat constructor.
  - assert (" "%char ∈ base ++ chars " (" ++ tag ++ chars ")" ++ ext) as Hsp.
    { rewrite !elem_of_app. right. left. cbn. left. }
    repeat split; intros Heq; rewrite Heq in Hsp;
      repeat (apply elem_of_cons in Hsp as [Hsp|Hsp]; [done|]);
      by apply elem_of_nil in Hsp.
Qed.

(** Two tags without a separator give one path only when they are equal. *)
Lemma suffixed_inj (destPath t1 t2 : string) :
  no_slash (chars t1) → no_slash (chars t2) →
  suffixed destPath t1 = suffixed destPath t2 → t1 = t2.
Proof.
  intros H1 H2. unfold suffixed, join, basename, extname, dirname.
  intros Heq%(f_equal chars). rewrite !chars_unchars in Heq.
  rewrite !chars_app, !chars_unchars in Heq.
  apply join_chars_inj in Heq.
  - apply app_inv_head in Heq. apply (app_inv_head (chars " (")) in Heq.
    apply app_inv_tail in Heq. rewrite <- (unchars_chars t1), <- (unchars_chars t2).
    by rewrite Heq.
  - apply dirname_chars_nonempty.
  - apply suffixed_name_plain;
      auto using basename_of_extname_no_slash, extname_chars_no_slash.
  - apply suffixed_name_plain;
      auto using basename_of_extname_no_slash, extname_chars_no_slash.
Qed.

Lemma numerals_short (j : nat) : j ≤ 100 → short_numeral j = true.
Proof.
  intros Hj.
  assert (forallb short_numeral (seq 0 101) = true) as Hall by (by vm_compute).
  rewrite forallb_forall in Hall. apply Hall, in_seq. lia.
Qed.

Lemma forallb_no_slash (p : ascii → bool) (l : list ascii) :
  (∀ c, p c = true → c ≠ slash) → forallb p l = true → no_slash l.
Proof.
  intros Hp Hl. unfold no_slash. apply Forall_forall. intros c Hc.
  rewrite forallb_forall in Hl. apply Hp, Hl. by apply list_elem_of_In.
Qed.

Lemma hashed_differs_from_numbered (destPath hash : string) (j : nat) :
  is_sha256_hex hash = true → j ≤ 100 →
  hashed destPath hash ≠ numbered destPath j.
Proof.
  intros [Hlen Hhex]%andb_true_iff Hj. apply bool_decide_eq_true in Hlen.
  apply numerals_short in Hj as [Hshort Hdigits]%andb_true_iff.
  apply bool_decide_eq_true in Hshort.
  unfold hashed, numbered. intros Heq%suffixed_inj.
  - apply (f_equal String.length) in Heq. rewrite <- !length_chars in Heq.
    rewrite chars_substring, length_take, length_chars in Heq.
    rewrite <- length_chars in Hshort. lia.
  - rewrite chars_substring. apply Forall_take.
    apply (forallb_no_slash is_hex); [|done]. intros c Hc ->. by vm_compute in Hc.
  - apply (forallb_no_slash (λ c, negb (is_slash c))); [|done].
    intros c Hc ->. by vm_compute in Hc.
Qed.

(** The loop from candidate [i] on (at most 99): it stops at the first free
    candidate up to number 99, and with all of them occupied it returns the
    fingerprint-suffixed path; [100 - i] turns are enough. *)
Lemma handleCollision_loop_from (destPath hash : string) (s : State) (n i fuel : nat) :
  truthy (Some hash) = true → i + S n = 100 → S n ≤ fuel →
  ∃ p, handleCollision_loop fuel s destPath (Some hash) (candidate_path destPath i) (S i)
       = Some p
       ∧ ((∃ k, i ≤ k ≤ 99 ∧ p = candidate_path destPath k
                ∧ fileExists p s = false
                ∧ ∀ j, i ≤ j < k → fileExists (candidate_path destPath j) s = true)
          ∨ (p = hashed destPath hash
             ∧ ∀ j, i ≤ j ≤ 99 → fileExists (candidate_path destPath j) s = true)).
Proof.
  intros Hh. revert i fuel. induction n as [|n IH]; intros i fuel Hi Hfuel;
    (destruct fuel as [|fuel]; [lia|]); cbn [handleCollision_loop];
    destruct (fileExists (candidate_path destPath i) s) eqn:Hex.
  - (* candidate 99 is occupied: the counter passes 100 *)
    rewrite bool_decide_eq_true_2 by lia. rewrite Hh. cbn.
    eexists. split; [done|]. right. split; [done|].
    intros j Hj. by replace j with i by lia.
  - eexists. split; [done|]. left. exists i. repeat split; try done; lia.
  - rewrite bool_decide_eq_false_2 by lia. cbn [andb].
    destruct (IH (S i) fuel) as (p & Hrun & Hcase); [lia..|].
    exists p. split; [exact Hrun|].
    destruct Hcase as [(k & Hk & -> & Hfree & Hocc)|[-> Hocc]].
    + left. exists k. repeat split; try done; try lia.
      intros j Hj. destruct (decide (j = i)) as [->|]; [done|]. apply Hocc. lia.
    + right. split; [done|].
      intros j Hj. destruct (decide (j = i)) as [->|]; [done|]. apply Hocc. lia.
  - eexists. split; [done|]. left. exists i. repeat split; try done; lia.
Qed.

Lemma handleCollision_loop_mono (fuel fuel' : nat) (s : State) (destPath : string)
    (hash : option string) (finalPath : string) (counter : nat) (p : string) :
  fuel ≤ fuel' →
  handleCollision_loop fuel s destPath hash finalPath counter = Some p →
  handleCollision_loop fuel' s destPath hash finalPath counter = Some p.
Proof.
  revert fuel' finalPath counter.
  induction fuel as [|fuel IH]; intros fuel' finalPath counter Hle; [done|].
  destruct fuel' as [|fuel']; [lia|]. cbn.
  destruct (fileExists finalPath s); [|done].
  destruct (bool_decide (100 < S counter) && truthy hash); [done|].
  apply IH. lia.
Qed.

(** The loop stops at the first free candidate; with a fingerprint that
    candidate is among the first hundred. *)
Lemma handleCollision_loop_first_free (destPath : string) (hash : option string)
    (s : State) (k : nat) :
  fileExists (candidate_path destPath k) s = false →
  (truthy hash = true → k ≤ 99) →
  ∀ fuel i,
    i ≤ k → k - i < fuel →
    (∀ j, i ≤ j < k → fileExists (candidate_path destPath j) s = true) →
    handleCollision_loop fuel s destPath hash (candidate_path destPath i) (S i)
    = Some (candidate_path destPath k).
Proof.
  intros Hfree Hbound. induction fuel as [|fuel IH]; intros i Hi Hfuel Hocc; [lia|].
  cbn [handleCollision_loop]. destruct (decide (i = k)) as [->|Hne].
  { by rewrite Hfree. }
  rewrite Hocc by lia.
  assert (bool_decide (100 < S (S i)) && truthy hash = false) as ->.
  { destruct (truthy hash); [|by rewrite andb_false_r].
    rewrite bool_decide_eq_false_2; [done|]. specialize (Hbound eq_refl). lia. }
  apply (IH (S i)); [lia..|]. intros j Hj. apply Hocc. lia.
Qed.

Lemma String_of_nat_inj (i j : nat) : String_of_nat i = String_of_nat j → i = j.
Proof.
  unfold String_of_nat. intros Heq%(f_equal NilEmpty.uint_of_string).
  rewrite !NilEmpty.usu in Heq. injection Heq as Heq.
  apply (f_equal Nat.of_uint) in Heq. by rewrite !DecimalNat.Unsigned.of_to in Heq.
Qed.

Lemma String_of_nat_no_slash (i : nat) : no_slash (chars (String_of_nat i)).
Proof.
  unfold String_of_nat. induction (Nat.to_uint i) as [|d IH|d IH|d IH|d IH|d IH|d IH
                                                        |d IH|d IH|d IH|d IH];
    cbn; constructor; done.
Qed.

Lemma numbered_inj (destPath : string) (i j : nat) :
  numbered destPath i = numbered destPath j → i = j.
Proof.
  intros Heq%suffixed_inj; [by apply String_of_nat_inj|apply String_of_nat_no_slash..].
Qed.

(** The least element of a decidable property of numbers that holds
    somewhere. *)
Lemma least_false (f : nat → bool) (k : nat) :
  f k = false → ∃ k0, k0 ≤ k ∧ f k0 = false ∧ ∀ j, j < k0 → f j = true.
Proof.
  intros Hk.
  assert (∀ n, (∀ j, j < n → f j = true)
               ∨ ∃ k0, k0 < n ∧ f k0 = false ∧ ∀ j, j < k0 → f j = true) as Hscan.
  { induction n as [|n [IH|IH]].
    - left. lia.
    - destruct (f n) eqn:Hn.
      + left. intros j Hj. destruct (decide (j = n)) as [->|]; [done|]. apply IH. lia.
      + right. exists n. split; [lia|done].
    - right. destruct IH as (k0 & ? & ? & ?). exists k0. split; [lia|done]. }
  destruct (Hscan (S k)) as [Hall|(k0 & ? & ? & ?)].
  - rewrite Hall in Hk by lia. done.
  - exists k0. split; [lia|done].
Qed.

(** The filesystem holds finitely many paths, and the numbered candidates
    are pairwise distinct: one of them is free. *)
Lemma free_candidate (destPath : string) (s : State) :
  ∃ k, fileExists (candidate_path destPath k) s = false
       ∧ ∀ j, j < k → fileExists (candidate_path destPath j) s = true.
Proof.
  set (X := dom (fs_files s) ∪ fs_dirs s).
  assert (∀ p, fileExists p s = true → p ∈ X) as Hocc.
  { intros p. unfold fileExists, fs_access, occupied, is_file, is_dir.
    destruct (bool_decide (is_Some _)) eqn:Hf; cbn.
    - intros _. apply bool_decide_eq_true in Hf. apply elem_of_union. left.
      by apply elem_of_dom.
    - destruct (bool_decide (p ∈ fs_dirs s)) eqn:Hd; [|done].
      intros _. apply bool_decide_eq_true in Hd. apply elem_of_union. by right. }
  set (l := seq 1 (S (size X))).
  destruct (decide (Forall (λ k, fileExists (numbered destPath k) s = true) l))
    as [Hall|Hsome].
  - exfalso. rewrite Forall_forall in Hall.
    assert (NoDup (numbered destPath <$> l)) as Hnd.
    { apply NoDup_fmap_2; [|apply NoDup_seq]. intros i j. apply numbered_inj. }
    assert (list_to_set (numbered destPath <$> l) ⊆ X) as Hsub.
    { intros p (k & -> & Hk)%elem_of_list_to_set%list_elem_of_fmap.
      by apply Hocc, Hall. }
    apply subseteq_size in Hsub. rewrite size_list_to_set in Hsub by done.
    rewrite length_fmap in Hsub. unfold l in Hsub. rewrite length_seq in Hsub. lia.
  - apply not_Forall_Exists in Hsome; [|apply _].
    apply Exists_exists in Hsome as (k & Hk & Hfree). cbn in Hfree.
    apply elem_of_seq in Hk.
    destruct (least_false (λ j, fileExists (candidate_path destPath j) s) k)
      as (k0 & _ & ? & ?).
    { destruct k as [|k]; [lia|]. cbn. by destruct (fileExists _ s). }
    by exists k0.
Qed.


(** Every run of [handleCollision] with enough fuel returns. *)
Lemma handleCollision_total (destPath : string) (hash : option string) (s : State) :
  ∃ fuel0 p, ∀ fuel, fuel0 ≤ fuel → handleCollision fuel destPath hash s = Some p.
Proof.
  destruct (truthy hash) eqn:Htruthy.
  - destruct hash as [h|]; [|done].
    destruct (handleCollision_loop_from destPath h s 99 0 100 Htruthy)
      as (p & Hrun & _); [lia..|].
    exists 100, p. intros fuel Hfuel. by apply (handleCollision_loop_mono 100).
  - destruct (free_candidate destPath s) as (k & Hfree & Hocc).
    exists (S k), (candidate_path destPath k). intros fuel Hfuel.
    refine (handleCollision_loop_first_free destPath hash s k Hfree _ fuel 0 _ _ _);
      try lia.
    + by rewrite Htruthy.
    + intros j Hj. apply Hocc. lia.
Qed.

End Collision.

(** The outcomes on the demo world: a free path is kept, an occupied one
    gets [ (1)], and with the proposed path and all 99 numbered variants
    occupied the fingerprint suffix is used; without a fingerprint the loop
    goes on to [ (100)], one test more. *)
Example handleCollision_examples :
  let crowded :=
    with_fs (list_to_map ((λ i, (candidate_path "/dest/a.txt" i, "x")) <$> seq 0 100))
            {[ "/"; "/dest" ]} Demo.world in
  handleCollision 100 "/dest/a.txt" (Some (Demo.digest "hello")) Demo.world
    = Some "/dest/a.txt"
  ∧ handleCollision 100 "/src/a.txt" (Some (Demo.digest "hello")) Demo.world
    = Some "/src/a (1).txt"
  ∧ handleCollision 100 "/dest/a.txt" (Some (Demo.digest "hello")) crowded
    = Some "/dest/a (68656c6c).txt"
  ∧ handleCollision 100 "/dest/a.txt" None crowded = None
  ∧ handleCollision 101 "/dest/a.txt" None crowded = Some "/dest/a (100).txt".
Proof. vm_compute. repeat split. Qed.


(** ** The scanner: a scan is the fold of its events *)
Section ScannerRefinement.
Context `{Platform}.

(** Induction on a directory tree, with the hypothesis for every
    subdirectory among the entries. *)
Lemma Dir_nested_ind (P : Dir → Prop) :
  (∀ e, P (Unreadable e)) →
  (∀ entries,
      Forall (λ entry, match entry with DirEntry _ sub => P sub | _ => True end)
             entries →
      P (Listing entries)) →
  ∀ dir, P dir.
Proof.
  intros Hunreadable Hlisting. fix IH 1. intros [e|entries]; [apply Hunreadable|].
  apply Hlisting. induction entries as [|entry l IHl]; constructor; [|exact IHl].
  destruct entry as [name info|name sub|name]; [exact I|apply IH|exact I].
Qed.

Global Instance same_catalog_equiv : Equivalence same_catalog.
Proof.
  split.
  - by intros w.
  - intros w1 w2 (H1 & H2 & H3). by repeat split.
  - intros w1 w2 w3 (H1 & H2 & H3) (H4 & H5 & H6). unfold same_catalog.
    by rewrite H1, H2, H3.
Qed.

Lemma updateSession_same (status : string) (done : bool) (w : ScanWorld) :
  same_catalog (updateSession status done w) w.
Proof. unfold updateSession. by destruct (sc_sessionId _) as [[|i]|]. Qed.

Lemma processFile_same (file : string * option FileInfo) (w1 w2 : ScanWorld) :
  same_catalog w1 w2 → same_catalog (processFile file w1) (processFile file w2).
Proof.
  destruct w1 as [st1 f1 e1 ss1], w2 as [st2 f2 e2 ss2]. unfold same_catalog. cbn.
  intros (-> & -> & ->). unfold processFile. destruct file as [filePath info]. cbn.
  by repeat case_match.
Qed.

Lemma handle_same (ev : ScanEvent) (w1 w2 : ScanWorld) :
  same_catalog w1 w2 → same_catalog (handle w1 ev) (handle w2 ev).
Proof.
  destruct ev as [|file|dirPath e]; [|apply processFile_same|];
    destruct w1 as [st1 f1 e1 ss1], w2 as [st2 f2 e2 ss2]; unfold same_catalog; cbn;
    by intros (-> & -> & ->).
Qed.

Lemma foldl_handle_same (evs : list ScanEvent) (w1 w2 : ScanWorld) :
  same_catalog w1 w2 → same_catalog (foldl handle w1 evs) (foldl handle w2 evs).
Proof.
  revert w1 w2. induction evs as [|ev evs IH]; intros w1 w2 Hw; cbn; [done|].
  by apply IH, handle_same.
Qed.

Lemma processBatch_events (files : list (string * option FileInfo)) (w : ScanWorld) :
  processBatch files w = foldl handle w (VisitFile <$> files).
Proof.
  unfold processBatch. revert w. induction files as [|f files IH]; intros w; cbn; [done|].
  apply IH.
Qed.

(** The batches cover the files once, in order. *)
Lemma batch_loop_events (fuel i : nat) (files : list (string * option FileInfo))
    (w : ScanWorld) :
  length files ≤ i + fuel →
  same_catalog (batch_loop fuel i files w) (foldl handle w (VisitFile <$> drop i files)).
Proof.
  revert i w. induction fuel as [|fuel IH]; intros i w Hlen; cbn [batch_loop].
  { rewrite drop_ge by lia. done. }
  case_bool_decide as Hi.
  2:{ rewrite drop_ge by lia. done. }
  etrans; [apply IH; unfold config.batchSize; lia|].
  assert (drop i files = take config.batchSize (drop i files)
                         ++ drop (i + config.batchSize) files) as Hsplit.
  { rewrite <- drop_drop. symmetry. apply take_drop. }
  transitivity (foldl handle w
                  (VisitFile <$> (take config.batchSize (drop i files)
                                  ++ drop (i + config.batchSize) files)));
    [|by rewrite <- Hsplit].
  rewrite fmap_app, foldl_app, !processBatch_events.
  apply foldl_handle_same. case_bool_decide; [apply updateSession_same|done].
Qed.

Lemma foldl_handle_skipped (k : nat) (w : ScanWorld) :
  foldl handle w (replicate k Skipped) = map_status (Nat.iter k skip_one) w.
Proof.
  revert w. induction k as [|k IH]; intros w; cbn [replicate foldl].
  { by destruct w. }
  rewrite IH. unfold map_status.
  cbn [handle map_status w_status w_files w_errors w_sessions]. f_equal.
  by rewrite <- Nat.iter_succ_r.
Qed.

(** [processDirectory] handles the events of the tree, in order. *)
Lemma processDirectory_events (dir : Dir) (recursive : bool) :
  ∀ (dirPath : string) (w : ScanWorld),
    same_catalog (processDirectory dirPath dir recursive w)
                 (foldl handle w (events dirPath dir recursive)).
Proof.
  induction dir as [e|entries IH] using Dir_nested_ind; intros dirPath w.
  { done. }
  cbn [processDirectory events]. rewrite !foldl_app, foldl_handle_skipped.
  set (files := files_of dirPath entries).
  set (w1 := map_status (Nat.iter (skipped_of entries) skip_one) w).
  pose proof (batch_loop_events (length files) 0 files w1 ltac:(lia)) as Hbatch.
  rewrite drop_0 in Hbatch. revert Hbatch.
  generalize (batch_loop (length files) 0 files w1).
  generalize (foldl handle w1 (VisitFile <$> files)). clear w w1.
  induction IH as [|entry l Hentry Hl IHl]; intros wb wa Hw; [done|].
  destruct entry as [name info|name sub|name]; try by apply IHl.
  destruct (recursive && negb (shouldSkipDirectory name)); [|by apply IHl].
  rewrite foldl_app. apply IHl. etrans; [apply Hentry|]. by apply foldl_handle_same.
Qed.

(** [countFiles] counts the files the scan then visits. *)
Lemma visited_app (evs1 evs2 : list ScanEvent) :
  visited (evs1 ++ evs2) = visited evs1 ++ visited evs2.
Proof. apply omap_app. Qed.

Lemma visited_skipped (k : nat) : visited (replicate k Skipped) = [].
Proof. induction k as [|k IH]; [done|]. exact IH. Qed.

Lemma visited_files (files : list (string * option FileInfo)) :
  visited (VisitFile <$> files) = files.
Proof. induction files as [|f files IH]; [done|]. cbn. f_equal. exact IH. Qed.

(** [countFiles] counts the files the scan then visits. *)
Lemma countFiles_visited (dir : Dir) (recursive : bool) :
  ∀ dirPath, countFiles dir recursive = length (visited (events dirPath dir recursive)).
Proof.
  induction dir as [e|entries IH] using Dir_nested_ind; intros dirPath; [done|].
  cbn [countFiles events].
  rewrite !visited_app, visited_skipped, visited_files, !length_app.
  cbn [length Nat.add app].
  induction IH as [|entry l Hentry Hl IHl]; [done|].
  destruct entry as [name info|name sub|name].
  - rewrite IHl. unfold files_of. cbn [omap list_omap].
    destruct (shouldSkipFile name); cbn [length app]; lia.
  - rewrite visited_app, length_app, IHl.
    unfold files_of. cbn [omap list_omap].
    destruct (recursive && negb (shouldSkipDirectory name)).
    + rewrite (Hentry (NodePath.join dirPath name)). lia.
    + cbn [visited omap list_omap length]. lia.
  - rewrite IHl. unfold files_of. by cbn [omap list_omap].
Qed.

Lemma find_app_path (p : string) (tbl rows : list Files.row) :
  getFileByPath p (tbl ++ rows)
  = match getFileByPath p tbl with
    | Some r => Some r
    | None => getFileByPath p rows
    end.
Proof.
  unfold getFileByPath. induction tbl as [|r tbl IH]; [done|]. cbn.
  by destruct (bool_decide _).
Qed.

Lemma getFileByPath_None (p : string) (tbl : list Files.row) :
  getFileByPath p tbl = None ↔ p ∉ Files.original_path <$> tbl.
Proof.
  unfold getFileByPath. induction tbl as [|r tbl IH]; cbn.
  { split; [intros _; apply not_elem_of_nil|done]. }
  rewrite not_elem_of_cons. case_bool_decide as Hr.
  - split; [done|]. by intros [? _].
  - rewrite IH. split; [by intros ?; split|by intros [_ ?]].
Qed.

(** The three ways of [processFile]: the path is catalogued already; the
    file is read and a row is added for it; reading it throws. *)
Lemma processFile_cases (file : string * option FileInfo) (w : ScanWorld) :
  (is_Some (getFileByPath file.1 (w_files w))
   ∧ processFile file w = map_status (tally 0 1 0) w)
  ∨ (getFileByPath file.1 (w_files w) = None ∧ readable file = true
     ∧ ∃ row, Files.original_path row = file.1
              ∧ processFile file w
                = mkWorld (tally 1 0 0 (w_status w)) (w_files w ++ [row])
                          (w_errors w) (w_sessions w))
  ∨ (getFileByPath file.1 (w_files w) = None ∧ readable file = false
     ∧ ∃ msg, processFile file w
              = scan_logError file.1 "file_processing" msg
                              (map_status (tally 0 0 1) w)).
Proof.
  destruct file as [filePath info]. unfold processFile, readable, ingest. cbn [fst snd].
  destruct (getFileByPath filePath (w_files w)) as [existing|] eqn:Hget; [by left|].
  right. destruct (extractAllMetadata filePath info) as [metadata|e].
  2:{ right. repeat split; try done. by eexists. }
  destruct (calculateHashes info (md_size metadata)) as [hashes|e].
  2:{ right. repeat split; try done. by eexists. }
  left. unfold insertFile. rewrite Hget.
  rewrite bool_decide_eq_false_2 by (by intros [? ?]).
  do 2 (split; [done|]). by eexists (Files.mk _ filePath _ _ _ _ _ _ _ _ _ _ _ _ _ _ _ _).
Qed.

Lemma failed_dirs_app (evs1 evs2 : list ScanEvent) :
  failed_dirs (evs1 ++ evs2) = failed_dirs evs1 ++ failed_dirs evs2.
Proof. apply omap_app. Qed.

Lemma accounted_app (w1 w2 w3 : ScanWorld) (evs1 evs2 : list ScanEvent) :
  accounted w1 evs1 w2 → accounted w2 evs2 w3 → accounted w1 (evs1 ++ evs2) w3.
Proof.
  intros (Hs1 & He1 & Ht1 & Hp1 & errs1 & Herr1 & Hd1 & Hl1 & Hc1)
         (Hs2 & He2 & Ht2 & Hp2 & errs2 & Herr2 & Hd2 & Hl2 & Hc2).
  unfold accounted. rewrite Hs2, He2, Ht2, Hp2, Hp1, Hc2, Hc1, visited_app, length_app.
  do 3 (split; [done|]). split; [lia|].
  exists (errs1 ++ errs2). rewrite Herr2, Herr1, <- (assoc app). split; [done|].
  unfold file_errors, directory_errors in *.
  rewrite !filter_app, failed_dirs_app, fmap_app, !length_app, Hd1, Hd2, Hl1, Hl2.
  split; [done|]. split; lia.
Qed.

Lemma handle_accounted (w : ScanWorld) (ev : ScanEvent) : accounted w [ev] (handle w ev).
Proof.
  unfold accounted. destruct ev as [|file|dirPath e]; cbn [handle].
  - cbn. do 3 (split; [done|]). split; [lia|]. exists []. rewrite (right_id [] app).
    split; [done|]. split; [done|]. split; [done|]. cbn. lia.
  - destruct (processFile_cases file w)
      as [[_ ->]|[(_ & _ & row & _ & ->)|(_ & _ & msg & ->)]]; cbn.
    + do 3 (split; [done|]). split; [lia|]. exists []. rewrite (right_id [] app).
      split; [done|]. split; [done|]. split; [done|]. cbn. lia.
    + do 3 (split; [done|]). split; [lia|]. exists []. rewrite (right_id [] app).
      split; [done|]. split; [done|]. split; [done|]. cbn. lia.
    + do 3 (split; [done|]). split; [lia|]. eexists [_]. split; [done|].
      unfold file_errors. cbn.
      split; [done|]. split; [done|]. case_decide; try done; cbn; lia.
  - cbn. do 3 (split; [done|]). split; [lia|]. eexists [_]. split; [done|].
    unfold file_errors. cbn.
      split; [done|]. split; [done|]. case_decide; try done; cbn; lia.
Qed.

(** The counters and the errors after a run of events. *)
Lemma foldl_handle_accounted (evs : list ScanEvent) :
  ∀ w, accounted w evs (foldl handle w evs).
Proof.
  induction evs as [|ev evs IH]; intros w.
  { unfold accounted. cbn. do 3 (split; [done|]). split; [lia|]. exists [].
    rewrite (right_id [] app). split; [done|]. split; [done|]. split; [done|]. cbn. lia. }
  change (ev :: evs) with ([ev] ++ evs) at 1. cbn [foldl].
  eapply accounted_app; [apply handle_accounted|apply IH].
Qed.

(** A catalogued path stays catalogued, and the table keeps its rows. *)
Lemma handle_files_grow (w : ScanWorld) (ev : ScanEvent) :
  ∃ rows, w_files (handle w ev) = w_files w ++ rows
          ∧ (NoDup (Files.original_path <$> w_files w) →
             NoDup (Files.original_path <$> w_files (handle w ev))).
Proof.
  destruct ev as [|file|dirPath e]; cbn [handle].
  - exists []. by rewrite (right_id [] app).
  - destruct (processFile_cases file w)
      as [[_ ->]|[(Hnone & _ & row & Hrow & ->)|(_ & _ & msg & ->)]]; cbn.
    + exists []. by rewrite (right_id [] app).
    + exists [row]. split; [done|]. intros Hnd. rewrite fmap_app. cbn.
      apply NoDup_app. split; [done|]. split; [|apply NoDup_singleton].
      intros p Hp ->%list_elem_of_singleton. rewrite Hrow in Hp.
      by apply getFileByPath_None in Hnone.
    + exists []. by rewrite (right_id [] app).
  - exists []. by rewrite (right_id [] app).
Qed.

Lemma foldl_handle_files_grow (evs : list ScanEvent) :
  ∀ w, ∃ rows, w_files (foldl handle w evs) = w_files w ++ rows
               ∧ (NoDup (Files.original_path <$> w_files w) →
                  NoDup (Files.original_path <$> w_files (foldl handle w evs))).
Proof.
  induction evs as [|ev evs IH]; intros w; cbn [foldl].
  { exists []. by rewrite (right_id [] app). }
  destruct (handle_files_grow w ev) as (rows1 & Hrows1 & Hnd1).
  destruct (IH (handle w ev)) as (rows2 & Hrows2 & Hnd2).
  exists (rows1 ++ rows2). split; [|by auto].
  by rewrite Hrows2, Hrows1, (assoc app).
Qed.

Lemma foldl_handle_keeps_path (evs : list ScanEvent) (w : ScanWorld) (p : string) :
  is_Some (getFileByPath p (w_files w)) →
  is_Some (getFileByPath p (w_files (foldl handle w evs))).
Proof.
  intros [r Hr]. destruct (foldl_handle_files_grow evs w) as (rows & -> & _).
  rewrite find_app_path, Hr. by eexists.
Qed.

(** Every file the scan visits is catalogued at the end, unless reading
    it throws. *)
Lemma foldl_handle_catalogued (evs : list ScanEvent) :
  ∀ w file, file ∈ visited evs →
    is_Some (getFileByPath file.1 (w_files (foldl handle w evs)))
    ∨ readable file = false.
Proof.
  induction evs as [|ev evs IH]; intros w file Hin; [by apply elem_of_nil in Hin|].
  cbn [foldl]. destruct ev as [|file'|dirPath e]; cbn in Hin; try by apply IH.
  apply elem_of_cons in Hin as [->|Hin]; [|by apply IH].
  cbn [handle].
  destruct (processFile_cases file' w)
    as [[Hsome Heq]|[(_ & _ & row & Hrow & Heq)|(_ & Hread & _)]]; [| |by right].
  - left. apply foldl_handle_keeps_path. by rewrite Heq.
  - left. apply foldl_handle_keeps_path. rewrite Heq. cbn [w_files].
    rewrite find_app_path. destruct (getFileByPath _ (w_files w)); [by eexists|].
    unfold getFileByPath. cbn. rewrite bool_decide_eq_true_2 by done. by eexists.
Qed.

(** A scan over files that are catalogued or cannot be read adds no row. *)
Lemma foldl_handle_nothing_new (evs : list ScanEvent) :
  ∀ w,
    (∀ file, file ∈ visited evs →
             is_Some (getFileByPath file.1 (w_files w)) ∨ readable file = false) →
    w_files (foldl handle w evs) = w_files w
    ∧ sc_newFiles (w_status (foldl handle w evs)) = sc_newFiles (w_status w).
Proof.
  induction evs as [|ev evs IH]; intros w Hall; [done|]. cbn [foldl].
  assert (w_files (handle w ev) = w_files w
          ∧ sc_newFiles (w_status (handle w ev)) = sc_newFiles (w_status w))
    as [Hf Hn].
  { destruct ev as [|file|dirPath e]; cbn [handle]; [done| |done].
    destruct (processFile_cases file w)
      as [[_ ->]|[(Hnone & Hread & _)|(_ & _ & msg & ->)]]; [done| |done].
    destruct (Hall file) as [[r Hr]|Hr]; [by left|congruence..]. }
  destruct (IH (handle w ev)) as [Hf' Hn'].
  { intros file Hin. rewrite Hf. apply Hall.
    destruct ev as [|file'|dirPath e]; cbn; try done. by right. }
  by rewrite Hf', Hn'.
Qed.

(** A file the scan visits is catalogued at the end or has a row of
    type [file_processing] among the errors the scan wrote. *)
Lemma foldl_handle_recorded (evs : list ScanEvent) :
  ∀ w errs file,
    w_errors (foldl handle w evs) = w_errors w ++ errs →
    file ∈ visited evs →
    is_Some (getFileByPath file.1 (w_files (foldl handle w evs)))
    ∨ ∃ r, r ∈ errs ∧ Errors.file_path r = file.1
           ∧ Errors.error_type r = "file_processing".
Proof.
  induction evs as [|ev evs IH]; intros w errs file Herrs Hin;
    [by apply elem_of_nil in Hin|].
  cbn [foldl] in *.
  destruct (handle_accounted w ev) as (_ & _ & _ & _ & errs1 & Herrs1 & _).
  destruct (foldl_handle_accounted evs (handle w ev))
    as (_ & _ & _ & _ & errs2 & Herrs2 & _).
  assert (errs = errs1 ++ errs2) as ->.
  { apply (app_inv_head (w_errors w)). by rewrite <- Herrs, Herrs2, Herrs1, (assoc app). }
  assert (file ∈ visited evs →
          is_Some (getFileByPath file.1 (w_files (foldl handle (handle w ev) evs)))
          ∨ ∃ r, r ∈ errs1 ++ errs2 ∧ Errors.file_path r = file.1
                 ∧ Errors.error_type r = "file_processing") as Htail.
  { intros Hin'. destruct (IH (handle w ev) errs2 file Herrs2 Hin')
      as [?|(r & Hr & ?)]; [by left|].
    right. exists r. split; [|done]. apply elem_of_app. by right. }
  destruct ev as [|file'|dirPath e]; cbn in Hin; try by apply Htail.
  apply elem_of_cons in Hin as [->|Hin]; [|by apply Htail]. clear Htail.
  cbn [handle] in *.
  destruct (processFile_cases file' w)
    as [[Hsome Heq]|[(_ & _ & row & Hrow & Heq)|(_ & _ & msg & Heq)]].
  - left. apply foldl_handle_keeps_path. by rewrite Heq.
  - left. apply foldl_handle_keeps_path. rewrite Heq. cbn [w_files].
    rewrite find_app_path. destruct (getFileByPath _ (w_files w)); [by eexists|].
    unfold getFileByPath. cbn. rewrite bool_decide_eq_true_2 by done. by eexists.
  - right. rewrite Heq in Herrs1. cbn in Herrs1. apply app_inv_head in Herrs1 as <-.
    eexists. split; [by apply elem_of_app; left; apply list_elem_of_singleton|done].
Qed.

Lemma map_status_same (f : ScanStatus → ScanStatus) (w1 w2 : ScanWorld) :
  same_catalog w1 w2 → same_catalog (map_status f w1) (map_status f w2).
Proof. intros (H1 & H2 & H3). unfold same_catalog. cbn. by rewrite H1, H2, H3. Qed.

(** [scanDirectory] is: count, handle the events of the tree from a fresh
    status object, mark the scan completed. *)
Lemma scanDirectory_events (sourcePath : string) (root : Dir) (recursive : bool)
    (sessionId : option nat) (tbl_f : list Files.row) (tbl_e : list Errors.row)
    (tbl_s : list SessionRow) :
  same_catalog
    (scanDirectory sourcePath root recursive sessionId tbl_f tbl_e tbl_s)
    (map_status (set_scan_status "completed" None)
       (foldl handle
          (mkWorld (mkScanStatus sessionId sourcePath "in_progress"
                      (countFiles root recursive) 0 0 0 0 None) tbl_f tbl_e tbl_s)
          (events sourcePath root recursive))).
Proof.
  unfold scanDirectory. etrans; [apply updateSession_same|].
  apply map_status_same. etrans; [apply processDirectory_events|].
  apply foldl_handle_same, updateSession_same.
Qed.

(** C7 (as amended): no failure is fatal to [scanDirectory], the one at
    the root included. For every tree the scan ends with status
    ['completed'] and no error message; it processes every file of every
    directory it can list ([processedFiles] is [totalFiles]); it writes one
    ErrorRecord of type [directory_access] for each directory it cannot
    list, in the order it meets them, and one of type [file_processing] for
    each file whose processing throws, and nothing else; [errorFiles] counts
    the latter only; and each file it visits is catalogued at the end or has
    its ErrorRecord. *)
Theorem scanDirectory_failures_are_not_fatal (sourcePath : string) (root : Dir)
    (recursive : bool) (sessionId : option nat) (tbl_f : list Files.row)
    (tbl_e : list Errors.row) (tbl_s : list SessionRow) :
  let w := scanDirectory sourcePath root recursive sessionId tbl_f tbl_e tbl_s in
  let evs := events sourcePath root recursive in
  sc_status (w_status w) = "completed"
  ∧ sc_error (w_status w) = None
  ∧ sc_totalFiles (w_status w) = length (visited evs)
  ∧ sc_processedFiles (w_status w) = length (visited evs)
  ∧ ∃ errs,
      w_errors w = tbl_e ++ errs
      ∧ filter (λ r, Errors.error_type r = "directory_access") errs
        = directory_errors evs
      ∧ length errs = length (file_errors errs) + length (failed_dirs evs)
      ∧ sc_errorFiles (w_status w) = length (file_errors errs)
      ∧ ∀ file, file ∈ visited evs →
          is_Some (getFileByPath file.1 (w_files w))
          ∨ ∃ r, r ∈ errs ∧ Errors.file_path r = file.1
                 ∧ Errors.error_type r = "file_processing".
Proof.
  intros w evs.
  destruct (scanDirectory_events sourcePath root recursive sessionId tbl_f tbl_e tbl_s)
    as (Hst & Hfiles & Herrors).
  fold w in Hst, Hfiles, Herrors. rewrite Hst, Hfiles, Herrors. cbn. fold evs.
  set (w0 := mkWorld _ tbl_f tbl_e tbl_s).
  destruct (foldl_handle_accounted evs w0)
    as (_ & _ & Htotal & Hprocessed & errs & Herrs & Hdirs & Hlen & Hcount).
  do 2 (split; [done|]). rewrite Htotal, Hprocessed. cbn.
  split; [apply countFiles_visited|]. split; [done|].
  exists errs. rewrite Hcount. cbn. do 4 (split; [done|]).
  intros file Hin. by apply (foldl_handle_recorded evs w0).
Qed.

(** C7, counterexample: the root cannot be listed. The scan returns with
    status ['completed'], no file counted, and one ErrorRecord of type
    [directory_access] for the root. *)
Lemma scanDirectory_unreadable_root_completes :
  let w := @scanDirectory Demo.platform "/nonexistent" (Unreadable ENOENT) true None
             [] [] [] in
  sc_status (w_status w) = "completed"
  ∧ sc_error (w_status w) = None
  ∧ sc_totalFiles (w_status w) = 0
  ∧ w_errors w = [Errors.mk None "/nonexistent" "directory_access"
                    "no such file or directory"].
Proof. vm_compute. repeat split. Qed.

(** C9: with every original path at most once in the catalog, a second
    [scanDirectory] of the same tree right after the first adds nothing:
    its [newFiles] is 0 and the catalog is the one the first scan left, at
    the end and after every event of the second scan; and the original
    paths are pairwise distinct after every event of the first scan and at
    its end. *)
Theorem scanDirectory_idempotent (sourcePath : string) (root : Dir) (recursive : bool)
    (sessionId sessionId' : option nat) (tbl_f : list Files.row)
    (tbl_e : list Errors.row) (tbl_s : list SessionRow) :
  NoDup (Files.original_path <$> tbl_f) →
  let w1 := scanDirectory sourcePath root recursive sessionId tbl_f tbl_e tbl_s in
  let w2 := scanDirectory sourcePath root recursive sessionId'
              (w_files w1) (w_errors w1) (w_sessions w1) in
  sc_newFiles (w_status w2) = 0
  ∧ w_files w2 = w_files w1
  ∧ NoDup (Files.original_path <$> w_files w1)
  ∧ (∀ w evs evs', w_files w = tbl_f →
       events sourcePath root recursive = evs ++ evs' →
       NoDup (Files.original_path <$> w_files (foldl handle w evs)))
  ∧ (∀ w evs evs', w_files w = w_files w1 →
       events sourcePath root recursive = evs ++ evs' →
       w_files (foldl handle w evs) = w_files w1).
Proof.
  intros Hnd w1 w2.
  destruct (scanDirectory_events sourcePath root recursive sessionId tbl_f tbl_e tbl_s)
    as (_ & Hfiles1 & _).
  fold w1 in Hfiles1. cbn in Hfiles1.
  set (w0 := mkWorld _ tbl_f tbl_e tbl_s) in Hfiles1.
  assert (∀ file, file ∈ visited (events sourcePath root recursive) →
                  is_Some (getFileByPath file.1 (w_files w1)) ∨ readable file = false)
    as Hknown.
  { intros file Hin. rewrite Hfiles1. by apply foldl_handle_catalogued. }
  destruct (scanDirectory_events sourcePath root recursive sessionId'
              (w_files w1) (w_errors w1) (w_sessions w1)) as (Hst2 & Hfiles2 & _).
  fold w2 in Hst2, Hfiles2. cbn in Hst2, Hfiles2.
  destruct (foldl_handle_nothing_new (events sourcePath root recursive)
              (mkWorld (mkScanStatus sessionId' sourcePath "in_progress"
                          (countFiles root recursive) 0 0 0 0 None)
                       (w_files w1) (w_errors w1) (w_sessions w1)) Hknown)
    as [Hsame Hnew].
  split; [by rewrite Hst2; cbn; rewrite Hnew|].
  split; [by rewrite Hfiles2, Hsame|].
  split.
  { rewrite Hfiles1.
    destruct (foldl_handle_files_grow (events sourcePath root recursive) w0)
      as (_ & _ & Hkeep). by apply Hkeep. }
  split.
  - intros w evs evs' Hw _.
    destruct (foldl_handle_files_grow evs w) as (_ & _ & Hkeep). apply Hkeep.
    by rewrite Hw.
  - intros w evs evs' Hw Hsplit. rewrite <- Hw.
    apply foldl_handle_nothing_new. intros file Hin. rewrite Hw. apply Hknown.
    rewrite Hsplit, visited_app. apply elem_of_app. by left.
Qed.

End ScannerRefinement.

(** The scan of the demo tree: two files catalogued, one skipped, one
    file and one directory in the table of errors, status ['completed']. *)
Example scanDirectory_demo :
  let w := @scanDirectory Demo.platform "/src" Demo.tree true (Some 1) [] []
             [mkSession 1 0 0 "pending" false] in
  (sc_status (w_status w), sc_totalFiles (w_status w), sc_processedFiles (w_status w),
   sc_newFiles (w_status w), sc_skippedFiles (w_status w), sc_errorFiles (w_status w))
  = ("completed", 3, 3, 2, 1, 1)
  ∧ Files.original_path <$> w_files w = ["/src/photo.jpg"; "/src/album/notes.txt"]
  ∧ Files.date_source <$> w_files w = [Some "exif"; Some "created"]
  ∧ (λ r, (Errors.file_path r, Errors.error_type r)) <$> w_errors w
    = [("/src/gone.txt", "file_processing"); ("/src/locked", "directory_access")]
  ∧ w_sessions w = [mkSession 1 3 3 "completed" true].
Proof. vm_compute. repeat split. Qed.

(** C9 on the demo tree, from an empty catalog. *)
Lemma scanDirectory_idempotent_witness :
  NoDup (Files.original_path <$> [])
  ∧ (let w1 := @scanDirectory Demo.platform "/src" Demo.tree true None [] [] [] in
     let w2 := @scanDirectory Demo.platform "/src" Demo.tree true None
                 (w_files w1) (w_errors w1) (w_sessions w1) in
     sc_newFiles (w_status w2) = 0
     ∧ w_files w2 = w_files w1
     ∧ NoDup (Files.original_path <$> w_files w1)
     ∧ (∀ w evs evs', w_files w = [] →
          events "/src" Demo.tree true = evs ++ evs' →
          NoDup (Files.original_path <$> w_files (foldl (@handle Demo.platform) w evs)))
     ∧ (∀ w evs evs', w_files w = w_files w1 →
          events "/src" Demo.tree true = evs ++ evs' →
          w_files (foldl (@handle Demo.platform) w evs) = w_files w1)).
Proof.
  split; [constructor|].
  apply (@scanDirectory_idempotent Demo.platform "/src" Demo.tree true None None
           [] [] []).
  constructor.
Defined.

(** ** The catalog, the selections and the sweep: shared facts *)
Section SweepFacts.
Context `{Platform}.

Lemma getFileById_Some (i : nat) (tbl : list Files.row) (r : Files.row) :
  getFileById i tbl = Some r → Files.id r = i.
Proof.
  unfold getFileById. intros [_ Hid]%find_some. by apply bool_decide_eq_true in Hid.
Qed.

Lemma getFileById_is_Some (i : nat) (tbl : list Files.row) :
  i ∈ Files.id <$> tbl → is_Some (getFileById i tbl).
Proof.
  unfold getFileById. induction tbl as [|r tbl IH]; cbn.
  { by intros ?%elem_of_nil. }
  case_bool_decide; [by eexists|]. intros [?|?]%elem_of_cons; [done|by apply IH].
Qed.

Lemma getFileById_updateFile (i : nat) (u : Files.update) (tbl : list Files.row) :
  getFileById i (updateFile u tbl) = apply_update u <$> getFileById i tbl.
Proof.
  unfold getFileById, updateFile. induction tbl as [|r tbl IH]; [done|]. cbn.
  assert (Files.id (apply_update u r) = Files.id r) as ->.
  { unfold apply_update. by case_bool_decide. }
  by destruct (bool_decide (Files.id r = i)).
Qed.

Lemma sweep_cons (e : Operations.row) (rest : list Operations.row) (s : State) :
  sweep (e :: rest) s
  = ((e, (revertOperation e s).1) :: (sweep rest (revertOperation e s).2).1,
     (sweep rest (revertOperation e s).2).2).
Proof.
  cbn [sweep]. destruct (revertOperation e s) as [r s1]. cbn [fst snd].
  by destruct (sweep rest s1).
Qed.

Lemma filter_all {A} (P : A → Prop) `{∀ x, Decision (P x)} (l : list A) :
  (∀ x, x ∈ l → P x) → filter P l = l.
Proof.
  induction l as [|x l IH]; intros Hall; [done|].
  rewrite filter_cons, decide_True by (apply Hall; left).
  f_equal. apply IH. intros y Hy. apply Hall. by right.
Qed.

Lemma filter_none {A} (P : A → Prop) `{∀ x, Decision (P x)} (l : list A) :
  (∀ x, x ∈ l → ¬ P x) → filter P l = [].
Proof.
  induction l as [|x l IH]; intros Hall; [done|].
  rewrite filter_cons, decide_False by (apply Hall; left).
  apply IH. intros y Hy. apply Hall. by right.
Qed.

Lemma filter_ext_in {A} (P Q : A → Prop) `{∀ x, Decision (P x)} `{∀ x, Decision (Q x)}
    (l : list A) :
  (∀ x, x ∈ l → P x ↔ Q x) → filter P l = filter Q l.
Proof.
  induction l as [|x l IH]; intros Hall; [done|].
  rewrite !filter_cons, IH by (intros y Hy; apply Hall; by right).
  destruct (decide (P x)) as [HP|HP], (decide (Q x)) as [HQ|HQ]; try done.
  - by apply Hall in HP; [|left].
  - by apply Hall in HQ; [|left].
Qed.

(** The state [revertBatch] leaves is the one its sweep leaves. *)
Lemma revertBatch_state (batchId : nat) (s : State) :
  (revertBatch batchId s).2
  = (sweep (select_revertible batchId (tbl_operations s)) s).2.
Proof.
  destruct (select_revertible batchId (tbl_operations s)) as [|e l] eqn:Hsel.
  { unfold revertBatch. by rewrite Hsel. }
  pose proof (revertBatch_runs batchId s) as Hruns. cbv zeta in Hruns.
  rewrite Hsel in Hruns. destruct Hruns as [-> _]; by cbn.
Qed.

End SweepFacts.

(** C1, the defect: a file edited between the scan and the batch.
    [organizeFile] does not read the file: the real batch moves it and
    writes the fingerprint of the catalog to the ledger row. [revertBatch]
    then computes the fingerprint of the file it finds, refuses the revert
    with "File has been modified since it was moved" (it was not), and the
    file stays at its destination with the row's [current_path]. *)
Lemma revertBatch_leaves_edited_file_moved :
  ('(st, s1) ← @organizeFiles Demo.platform 101 "/dest" false None Demo.stale_world;
   let reverted := @revertBatch Demo.platform (os_batchId st) s1 in
   Some (os_operations st, reverted.1,
         fs_files reverted.2 !! "/src/a.txt",
         fs_files reverted.2 !! "/dest/2023/07/15/a.txt",
         Files.current_path <$> tbl_files reverted.2))
  = Some ([mkOrgOp 1 "/src/a.txt" "/dest/2023/07/15/a.txt" "moved"],
          Ok (mkBatchResult 1 1 0 1 0
                [mkBatchError 1 "File has been modified since it was moved"]),
          None, Some "hello, world", [Some "/dest/2023/07/15/a.txt"]).
Proof. vm_compute. reflexivity. Qed.

(** ** The organizer returns *)
Section OrganizerReturns.
Context `{Platform}.

Lemma plan_file_mono (fuel fuel' : nat) (file : Files.row) (base : string) (s : State)
    (plan : Plan) :
  fuel ≤ fuel' →
  plan_file fuel file base s = Some plan → plan_file fuel' file base s = Some plan.
Proof.
  intros Hle. unfold plan_file. destruct (negb _); [done|].
  destruct (checkForExistingDuplicate _ _ _); [done|]. unfold handleCollision.
  destruct (handleCollision_loop fuel _ _ _ _ _) as [p|] eqn:Hrun; [|done].
  by rewrite (handleCollision_loop_mono fuel fuel' _ _ _ _ _ p Hle Hrun).
Qed.

Lemma organizeFile_mono (fuel fuel' : nat) (file : Files.row) (base : string)
    (batchId : nat) (dryRun : bool) (st : OrganizeStatus) (s : State)
    (r : OrganizeStatus * State) :
  fuel ≤ fuel' →
  organizeFile fuel file base batchId dryRun st s = Some r →
  organizeFile fuel' file base batchId dryRun st s = Some r.
Proof.
  intros Hle. unfold organizeFile.
  destruct (plan_file fuel file base s) as [plan|] eqn:Hplan; [|done].
  by rewrite (plan_file_mono fuel fuel' _ _ _ plan Hle Hplan).
Qed.

Lemma organize_loop_mono (fuel fuel' : nat) (base : string) (batchId : nat)
    (dryRun : bool) (files : list Files.row) :
  fuel ≤ fuel' →
  ∀ st s r,
    organize_loop fuel files base batchId dryRun st s = Some r →
    organize_loop fuel' files base batchId dryRun st s = Some r.
Proof.
  intros Hle. induction files as [|file files IH]; intros st s r; [done|].
  cbn [organize_loop].
  destruct (organizeFile fuel file base batchId dryRun st s) as [[st1 s1]|] eqn:Hstep;
    [|done].
  rewrite (organizeFile_mono fuel fuel' _ _ _ _ _ _ _ Hle Hstep). cbn. apply IH.
Qed.

Lemma organizeFiles_mono (fuel fuel' : nat) (base : string) (dryRun : bool)
    (fileIds : option (list nat)) (s : State) (r : OrganizeStatus * State) :
  fuel ≤ fuel' →
  organizeFiles fuel base dryRun fileIds s = Some r →
  organizeFiles fuel' base dryRun fileIds s = Some r.
Proof.
  intros Hle. unfold organizeFiles. cbn.
  destruct (organize_loop fuel _ _ _ _ _ _) as [[st1 s1]|] eqn:Hloop; [|done].
  by rewrite (organize_loop_mono fuel fuel' _ _ _ _ Hle _ _ _ Hloop).
Qed.

Lemma plan_file_total (file : Files.row) (base : string) (s : State) :
  ∃ fuel0 plan, ∀ fuel, fuel0 ≤ fuel → plan_file fuel file base s = Some plan.
Proof.
  unfold plan_file. destruct (negb _); [by exists 0, SkipMissing|].
  destruct (checkForExistingDuplicate _ _ _) as [existing|];
    [by exists 0, (DuplicateOf existing)|].
  destruct (handleCollision_total
              (generateDestinationPath base (Files.resolved_date file)
                                       (Files.filename file))
              (Files.hash_sha256 file) s) as (fuel0 & p & Hrun).
  exists fuel0, (MoveTo p). intros fuel Hfuel. by rewrite Hrun.
Qed.

Lemma organizeFile_total (file : Files.row) (base : string) (batchId : nat)
    (dryRun : bool) (st : OrganizeStatus) (s : State) :
  ∃ fuel0 r, ∀ fuel, fuel0 ≤ fuel →
    organizeFile fuel file base batchId dryRun st s = Some r.
Proof.
  destruct (plan_file_total file base s) as (fuel0 & plan & Hplan).
  exists fuel0. unfold organizeFile. eexists. intros fuel Hfuel.
  rewrite (Hplan fuel Hfuel). cbn. reflexivity.
Qed.

Lemma organize_loop_total (base : string) (batchId : nat) (dryRun : bool)
    (files : list Files.row) :
  ∀ st s, ∃ fuel0 r, ∀ fuel, fuel0 ≤ fuel →
    organize_loop fuel files base batchId dryRun st s = Some r.
Proof.
  induction files as [|file files IH]; intros st s; [by exists 0, (st, s)|].
  destruct (organizeFile_total file base batchId dryRun st s)
    as (fuel1 & [st1 s1] & Hstep).
  destruct (IH (count_processed st1) s1) as (fuel2 & r & Hrest).
  exists (fuel1 `max` fuel2), r. intros fuel Hfuel. cbn [organize_loop].
  rewrite Hstep by lia. cbn. apply Hrest. lia.
Qed.

(** [organizeFiles] returns, with the same result whatever fuel is enough. *)
Lemma organizeFiles_total (base : string) (dryRun : bool)
    (fileIds : option (list nat)) (s : State) :
  ∃ fuel0 st s', ∀ fuel, fuel0 ≤ fuel →
    organizeFiles fuel base dryRun fileIds s = Some (st, s').
Proof.
  unfold organizeFiles. cbn.
  destruct (organize_loop_total base (uuid_counter s) dryRun
              (filesToOrganize fileIds (tbl_files s))
              (mkOrgStatus (uuid_counter s) base dryRun "in_progress"
                 (length (filesToOrganize fileIds (tbl_files s))) 0 0 0 0 0 [])
              (uuidv4 s).2) as (fuel0 & [st1 s1] & Hloop).
  exists fuel0, (finish "completed" st1), s1. intros fuel Hfuel.
  cbn in Hloop. by rewrite Hloop.
Qed.

End OrganizerReturns.

(** ** The organizer's claims *)
Section OrganizerClaims.
Context `{Platform}.

Lemma plan_file_cases (fuel : nat) (file : Files.row) (base : string) (s : State)
    (plan : Plan) :
  plan_file fuel file base s = Some plan →
  match plan with
  | SkipMissing => fileExists (sourcePath_of file) s = false
  | DuplicateOf existing =>
      fileExists (sourcePath_of file) s = true
      ∧ checkForExistingDuplicate (Files.hash_sha256 file) (Files.id file) (tbl_files s)
        = Some existing
  | MoveTo destPath =>
      fileExists (sourcePath_of file) s = true
      ∧ checkForExistingDuplicate (Files.hash_sha256 file) (Files.id file) (tbl_files s)
        = None
      ∧ handleCollision fuel
          (generateDestinationPath base (Files.resolved_date file) (Files.filename file))
          (Files.hash_sha256 file) s = Some destPath
  end.
Proof.
  unfold plan_file, fileExists.
  destruct (is_ok (fs_access (Some (sourcePath_of file)) s)); cbn [negb];
    [|by intros [= <-]].
  destruct (checkForExistingDuplicate _ _ _) as [existing|]; [by intros [= <-]|].
  destruct (handleCollision _ _ _ _) as [p|]; [|done]. by intros [= <-].
Qed.

Lemma dry_run_row_ext (selected : list Files.row) (s1 s2 : State) (r : Files.row) :
  fs_files s1 = fs_files s2 → fs_dirs s1 = fs_dirs s2 →
  (∀ h x, checkForExistingDuplicate h x (tbl_files s1)
          = checkForExistingDuplicate h x (tbl_files s2)) →
  dry_run_row selected s1 r = dry_run_row selected s2 r.
Proof.
  intros Hf Hd Hc. unfold dry_run_row, fileExists, fs_access, occupied, is_file, is_dir.
  by rewrite Hf, Hd, Hc.
Qed.

(** One file of a dry run, as the catalog sees it. *)
Lemma organizeFile_dry_rows (fuel : nat) (f : Files.row) (base : string)
    (batchId : nat) (st st1 : OrganizeStatus) (s s1 : State) :
  organizeFile fuel f base batchId true st s = Some (st1, s1) →
  NoDup (Files.id <$> tbl_files s) → f ∈ tbl_files s →
  tbl_files s1 = dry_run_row [f] s <$> tbl_files s.
Proof.
  unfold organizeFile. intros Hrun Hnd Hf.
  destruct (plan_file fuel f base s) as [plan|] eqn:Hplan; [|done].
  apply plan_file_cases in Hplan. cbn in Hrun.
  assert (∀ r, r ∈ tbl_files s → Files.id r ∈ Files.id <$> [f] → r = f) as Hrow.
  { intros r Hr Hid. cbn in Hid. apply list_elem_of_singleton in Hid.
    by eapply row_of_id. }
  destruct plan as [|existing|destPath]; simplify_eq; cbn.
  - rewrite <- (list_fmap_id (tbl_files s)) at 1. apply list_fmap_ext.
    intros _ r Hr%list_elem_of_lookup_2. cbn. unfold dry_run_row.
    case_bool_decide as Hid; [|done]. apply Hrow in Hid as ->; [|done].
    by rewrite Hplan.
  - destruct Hplan as [Hthere Hchk]. unfold updateFile. apply list_fmap_ext.
    intros _ r Hr%list_elem_of_lookup_2. unfold dry_run_row.
    case_bool_decide as Hid.
    + apply Hrow in Hid as ->; [|done]. by rewrite Hthere, Hchk.
    + cbn. unfold apply_update. rewrite bool_decide_eq_false_2; [done|]. cbn.
      intros Heq. apply Hid. cbn. rewrite Heq. left.
  - destruct Hplan as (Hthere & Hchk & _).
    rewrite <- (list_fmap_id (tbl_files s)) at 1. apply list_fmap_ext.
    intros _ r Hr%list_elem_of_lookup_2. cbn. unfold dry_run_row.
    case_bool_decide as Hid; [|done]. apply Hrow in Hid as ->; [|done].
    by rewrite Hthere, Hchk.
Qed.

Lemma dry_run_row_id (selected : list Files.row) (s : State) (r : Files.row) :
  Files.id (dry_run_row selected s r) = Files.id r.
Proof.
  unfold dry_run_row. destruct (_ && _); [|done].
  destruct (checkForExistingDuplicate _ _ _); [|done].
  unfold apply_update. by case_bool_decide.
Qed.

(** The catalog a dry run leaves. *)
Lemma organize_loop_dry_rows (fuel : nat) (base : string) (batchId : nat)
    (files : list Files.row) :
  ∀ st s st' s',
    organize_loop fuel files base batchId true st s = Some (st', s') →
    NoDup (Files.id <$> tbl_files s) → NoDup (Files.id <$> files) →
    Forall (λ f, f ∈ tbl_files s ∧ Files.status f = st_pending) files →
    tbl_files s' = dry_run_row files s <$> tbl_files s.
Proof.
  induction files as [|f rest IH]; intros st s st' s'; cbn [organize_loop].
  { intros [= _ <-] _ _ _. rewrite <- (list_fmap_id (tbl_files s)) at 1.
    apply list_fmap_ext. intros _ r _. cbn. unfold dry_run_row.
    rewrite bool_decide_eq_false_2; [done|]. cbn. apply not_elem_of_nil. }
  destruct (organizeFile fuel f base batchId true st s) as [[st1 s1]|] eqn:Hone;
    [|done].
  cbn. intros Hrest Hnd [Hfresh Hndf]%NoDup_cons [[Hf Hpend] Hall]%Forall_cons.
  pose proof (organizeFile_dry_fs _ _ _ _ _ _ _ _ Hone) as (Hfs & Hds & _).
  pose proof (organizeFile_dry_rows _ _ _ _ _ _ _ _ Hone Hnd Hf) as Hrows.
  apply organizeFile_dry_step in Hone as (_ & _ & Hids & Hchk & Hkeep); try done.
  apply IH in Hrest; [|by rewrite Hids|done|].
  2:{ rewrite Forall_forall in Hall. apply Forall_forall. intros g Hg.
      destruct (Hall g Hg) as [Hgt Hgp]. split; [|done]. apply Hkeep; [done|].
      intros Heq. apply Hfresh. rewrite <- Heq. by apply list_elem_of_fmap_2. }
  rewrite Hrest, Hrows, <- list_fmap_compose. apply list_fmap_ext.
  intros _ r Hr%list_elem_of_lookup_2. cbn.
  rewrite (dry_run_row_ext rest s1 s) by done.
  destruct (decide (Files.id r = Files.id f)) as [Hid|Hid].
  - unfold dry_run_row at 1. rewrite dry_run_row_id.
    rewrite bool_decide_eq_false_2 by (by rewrite Hid). cbn.
    unfold dry_run_row. rewrite !(bool_decide_eq_true_2 (Files.id r ∈ _)); [done|..].
    + cbn. rewrite Hid. left.
    + cbn. rewrite Hid. left.
  - assert (dry_run_row [f] s r = r) as ->.
    { unfold dry_run_row. rewrite bool_decide_eq_false_2; [done|]. cbn.
      by intros ?%list_elem_of_singleton. }
    unfold dry_run_row. cbn [fmap list_fmap].
    destruct (decide (Files.id r ∈ Files.id <$> rest)) as [Hin|Hin].
    + rewrite !bool_decide_eq_true_2; [done|by right|done].
    + rewrite !bool_decide_eq_false_2; [done| |done].
      by intros [?|?]%elem_of_cons.
Qed.

(** C8, what a dry run does hold: it returns and leaves the filesystem as
    it is (no file moved, no directory or file created) and every row's
    [current_path] as it is. The catalog does change: a selected row whose
    file is there and whose fingerprint a moved row has gets the status
    ['duplicate'] and the link to that row; every other row, and every
    other column, stays. The decision the dry run records for each selected
    file (skip, duplicate of a moved file, or the destination after
    collision resolution) is the plan for that file from the state before
    the batch, which is the decision a real run takes for a file it
    processes from that state, not the one it takes after it has moved the
    files before it. *)
Theorem dry_run_decisions (base : string) (fileIds : option (list nat)) (s : State) :
  NoDup (Files.id <$> tbl_files s) →
  ∃ fuel0 st s',
    ∀ fuel, fuel0 ≤ fuel →
      organizeFiles fuel base true fileIds s = Some (st, s')
      ∧ fs_files s' = fs_files s ∧ fs_dirs s' = fs_dirs s
      ∧ Files.current_path <$> tbl_files s' = Files.current_path <$> tbl_files s
      ∧ Forall2
          (λ r r',
             let marked :=
               r ∈ filesToOrganize fileIds (tbl_files s)
               ∧ fileExists (sourcePath_of r) s = true
               ∧ is_Some (checkForExistingDuplicate (Files.hash_sha256 r) (Files.id r)
                                                    (tbl_files s)) in
             (marked →
              ∃ existing,
                checkForExistingDuplicate (Files.hash_sha256 r) (Files.id r)
                                          (tbl_files s) = Some existing
                ∧ Files.status r = st_pending
                ∧ Files.status r' = st_duplicate
                ∧ Files.duplicate_of r' = Some (Files.id existing)
                ∧ r' = apply_update (keeping r (Files.current_path r) st_duplicate
                                             (Some (Files.id existing))) r)
             ∧ (¬ marked → r' = r))
          (tbl_files s) (tbl_files s')
      ∧ (∃ entries,
           tbl_operations s' = tbl_operations s ++ entries
           ∧ Forall2 (λ file e, ∃ plan, plan_file fuel file base s = Some plan
                                        ∧ ledger_view e = planned_entry file plan)
                     (filesToOrganize fileIds (tbl_files s)) entries)
      ∧ (∀ file plan batchId st0,
           plan_file fuel file base s = Some plan →
           ∃ st2 s2 e,
             organizeFile fuel file base batchId false st0 s = Some (st2, s2)
             ∧ tbl_operations s2 = tbl_operations s ++ [e]
             ∧ (ledger_view e = planned_entry file plan
                ∨ (∃ destPath, plan = MoveTo destPath)
                  ∧ Operations.operation_type e = op_error
                  ∧ fs_files s2 = fs_files s)).
Proof.
  intros Hnd.
  destruct (organizeFiles_total base true fileIds s) as (fuel0 & st & s' & Hrun).
  exists fuel0, st, s'. intros fuel Hfuel. specialize (Hrun fuel Hfuel).
  split; [done|].
  destruct (dry_run_follows_plan fuel base fileIds s st s' Hnd Hrun)
    as (Hf & Hd & Hcp & Hentries & Hreal).
  do 3 (split; [done|]). split; [|by split].
  apply organizeFiles_unfold in Hrun as (st1 & Hloop & _).
  destruct (filesToOrganize_spec fileIds (tbl_files s) Hnd) as [Hsel Hall].
  apply organize_loop_dry_rows in Hloop; [|done..].
  cbn [uuidv4 snd tbl_files] in Hloop. rewrite Hloop.
  apply Forall2_fmap_r, Forall_Forall2_diag, Forall_forall. intros r Hr.
  rewrite Forall_forall in Hall.
  unfold compose. cbv beta zeta. rewrite (dry_run_row_ext _ _ s) by done.
  unfold dry_run_row. split.
  - intros (Hin & Hthere & [existing Hchk]).
    rewrite bool_decide_eq_true_2 by (by apply list_elem_of_fmap_2).
    rewrite Hthere, Hchk. cbn. exists existing. split; [done|].
    split; [by apply Hall|]. unfold apply_update.
    rewrite bool_decide_eq_true_2 by done. done.
  - intros Hnot. case_bool_decide as Hid; cbn; [|done].
    destruct (fileExists (sourcePath_of r) s) eqn:Hthere; [|done].
    destruct (checkForExistingDuplicate _ _ _) as [existing|] eqn:Hchk; [|done].
    exfalso. apply Hnot. split; [|by split].
    apply list_elem_of_fmap in Hid as (g & Hid & Hg).
    destruct (Hall g Hg) as [Hgt _].
    by rewrite (row_of_id (tbl_files s) g r Hnd Hgt Hr).
Qed.

End OrganizerClaims.

(** C8 on the world with a moved file and a pending copy of it. *)
Lemma dry_run_decisions_witness :
  NoDup (Files.id <$> tbl_files Demo.copy_world)
  ∧ (let platform : Platform := Demo.platform in
     let base := "/dest" in
     let fileIds : option (list nat) := None in
     let s := Demo.copy_world in
     ∃ fuel0 st s',
       ∀ fuel, fuel0 ≤ fuel →
         organizeFiles fuel base true fileIds s = Some (st, s')
         ∧ fs_files s' = fs_files s ∧ fs_dirs s' = fs_dirs s
         ∧ Files.current_path <$> tbl_files s' = Files.current_path <$> tbl_files s
         ∧ Forall2
             (λ r r',
                let marked :=
                  r ∈ filesToOrganize fileIds (tbl_files s)
                  ∧ fileExists (sourcePath_of r) s = true
                  ∧ is_Some (checkForExistingDuplicate (Files.hash_sha256 r) (Files.id r)
                                                       (tbl_files s)) in
                (marked →
                 ∃ existing,
                   checkForExistingDuplicate (Files.hash_sha256 r) (Files.id r)
                                             (tbl_files s) = Some existing
                   ∧ Files.status r = st_pending
                   ∧ Files.status r' = st_duplicate
                   ∧ Files.duplicate_of r' = Some (Files.id existing)
                   ∧ r' = apply_update (keeping r (Files.current_path r) st_duplicate
                                                (Some (Files.id existing))) r)
                ∧ (¬ marked → r' = r))
             (tbl_files s) (tbl_files s')
         ∧ (∃ entries,
              tbl_operations s' = tbl_operations s ++ entries
              ∧ Forall2 (λ file e, ∃ plan, plan_file fuel file base s = Some plan
                                           ∧ ledger_view e = planned_entry file plan)
                        (filesToOrganize fileIds (tbl_files s)) entries)
         ∧ (∀ file plan batchId st0,
              plan_file fuel file base s = Some plan →
              ∃ st2 s2 e,
                organizeFile fuel file base batchId false st0 s = Some (st2, s2)
                ∧ tbl_operations s2 = tbl_operations s ++ [e]
                ∧ (ledger_view e = planned_entry file plan
                   ∨ (∃ destPath, plan = MoveTo destPath)
                     ∧ Operations.operation_type e = op_error
                     ∧ fs_files s2 = fs_files s))).
Proof.
  assert (NoDup (Files.id <$> tbl_files Demo.copy_world)) as Hnd.
  { apply (bool_decide_unpack _). vm_compute. reflexivity. }
  split; [exact Hnd|].
  exact (@dry_run_decisions Demo.platform "/dest" None Demo.copy_world Hnd).
Defined.

(** C8, the defect in the catalog: a dry run over a pending copy of a file
    that an earlier batch moved sets the copy's status to ['duplicate'] and
    links it to the moved row, and moves nothing. *)
Lemma dry_run_marks_duplicate :
  ('(st, s') ← @organizeFiles Demo.platform 101 "/dest" true None Demo.copy_world;
   Some ((λ r, (Files.id r, Files.status r, Files.duplicate_of r))
           <$> tbl_files Demo.copy_world,
         (λ r, (Files.id r, Files.status r, Files.duplicate_of r)) <$> tbl_files s',
         bool_decide (fs_files s' = fs_files Demo.copy_world)))
  = Some ([(1, st_moved, None); (2, st_pending, None)],
          [(1, st_moved, None); (2, st_duplicate, Some 1)],
          true).
Proof. vm_compute. reflexivity. Qed.

(** ** A dry run and the revert of its batch (C10) *)
Section DryRunRevert.
Context `{Platform}.

(** Every path through [organizeFile] writes one row for the file, of the
    batch, with the file's fingerprint and status ['completed']. *)
Lemma organizeFile_entry (fuel : nat) (file : Files.row) (base : string)
    (batchId : nat) (dryRun : bool) (st st' : OrganizeStatus) (s s' : State) :
  organizeFile fuel file base batchId dryRun st s = Some (st', s') →
  ∃ e, tbl_operations s' = tbl_operations s ++ [e]
       ∧ Operations.batch_id e = batchId
       ∧ Operations.status e = completed
       ∧ Operations.hash_used e = Files.hash_sha256 file
       ∧ (Operations.operation_type e = op_move →
          Operations.reason e = if dryRun then "Dry run - would move"
                                else "File moved successfully").
Proof.
  unfold organizeFile. destruct (plan_file fuel file base s) as [plan|]; [|done].
  cbn. intros [= Hrun]. destruct plan as [|existing|destPath].
  - simplify_eq. eexists. split; [reflexivity|]. by cbn.
  - simplify_eq. eexists. split; [reflexivity|]. by cbn.
  - destruct dryRun.
    + simplify_eq. eexists. split; [reflexivity|]. by cbn.
    + destruct (fs_mkdir _ s) as [s1|e1] eqn:Hmk.
      2:{ unfold organize_failed in Hrun. simplify_eq. eexists.
          split; [reflexivity|]. by cbn. }
      apply fs_mkdir_frame in Hmk as (_ & _ & _ & Hops1 & _).
      destruct (fs_rename _ _ s1) as [s2|e2] eqn:Hren.
      2:{ unfold organize_failed in Hrun. simplify_eq. eexists.
          split; [cbn; rewrite Hops1; reflexivity|]. by cbn. }
      apply fs_rename_tables in Hren as (_ & Hops2 & _).
      simplify_eq. eexists. split; [cbn; rewrite Hops2, Hops1; reflexivity|].
      by cbn.
Qed.

Lemma organize_loop_entries (fuel : nat) (base : string) (batchId : nat)
    (dryRun : bool) (files : list Files.row) :
  ∀ st s st' s',
    organize_loop fuel files base batchId dryRun st s = Some (st', s') →
    ∃ entries,
      tbl_operations s' = tbl_operations s ++ entries
      ∧ Forall2 (λ file e, Operations.batch_id e = batchId
                           ∧ Operations.status e = completed
                           ∧ Operations.hash_used e = Files.hash_sha256 file
                           ∧ (Operations.operation_type e = op_move →
                              Operations.reason e
                              = if dryRun then "Dry run - would move"
                                else "File moved successfully"))
                files entries.
Proof.
  induction files as [|file rest IH]; intros st s st' s'; cbn [organize_loop].
  { intros [= _ <-]. exists []. by rewrite app_nil_r. }
  destruct (organizeFile fuel file base batchId dryRun st s) as [[st1 s1]|] eqn:Hone;
    [|done].
  cbn. intros (entries & Hops & Hall)%IH.
  apply organizeFile_entry in Hone as (e & Hops1 & He).
  exists (e :: entries). split; [by rewrite Hops, Hops1, <- app_assoc|].
  by constructor.
Qed.

Lemma Forall2_and {A B} (P Q : A → B → Prop) (l : list A) (k : list B) :
  Forall2 P l k → Forall2 Q l k → Forall2 (λ x y, P x y ∧ Q x y) l k.
Proof.
  intros HP. induction HP as [|x y l k Hxy HP IH]; intros HQ.
  - constructor.
  - apply Forall2_cons_1 in HQ as [Hq HQ]. constructor; [done|]. by apply IH.
Qed.

(** While something is at the source of an entry, its revert throws. *)
Lemma revertOperation_blocked (operation : Operations.row) (s : State) :
  occupied (Operations.source_path operation) s = true →
  is_ok (revertOperation operation s).1 = false.
Proof.
  intros Hocc. destruct (revertOperation operation s) as [[r|err] s'] eqn:Hrun; [|done].
  apply revertOperation_ok in Hrun
    as (file & cp & s1 & s2 & _ & _ & _ & _ & _ & _ & Hstep & Hfree & _).
  apply after_directory_step_frame in Hstep as (Hf1 & Hd1 & _).
  apply (occupied_mono _ s) in Hfree; [congruence|done..].
Qed.

(** With nothing at the destination of a move entry, its revert throws
    at the first check of the filesystem, and changes nothing. *)
Lemma revertOperation_gone (operation : Operations.row) (s : State) (dst : string) :
  revertible (Operations.batch_id operation) operation →
  is_Some (getFileById (Operations.file_id operation) (tbl_files s)) →
  Operations.destination_path operation = Some dst →
  occupied dst s = false →
  revertOperation operation s = (Throw E_missing_at_destination, s).
Proof.
  intros (_ & Htype & Hst) [file Hfile] Hdst Hfree. unfold revertOperation.
  rewrite bool_decide_eq_false_2 by (by intros Hne; apply Hne).
  rewrite bool_decide_eq_false_2 by (by rewrite Hst).
  rewrite Hfile, Hdst. unfold fs_access. by rewrite Hfree.
Qed.

Lemma occupied_grows (p : string) (s s1 : State) :
  fs_files s1 = fs_files s → fs_dirs s ⊆ fs_dirs s1 →
  occupied p s = true → occupied p s1 = true.
Proof.
  intros Hf Hd Hocc. destruct (occupied p s1) eqn:Hfree; [done|].
  apply (occupied_mono _ s) in Hfree; [congruence|done..].
Qed.

(** A sweep over entries whose sources are all occupied: every attempt
    fails, and no file and no table changes. *)
Lemma sweep_blocked (operations : list Operations.row) :
  ∀ s,
    Forall (λ e, occupied (Operations.source_path e) s = true) operations →
    Forall (λ o, ¬ succeeded o) (sweep operations s).1
    ∧ fs_files (sweep operations s).2 = fs_files s
    ∧ fs_dirs s ⊆ fs_dirs (sweep operations s).2
    ∧ tbl_files (sweep operations s).2 = tbl_files s
    ∧ tbl_operations (sweep operations s).2 = tbl_operations s.
Proof.
  induction operations as [|e rest IH]; intros s Hall.
  { cbn. by repeat split. }
  apply Forall_cons in Hall as [He Hrest]. rewrite sweep_cons. cbn [fst snd].
  pose proof (revertOperation_blocked e s He) as Hfail.
  destruct (revertOperation e s) as [[r|err] s1] eqn:Hrun; [done|]. cbn [fst snd].
  apply revertOperation_throw_frame in Hrun as (Hf1 & Hd1 & Ht1 & Ho1 & _).
  destruct (IH s1) as (Hfails & Hf & Hd & Ht & Ho).
  { eapply Forall_impl; [exact Hrest|]. intros e' He'. cbn in He'.
    by apply (occupied_grows _ s). }
  split; [constructor; [by intros ?|done]|].
  split; [by rewrite Hf|]. split; [intros x Hx; by apply Hd, Hd1|].
  split; [by rewrite Ht|].
  by rewrite Ho.
Qed.

(** A sweep over move entries whose destinations are all free: every
    attempt throws "File no longer exists at destination path", and nothing
    changes. *)
Lemma sweep_gone (operations : list Operations.row) (s : State) :
  Forall (λ e, revertible (Operations.batch_id e) e
               ∧ is_Some (getFileById (Operations.file_id e) (tbl_files s))
               ∧ ∃ dst, Operations.destination_path e = Some dst
                        ∧ occupied dst s = false) operations →
  sweep operations s = ((λ e, (e, Throw E_missing_at_destination)) <$> operations, s).
Proof.
  induction operations as [|e rest IH]; intros Hall; [done|].
  apply Forall_cons in Hall as [(Hrev & Hfile & dst & Hdst & Hfree) Hrest].
  rewrite sweep_cons, (revertOperation_gone e s dst) by done. cbn [fst snd].
  by rewrite IH.
Qed.

Lemma none_succeeded (outcomes : list (Operations.row * result RevertResult)) :
  Forall (λ o, ¬ succeeded o) outcomes →
  filter succeeded outcomes = []
  ∧ filter (λ o, ¬ succeeded o) outcomes = outcomes
  ∧ be_operationId <$> omap failure_of outcomes = Operations.id <$> outcomes.*1.
Proof.
  intros Hall. rewrite Forall_forall in Hall.
  split; [apply filter_none; intros o Ho; by apply Hall|].
  split; [by apply filter_all|].
  induction outcomes as [|[e r] outcomes IH]; [done|].
  assert (¬ succeeded (e, r)) as He by (apply Hall; left).
  unfold succeeded in He. cbn in He. destruct r as [r|err]; [done|].
  cbn. f_equal. apply IH. intros o Ho. apply Hall. by right.
Qed.

Lemma failures_of_throws (err : JsError) (operations : list Operations.row) :
  omap failure_of ((λ e, (e, Throw err)) <$> operations)
  = (λ e, mkBatchError (Operations.id e) (message err)) <$> operations.
Proof.
  induction operations as [|e l IH]; [done|]. cbn. f_equal. exact IH.
Qed.

(** C10: a dry run of [organizeFiles] returns, changes no file and no
    directory, and writes one ledger row for each file it selects, of the
    batch and with status ['completed']; the row is of kind ['move'], with
    the destination collision resolution gives, exactly for the files it
    would move (the files that are there and are no duplicate of a moved
    file). A real move of such a file from the same state writes the row
    with the same kind, status, batch, file, source, destination and
    fingerprint (or an ['error'] row, when creating the directory or
    renaming throws): the rows differ in the free-text reason only.
    [revertBatch] on the batch id of the dry run selects exactly these
    ['move'] rows and attempts each: it returns a result that counts every
    one of them as failed and none as reverted or skipped, with one error
    for each in the order of the selection; no file, no catalog row and no
    ledger row changes. With nothing at the recorded destinations, each
    error is "File no longer exists at destination path". When the dry run
    wrote no ['move'] row, [revertBatch] raises "No revertible operations
    found in batch". *)
Theorem dry_run_moves_are_revertible (base : string) (fileIds : option (list nat))
    (s : State) :
  NoDup (Files.id <$> tbl_files s) →
  (∀ e, e ∈ tbl_operations s → Operations.batch_id e ≠ uuid_counter s) →
  ∃ fuel0 st s' entries,
    let moves := filter (λ e, Operations.operation_type e = op_move) entries in
    let selected := select_revertible (os_batchId st) (tbl_operations s') in
    (∀ fuel, fuel0 ≤ fuel → organizeFiles fuel base true fileIds s = Some (st, s'))
    ∧ tbl_operations s' = tbl_operations s ++ entries
    ∧ fs_files s' = fs_files s ∧ fs_dirs s' = fs_dirs s
    ∧ Forall2
        (λ file e,
           ∃ plan,
             plan_file fuel0 file base s = Some plan
             ∧ ledger_view e = planned_entry file plan
             ∧ (Operations.operation_type e = op_move ↔ ∃ destPath, plan = MoveTo destPath)
             ∧ Operations.batch_id e = os_batchId st
             ∧ Operations.status e = completed
             ∧ Operations.hash_used e = Files.hash_sha256 file
             ∧ (Operations.operation_type e = op_move →
                Operations.reason e = "Dry run - would move"
                ∧ ∀ st0, ∃ st2 s2 e2,
                    organizeFile fuel0 file base (os_batchId st) false st0 s
                    = Some (st2, s2)
                    ∧ tbl_operations s2 = tbl_operations s ++ [e2]
                    ∧ (Operations.operation_type e2 = op_error
                       ∨ (ledger_view e2 = ledger_view e
                          ∧ Operations.batch_id e2 = Operations.batch_id e
                          ∧ Operations.status e2 = Operations.status e
                          ∧ Operations.hash_used e2 = Operations.hash_used e
                          ∧ Operations.reason e2 = "File moved successfully"))))
        (filesToOrganize fileIds (tbl_files s)) entries
    ∧ selected ≡ₚ moves
    ∧ (moves = [] →
       revertBatch (os_batchId st) s'
       = (Throw (Error "No revertible operations found in batch"), s'))
    ∧ (moves ≠ [] →
       ∃ errors s'',
         revertBatch (os_batchId st) s'
         = (Ok (mkBatchResult (os_batchId st) (length moves) 0 (length moves) 0 errors),
            s'')
         ∧ be_operationId <$> errors = Operations.id <$> selected
         ∧ fs_files s'' = fs_files s
         ∧ tbl_files s'' = tbl_files s'
         ∧ tbl_operations s'' = tbl_operations s'
         ∧ (Forall (λ e, ∀ dst, Operations.destination_path e = Some dst →
                                occupied dst s = false) moves →
            s'' = s'
            ∧ errors = (λ e, mkBatchError (Operations.id e)
                               "File no longer exists at destination path")
                         <$> selected)).
Proof.
  intros Hnd Hfresh.
  destruct (organizeFiles_total base true fileIds s) as (fuel0 & st & s' & Hrun).
  pose proof (Hrun fuel0 (le_n _)) as Hrun0.
  destruct (dry_run_follows_plan fuel0 base fileIds s st s' Hnd Hrun0)
    as (Hf & Hd & _ & (entries & Hops & Hplans) & Hreal).
  exists fuel0, st, s', entries. cbv zeta.
  pose proof Hrun0 as (st1 & Hloop & Hst)%organizeFiles_unfold.
  assert (os_batchId st = uuid_counter s) as Hbatch.
  { destruct (organize_loop_ledger _ _ _ _ _ _ _ _ _ Hloop) as (_ & _ & _ & _ & Hb & _).
    rewrite Hst. cbn. by rewrite Hb. }
  destruct (organize_loop_entries _ _ _ _ _ _ _ _ _ Hloop) as (entries' & Hops' & Hcols).
  cbn [uuidv4 snd tbl_operations] in Hops'.
  assert (entries' = entries) as -> by (rewrite Hops in Hops'; by apply app_inv_head in Hops').
  destruct (filesToOrganize_spec fileIds (tbl_files s) Hnd) as [_ Hsel].
  pose proof (organize_loop_dry_rows _ _ _ _ _ _ _ _ Hloop Hnd
                (proj1 (filesToOrganize_spec fileIds (tbl_files s) Hnd)) Hsel) as Hrows.
  cbn [uuidv4 snd tbl_files] in Hrows.
  split; [done|]. do 3 (split; [done|]).
  (* the rows, file by file *)
  pose proof (Forall2_and _ _ _ _ Hplans Hcols) as Hboth.
  assert (Forall2
            (λ file e,
               file ∈ tbl_files s
               ∧ ∃ plan, plan_file fuel0 file base s = Some plan
                         ∧ ledger_view e = planned_entry file plan
                         ∧ Operations.batch_id e = os_batchId st
                         ∧ Operations.status e = completed
                         ∧ Operations.hash_used e = Files.hash_sha256 file
                         ∧ (Operations.operation_type e = op_move →
                            Operations.reason e = "Dry run - would move"))
            (filesToOrganize fileIds (tbl_files s)) entries) as Hrowsof.
  { apply Forall2_same_length_lookup. split; [by eapply Forall2_length|].
    intros i file e Hfile He.
    destruct (Forall2_lookup_lr _ _ _ _ _ _ Hboth Hfile He)
      as [(plan & Hplan & Hview) (Hb & Hc & Hh & Hreason)].
    rewrite Forall_forall in Hsel.
    split; [by apply Hsel, list_elem_of_lookup_2 with i|].
    exists plan. rewrite Hbatch. done. }
  split.
  { eapply Forall2_impl; [exact Hrowsof|].
    intros file e (_ & plan & Hplan & Hview & Hb & Hc & Hh & Hreason). exists plan.
    assert (Operations.operation_type e = op_move ↔ ∃ destPath, plan = MoveTo destPath)
      as Hmove.
    { unfold ledger_view in Hview. destruct plan as [|existing|destPath]; cbn in Hview;
        injection Hview as _ Htype _ _; split.
      - intros Ht. congruence.
      - by intros [? ?].
      - intros Ht. congruence.
      - by intros [? ?].
      - intros _. by eexists.
      - by intros _. }
    do 6 (split; [done|]). intros Htype. split; [by apply Hreason|].
    apply Hmove in Htype as [destPath ->]. intros st0.
    destruct (Hreal file (MoveTo destPath) (os_batchId st) st0 Hplan)
      as (st2 & s2 & e2 & Hrun2 & Hops2 & Hcase).
    exists st2, s2, e2. do 2 (split; [done|]).
    destruct Hcase as [Hview2|(_ & Herr & _)]; [right|by left].
    apply organizeFile_entry in Hrun2 as (e2' & Hops2' & Hb2 & Hc2 & Hh2 & Hreason2).
    rewrite Hops2 in Hops2'. apply app_inj_tail in Hops2' as [_ <-].
    rewrite Hview, Hview2, Hb, Hc, Hh. do 4 (split; [done|]).
    apply Hreason2. unfold ledger_view in Hview2. cbn in Hview2. congruence. }
  (* the selection *)
  assert (filter (revertible (os_batchId st)) (tbl_operations s')
          = filter (λ e, Operations.operation_type e = op_move) entries) as Hfilter.
  { rewrite Hops, filter_app, (filter_none _ (tbl_operations s)).
    2:{ intros e He (Hb & _). rewrite Hbatch in Hb. by apply (Hfresh e). }
    cbn. apply filter_ext_in. intros e He.
    apply list_elem_of_lookup in He as [i He].
    destruct (Forall2_lookup_r _ _ _ _ _ Hrowsof He)
      as (file & _ & _ & plan & _ & _ & Hb & Hc & _).
    unfold revertible. tauto. }
  pose proof (select_revertible_spec (os_batchId st) (tbl_operations s'))
    as (Hperm & _ & Hrev).
  rewrite Hfilter in Hperm. split; [done|]. split.
  { intros Hnone. unfold revertBatch.
    assert (select_revertible (os_batchId st) (tbl_operations s') = []) as ->; [|done].
    apply Permutation_nil_r. by rewrite <- Hnone. }
  intros Hsome.
  assert (select_revertible (os_batchId st) (tbl_operations s') ≠ []) as Hne.
  { intros Hnil. rewrite Hnil in Hperm. by apply Permutation_nil_l in Hperm. }
  destruct (revertBatch_runs (os_batchId st) s' Hne) as [Hbatchrun Hatt].
  (* each selected entry is the row of a file that is still at its source *)
  assert (Forall (λ e, occupied (Operations.source_path e) s' = true
                       ∧ is_Some (getFileById (Operations.file_id e) (tbl_files s'))
                       ∧ revertible (Operations.batch_id e) e)
                 (select_revertible (os_batchId st) (tbl_operations s'))) as Hsrc.
  { apply Forall_forall. intros e He.
    assert (revertible (os_batchId st) e) as Hreve
      by (rewrite Forall_forall in Hrev; by apply Hrev).
    rewrite Hperm in He. apply list_elem_of_filter in He as [Hmove He].
    apply list_elem_of_lookup in He as [i He].
    destruct (Forall2_lookup_r _ _ _ _ _ Hrowsof He)
      as (file & _ & Hin & plan & Hplan & Hview & _).
    unfold ledger_view in Hview.
    destruct plan as [|existing|destPath]; cbn in Hview;
      injection Hview as Hid Htype Hsource Hdest; try congruence.
    apply plan_file_cases in Hplan as (Hthere & _).
    unfold fileExists, fs_access in Hthere. rewrite <- Hsource in Hthere.
    split.
    { destruct (occupied (Operations.source_path e) s) eqn:Hocc; [|done].
      unfold occupied, is_file, is_dir in *. by rewrite Hf, Hd. }
    split.
    { apply getFileById_is_Some. rewrite Hrows, <- list_fmap_compose.
      apply list_elem_of_fmap. exists file. split; [|done]. cbn.
      by rewrite dry_run_row_id. }
    destruct Hreve as (Hb & ? & ?). by rewrite Hb. }
  destruct (sweep_blocked (select_revertible (os_batchId st) (tbl_operations s')) s')
    as (Hfails & Hfs & _ & Htf & Hto).
  { eapply Forall_impl; [exact Hsrc|]. by intros e (? & _). }
  destruct (none_succeeded _ Hfails) as (Hnone & Hallf & Hids).
  rewrite Hnone, Hallf in Hbatchrun. cbn [length] in Hbatchrun.
  assert (length (sweep (select_revertible (os_batchId st) (tbl_operations s')) s').1
          = length (filter (λ e, Operations.operation_type e = op_move) entries))
    as Hlen.
  { rewrite <- (length_fmap fst), Hatt. by rewrite Hperm. }
  rewrite Hlen in Hbatchrun. rewrite Hperm in Hbatchrun at 1.
  eexists _, _. split; [exact Hbatchrun|].
  split; [by rewrite Hids, Hatt|]. split; [by rewrite Hfs|].
  do 2 (split; [done|]).
  intros Hfree.
  rewrite sweep_gone.
  { cbn [fst snd]. split; [done|]. apply failures_of_throws. }
  apply Forall_forall. intros e He. rewrite Forall_forall in Hsrc.
  destruct (Hsrc e He) as (_ & Hfile & Hreve). do 2 (split; [done|]).
  destruct Hreve as (_ & Htype & _).
  destruct (Operations.destination_path e) as [dst|] eqn:Hdst.
  - exists dst. split; [done|]. rewrite Forall_forall in Hfree.
    assert (occupied dst s = false) as Hfr.
    { apply (Hfree e); [|done]. rewrite <- Hperm. done. }
    unfold occupied, is_file, is_dir in *. by rewrite Hf, Hd.
  - exfalso. rewrite Hperm in He. apply list_elem_of_filter in He as [_ He].
    apply list_elem_of_lookup in He as [i He].
    destruct (Forall2_lookup_r _ _ _ _ _ Hrowsof He)
      as (file & _ & _ & plan & _ & Hview & _).
    unfold ledger_view in Hview.
    destruct plan; cbn in Hview; injection Hview as _ Hty _ Hdest; congruence.
Qed.

End DryRunRevert.

(** C10 on the world after a first batch, with a new pending file. *)
Lemma dry_run_moves_are_revertible_witness :
  NoDup (Files.id <$> tbl_files Demo.next_world)
  ∧ (∀ e, e ∈ tbl_operations Demo.next_world →
          Operations.batch_id e ≠ uuid_counter Demo.next_world)
  ∧ (let platform : Platform := Demo.platform in
     let base := "/dest" in
     let fileIds : option (list nat) := None in
     let s := Demo.next_world in
     ∃ fuel0 st s' entries,
       let moves := filter (λ e, Operations.operation_type e = op_move) entries in
       let selected := select_revertible (os_batchId st) (tbl_operations s') in
       (∀ fuel, fuel0 ≤ fuel → organizeFiles fuel base true fileIds s = Some (st, s'))
       ∧ tbl_operations s' = tbl_operations s ++ entries
       ∧ fs_files s' = fs_files s ∧ fs_dirs s' = fs_dirs s
       ∧ Forall2
           (λ file e,
              ∃ plan,
                plan_file fuel0 file base s = Some plan
                ∧ ledger_view e = planned_entry file plan
                ∧ (Operations.operation_type e = op_move ↔ ∃ destPath, plan = MoveTo destPath)
                ∧ Operations.batch_id e = os_batchId st
                ∧ Operations.status e = completed
                ∧ Operations.hash_used e = Files.hash_sha256 file
                ∧ (Operations.operation_type e = op_move →
                   Operations.reason e = "Dry run - would move"
                   ∧ ∀ st0, ∃ st2 s2 e2,
                       organizeFile fuel0 file base (os_batchId st) false st0 s
                       = Some (st2, s2)
                       ∧ tbl_operations s2 = tbl_operations s ++ [e2]
                       ∧ (Operations.operation_type e2 = op_error
                          ∨ (ledger_view e2 = ledger_view e
                             ∧ Operations.batch_id e2 = Operations.batch_id e
                             ∧ Operations.status e2 = Operations.status e
                             ∧ Operations.hash_used e2 = Operations.hash_used e
                             ∧ Operations.reason e2 = "File moved successfully"))))
           (filesToOrganize fileIds (tbl_files s)) entries
       ∧ selected ≡ₚ moves
       ∧ (moves = [] →
          revertBatch (os_batchId st) s'
          = (Throw (Error "No revertible operations found in batch"), s'))
       ∧ (moves ≠ [] →
          ∃ errors s'',
            revertBatch (os_batchId st) s'
            = (Ok (mkBatchResult (os_batchId st) (length moves) 0 (length moves) 0 errors),
               s'')
            ∧ be_operationId <$> errors = Operations.id <$> selected
            ∧ fs_files s'' = fs_files s
            ∧ tbl_files s'' = tbl_files s'
            ∧ tbl_operations s'' = tbl_operations s'
            ∧ (Forall (λ e, ∀ dst, Operations.destination_path e = Some dst →
                                   occupied dst s = false) moves →
               s'' = s'
               ∧ errors = (λ e, mkBatchError (Operations.id e)
                                  "File no longer exists at destination path")
                            <$> selected))).
Proof.
  assert (NoDup (Files.id <$> tbl_files Demo.next_world)) as Hnd.
  { apply (bool_decide_unpack _). vm_compute. reflexivity. }
  assert (∀ e, e ∈ tbl_operations Demo.next_world →
               Operations.batch_id e ≠ uuid_counter Demo.next_world) as Hfresh.
  { apply Forall_forall. apply (bool_decide_unpack _). vm_compute. reflexivity. }
  split; [exact Hnd|]. split; [exact Hfresh|].
  exact (@dry_run_moves_are_revertible Demo.platform "/dest" None Demo.next_world
           Hnd Hfresh).
Defined.

(** The dry run of the demo world: two rows of kind ['move'], no file
    moved. *)
Example dry_run_of_the_demo_world :
  ('(st, s') ← @organizeFiles Demo.platform 101 "/dest" true None Demo.world;
   Some (os_operations st, fs_files s',
         (λ e, (Operations.operation_type e, Operations.status e,
                Operations.destination_path e)) <$> tbl_operations s'))
  = Some ([mkOrgOp 1 "/src/a.txt" "/dest/2023/07/15/a.txt" "would_move";
           mkOrgOp 2 "/src/b.txt" "/dest/2023/07/15/b.txt" "would_move"],
          fs_files Demo.world,
          [(op_move, completed, Some "/dest/2023/07/15/a.txt");
           (op_move, completed, Some "/dest/2023/07/15/b.txt")]).
Proof. vm_compute. reflexivity. Qed.

(** ** The statuses of the catalog *)
Section NoErrorRows.
Context `{Platform}.

Lemma updateFile_no_error (u : Files.update) (tbl : list Files.row) :
  Files.u_status u ≠ st_error → no_error_rows tbl → no_error_rows (updateFile u tbl).
Proof.
  intros Hu Htbl. unfold no_error_rows, updateFile. apply Forall_fmap.
  eapply Forall_impl; [exact Htbl|]. intros r Hr. cbn. unfold apply_update.
  by case_bool_decide.
Qed.

(** [insertFile] writes the status ['pending']. *)
Lemma insertFile_no_error (filePath : string) (metadata : Metadata)
    (hashes : string * string) (resolved : ResolvedDate) (tbl tbl' : list Files.row) :
  insertFile filePath metadata hashes resolved tbl = Ok tbl' →
  no_error_rows tbl → no_error_rows tbl'.
Proof.
  unfold insertFile. case_bool_decide; [done|]. intros [= <-] Htbl.
  apply Forall_app. split; [done|]. by repeat constructor.
Qed.

Lemma processFile_no_error (file : string * option FileInfo) (w : ScanWorld) :
  no_error_rows (w_files w) → no_error_rows (w_files (processFile file w)).
Proof.
  intros Htbl. destruct file as [filePath info]. unfold processFile, ingest.
  destruct (getFileByPath filePath (w_files w)); [done|].
  destruct (extractAllMetadata filePath info) as [metadata|]; [|done].
  destruct (calculateHashes info (md_size metadata)) as [hashes|]; [|done].
  destruct (insertFile _ _ _ _ _) as [tbl|] eqn:Hins; [|done].
  by eapply insertFile_no_error.
Qed.

(** A scan adds rows with status ['pending'] and changes no other. *)
Lemma scanDirectory_no_error (sourcePath : string) (root : Dir) (recursive : bool)
    (sessionId : option nat) (tbl_f : list Files.row) (tbl_e : list Errors.row)
    (tbl_s : list SessionRow) :
  no_error_rows tbl_f →
  no_error_rows (w_files (scanDirectory sourcePath root recursive sessionId
                                        tbl_f tbl_e tbl_s)).
Proof.
  intros Htbl.
  destruct (scanDirectory_events sourcePath root recursive sessionId tbl_f tbl_e tbl_s)
    as (_ & -> & _).
  cbn [map_status w_files].
  match goal with |- context [foldl handle ?w0 ?evs] =>
    assert (no_error_rows (w_files w0)) as Hw0 by done;
    generalize dependent w0; generalize evs
  end.
  intros evs. induction evs as [|ev evs IH]; intros w0 Hw0; [done|].
  cbn [foldl]. apply IH. destruct ev; [done| |done]. by apply processFile_no_error.
Qed.

(** [rescanFile] writes the status the row has. *)
Lemma rescanFile_no_error (fileId : nat) (read : string → option FileInfo)
    (tbl : list Files.row) :
  no_error_rows tbl → no_error_rows (rescanFile fileId read tbl).2.
Proof.
  intros Htbl. unfold rescanFile.
  destruct (getFileById fileId tbl) as [file|] eqn:Hfile; [|exact Htbl].
  destruct (extractAllMetadata _ _) as [metadata|]; [|exact Htbl].
  destruct (calculateHashes _ _) as [hashes|]; [|exact Htbl]. cbn [snd].
  apply updateFile_no_error; [|done]. cbn.
  unfold getFileById in Hfile. apply find_some in Hfile as [Hin _].
  apply list_elem_of_In in Hin. unfold no_error_rows in Htbl.
  rewrite Forall_forall in Htbl. by apply Htbl.
Qed.

(** [markDuplicates] writes the status ['duplicate']. *)
Lemma markDuplicates_no_error (tbl : list Files.row) :
  no_error_rows tbl → no_error_rows (markDuplicates tbl).1.
Proof.
  intros Htbl. unfold markDuplicates.
  assert (∀ groups acc, no_error_rows acc.1 →
            no_error_rows (foldl (λ acc g, mark_group g acc) acc groups).1) as Hfold.
  { induction groups as [|g groups IH]; intros acc Hacc; [done|].
    cbn [foldl]. apply IH. unfold mark_group.
    destruct (g_original g) as [original|]; [|done].
    generalize dependent acc. induction (g_duplicates g) as [|d ds IHd];
      intros [t marked] Hacc; [done|].
    cbn [foldl]. apply IHd. case_bool_decide; [|done]. cbn [fst].
    by apply updateFile_no_error. }
  specialize (Hfold (findAllDuplicateGroups tbl) (tbl, 0) Htbl).
  by destruct (foldl _ _ _).
Qed.

(** [organizeFile] writes the statuses ['duplicate'] and ['moved']. *)
Lemma organizeFile_no_error (fuel : nat) (file : Files.row) (base : string)
    (batchId : nat) (dryRun : bool) (st st' : OrganizeStatus) (s s' : State) :
  organizeFile fuel file base batchId dryRun st s = Some (st', s') →
  no_error_rows (tbl_files s) → no_error_rows (tbl_files s').
Proof.
  unfold organizeFile.
  destruct (plan_file fuel file base s) as [[|existing|destPath]|]; cbn; [..|done].
  - by intros [= <- <-].
  - intros [= <- <-] Htbl. cbn. by apply updateFile_no_error.
  - destruct dryRun; [by intros [= <- <-]|].
    destruct (fs_mkdir _ s) as [s1|] eqn:Hmk; [|by intros [= <- <-]].
    apply fs_mkdir_frame in Hmk as (_ & _ & Ht1 & _).
    destruct (fs_rename _ _ s1) as [s2|] eqn:Hren.
    + apply fs_rename_tables in Hren as (Ht2 & _). intros [= <- <-] Htbl. cbn.
      rewrite Ht2, Ht1. by apply updateFile_no_error.
    + intros [= <- <-]. cbn. by rewrite Ht1.
Qed.

Lemma organize_loop_no_error (fuel : nat) (base : string) (batchId : nat)
    (dryRun : bool) (files : list Files.row) :
  ∀ st s st' s',
    organize_loop fuel files base batchId dryRun st s = Some (st', s') →
    no_error_rows (tbl_files s) → no_error_rows (tbl_files s').
Proof.
  induction files as [|file rest IH]; intros st s st' s'.
  { cbn. by intros [= _ <-]. }
  cbn [organize_loop].
  destruct (organizeFile fuel file base batchId dryRun st s) as [[st1 s1]|] eqn:Hone;
    [|done].
  cbn. intros Hrest Htbl. eapply IH; [exact Hrest|]. by eapply organizeFile_no_error.
Qed.

Lemma organizeFiles_no_error (fuel : nat) (base : string) (dryRun : bool)
    (fileIds : option (list nat)) (st : OrganizeStatus) (s s' : State) :
  organizeFiles fuel base dryRun fileIds s = Some (st, s') →
  no_error_rows (tbl_files s) → no_error_rows (tbl_files s').
Proof.
  unfold organizeFiles. cbn.
  destruct (organize_loop _ _ _ _ _ _ _) as [[st1 s1]|] eqn:Hloop; [|done].
  cbn. intros [= _ <-] Htbl. by eapply organize_loop_no_error.
Qed.

(** [revertOperation] writes the status ['pending']. *)
Lemma revertOperation_no_error (operation : Operations.row) (s : State) :
  no_error_rows (tbl_files s) → no_error_rows (tbl_files (revertOperation operation s).2).
Proof.
  intros Htbl. destruct (revertOperation operation s) as [[r|err] s'] eqn:Hrun; cbn [snd].
  - apply revertOperation_ok in Hrun
      as (file & dst & s1 & s2 & _ & _ & _ & _ & _ & _ & _ & _ & _ & _ & _ & -> & _).
    by apply updateFile_no_error.
  - by apply revertOperation_throw_frame in Hrun as (_ & _ & -> & _).
Qed.

Lemma revertBatch_no_error (batchId : nat) (s : State) :
  no_error_rows (tbl_files s) → no_error_rows (tbl_files (revertBatch batchId s).2).
Proof.
  rewrite revertBatch_state. generalize (select_revertible batchId (tbl_operations s)).
  intros operations. revert s. induction operations as [|e rest IH]; intros s Htbl;
    [done|].
  rewrite sweep_cons. cbn [snd]. by apply IH, revertOperation_no_error.
Qed.

End NoErrorRows.

(** * Part III: the rest of the services *)

(** ** hasher.js *)
Section HasherFacts.
Context `{Platform}.

Lemma substring_all (str : string) (n : nat) :
  String.length str ≤ n → String.substring 0 n str = str.
Proof.
  revert n. induction str as [|c str IH]; intros n Hn; [by destruct n|].
  destruct n as [|n]; cbn in *; [lia|]. rewrite IH; [done|lia].
Qed.

(** X1: given the size of the file, both branches of [calculateHashes]
    return the digest of the content and the digest of its first
    [partialHashSize] bytes: for a file no larger than that, the full digest
    returned as partial digest is the digest of the prefix. A file that
    cannot be read makes it throw, whatever the size. *)
Theorem calculateHashes_partial_is_prefix_digest (fi : FileInfo) (n : nat) :
  calculateHashes (Some fi) (String.length (fi_content fi))
  = Ok (sha256 (fi_content fi),
        sha256 (String.substring 0 config.partialHashSize (fi_content fi)))
  ∧ calculateHashes None n = Throw ENOENT.
Proof.
  split; [|done]. unfold calculateHashes. case_bool_decide as Hsmall; [|done].
  by rewrite substring_all.
Qed.

(** X2: [verifyDuplicate] answers [true] exactly when both paths hold
    files with one digest; it is symmetric, and it is [compareFiles] with
    [false] where [compareFiles] rejects, which is when one of the files is
    missing. *)
Theorem verifyDuplicate_spec (filePath1 filePath2 : string) (s : State) :
  (verifyDuplicate filePath1 filePath2 s = true
   ↔ ∃ c1 c2, fs_files s !! filePath1 = Some c1 ∧ fs_files s !! filePath2 = Some c2
              ∧ sha256 c1 = sha256 c2)
  ∧ verifyDuplicate filePath1 filePath2 s = verifyDuplicate filePath2 filePath1 s
  ∧ verifyDuplicate filePath1 filePath2 s
    = default false (compareFiles filePath1 filePath2 s)
  ∧ (compareFiles filePath1 filePath2 s = None
     ↔ fs_files s !! filePath1 = None ∨ fs_files s !! filePath2 = None).
Proof.
  unfold verifyDuplicate, compareFiles, calculateHash.
  destruct (fs_files s !! filePath1) as [c1|], (fs_files s !! filePath2) as [c2|];
    cbn; repeat split; try done; try (by intros (? & ? & ? & ? & ?));
    try (by left); try (by right); try (by intros [|]).
  - intros Heq%bool_decide_eq_true. by exists c1, c2.
  - intros (? & ? & [= <-] & [= <-] & Heq). by apply bool_decide_eq_true.
  - apply bool_decide_ext. split; by intros ->.
Qed.

End HasherFacts.

(** ** duplicateDetector.js: the duplicates of one file *)
Section DuplicateLookupFacts.
Context `{Platform}.

(** The second loop of [findDuplicatesForFile], from any list of matches
    found so far. *)
Lemma partial_matches_fold (file : Files.row) (ms : list Files.row)
    (acc : list DuplicateMatch) :
  let r := foldl (λ duplicates m,
                    if bool_decide (Files.id m ≠ Files.id file)
                       && negb (existsb (λ d, bool_decide (Files.id (dm_file d) = Files.id m))
                                        duplicates)
                    then duplicates ++ [mkMatch m "partial_hash" "likely"]
                    else duplicates) acc ms in
  (∀ d, d ∈ r → d ∈ acc ∨ ∃ m, m ∈ ms ∧ Files.id m ≠ Files.id file
                               ∧ d = mkMatch m "partial_hash" "likely")
  ∧ (∀ d, d ∈ acc → d ∈ r)
  ∧ (∀ m, m ∈ ms → Files.id m ≠ Files.id file →
       ∃ d, d ∈ r ∧ Files.id (dm_file d) = Files.id m)
  ∧ (NoDup ((Files.id ∘ dm_file) <$> acc) → NoDup ((Files.id ∘ dm_file) <$> r)).
Proof.
  revert acc. induction ms as [|m ms IH]; intros acc; cbn.
  { repeat split; try done; [by left|]. by intros m []%elem_of_nil. }
  match goal with |- context [foldl ?f ?a ms] => set (acc' := a) end.
  destruct (IH acc') as (Hfrom & Hkeep & Hall & Hnodup). clear IH.
  assert (Hacc : ∀ d, d ∈ acc → d ∈ acc').
  { intros d Hd. unfold acc'. case_match; [|done]. apply elem_of_app. by left. }
  repeat split.
  - intros d [Hd|(m' & Hm' & Hne & ->)]%Hfrom.
    + unfold acc' in Hd. case_match eqn:Hc; [|by left].
      apply andb_true_iff in Hc as [Hne%bool_decide_eq_true _].
      apply elem_of_app in Hd as [Hd | ->%list_elem_of_singleton]; [by left|].
      right. exists m. split; [left|done].
    + right. exists m'. split; [by right|done].
  - intros d Hd. by apply Hkeep, Hacc.
  - intros m' [-> | Hm']%elem_of_cons Hne; [|by apply Hall].
    destruct (existsb (λ d, bool_decide (Files.id (dm_file d) = Files.id m)) acc) eqn:Hex.
    + apply existsb_exists in Hex as (d & Hd & Heq%bool_decide_eq_true).
      exists d. split; [|done]. apply Hkeep, Hacc. by apply list_elem_of_In.
    + exists (mkMatch m "partial_hash" "likely"). split; [|done].
      apply Hkeep. unfold acc'. rewrite bool_decide_eq_true_2 by done. cbn.
      apply elem_of_app. right. by apply list_elem_of_singleton.
  - intros Hnd. apply Hnodup. unfold acc'. case_match eqn:Hc; [|done].
    apply andb_true_iff in Hc as [_ Hex%negb_true_iff].
    rewrite fmap_app. apply NoDup_app. split; [done|]. split; [|apply NoDup_singleton].
    intros i (d & Hi & Hd)%list_elem_of_fmap Hi2. cbn in Hi2.
    apply list_elem_of_singleton in Hi2. subst i. cbn in Hi2.
    assert (existsb (λ d, bool_decide (Files.id (dm_file d) = Files.id m)) acc = true)
      as Hyes; [|congruence].
    apply existsb_exists. exists d. split; [by apply list_elem_of_In|].
    by apply bool_decide_eq_true.
Qed.


(** The first loop of [findDuplicatesForFile]. *)
Lemma exact_matches_filter (file : Files.row) (tbl : list Files.row) :
  match Files.hash_sha256 file with
  | Some hash =>
      if truthy (Some hash) then
        (λ m, mkMatch m "hash" "exact")
          <$> filter (λ m, Files.id m ≠ Files.id file) (getFileByHash hash st_error tbl)
      else []
  | None => []
  end
  = (λ m, mkMatch m "hash" "exact")
      <$> filter (λ m, truthy (Files.hash_sha256 file) = true
                       ∧ Files.hash_sha256 m = Files.hash_sha256 file
                       ∧ Files.status m ≠ st_error ∧ Files.id m ≠ Files.id file) tbl.
Proof.
  destruct (Files.hash_sha256 file) as [hash|] eqn:Hh.
  - destruct (truthy (Some hash)) eqn:Ht.
    + unfold getFileByHash. rewrite list_filter_filter. f_equal. apply filter_ext_in.
      intros m _. intuition.
    + rewrite filter_none; [done|]. by intros m _ (? & _).
  - rewrite filter_none; [done|]. by intros m _ (? & _).
Qed.

(** X3: [findDuplicatesForFile] reports, when there are any, the rows with
    the file's fingerprint that are not in error, the file itself apart, in
    table order, as exact matches; only when there are none, it reports as
    likely matches the rows of the file's partial fingerprint and non-zero
    size, one per id, the file itself apart. *)
Theorem findDuplicatesForFile_spec (file : Files.row) (tbl : list Files.row) :
  let exact := filter (λ m, truthy (Files.hash_sha256 file) = true
                            ∧ Files.hash_sha256 m = Files.hash_sha256 file
                            ∧ Files.status m ≠ st_error
                            ∧ Files.id m ≠ Files.id file) tbl in
  let likely m := truthy (Files.hash_partial file) = true
                  ∧ Files.hash_partial m = Files.hash_partial file
                  ∧ Files.size m = Files.size file ∧ Files.size file ≠ 0
                  ∧ Files.id m ≠ Files.id file in
  let ds := findDuplicatesForFile file tbl in
  (exact ≠ [] → ds = (λ m, mkMatch m "hash" "exact") <$> exact)
  ∧ (exact = [] →
       (∀ d, d ∈ ds → dm_matchType d = "partial_hash" ∧ dm_confidence d = "likely"
                      ∧ dm_file d ∈ tbl ∧ likely (dm_file d))
       ∧ (∀ m, m ∈ tbl → likely m → ∃ d, d ∈ ds ∧ Files.id (dm_file d) = Files.id m)
       ∧ NoDup ((Files.id ∘ dm_file) <$> ds)).
Proof.
  intros exact likely ds. unfold ds, findDuplicatesForFile.
  rewrite exact_matches_filter. fold exact.
  destruct (Files.hash_partial file) as [partial|] eqn:Hp; cycle 1.
  { split; [done|]. intros ->. cbn. split; [by intros d []%elem_of_nil|].
    split; [|constructor]. by intros m _ (? & _). }
  destruct (truthy (Some partial) && negb (bool_decide (Files.size file = 0))
            && bool_decide (length ((λ m, mkMatch m "hash" "exact") <$> exact) = 0))
    eqn:Hc; cycle 1.
  { split; [done|]. intros ->. cbn in *. rewrite andb_true_r in Hc.
    split; [by intros d []%elem_of_nil|]. split; [|constructor].
    intros m _ (Ht & _ & _ & Hs & _). rewrite Ht in Hc. cbn in Hc.
    apply negb_false_iff, bool_decide_eq_true in Hc. done. }
  apply andb_true_iff in Hc as [[Ht Hs%negb_true_iff%bool_decide_eq_false]%andb_true_iff
                                Hlen%bool_decide_eq_true].
  rewrite length_fmap in Hlen. apply nil_length_inv in Hlen.
  split; [done|]. intros _. rewrite Hlen. cbn [fmap list_fmap].
  destruct (partial_matches_fold file
              (getFilesByPartialHash partial (Files.size file) tbl) [])
    as (Hfrom & _ & Hall & Hnodup).
  split; [|split].
  - intros d [[]%elem_of_nil|(m & Hm & Hne & ->)]%Hfrom. cbn.
    apply list_elem_of_filter in Hm as [[Hmp Hms] Hm]. unfold likely.
    by rewrite Hmp.
  - intros m Hm (_ & Hmp & Hms & _ & Hne). apply Hall; [|done].
    apply list_elem_of_filter. by rewrite Hmp.
  - apply Hnodup. constructor.
Qed.

End DuplicateLookupFacts.

(** ** duplicateDetector.js: the statistics *)
Section DuplicateStatsFacts.

Lemma foldl_add_sizes (files : list Files.row) (n : nat) :
  foldl (λ sum f, sum + Files.size f) n files = n + sum_list (Files.size <$> files).
Proof.
  revert n. induction files as [|f files IH]; intros n; cbn; [lia|]. rewrite IH. lia.
Qed.

(** The loop of [calculateDuplicateStats], from any value of [stats]. *)
Lemma foldl_stats_step (groups : list Group) (stats : DuplicateStats) :
  let r := foldl stats_step stats groups in
  ds_duplicateGroups r = ds_duplicateGroups stats
  ∧ ds_totalDuplicateFiles r
    = ds_totalDuplicateFiles stats + sum_list ((λ g, length (g_duplicates g)) <$> groups)
  ∧ ds_potentialSpaceSavings r
    = ds_potentialSpaceSavings stats
      + sum_list ((λ g, sum_list (Files.size <$> g_duplicates g)) <$> groups)
  ∧ match ds_largestDuplicateGroup r with
    | None => ds_largestDuplicateGroup stats = None ∧ groups = []
    | Some largest =>
        (ds_largestDuplicateGroup stats = Some largest
         ∨ ∃ g, g ∈ groups
                ∧ largest = mkLargest (g_hash g) (g_count g) (g_totalSize g))
        ∧ (∀ g, g ∈ groups → g_count g ≤ lg_count largest)
        ∧ (∀ l, ds_largestDuplicateGroup stats = Some l → lg_count l ≤ lg_count largest)
    end.
Proof.
  revert stats. induction groups as [|g groups IH]; intros stats; cbn.
  { split; [done|]. split; [lia|]. split; [lia|].
    destruct (ds_largestDuplicateGroup stats) as [l|]; [|done].
    split; [by left|]. split; [by intros g []%elem_of_nil|]. by intros l' [= ->]. }
  destruct (IH (stats_step stats g)) as (Hn & Ht & Hs & Hl). clear IH.
  split; [done|]. split; [cbn in Ht; lia|].
  split; [cbn in Hs; rewrite foldl_add_sizes in Hs; lia|].
  destruct (ds_largestDuplicateGroup (foldl stats_step (stats_step stats g) groups))
    as [largest|]; cycle 1.
  { destruct Hl as [Hl _]. cbn in Hl. by repeat case_match. }
  destruct Hl as (Hfrom & Hmax & Hprev). cbn in Hfrom, Hprev.
  destruct (ds_largestDuplicateGroup stats) as [l0|] eqn:Hl0.
  - case_bool_decide as Hlt.
    + split; [|split].
      * right. destruct Hfrom as [[= <-]|(g' & Hg' & ->)]; [exists g|exists g'];
          (split; [|done]); [left|by right].
      * intros g' [->|Hg']%elem_of_cons; [|by apply Hmax].
        by specialize (Hprev _ eq_refl).
      * intros l [= <-]. specialize (Hprev _ eq_refl). cbn in Hprev. lia.
    + split; [|split].
      * destruct Hfrom as [[= <-]|(g' & Hg' & ->)]; [by left|].
        right. exists g'. split; [by right|done].
      * intros g' [->|Hg']%elem_of_cons; [|by apply Hmax].
        specialize (Hprev _ eq_refl). lia.
      * intros l [= <-]. by apply Hprev.
  - split; [|split; [|done]].
    + right. destruct Hfrom as [[= <-]|(g' & Hg' & ->)]; [exists g|exists g'];
        (split; [|done]); [left|by right].
    + intros g' [->|Hg']%elem_of_cons; [|by apply Hmax].
      by specialize (Hprev _ eq_refl).
Qed.

Lemma duplicateHashes_files (h : string) (tbl : list Files.row) :
  h ∈ duplicateHashes tbl → 1 < length (files_with_hash h tbl).
Proof.
  intros [Hcount _]%list_elem_of_filter.
  unfold files_with_hash, order_by_asc. rewrite length_order_by.
  eapply Nat.lt_le_trans; [exact Hcount|]. unfold hash_count. clear Hcount.
  induction tbl as [|r tbl IH]; [done|]. rewrite !filter_cons.
  destruct (decide (countable_row r = true ∧ Files.hash_sha256 r = Some h))
    as [[_ Hr]|Hr].
  - rewrite decide_True by done. cbn. lia.
  - destruct (decide (Files.hash_sha256 r = Some h)); cbn; lia.
Qed.

(** X4: [calculateDuplicateStats] counts, over the groups of
    [findAllDuplicateGroups], every file but one per group and every byte
    but those of the groups' originals; the largest group it names is one of
    the groups and no group has more files; it names none only when there
    is no group. *)
Theorem calculateDuplicateStats_spec (tbl : list Files.row) :
  let groups := findAllDuplicateGroups tbl in
  let stats := calculateDuplicateStats tbl in
  ds_duplicateGroups stats = length groups
  ∧ ds_totalDuplicateFiles stats + length groups = sum_list (g_count <$> groups)
  ∧ ds_potentialSpaceSavings stats
    + sum_list ((λ g, from_option Files.size 0 (g_original g)) <$> groups)
    = sum_list (g_totalSize <$> groups)
  ∧ match ds_largestDuplicateGroup stats with
    | None => groups = []
    | Some largest =>
        (∃ g, g ∈ groups ∧ largest = mkLargest (g_hash g) (g_count g) (g_totalSize g))
        ∧ 1 < lg_count largest
        ∧ ∀ g, g ∈ groups → g_count g ≤ lg_count largest
    end.
Proof.
  intros groups stats. unfold stats, calculateDuplicateStats. fold groups.
  destruct (foldl_stats_step groups (mkStats (length groups) 0 0 None))
    as (Hn & Ht & Hs & Hl).
  cbn in *. split; [done|]. rewrite Ht, Hs. clear Hn Ht Hs.
  assert (Hgroups : Forall (λ g, g_count g = S (length (g_duplicates g))
                                 ∧ g_totalSize g
                                   = from_option Files.size 0 (g_original g)
                                     + sum_list (Files.size <$> g_duplicates g))
                           groups).
  { unfold groups, findAllDuplicateGroups. apply Forall_fmap, Forall_forall.
    intros h Hh%duplicateHashes_files. cbn. rewrite foldl_add_sizes.
    destruct (files_with_hash h tbl) as [|f files]; cbn in *; [lia|]. done. }
  split; [|split].
  - clear Hl. induction Hgroups as [|g gs [Hc _] _ IH]; cbn; [done|]. lia.
  - clear Hl. induction Hgroups as [|g gs [_ Hz] _ IH]; cbn; [done|]. lia.
  - destruct (ds_largestDuplicateGroup (foldl stats_step _ groups)) as [largest|];
      [|by destruct Hl].
    destruct Hl as ([[=]|(g & Hg & ->)] & Hmax & _).
    split; [by exists g|]. split; [|done]. cbn.
    eapply Forall_forall in Hgroups as [Hc _]; [|exact Hg].
    unfold groups, findAllDuplicateGroups in Hg.
    apply list_elem_of_fmap in Hg as (h & -> & Hh%duplicateHashes_files). done.
Qed.

End DuplicateStatsFacts.

(** ** dateResolver.js: comparing dates *)
Section DateFacts.
Context `{Platform}.

(** X5: [compareDates] is a consistent comparator: a date equals itself,
    swapping the arguments swaps the sign, the order is transitive, every
    invalid date comes after every valid one and invalid dates are equal to
    each other; two valid dates compare as their time values. *)
Theorem compareDates_orders (dateA dateB dateC : option string) :
  let valid d := isValidDate (new_Date d) = true in
  compareDates dateA dateA = 0%Z
  ∧ ((compareDates dateA dateB < 0)%Z ↔ (0 < compareDates dateB dateA)%Z)
  ∧ (compareDates dateA dateB = 0%Z ↔ compareDates dateB dateA = 0%Z)
  ∧ ((compareDates dateA dateB ≤ 0)%Z → (compareDates dateB dateC ≤ 0)%Z →
     (compareDates dateA dateC ≤ 0)%Z)
  ∧ (¬ valid dateA → valid dateB → compareDates dateA dateB = 1%Z
                                   ∧ compareDates dateB dateA = (-1)%Z)
  ∧ (¬ valid dateA → ¬ valid dateB → compareDates dateA dateB = 0%Z)
  ∧ (valid dateA → valid dateB →
     ∃ ta tb, new_Date dateA = Some ta ∧ new_Date dateB = Some tb
              ∧ compareDates dateA dateB = (ta - tb)%Z).
Proof.
  intros valid. unfold valid, compareDates.
  destruct (new_Date dateA) as [ta|], (new_Date dateB) as [tb|], (new_Date dateC) as [tc|];
    try destruct (isValidDate (Some ta)); try destruct (isValidDate (Some tb));
    try destruct (isValidDate (Some tc)); cbn;
    repeat split; try done; try lia; try (by intros []); try (by intros ? []);
    try (intros _ _; by eexists _, _).
Qed.

End DateFacts.

(** ** dateResolver.js: formatting dates *)
Section FormatFacts.
Context `{Platform}.

Lemma string_app_assoc (a b c : string) : (a +:+ b) +:+ c = a +:+ b +:+ c.
Proof.
  induction a as [|ch a IH]; [done|].
  change (String ch ((a +:+ b) +:+ c) = String ch (a +:+ b +:+ c)). by rewrite IH.
Qed.

(** X6: a date that is not valid is displayed as 'Unknown date' in every
    format, and files with it go to the folder of the current day; for a
    valid date the destination is the base, the date in 'path' format and the
    file name, and a format that is none of the four named ones is the short
    one. *)
Theorem formatDate_and_destination (short long : Z → string) (dateStr : option string)
    (format destinationBase filename : string) :
  (isValidDate (new_Date dateStr) = false →
     formatDate short long dateStr format = "Unknown date"
     ∧ generateDestinationPath destinationBase dateStr filename
       = destinationBase +:+ "/" +:+ String_of_nat (getFullYear now)
           +:+ "/" +:+ padStart2 (String_of_nat (getMonth now + 1))
           +:+ "/" +:+ padStart2 (String_of_nat (getDate now)) +:+ "/" +:+ filename)
  ∧ (isValidDate (new_Date dateStr) = true →
     generateDestinationPath destinationBase dateStr filename
     = destinationBase +:+ "/" +:+ formatDate short long dateStr "path"
         +:+ "/" +:+ filename
     ∧ (format ∉ ["long"; "iso"; "path"] →
        formatDate short long dateStr format = formatDate short long dateStr "short")).
Proof.
  unfold formatDate, generateDestinationPath, extractDateComponents.
  destruct (new_Date dateStr) as [t|] eqn:Hd; [|by repeat split].
  destruct (isValidDate (Some t)) eqn:Hv; cbn; (split; [done|]); [|done].
  intros _. split.
  - rewrite !bool_decide_eq_false_2 by done. rewrite bool_decide_eq_true_2 by done.
    by rewrite !string_app_assoc.
  - intros Hf. repeat case_bool_decide; try done; subst; set_solver.
Qed.

End FormatFacts.

(** ** revert.js: the checks before a revert *)
Section RevertCheckFacts.
Context `{Platform}.

(** A revert that goes through passes the checks of [canRevert]. *)
Lemma revertOperation_ok_canRevert (operation : Operations.row) (s s' : State)
    (r : RevertResult) :
  revertOperation operation s = (Ok r, s') →
  canRevert operation s = mkRevertability true None.
Proof.
  intros (file & currentPath & s1 & s2 & Htype & Hst & _ & Hdst & Hthere & _
          & Hstep & Hfree & _)%revertOperation_ok.
  apply after_directory_step_frame in Hstep as (Hf1 & Hd1 & _).
  pose proof (occupied_mono _ _ _ Hf1 Hd1 Hfree) as Hfree0.
  unfold canRevert. rewrite bool_decide_eq_false_2 by (by intros []).
  rewrite bool_decide_eq_false_2 by done. rewrite Hdst. cbn [fs_access].
  rewrite Hthere, Hfree0. by rewrite bool_decide_eq_false_2 by (by intros []).
Qed.

(** X7: [canRevert] against [revertOperation]. The verdict is positive
    exactly when it gives no reason; a revert that succeeds had a positive
    verdict; the verdicts 'Only move operations can be reverted' and
    'Operation already reverted' are given exactly when [revertOperation]
    throws these errors; with the verdict 'File no longer exists at
    destination' it throws that the file is missing at the destination or
    that the catalog row is missing; and after a positive verdict it throws
    none of these three errors. *)
Theorem canRevert_against_revertOperation (operation : Operations.row) (s : State) :
  let verdict := canRevert operation s in
  let run := revertOperation operation s in
  (rv_canRevert verdict = true ↔ rv_reason verdict = None)
  ∧ (is_ok run.1 = true → verdict = mkRevertability true None)
  ∧ (rv_reason verdict = Some "Only move operations can be reverted"
     ↔ run.1 = Throw E_not_a_move)
  ∧ (rv_reason verdict = Some "Operation already reverted"
     ↔ run.1 = Throw E_already_reverted)
  ∧ (rv_reason verdict = Some "File no longer exists at destination"
     ↔ run.1 = Throw E_missing_at_destination
       ∨ (run.1 = Throw E_file_not_found
          ∧ fs_access (Operations.destination_path operation) s ≠ Ok ()
          ∧ Operations.operation_type operation = op_move
          ∧ Operations.status operation ≠ reverted))
  ∧ (rv_canRevert verdict = true →
     ∀ e, run.1 = Throw e →
          e ∉ [E_not_a_move; E_already_reverted; E_missing_at_destination]).
Proof.
  intros verdict run. split; [|split].
  { unfold verdict, canRevert. unfold fs_access. repeat case_match; by cbn. }
  { unfold run. destruct (revertOperation operation s) as [[r|e] s'] eqn:Hrun; [|done].
    intros _. by apply revertOperation_ok_canRevert in Hrun. }
  unfold verdict, run, canRevert, revertOperation.
  unfold calculateHash, fs_mkdir, fs_rename, rename_directory, fs_access.
  repeat split; intros;
    repeat match goal with
           | H : _ ∨ _ |- _ => destruct H
           | H : _ ∧ _ |- _ => destruct H
           end;
    repeat (first [case_bool_decide | case_match]; simplify_eq; cbn in *; try done);
    try (by left); try (right; repeat split; try done; by apply dec_stable);
    try (rewrite !not_elem_of_cons; repeat split; try done; apply not_elem_of_nil).
Qed.

(** X8: [previewBatchRevert] lists the entries [revertBatch] attempts, in
    the order it attempts them, each with the verdict of [canRevert] in the
    state before the batch revert; it is empty exactly when [revertBatch]
    throws; no verdict is that the entry is not a move or is already
    reverted; and when the verdict on the first entry is negative,
    [revertBatch] reverts fewer entries than it lists and reports that entry
    first among its errors. *)
Theorem previewBatchRevert_against_revertBatch (batchId : nat) (s : State) :
  let preview := previewBatchRevert batchId s in
  let selected := select_revertible batchId (tbl_operations s) in
  let run := revertBatch batchId s in
  Forall2 (λ o p, rp_operationId p = Operations.id o
                  ∧ rp_fileId p = Operations.file_id o
                  ∧ rp_currentPath p = Operations.destination_path o
                  ∧ rp_originalPath p = Operations.source_path o
                  ∧ mkRevertability (rp_canRevert p) (rp_reason p) = canRevert o s
                  ∧ rp_reason p ≠ Some "Only move operations can be reverted"
                  ∧ rp_reason p ≠ Some "Operation already reverted")
          selected preview
  ∧ (preview = [] ↔ run.1 = Throw (Error "No revertible operations found in batch"))
  ∧ (∀ results, run.1 = Ok results →
       br_totalOperations results = length preview
       ∧ br_reverted results ≤ length preview
       ∧ ∀ p rest, preview = p :: rest → rp_canRevert p = false →
           br_reverted results < length preview
           ∧ ∃ msg, head (br_errors results)
                    = Some (mkBatchError (rp_operationId p) msg)).
Proof.
  intros preview selected run.
  destruct (select_revertible_spec batchId (tbl_operations s)) as (_ & _ & Hrev).
  fold selected in Hrev.
  assert (Hlen : length preview = length selected).
  { unfold preview, previewBatchRevert. by rewrite length_fmap. }
  split; [|split].
  - unfold preview, previewBatchRevert. fold selected. apply Forall2_fmap_r.
    apply Forall_Forall2_diag. eapply Forall_impl; [exact Hrev|].
    intros o (_ & Htype & Hst). cbn. do 4 (split; [done|]).
    split; [by destruct (canRevert o s)|].
    unfold canRevert. rewrite bool_decide_eq_false_2 by (by intros []).
    rewrite bool_decide_eq_false_2 by (by rewrite Hst).
    unfold fs_access. repeat case_match; by cbn.
  - unfold run. destruct (decide (selected = [])) as [Hnil|Hne].
    + split; [|intros _; apply nil_length_inv; by rewrite Hlen, Hnil].
      intros _. unfold revertBatch. fold selected. by rewrite Hnil.
    + destruct (revertBatch_runs batchId s Hne) as [-> _]. cbn.
      split; [|done]. intros Hnil. exfalso. apply Hne, nil_length_inv.
      by rewrite <- Hlen, Hnil.
  - intros results. unfold run. destruct (decide (selected = [])) as [Hnil|Hne].
    { unfold revertBatch. fold selected. by rewrite Hnil. }
    destruct (revertBatch_runs batchId s Hne) as [-> Hfst]. fold selected in Hfst.
    cbn. intros [= <-]. cbn. fold selected. split; [done|].
    assert (Houts : length (sweep selected s).1 = length selected).
    { by rewrite <- Hfst at 2; rewrite length_fmap. }
    split.
    { rewrite Hlen, <- Houts. apply length_filter. }
    intros p rest Hp Hno. unfold preview, previewBatchRevert in Hp. fold selected in Hp.
    destruct selected as [|o ops] eqn:Hsel; [done|]. cbn in Hp.
    injection Hp as <- <-. cbn in Hno.
    rewrite Hlen, <- Houts. cbn [sweep].
    destruct (revertOperation o s) as [[r|e] s1] eqn:Hrun.
    { apply revertOperation_ok_canRevert in Hrun. by rewrite Hrun in Hno. }
    destruct (sweep ops s1) as [outcomes s']. cbn.
    rewrite decide_False by (by intros ?).
    split; [|by eexists]. apply Nat.lt_succ_r, length_filter.
Qed.

End RevertCheckFacts.

(** ** revert.js: cleaning up directories *)
Section CleanupFacts.
Context `{Platform}.

Lemma children_nil (dir : string) (s : State) (p : string) :
  children dir s = [] → p ∈ dom (fs_files s) ∪ fs_dirs s →
  NodePath.dirname p = dir → p = dir.
Proof.
  unfold children. intros Hnil Hp Hdir. destruct (decide (p = dir)) as [|Hne]; [done|].
  assert (p ∈ filter (λ p, NodePath.dirname p = dir ∧ p ≠ dir)
                     (elements (dom (fs_files s) ∪ fs_dirs s))) as Hin.
  { apply list_elem_of_filter. split; [done|]. by apply elem_of_elements. }
  rewrite Hnil in Hin. by apply elem_of_nil in Hin.
Qed.

(** The directories the walk of [cleanupEmptyDirectories] removes. *)
Lemma cleanup_loop_removed (fuel : nat) (dir : string) (s : State) (d : string) :
  d ∈ fs_dirs s → d ∉ fs_dirs (cleanup_loop fuel dir s) →
  d ∈ chain fuel dir
  ∧ ∀ p, p ∈ dom (fs_files s) ∪ fs_dirs (cleanup_loop fuel dir s) →
         NodePath.dirname p = d → p = d.
Proof.
  revert dir s. induction fuel as [|fuel IH]; intros dir s Hd Hgone; cbn in *; [done|].
  unfold fs_readdir, fs_rmdir in *. destruct (is_dir dir s) eqn:Hdir; [|done].
  destruct (children dir s) as [|c cs] eqn:Hch; [|done].
  set (s1 := with_fs (fs_files s) (fs_dirs s ∖ {[dir]}) s) in *.
  pose proof (cleanup_loop_frame fuel (NodePath.dirname dir) s1) as (_ & Hsub & _).
  destruct (decide (d = dir)) as [->|Hne].
  - split; [left|]. intros p Hp. eapply children_nil; [exact Hch|].
    apply elem_of_union in Hp as [Hp|Hp]; apply elem_of_union; [by left|right].
    apply Hsub in Hp. cbn in Hp. by apply elem_of_difference in Hp as [? _].
  - assert (d ∈ fs_dirs s1) as Hd1.
    { cbn. apply elem_of_difference. split; [done|]. by intros ?%elem_of_singleton. }
    destruct (IH (NodePath.dirname dir) s1 Hd1 Hgone) as [Hchain Hempty].
    split; [|exact Hempty]. right. case_bool_decide as Hroot; [|done].
    exfalso. rewrite Hroot in Hgone. apply Hgone.
    destruct fuel as [|fuel']; cbn; [done|].
    unfold fs_readdir, is_dir. cbn.
    rewrite bool_decide_eq_false_2; [done|].
    intros [_ Hn]%elem_of_difference. by apply Hn, elem_of_singleton.
Qed.

(** X9: [cleanupEmptyDirectories] touches no file and no table and creates
    no directory. A directory it removes is the given one or one above it,
    and whatever was in it is gone: it held no file, and its subdirectories
    are removed too. A given path that is no directory, or a directory with
    an entry, leaves everything as it is; an empty directory given is
    removed. *)
Theorem cleanupEmptyDirectories_removes_only_empty (dirPath : string) (s : State) :
  let s' := cleanupEmptyDirectories dirPath s in
  fs_files s' = fs_files s
  ∧ tbl_files s' = tbl_files s ∧ tbl_operations s' = tbl_operations s
  ∧ tbl_errors s' = tbl_errors s
  ∧ fs_dirs s' ⊆ fs_dirs s
  ∧ (∀ d, d ∈ fs_dirs s → d ∉ fs_dirs s' →
       d ∈ ancestors dirPath
       ∧ ∀ p, p ∈ dom (fs_files s') ∪ fs_dirs s' → NodePath.dirname p = d → p = d)
  ∧ (dirPath ∉ fs_dirs s ∨ children dirPath s ≠ [] → s' = s)
  ∧ (dirPath ∈ fs_dirs s → children dirPath s = [] → dirPath ∉ fs_dirs s').
Proof.
  intros s'. unfold s', cleanupEmptyDirectories.
  pose proof (cleanup_loop_frame (String.length dirPath + 2) dirPath s)
    as (Hf & Hsub & Htf & Hto & Hte & _).
  do 5 (split; [done|]). split; [|split].
  - intros d Hd Hgone. rewrite Hf. by apply cleanup_loop_removed.
  - rewrite Nat.add_comm. cbn. unfold fs_readdir, is_dir.
    intros [Hno|Hch]; [by rewrite bool_decide_eq_false_2|].
    case_bool_decide; [|done]. by destruct (children dirPath s).
  - intros Hdir Hch.
    replace (String.length dirPath + 2) with (S (String.length dirPath + 1)) by lia.
    cbn [cleanup_loop]. unfold fs_readdir, fs_rmdir, is_dir.
    rewrite bool_decide_eq_true_2, Hch by done.
    match goal with |- _ ∉ fs_dirs (cleanup_loop ?f ?d ?s1) =>
      pose proof (cleanup_loop_frame f d s1) as (_ & Hsub1 & _) end.
    intros [_ Hn]%Hsub1%elem_of_difference. by apply Hn, elem_of_singleton.
Qed.

End CleanupFacts.

(** ** routes/operations.js *)
Section RouteFacts.
Context `{Platform}.

Lemma getOperationById_Some (i : nat) (tbl : list Operations.row) (o : Operations.row) :
  getOperationById i tbl = Some o → Operations.id o = i ∧ o ∈ tbl.
Proof.
  unfold getOperationById. intros [Hin Hid]%find_some.
  split; [by apply bool_decide_eq_true in Hid|by apply list_elem_of_In].
Qed.

(** Reading an entry again after it was reverted. *)
Lemma getOperationById_reverted (i : nat) (tbl rows : list Operations.row)
    (o : Operations.row) :
  getOperationById i tbl = Some o →
  getOperationById i (updateOperationStatus reverted i tbl ++ rows)
  = Some (set_status reverted o).
Proof.
  unfold getOperationById, updateOperationStatus.
  induction tbl as [|r tbl IH]; [done|]. cbn.
  destruct (bool_decide (Operations.id r = i)) eqn:Hid.
  - intros [= ->]. cbn. by rewrite Hid.
  - intros Hrest. rewrite Hid. by apply IH.
Qed.

(** X10: [POST /api/operations/:id/revert]. After it has answered 200, the
    same request is answered 400 'Operation already reverted' and changes
    nothing. When it answers with an error, no file has moved and no row of
    the catalog or the ledger is written; the status is 404 exactly when
    there is no entry with the id, 400 exactly when the entry is reverted
    or is no move, and 500 otherwise, [revertOperation] having thrown. *)
Theorem post_operation_revert_responses (id : nat) (s : State) :
  (∀ result s', post_operation_revert id s = (Json 200 result, s') →
     post_operation_revert id s' = (JsonError 400 "Operation already reverted", s'))
  ∧ (∀ status result s', post_operation_revert id s = (Json status result, s') →
       status = 200
       ∧ ∃ operation, getOperationById id (tbl_operations s) = Some operation
                      ∧ revertOperation operation s = (Ok result, s'))
  ∧ (∀ status msg s', post_operation_revert id s = (JsonError status msg, s') →
       fs_files s' = fs_files s ∧ tbl_files s' = tbl_files s
       ∧ tbl_operations s' = tbl_operations s
       ∧ (status = 404 ∨ status = 400 ∨ status = 500)
       ∧ (status = 404 ↔ getOperationById id (tbl_operations s) = None)
       ∧ (status = 400
          ↔ ∃ operation, getOperationById id (tbl_operations s) = Some operation
                         ∧ (Operations.status operation = reverted
                            ∨ Operations.operation_type operation ≠ op_move))
       ∧ (status = 500
          → ∃ operation e, getOperationById id (tbl_operations s) = Some operation
                           ∧ revertOperation operation s = (Throw e, s')
                           ∧ (message e ≠ "" → msg = message e))).
Proof.
  unfold post_operation_revert.
  destruct (getOperationById id (tbl_operations s)) as [operation|] eqn:Hop; cycle 1.
  { split; [done|]. split; [done|]. intros status msg s' [= <- <- <-].
    do 3 (split; [done|]). split; [by left|]. split; [done|].
    split; [|done]. split; [done|]. by intros (? & ? & _). }
  pose proof (getOperationById_Some _ _ _ Hop) as [Hid _].
  case_bool_decide as Hst.
  { split; [done|]. split; [done|]. intros status msg s' [= <- <- <-].
    do 3 (split; [done|]). split; [by right; left|]. split; [done|].
    split; [|done]. split; [|done]. intros _. exists operation. split; [done|]. by left. }
  case_bool_decide as Htype.
  { split; [done|]. split; [done|]. intros status msg s' [= <- <- <-].
    do 3 (split; [done|]). split; [by right; left|]. split; [done|].
    split; [|done]. split; [|done]. intros _. exists operation. split; [done|]. by right. }
  destruct (revertOperation operation s) as [[r|e] s1] eqn:Hrun.
  - split; [|split; [|done]].
    + intros result s' [= <- <-].
      apply revertOperation_ok in Hrun
        as (file & cp & s0 & s2 & _ & _ & _ & _ & _ & _ & _ & _ & _ & _ & _ & _
            & Hops & _).
      rewrite Hops. unfold insertOperation. rewrite Hid.
      rewrite (getOperationById_reverted _ _ _ _ Hop). cbn.
      by rewrite bool_decide_eq_true_2.
    + intros status result s' [= <- <- <-]. split; [done|]. by exists operation.
  - split; [done|]. split; [done|]. unfold error_middleware.
    intros status msg s' [= <- <- <-].
    apply revertOperation_throw_frame in Hrun as Hframe.
    destruct Hframe as (Hf & _ & Htf & Hto & _).
    do 3 (split; [done|]). split; [by right; right|]. split; [done|].
    split.
    + split; [done|]. by intros (o & [= <-] & [?|?]).
    + intros _. exists operation, e. do 2 (split; [done|]). intros Hne. cbn.
      by rewrite bool_decide_eq_false_2.
Qed.

Lemma filter_length_all {A} (P : A → Prop) `{∀ x, Decision (P x)} (l : list A) :
  length (filter P l) = length l → Forall P l.
Proof.
  induction l as [|x l IH]; [done|]. rewrite filter_cons.
  destruct (decide (P x)) as [HP|HP]; cbn.
  - intros [= Hl]. constructor; [done|]. by apply IH.
  - intros Hl. pose proof (length_filter P l). lia.
Qed.

(** X11: [POST /api/operations/batch/:batchId/revert] answers 404 when the
    batch has no entry, 400 when every entry of the batch is reverted, 500
    with 'No revertible operations found in batch' when some entry is not
    reverted but the batch has no completed move (its moves are all reverted
    and an entry of another type remains), and 200 with the result of
    [revertBatch] exactly when the batch has a completed move. Only the 200
    answer changes anything. *)
Theorem post_batch_revert_responses (batchId : nat) (s : State) :
  let batch := filter (λ o, Operations.batch_id o = batchId) (tbl_operations s) in
  let moves := filter (revertible batchId) (tbl_operations s) in
  let run := post_batch_revert batchId s in
  (batch = [] → run = (JsonError 404 "Batch not found", s))
  ∧ (batch ≠ [] → Forall (λ o, Operations.status o = reverted) batch →
     run = (JsonError 400 "All operations in batch already reverted", s))
  ∧ (batch ≠ [] → ¬ Forall (λ o, Operations.status o = reverted) batch → moves = [] →
     run = (JsonError 500 "No revertible operations found in batch", s))
  ∧ (moves ≠ [] →
     ∃ result s', run = (Json 200 result, s')
                  ∧ revertBatch batchId s = (Ok result, s')
                  ∧ br_totalOperations result = length moves)
  ∧ (∀ status msg s', run = (JsonError status msg, s') → s' = s ∧ moves = []).
Proof.
  intros batch moves run.
  assert (Hbatch : getOperationsByBatch batchId (tbl_operations s) ≡ₚ batch)
    by apply order_by_perm.
  assert (Hsel : select_revertible batchId (tbl_operations s) ≡ₚ moves)
    by apply order_by_perm.
  assert (Hsub : ∀ o, o ∈ moves → o ∈ batch ∧ Operations.status o ≠ reverted).
  { intros o [(Hb & _ & Hst) Ho]%list_elem_of_filter. split; [|by rewrite Hst].
    by apply list_elem_of_filter. }
  assert (Hcases : batch = [] ∧ run = (JsonError 404 "Batch not found", s)
          ∨ batch ≠ [] ∧ Forall (λ o, Operations.status o = reverted) batch
            ∧ run = (JsonError 400 "All operations in batch already reverted", s)
          ∨ batch ≠ [] ∧ ¬ Forall (λ o, Operations.status o = reverted) batch
            ∧ run = match revertBatch batchId s with
                    | (Ok result, s') => (Json 200 result, s')
                    | (Throw error, s') => (error_middleware error, s')
                    end).
  { unfold run, post_batch_revert. case_bool_decide as Hlen.
    { left. split; [|done]. apply nil_length_inv. by rewrite <- Hbatch. }
    assert (batch ≠ []) as Hne.
    { intros Hnil. apply Hlen. by rewrite Hbatch, Hnil. }
    right. case_bool_decide as Hall.
    - left. split; [done|]. split; [|done]. rewrite <- Hbatch.
      exact (filter_length_all _ _ Hall).
    - right. split; [done|]. split; [|done]. intros Hrev. apply Hall.
      f_equal. apply filter_all. intros o Ho. rewrite Hbatch in Ho.
      rewrite Forall_forall in Hrev. by apply Hrev. }
  assert (Hmoves : moves ≠ [] → batch ≠ []
                   ∧ ¬ Forall (λ o, Operations.status o = reverted) batch).
  { intros Hne. destruct moves as [|o rest] eqn:Hm; [done|].
    destruct (Hsub o) as [Hob Hst]; [left|]. split.
    - intros Hnil. rewrite Hnil in Hob. by apply elem_of_nil in Hob.
    - intros Hall. rewrite Forall_forall in Hall. by apply Hst, Hall. }
  assert (Hthrow : moves = [] →
            revertBatch batchId s
            = (Throw (Error "No revertible operations found in batch"), s)).
  { intros Hnil. unfold revertBatch.
    assert (select_revertible batchId (tbl_operations s) = []) as ->; [|done].
    apply Permutation_nil_r. by rewrite Hsel, Hnil. }
  assert (Hok : moves ≠ [] →
            ∃ result s', revertBatch batchId s = (Ok result, s')
                         ∧ br_totalOperations result = length moves).
  { intros Hne.
    destruct (revertBatch_runs batchId s) as [-> _].
    - intros Hnil. apply Hne. apply Permutation_nil_r. by rewrite <- Hsel, Hnil.
    - eexists _, _. split; [done|]. cbn. by rewrite Hsel. }
  split; [|split; [|split; [|split]]].
  - intros Hnil. by destruct Hcases as [[_ ?]|[[? _]|[? _]]].
  - intros Hne Hall. by destruct Hcases as [[? _]|[(_ & _ & ?)|(_ & ? & _)]].
  - intros Hne Hnot Hnil.
    destruct Hcases as [[? _]|[(_ & ? & _)|(_ & _ & ->)]]; [done..|].
    by rewrite (Hthrow Hnil).
  - intros Hne. destruct (Hmoves Hne) as [Hb Hnot].
    destruct (Hok Hne) as (result & s' & Hrun & Htotal).
    exists result, s'. split; [|done].
    destruct Hcases as [[? _]|[(_ & ? & _)|(_ & _ & ->)]]; [done..|].
    by rewrite Hrun.
  - intros status msg s' Hrun.
    destruct (decide (moves = [])) as [Hnil|Hne].
    + split; [|done].
      destruct Hcases as [[_ Hr]|[(_ & _ & Hr)|(_ & _ & Hr)]];
        rewrite Hr in Hrun; try by injection Hrun.
      rewrite (Hthrow Hnil) in Hrun. by injection Hrun.
    + exfalso. destruct (Hmoves Hne) as [Hb Hnot].
      destruct (Hok Hne) as (result & s1 & Hrb & _).
      destruct Hcases as [[? _]|[(_ & ? & _)|(_ & _ & Hr)]]; [done..|].
      rewrite Hr, Hrb in Hrun. done.
Qed.

End RouteFacts.

(** ** organizer.js: the preview *)
Section PreviewFacts.
Context `{Platform}.

(** X12: [previewOrganization] against a dry run of [organizeFile] in the
    same state. The preview has one entry for each file [organizeFiles]
    selects, in the same order, with the source and the destination
    [organizeFile] computes before collision resolution. The dry run of the
    file returns and writes one ledger row for it, changing no file and no
    directory. The preview never reads the filesystem: for a file whose
    source is missing the dry run records a skip, whatever the preview says.
    For a file that is there, the preview says 'duplicate' exactly when the
    dry run records a duplicate, and then of the row the preview names; it
    says 'move' exactly when the dry run records a move, and then to the
    path collision resolution gives for the previewed destination, which is
    the previewed destination when nothing is there. *)
Theorem previewOrganization_against_dry_run (destinationBase : string)
    (fileIds : option (list nat)) (s : State) (batchId : nat) (st : OrganizeStatus) :
  Forall2
    (λ file p,
       pv_id p = Files.id file
       ∧ pv_sourcePath p = sourcePath_of file
       ∧ pv_destinationPath p
         = generateDestinationPath destinationBase (Files.resolved_date file)
                                   (Files.filename file)
       ∧ (pv_action p = "duplicate" ∨ pv_action p = "move" ∧ pv_duplicateOf p = None)
       ∧ ∃ fuel0 st1 s1 e,
           (∀ fuel, fuel0 ≤ fuel →
              organizeFile fuel file destinationBase batchId true st s = Some (st1, s1))
           ∧ tbl_operations s1 = tbl_operations s ++ [e]
           ∧ fs_files s1 = fs_files s
           ∧ fs_dirs s1 = fs_dirs s
           ∧ Operations.file_id e = Files.id file
           ∧ Operations.source_path e = sourcePath_of file
           ∧ (fileExists (sourcePath_of file) s = false →
              Operations.operation_type e = op_skip
              ∧ Operations.destination_path e = None)
           ∧ (fileExists (sourcePath_of file) s = true →
              (pv_action p = "duplicate" ↔ Operations.operation_type e = op_duplicate)
              ∧ (pv_action p = "move" ↔ Operations.operation_type e = op_move)
              ∧ (pv_action p = "duplicate" →
                 ∃ existing,
                   checkForExistingDuplicate (Files.hash_sha256 file) (Files.id file)
                                             (tbl_files s) = Some existing
                   ∧ (Files.id existing ≠ 0 →
                      pv_duplicateOf p = Some (Files.id existing))
                   ∧ Operations.destination_path e = Files.current_path existing)
              ∧ (pv_action p = "move" →
                 ∃ destPath,
                   handleCollision fuel0 (pv_destinationPath p)
                                   (Files.hash_sha256 file) s = Some destPath
                   ∧ Operations.destination_path e = Some destPath
                   ∧ (fileExists (pv_destinationPath p) s = false →
                      destPath = pv_destinationPath p))))
    (filesToOrganize fileIds (tbl_files s))
    (previewOrganization destinationBase fileIds (tbl_files s)).
Proof.
  unfold previewOrganization. apply Forall2_fmap_r, Forall_Forall2_diag, Forall_forall.
  intros file _. cbn [pv_id pv_sourcePath pv_destinationPath pv_action pv_duplicateOf].
  do 3 (split; [done|]).
  unfold organizeFile, plan_file.
  change (is_ok (fs_access (Some (sourcePath_of file)) s))
    with (fileExists (sourcePath_of file) s).
  destruct (fileExists (sourcePath_of file) s) eqn:Hthere; cbn [negb].
  2:{ split; [destruct (checkForExistingDuplicate _ _ _); [by left|by right]|].
      exists 0. eexists _, _, _. split; [intros fuel _; cbn; reflexivity|].
      cbn. by repeat split. }
  destruct (checkForExistingDuplicate _ _ _) as [existing|] eqn:Hdup.
  - split; [by left|]. exists 0. eexists _, _, _.
    split; [intros fuel _; cbn; reflexivity|]. cbn. do 5 (split; [done|]).
    split; [done|]. intros _. split; [done|]. split; [done|]. split; [|done].
    intros _. exists existing. split; [done|]. split; [|done].
    intros Hne. by rewrite bool_decide_eq_false_2.
  - split; [by right|].
    destruct (handleCollision_total
                (generateDestinationPath destinationBase (Files.resolved_date file)
                                         (Files.filename file))
                (Files.hash_sha256 file) s) as (fuel0 & destPath & Hrun).
    exists (S fuel0). eexists _, _, _.
    split; [intros fuel Hfuel; rewrite (Hrun fuel) by lia; cbn; reflexivity|].
    pose proof (Hrun (S fuel0) ltac:(lia)) as Hone.
    cbn -[handleCollision]. do 5 (split; [done|]). split; [done|]. intros _.
    split; [done|]. split; [done|]. split; [done|]. intros _.
    exists destPath. do 2 (split; [done|]).
    intros Hfree. unfold handleCollision in Hone. cbn [handleCollision_loop] in Hone.
    rewrite Hfree in Hone. congruence.
Qed.

End PreviewFacts.

(** ** scanner.js: rescanning a file *)
Section RescanFacts.
Context `{Platform}.

Lemma calculateHashes_of_content (fi : FileInfo) :
  calculateHashes (Some fi) (String.length (fi_content fi))
  = Ok (sha256 (fi_content fi),
        sha256 (String.substring 0 config.partialHashSize (fi_content fi))).
Proof.
  unfold calculateHashes. case_bool_decide as Hsmall; [|done]. by rewrite substring_all.
Qed.

(** X13: [rescanFile] throws 'File not found' for an id that is not in the
    catalog and the error of the read for a file that cannot be read, and
    then leaves the table as it is. Otherwise it returns the row of the id
    with the fingerprints of the content now at the file's current path (its
    original path when it has none), and with the date resolved from the
    metadata read; the row keeps its id, original path, file name,
    extension, size, creation and modification dates, status and duplicate
    link, so the size is not refreshed; the other rows are untouched. *)
Theorem rescanFile_spec (fileId : nat) (read : string → option FileInfo)
    (tbl : list Files.row) :
  let run := rescanFile fileId read tbl in
  (getFileById fileId tbl = None → run = (Throw (Error "File not found"), tbl))
  ∧ (∀ file, getFileById fileId tbl = Some file → read (sourcePath_of file) = None →
       run = (Throw ENOENT, tbl))
  ∧ (∀ file fi, getFileById fileId tbl = Some file →
       read (sourcePath_of file) = Some fi →
       ∃ r metadata,
         run.1 = Ok (Some r)
         ∧ getFileById fileId run.2 = Some r
         ∧ extractAllMetadata (sourcePath_of file) (Some fi) = Ok metadata
         ∧ Files.current_path r = Some (sourcePath_of file)
         ∧ Files.hash_sha256 r = Some (sha256 (fi_content fi))
         ∧ Files.hash_partial r
           = Some (sha256 (String.substring 0 config.partialHashSize (fi_content fi)))
         ∧ Files.resolved_date r = Some (date (resolveDate metadata))
         ∧ Files.date_source r = Some (source (resolveDate metadata))
         ∧ Files.exif_date r = exifDate metadata
         ∧ Files.mime_type r = Some (md_mimeType metadata)
         ∧ (Files.id r, Files.original_path r, Files.filename r, Files.extension r,
            Files.size r, Files.created_at r, Files.modified_at r, Files.status r,
            Files.duplicate_of r, Files.created_timestamp r)
           = (Files.id file, Files.original_path file, Files.filename file,
              Files.extension file, Files.size file, Files.created_at file,
              Files.modified_at file, Files.status file, Files.duplicate_of file,
              Files.created_timestamp file)
         ∧ Files.id <$> run.2 = Files.id <$> tbl
         ∧ Forall2 (λ g g', Files.id g ≠ fileId → g' = g) tbl run.2).
Proof.
  intros run. unfold run, rescanFile. split; [by intros ->|]. split.
  { intros file -> Hread. fold (sourcePath_of file). by rewrite Hread. }
  intros file fi Hfile Hread. rewrite Hfile. fold (sourcePath_of file). rewrite Hread.
  pose proof (getFileById_Some _ _ _ Hfile) as Hid.
  unfold extractAllMetadata.
  destruct (getFileTypeInfo (sourcePath_of file)) as [ext category] eqn:Hinfo.
  cbn [md_size]. rewrite calculateHashes_of_content. cbn [fst snd].
  rewrite getFileById_updateFile, Hfile. cbn [fmap option_fmap option_map].
  eexists _, _. split; [done|]. split; [done|]. split; [done|].
  unfold apply_update. rewrite bool_decide_eq_true_2 by done.
  do 8 (split; [reflexivity|]). split; [apply updateFile_ids|].
  unfold updateFile. apply Forall2_fmap_r, Forall_Forall2_diag, Forall_forall.
  intros g _ Hne. unfold apply_update. by rewrite bool_decide_eq_false_2.
Qed.

End RescanFacts.

(** ** scanner.js: what a scan adds *)
Section ScanRowsFacts.
Context `{Platform}.

(** What one event adds to the catalog and to the counters. *)
Lemma handle_rows (w : ScanWorld) (ev : ScanEvent) :
  ∃ rows,
    w_files (handle w ev) = w_files w ++ rows
    ∧ sc_newFiles (w_status (handle w ev)) = sc_newFiles (w_status w) + length rows
    ∧ sc_newFiles (w_status (handle w ev)) + sc_errorFiles (w_status (handle w ev))
      + sc_skippedFiles (w_status (handle w ev)) + length (failed_dirs [ev])
      = sc_newFiles (w_status w) + sc_errorFiles (w_status w)
        + sc_skippedFiles (w_status w) + 1
    ∧ sc_newFiles (w_status (handle w ev)) + sc_errorFiles (w_status (handle w ev))
      + sc_processedFiles (w_status w)
      ≤ sc_newFiles (w_status w) + sc_errorFiles (w_status w)
        + sc_processedFiles (w_status (handle w ev))
    ∧ Forall (λ r, (∃ file, ev = VisitFile file ∧ scanned_row file r)
                   ∧ Files.id r = next_id (Files.id <$> w_files w)) rows
    ∧ length rows ≤ 1.
Proof.
  destruct ev as [|[filePath info]|dirPath e]; cbn [handle].
  - exists []. rewrite (right_id [] app). cbn. repeat split; try done; lia.
  - unfold processFile.
    destruct (getFileByPath filePath (w_files w)) as [existing|] eqn:Hget.
    { exists []. rewrite (right_id [] app). cbn. repeat split; try done; lia. }
    destruct info as [fi|]; cycle 1.
    { exists []. rewrite (right_id [] app). cbn. repeat split; try done; lia. }
    unfold ingest.
    destruct (extractAllMetadata filePath (Some fi)) as [metadata|err] eqn:Hmd.
    2:{ unfold extractAllMetadata in Hmd. by destruct (getFileTypeInfo filePath). }
    assert (md_size metadata = String.length (fi_content fi)) as Hsize.
    { unfold extractAllMetadata in Hmd. destruct (getFileTypeInfo filePath).
      by injection Hmd as <-. }
    rewrite Hsize, calculateHashes_of_content. unfold insertFile. rewrite Hget.
    rewrite bool_decide_eq_false_2 by (by intros [? ?]).
    eexists [_]. split; [reflexivity|]. cbn [w_status w_files length tally sc_newFiles
      sc_errorFiles sc_skippedFiles sc_processedFiles failed_dirs omap list_omap].
    split; [lia|]. split; [lia|]. split; [lia|]. split; [|done].
    constructor; [|done]. split; [|reflexivity].
    exists (filePath, Some fi). split; [done|]. exists fi, metadata.
    split; [done|]. split; [done|].
    assert (md_filename metadata = NodePath.basename filePath "") as Hname.
    { unfold extractAllMetadata in Hmd. destruct (getFileTypeInfo filePath).
      by injection Hmd as <-. }
    repeat split; try reflexivity; [exact Hname|exact Hsize].
  - exists []. rewrite (right_id [] app). cbn. repeat split; try done; lia.
Qed.

Lemma failed_dirs_cons (ev : ScanEvent) (evs : list ScanEvent) :
  length (failed_dirs (ev :: evs)) = length (failed_dirs [ev]) + length (failed_dirs evs).
Proof. change (ev :: evs) with ([ev] ++ evs). by rewrite failed_dirs_app, length_app. Qed.

Lemma visited_failed_le (evs : list ScanEvent) :
  length (visited evs) + length (failed_dirs evs) ≤ length evs.
Proof. unfold visited, failed_dirs. induction evs as [|[] evs IH]; cbn; lia. Qed.

(** What a run of events adds to the catalog and to the counters. *)
Lemma foldl_handle_rows (evs : list ScanEvent) :
  ∀ w, ∃ rows,
    w_files (foldl handle w evs) = w_files w ++ rows
    ∧ sc_newFiles (w_status (foldl handle w evs))
      = sc_newFiles (w_status w) + length rows
    ∧ sc_newFiles (w_status (foldl handle w evs))
      + sc_errorFiles (w_status (foldl handle w evs))
      + sc_skippedFiles (w_status (foldl handle w evs)) + length (failed_dirs evs)
      = sc_newFiles (w_status w) + sc_errorFiles (w_status w)
        + sc_skippedFiles (w_status w) + length evs
    ∧ sc_newFiles (w_status (foldl handle w evs))
      + sc_errorFiles (w_status (foldl handle w evs)) + sc_processedFiles (w_status w)
      ≤ sc_newFiles (w_status w) + sc_errorFiles (w_status w)
        + sc_processedFiles (w_status (foldl handle w evs))
    ∧ Forall (λ r, (∃ file, file ∈ visited evs ∧ scanned_row file r)
                   ∧ ∀ i, i ∈ Files.id <$> w_files w → i < Files.id r) rows
    ∧ StronglySorted lt (Files.id <$> rows).
Proof.
  induction evs as [|ev evs IH]; intros w; cbn [foldl].
  { exists []. rewrite (right_id [] app). cbn. repeat split; try done; try lia.
    constructor. }
  destruct (handle_rows w ev) as (rows1 & Hf1 & Hn1 & Hc1 & Hp1 & Hrows1 & Hlen1).
  destruct (IH (handle w ev)) as (rows2 & Hf2 & Hn2 & Hc2 & Hp2 & Hrows2 & Hsorted2).
  exists (rows1 ++ rows2). rewrite Hf2, Hf1, (assoc app), length_app.
  split; [done|]. split; [lia|]. split.
  { rewrite failed_dirs_cons. cbn [length]. lia. }
  split; [lia|].
  assert (Hfresh1 : Forall (λ r, ∀ i, i ∈ Files.id <$> w_files w → i < Files.id r) rows1).
  { eapply Forall_impl; [exact Hrows1|]. intros r [_ ->] i Hi.
    unfold next_id. apply Nat.lt_succ_r. by apply max_list_elem_of_le. }
  split.
  - apply Forall_app. split.
    + rewrite Forall_forall in Hrows1, Hfresh1. apply Forall_forall. intros r Hr.
      destruct (Hrows1 r Hr) as [(file & -> & Hrow) _]. split; [|by apply Hfresh1].
      exists file. split; [left|done].
    + eapply Forall_impl; [exact Hrows2|]. intros r [(file & Hin & Hrow) Hfresh].
      split.
      * exists file. split; [|done]. destruct ev; cbn; try done. by right.
      * intros i Hi. apply Hfresh. rewrite Hf1, fmap_app. apply elem_of_app. by left.
  - rewrite fmap_app. destruct rows1 as [|r1 [|? ?]]; [done| |cbn in Hlen1; lia].
    cbn. constructor; [done|]. apply Forall_fmap, Forall_forall. intros r Hr.
    rewrite Forall_forall in Hrows2. destruct (Hrows2 r Hr) as [_ Hfresh]. cbn.
    apply Hfresh. rewrite Hf1, fmap_app. apply elem_of_app. right. cbn. left.
Qed.

(** X14: what [scanDirectory] adds. The catalog it leaves is the one it
    found followed by one row for each new file, [newFiles] of them; each of
    these rows is that of a file the scan visited and could read: its path
    as original and current path, the size and the fingerprints of the
    content read, the date resolved from its metadata, status ['pending'] and
    no duplicate link; the ids of the new rows are increasing and above every
    id that was there. Every entry the scan meets is counted once, as new, in
    error or skipped, or is a directory it could not list. *)
Theorem scanDirectory_catalogues (sourcePath : string) (root : Dir) (recursive : bool)
    (sessionId : option nat) (tbl_f : list Files.row) (tbl_e : list Errors.row)
    (tbl_s : list SessionRow) :
  let w := scanDirectory sourcePath root recursive sessionId tbl_f tbl_e tbl_s in
  let evs := events sourcePath root recursive in
  ∃ rows,
    w_files w = tbl_f ++ rows
    ∧ length rows = sc_newFiles (w_status w)
    ∧ Forall (λ r, (∃ file, file ∈ visited evs ∧ scanned_row file r)
                   ∧ ∀ i, i ∈ Files.id <$> tbl_f → i < Files.id r) rows
    ∧ StronglySorted lt (Files.id <$> rows)
    ∧ (NoDup (Files.id <$> tbl_f) → NoDup (Files.id <$> w_files w))
    ∧ sc_newFiles (w_status w) + sc_errorFiles (w_status w)
      + sc_skippedFiles (w_status w) + length (failed_dirs evs)
      = length evs
    ∧ sc_newFiles (w_status w) + sc_errorFiles (w_status w)
      ≤ sc_processedFiles (w_status w).
Proof.
  intros w evs.
  destruct (scanDirectory_events sourcePath root recursive sessionId tbl_f tbl_e tbl_s)
    as (Hst & Hfiles & _).
  fold w in Hst, Hfiles. rewrite Hst, Hfiles. clear Hst Hfiles.
  cbn [w_status w_files map_status set_scan_status sc_newFiles sc_errorFiles
       sc_skippedFiles sc_processedFiles]. fold evs.
  set (w0 := mkWorld _ tbl_f tbl_e tbl_s).
  destruct (foldl_handle_rows evs w0) as (rows & Hf & Hn & Hc & Hp & Hrows & Hsorted).
  destruct (foldl_handle_accounted evs w0)
    as (_ & _ & _ & Hprocessed & errs & Herrs & Hdirs & Hlen & Hcount).
  exists rows. set (w1 := foldl handle w0 evs) in *.
  cbn in Hf, Hn, Hc, Hp, Hprocessed, Hcount, Hrows.
  split; [done|]. split; [lia|]. split; [done|]. split; [done|]. split; [|split].
  - intros Hnd. rewrite Hf, fmap_app. apply NoDup_app. split; [done|]. split.
    + intros i Hi (r & -> & Hr)%list_elem_of_fmap. rewrite Forall_forall in Hrows.
      destruct (Hrows r Hr) as [_ Hfresh]. specialize (Hfresh _ Hi). lia.
    + clear -Hsorted. induction Hsorted as [|i l Hl IH Hall]; constructor; [|done].
      intros Hin. rewrite Forall_forall in Hall. specialize (Hall _ Hin). lia.
  - lia.
  - lia.
Qed.

End ScanRowsFacts.

(** ** duplicateDetector.js: marking the duplicates *)
Section MarkDuplicatesFacts.

Lemma mark_group_marks (g : Group) (tbl : list Files.row) (n : nat) :
  mark_group g (tbl, n)
  = (foldl (λ tbl m, (λ r, apply_mark r m) <$> tbl) tbl (group_marks g),
     n + length (group_marks g)).
Proof.
  unfold mark_group, group_marks. destruct (g_original g) as [original|]; cycle 1.
  { cbn. by rewrite Nat.add_0_r. }
  revert tbl n. induction (g_duplicates g) as [|d ds IH]; intros tbl n.
  { cbn. by rewrite Nat.add_0_r. }
  cbn [foldl]. rewrite filter_cons. case_bool_decide as Hst.
  - rewrite decide_True by done. rewrite IH. cbn. f_equal. lia.
  - rewrite decide_False by done. apply IH.
Qed.

Lemma foldl_mark_groups (groups : list Group) (tbl : list Files.row) (n : nat) :
  foldl (λ acc g, mark_group g acc) (tbl, n) groups
  = (foldl (λ tbl m, (λ r, apply_mark r m) <$> tbl) tbl (groups ≫= group_marks),
     n + length (groups ≫= group_marks)).
Proof.
  revert tbl n. induction groups as [|g groups IH]; intros tbl n.
  { cbn. by rewrite Nat.add_0_r. }
  cbn [foldl]. rewrite mark_group_marks, IH. cbn [mbind list_bind].
  rewrite foldl_app, length_app. f_equal. lia.
Qed.

Lemma foldl_marks_fmap (ms : list (Files.row * Files.row)) (tbl : list Files.row) :
  foldl (λ tbl m, (λ r, apply_mark r m) <$> tbl) tbl ms
  = (λ r, foldl apply_mark r ms) <$> tbl.
Proof.
  revert tbl. induction ms as [|m ms IH]; intros tbl; cbn [foldl].
  { by rewrite list_fmap_id. }
  rewrite IH, <- list_fmap_compose. done.
Qed.

(** [markDuplicates] by the updates it issues. *)
Lemma markDuplicates_marks (tbl : list Files.row) :
  markDuplicates tbl
  = ((λ r, foldl apply_mark r (marks_of tbl)) <$> tbl,
     (length (findAllDuplicateGroups tbl), length (marks_of tbl))).
Proof.
  unfold markDuplicates. rewrite foldl_mark_groups, foldl_marks_fmap. done.
Qed.

Lemma apply_mark_id (r : Files.row) (m : Files.row * Files.row) :
  Files.id (apply_mark r m) = Files.id r.
Proof. unfold apply_mark, apply_update. by case_bool_decide. Qed.

Lemma apply_mark_other (r : Files.row) (m : Files.row * Files.row) :
  Files.id m.1 ≠ Files.id r → apply_mark r m = r.
Proof.
  intros Hne. unfold apply_mark, apply_update. rewrite bool_decide_eq_false_2; [done|].
  cbn. by intros ?.
Qed.

Lemma foldl_apply_mark_none (r : Files.row) (ms : list (Files.row * Files.row)) :
  (∀ m, m ∈ ms → Files.id m.1 ≠ Files.id r) → foldl apply_mark r ms = r.
Proof.
  induction ms as [|m ms IH]; intros Hall; [done|]. cbn.
  rewrite apply_mark_other by (apply Hall; left). apply IH.
  intros m' Hm'. apply Hall. by right.
Qed.

Lemma foldl_apply_mark_one (r : Files.row) (ms : list (Files.row * Files.row))
    (m : Files.row * Files.row) :
  NoDup ((Files.id ∘ fst) <$> ms) → m ∈ ms → m.1 = r →
  foldl apply_mark r ms = apply_mark r m.
Proof.
  induction ms as [|m0 ms IH]; intros Hnd Hin Hm; [by apply elem_of_nil in Hin|].
  cbn in Hnd. apply NoDup_cons in Hnd as [Hfresh Hnd]. cbn [foldl].
  apply elem_of_cons in Hin as [<-|Hin].
  - apply foldl_apply_mark_none. intros m' Hm' Heq. apply Hfresh.
    rewrite apply_mark_id, <- Hm in Heq. rewrite <- Heq.
    by apply (list_elem_of_fmap_2 (Files.id ∘ fst)).
  - rewrite apply_mark_other; [by apply IH|]. intros Heq. apply Hfresh.
    rewrite Heq, <- Hm. by apply (list_elem_of_fmap_2 (Files.id ∘ fst)).
Qed.

End MarkDuplicatesFacts.

Section MarksFacts.

Lemma files_with_hash_elem (h : string) (tbl : list Files.row) (r : Files.row) :
  r ∈ files_with_hash h tbl ↔ r ∈ tbl ∧ Files.hash_sha256 r = Some h.
Proof.
  unfold files_with_hash, order_by_asc. rewrite elem_of_order_by, list_elem_of_filter.
  tauto.
Qed.

Lemma files_with_hash_NoDup (h : string) (tbl : list Files.row) :
  NoDup tbl → NoDup (files_with_hash h tbl).
Proof.
  intros Hnd. unfold files_with_hash, order_by_asc. rewrite order_by_perm.
  by apply NoDup_filter.
Qed.

(** The updates of [markDuplicates]: the pending rows of a group that are
    not its original. *)
Lemma marks_of_elem (tbl : list Files.row) (m : Files.row * Files.row) :
  m ∈ marks_of tbl
  ↔ ∃ h, h ∈ duplicateHashes tbl
         ∧ head (files_with_hash h tbl) = Some m.2
         ∧ m.1 ∈ tail (files_with_hash h tbl)
         ∧ Files.status m.1 = st_pending.
Proof.
  unfold marks_of, findAllDuplicateGroups. rewrite list_elem_of_bind. split.
  - intros (g & Hm & (h & -> & Hh)%list_elem_of_fmap). exists h. split; [done|].
    unfold group_marks in Hm. cbn in Hm.
    destruct (head (files_with_hash h tbl)) as [o|]; [|by apply elem_of_nil in Hm].
    apply list_elem_of_fmap in Hm as (d & -> & [Hst Hd]%list_elem_of_filter). done.
  - intros (h & Hh & Hhead & Hd & Hst). eexists. split; [|by apply list_elem_of_fmap_2].
    unfold group_marks. cbn. rewrite Hhead. destruct m as [d o]. cbn in *.
    apply (list_elem_of_fmap_2 (λ duplicate, (duplicate, o))).
    by apply list_elem_of_filter.
Qed.

(** What holds of a duplicate and the original it is linked to. *)
Lemma marks_of_rows (tbl : list Files.row) (m : Files.row * Files.row) :
  NoDup (Files.id <$> tbl) → m ∈ marks_of tbl →
  m.1 ∈ tbl ∧ m.2 ∈ tbl ∧ Files.status m.1 = st_pending
  ∧ Files.id m.2 ≠ Files.id m.1
  ∧ Files.hash_sha256 m.2 = Files.hash_sha256 m.1
  ∧ Files.hash_sha256 m.1 ≠ None
  ∧ Files.created_timestamp m.2 ≤ Files.created_timestamp m.1.
Proof.
  intros Hnd (h & Hh & Hhead & Hd & Hst)%marks_of_elem.
  pose proof (files_with_hash_NoDup h tbl (NoDup_fmap_1 _ _ Hnd)) as Hfiles.
  pose proof (order_by_asc_sorted Files.created_timestamp
                (filter (λ r, Files.hash_sha256 r = Some h) tbl)) as Hsorted.
  fold (files_with_hash h tbl) in Hsorted.
  assert (∀ r, r ∈ files_with_hash h tbl → r ∈ tbl ∧ Files.hash_sha256 r = Some h)
    as Helem by (intros r; apply files_with_hash_elem).
  destruct (files_with_hash h tbl) as [|o files]; [done|]. cbn in Hhead, Hd.
  injection Hhead as ->. apply NoDup_cons in Hfiles as [Hfresh _].
  apply StronglySorted_inv in Hsorted as [_ Hle]. rewrite Forall_forall in Hle.
  destruct (Helem m.2) as [Ho Hoh]; [left|].
  destruct (Helem m.1) as [Hdt Hdh]; [by right|].
  repeat split; try done.
  - intros Heq. apply Hfresh. by rewrite (row_of_id tbl m.1 m.2 Hnd Hdt Ho Heq).
  - by rewrite Hoh, Hdh.
  - by rewrite Hdh.
  - by apply Hle.
Qed.

Lemma duplicateHashes_NoDup (tbl : list Files.row) : NoDup (duplicateHashes tbl).
Proof. unfold duplicateHashes. apply NoDup_filter, NoDup_remove_dups. Qed.

Lemma marks_of_NoDup (tbl : list Files.row) :
  NoDup (Files.id <$> tbl) → NoDup ((Files.id ∘ fst) <$> marks_of tbl).
Proof.
  intros Hnd. rewrite list_fmap_compose.
  apply NoDup_fmap_2_strong.
  { intros d1 d2 (m1 & -> & Hm1)%list_elem_of_fmap (m2 & -> & Hm2)%list_elem_of_fmap Heq.
    apply (marks_of_rows tbl m1 Hnd) in Hm1 as (H1 & _).
    apply (marks_of_rows tbl m2 Hnd) in Hm2 as (H2 & _).
    by apply (row_of_id tbl m2.1 m1.1 Hnd). }
  unfold marks_of, findAllDuplicateGroups.
  assert (Hbind : ∀ (l : list string),
            fst <$> ((λ h, let files := files_with_hash h tbl in
                           mkGroup h (length files)
                             (foldl (λ sum f, sum + Files.size f) 0 files)
                             files (head files) (tail files)) <$> l) ≫= group_marks
            = l ≫= (λ h, match head (files_with_hash h tbl) with
                         | Some _ => filter (λ d, Files.status d = st_pending)
                                            (tail (files_with_hash h tbl))
                         | None => []
                         end)).
  { induction l as [|h l IH]; [done|]. cbn [fmap list_fmap mbind list_bind].
    rewrite fmap_app. f_equal; [|exact IH]. unfold group_marks. cbn.
    destruct (head (files_with_hash h tbl)); [|done].
    rewrite <- list_fmap_compose. apply list_fmap_id. }
  rewrite Hbind. apply NoDup_bind.
  - intros h1 h2 d _ _ Hd1 Hd2.
    assert (∀ h, d ∈ match head (files_with_hash h tbl) with
                     | Some _ => filter (λ d, Files.status d = st_pending)
                                        (tail (files_with_hash h tbl))
                     | None => []
                     end → Files.hash_sha256 d = Some h) as Hhash.
    { intros h Hd. destruct (files_with_hash h tbl) as [|o files] eqn:Hfiles;
        [by apply elem_of_nil in Hd|].
      cbn in Hd. apply list_elem_of_filter in Hd as [_ Hd].
      apply (files_with_hash_elem h tbl d). rewrite Hfiles. by right. }
    apply Hhash in Hd1, Hd2. congruence.
  - intros h _. destruct (head (files_with_hash h tbl)); [|constructor].
    apply NoDup_filter.
    pose proof (files_with_hash_NoDup h tbl (NoDup_fmap_1 _ _ Hnd)) as Hfiles.
    destruct (files_with_hash h tbl); [done|]. by apply NoDup_cons in Hfiles as [_ ?].
  - apply duplicateHashes_NoDup.
Qed.

End MarksFacts.

Section MarkDuplicatesTheorem.

Lemma insert_by_fmap {A} (g : A → A) (le : A → A → bool) (x : A) (l : list A) :
  (∀ a b, le (g a) (g b) = le a b) →
  insert_by le (g x) (g <$> l) = g <$> insert_by le x l.
Proof.
  intros Hle. induction l as [|y l IH]; [done|]. cbn. rewrite Hle.
  destruct (le x y); [done|]. cbn. by rewrite IH.
Qed.

Lemma order_by_fmap {A} (g : A → A) (le : A → A → bool) (l : list A) :
  (∀ a b, le (g a) (g b) = le a b) →
  order_by le (g <$> l) = g <$> order_by le l.
Proof.
  intros Hle. unfold order_by. induction l as [|x l IH]; [done|]. cbn.
  by rewrite IH, insert_by_fmap.
Qed.

Lemma filter_fmap_same {A} (g : A → A) (P : A → Prop) `{∀ x, Decision (P x)}
    (l : list A) :
  (∀ x, P (g x) ↔ P x) → filter P (g <$> l) = g <$> filter P l.
Proof.
  intros HP. induction l as [|x l IH]; [done|]. rewrite fmap_cons, !filter_cons, IH.
  destruct (decide (P (g x))) as [Hg|Hg], (decide (P x)) as [Hx|Hx]; try done.
  - exfalso. by apply Hx, HP.
  - exfalso. by apply Hg, HP.
Qed.

Lemma omap_fmap_same {A B} (g : A → A) (f : A → option B) (l : list A) :
  (∀ x, f (g x) = f x) → omap f (g <$> l) = omap f l.
Proof.
  intros Hf. induction l as [|x l IH]; [done|]. cbn. by rewrite Hf, IH.
Qed.

(** A row after the updates of [markDuplicates]: what stays. *)
Lemma marked_by_keeps (ms : list (Files.row * Files.row)) (r : Files.row) :
  Forall (λ m, Files.status m.1 = st_pending) ms →
  Files.id (marked_by ms r) = Files.id r
  ∧ Files.hash_sha256 (marked_by ms r) = Files.hash_sha256 r
  ∧ Files.created_timestamp (marked_by ms r) = Files.created_timestamp r
  ∧ countable_row (marked_by ms r) = countable_row r
  ∧ (Files.status (marked_by ms r) = st_pending →
     ∀ m, m ∈ ms → m.1 ≠ r).
Proof.
  intros Hpending. unfold marked_by.
  destruct (find (λ m, bool_decide (m.1 = r)) ms) as [m|] eqn:Hfind.
  - apply find_some in Hfind as [Hin Heq%bool_decide_eq_true]. subst r.
    apply list_elem_of_In in Hin. rewrite Forall_forall in Hpending.
    specialize (Hpending m Hin). unfold apply_mark, apply_update, countable_row.
    rewrite bool_decide_eq_true_2 by done. cbn. rewrite Hpending.
    repeat split; try done.
  - repeat split; try done. intros _ m Hm Heq.
    apply list_elem_of_In in Hm.
    eapply find_none in Hfind; [|exact Hm]. cbn in Hfind.
    by apply bool_decide_eq_false in Hfind.
Qed.

Lemma marks_of_pending (tbl : list Files.row) :
  Forall (λ m, Files.status m.1 = st_pending) (marks_of tbl).
Proof. apply Forall_forall. by intros m (h & _ & _ & _ & ?)%marks_of_elem. Qed.

(** With ids that are unique, the table after [markDuplicates]. *)
Lemma markDuplicates_marked (tbl : list Files.row) :
  NoDup (Files.id <$> tbl) →
  (markDuplicates tbl).1 = marked_by (marks_of tbl) <$> tbl.
Proof.
  intros Hnd. rewrite markDuplicates_marks. cbn [fst].
  apply list_fmap_ext. intros i r Hr%list_elem_of_lookup_2. unfold marked_by.
  destruct (find (λ m, bool_decide (m.1 = r)) (marks_of tbl)) as [m|] eqn:Hfind.
  - apply find_some in Hfind as [Hin Heq%bool_decide_eq_true].
    apply list_elem_of_In in Hin.
    by apply foldl_apply_mark_one; [apply marks_of_NoDup| |].
  - apply foldl_apply_mark_none. intros m Hm Heq.
    pose proof (marks_of_rows tbl m Hnd Hm) as (Hmt & _).
    apply list_elem_of_In in Hm. eapply find_none in Hfind; [|exact Hm].
    cbn in Hfind. apply bool_decide_eq_false in Hfind. apply Hfind.
    by apply (row_of_id tbl r m.1 Hnd).
Qed.

Lemma duplicateHashes_fmap (g : Files.row → Files.row) (tbl : list Files.row) :
  (∀ r, Files.hash_sha256 (g r) = Files.hash_sha256 r) →
  (∀ r, countable_row (g r) = countable_row r) →
  duplicateHashes (g <$> tbl) = duplicateHashes tbl.
Proof.
  intros Hh Hc. unfold duplicateHashes.
  rewrite omap_fmap_same by (intros r; by rewrite Hh, Hc).
  apply filter_ext_in. intros h _. unfold hash_count.
  rewrite filter_fmap_same by (intros r; by rewrite Hh, Hc).
  by rewrite length_fmap.
Qed.

Lemma files_with_hash_fmap (g : Files.row → Files.row) (h : string)
    (tbl : list Files.row) :
  (∀ r, Files.hash_sha256 (g r) = Files.hash_sha256 r) →
  (∀ r, Files.created_timestamp (g r) = Files.created_timestamp r) →
  files_with_hash h (g <$> tbl) = g <$> files_with_hash h tbl.
Proof.
  intros Hh Ht. unfold files_with_hash, order_by_asc.
  rewrite filter_fmap_same by (intros r; by rewrite Hh).
  apply order_by_fmap. intros a b. by rewrite !Ht.
Qed.

(** After [markDuplicates] no duplicate is left to mark. *)
Lemma marks_of_marked (tbl : list Files.row) :
  marks_of (marked_by (marks_of tbl) <$> tbl) = []
  ∧ length (findAllDuplicateGroups (marked_by (marks_of tbl) <$> tbl))
    = length (findAllDuplicateGroups tbl).
Proof.
  pose proof (marked_by_keeps (marks_of tbl)) as Hkeeps.
  assert (Hh : ∀ r, Files.hash_sha256 (marked_by (marks_of tbl) r) = Files.hash_sha256 r).
  { intros r. by apply Hkeeps, marks_of_pending. }
  assert (Ht : ∀ r, Files.created_timestamp (marked_by (marks_of tbl) r)
                    = Files.created_timestamp r).
  { intros r. by apply Hkeeps, marks_of_pending. }
  assert (Hc : ∀ r, countable_row (marked_by (marks_of tbl) r) = countable_row r).
  { intros r. by apply Hkeeps, marks_of_pending. }
  split; cycle 1.
  { unfold findAllDuplicateGroups. by rewrite !length_fmap, duplicateHashes_fmap. }
  destruct (marks_of (marked_by (marks_of tbl) <$> tbl)) as [|m rest] eqn:Hmarks; [done|].
  exfalso. assert (m ∈ marks_of (marked_by (marks_of tbl) <$> tbl)) as Hm
    by (rewrite Hmarks; left).
  apply marks_of_elem in Hm as (h & Hhash & Hhead & Hd & Hst).
  rewrite duplicateHashes_fmap in Hhash by done.
  rewrite files_with_hash_fmap in Hhead, Hd by done.
  destruct (files_with_hash h tbl) as [|o files] eqn:Hfiles; [done|].
  cbn in Hd. apply list_elem_of_fmap in Hd as (d & Heq & Hd). rewrite Heq in Hst.
  destruct (Hkeeps d (marks_of_pending tbl)) as (_ & _ & _ & _ & Hnot).
  apply (Hnot Hst (d, o)); [|done]. apply marks_of_elem. exists h. cbn.
  rewrite Hfiles. cbn. do 3 (split; [done|]).
  destruct (decide (Files.status d = st_pending)) as [|Hne]; [done|].
  exfalso. apply Hne. clear Hnot. unfold marked_by in Hst.
  destruct (find (λ m, bool_decide (m.1 = d)) (marks_of tbl)) as [m0|] eqn:Hfind;
    [|done].
  apply find_some in Hfind as [Hin Hm0%bool_decide_eq_true]. subst d.
  apply list_elem_of_In in Hin.
  pose proof (marks_of_pending tbl) as Hall. rewrite Forall_forall in Hall.
  by apply Hall.
Qed.

End MarkDuplicatesTheorem.

Section MarkDuplicatesSpec.

Lemma marks_of_groups (tbl : list Files.row) (m : Files.row * Files.row) :
  m ∈ marks_of tbl
  ↔ ∃ g, g ∈ findAllDuplicateGroups tbl ∧ g_original g = Some m.2
         ∧ m.1 ∈ g_duplicates g ∧ Files.status m.1 = st_pending.
Proof.
  unfold marks_of. rewrite list_elem_of_bind. unfold group_marks. split.
  - intros (g & Hm & Hg). exists g. split; [done|].
    destruct (g_original g) as [o|]; [|by apply elem_of_nil in Hm].
    apply list_elem_of_fmap in Hm as (d & -> & [Hst Hd]%list_elem_of_filter). done.
  - intros (g & Hg & Ho & Hd & Hst). exists g. split; [|done]. rewrite Ho.
    destruct m as [d o]. apply (list_elem_of_fmap_2 (λ duplicate, (duplicate, o))).
    by apply list_elem_of_filter.
Qed.

Lemma length_changed {A} `{EqDecision A} (f : A → A) (l : list A) :
  length (filter (λ p, p.1 ≠ p.2) (zip l (f <$> l)))
  = length (filter (λ x, x ≠ f x) l).
Proof.
  induction l as [|x l IH]; [done|]. cbn [fmap list_fmap zip zip_with].
  rewrite !filter_cons. cbn [fst snd].
  destruct (decide (x ≠ f x)); cbn [length]; by rewrite IH.
Qed.

(** X15: [markDuplicates], on a catalog whose ids are unique. It links
    every pending duplicate of every group to the original of its group:
    the row gets status ['duplicate'] and the id of the original, a
    different row with the same fingerprint that was discovered no later,
    and keeps its other columns; every other row is left as it is, the
    originals included. [groupsFound] is the number of groups and
    [filesMarked] the number of rows changed. Run again on the result, it
    marks nothing and changes nothing. *)
Theorem markDuplicates_spec (tbl : list Files.row) :
  NoDup (Files.id <$> tbl) →
  let groups := findAllDuplicateGroups tbl in
  let run := markDuplicates tbl in
  run.2.1 = length groups
  ∧ run.2.2 = length (filter (λ p, p.1 ≠ p.2) (zip tbl run.1))
  ∧ Forall2
      (λ r r',
         (∀ g original,
            g ∈ groups → g_original g = Some original → r ∈ g_duplicates g →
            Files.status r = st_pending →
            r' = apply_update (keeping r (Files.current_path r) st_duplicate
                                       (Some (Files.id original))) r
            ∧ Files.status r' = st_duplicate
            ∧ Files.duplicate_of r' = Some (Files.id original)
            ∧ original ∈ tbl
            ∧ Files.id original ≠ Files.id r
            ∧ Files.hash_sha256 original = Files.hash_sha256 r
            ∧ Files.created_timestamp original ≤ Files.created_timestamp r)
         ∧ ((∀ g, g ∈ groups → r ∈ g_duplicates g → Files.status r ≠ st_pending) →
            r' = r))
      tbl run.1
  ∧ markDuplicates run.1 = (run.1, (run.2.1, 0)).
Proof.
  intros Hnd groups run.
  pose proof (marks_of_NoDup tbl Hnd) as Hmarks.
  split; [|split; [|split]].
  - unfold run. by rewrite markDuplicates_marks.
  - unfold run. rewrite markDuplicates_marked by done.
    rewrite markDuplicates_marks. cbn [fst snd]. rewrite length_changed.
    rewrite <- (length_fmap fst (marks_of tbl)). apply Permutation_length.
    symmetry. apply NoDup_Permutation.
    + apply NoDup_filter. by apply NoDup_fmap_1 in Hnd.
    + rewrite list_fmap_compose in Hmarks. by apply NoDup_fmap_1 in Hmarks.
    + intros r. rewrite list_elem_of_filter, list_elem_of_fmap. split.
      * intros [Hne Hr]. unfold marked_by in Hne.
        destruct (find (λ m, bool_decide (m.1 = r)) (marks_of tbl)) as [m|] eqn:Hfind;
          [|done].
        apply find_some in Hfind as [Hin Heq%bool_decide_eq_true].
        exists m. split; [done|]. by apply list_elem_of_In.
      * intros (m & -> & Hm).
        pose proof (marks_of_rows tbl m Hnd Hm) as (Hmt & _ & Hst & _).
        split; [|done]. intros Heq.
        destruct (marked_by_keeps (marks_of tbl) m.1 (marks_of_pending tbl))
          as (_ & _ & _ & _ & Hnot).
        rewrite <- Heq in Hnot. by apply (Hnot Hst m).
  - unfold run. rewrite markDuplicates_marks. cbn [fst].
    apply Forall2_fmap_r, Forall_Forall2_diag, Forall_forall. intros r Hr. split.
    + intros g original Hg Ho Hd Hst.
      assert ((r, original) ∈ marks_of tbl) as Hm.
      { apply marks_of_groups. by exists g. }
      rewrite (foldl_apply_mark_one r (marks_of tbl) (r, original)) by done.
      pose proof (marks_of_rows tbl (r, original) Hnd Hm)
        as (_ & Hot & _ & Hne & Hhash & _ & Hle).
      split; [done|]. unfold apply_mark, apply_update. cbn [fst snd].
      rewrite bool_decide_eq_true_2 by done. done.
    + intros Hnone. apply foldl_apply_mark_none. intros m Hm Heq.
      pose proof (marks_of_rows tbl m Hnd Hm) as (Hmt & _).
      pose proof (row_of_id tbl r m.1 Hnd Hr Hmt Heq) as Hrow.
      apply marks_of_groups in Hm as (g & Hg & _ & Hd & Hst).
      rewrite Hrow in Hd, Hst. by apply (Hnone g).
  - unfold run. rewrite markDuplicates_marked by done.
    rewrite (markDuplicates_marks tbl). cbn [fst snd].
    rewrite markDuplicates_marks.
    destruct (marks_of_marked tbl) as [-> ->]. cbn. by rewrite list_fmap_id.
Qed.

End MarkDuplicatesSpec.

(** X15 on the catalog of three rows with one fingerprint. *)
Lemma markDuplicates_spec_witness :
  NoDup (Files.id <$> Demo.catalog_with_error_row)
  ∧ (let tbl := Demo.catalog_with_error_row in
     let groups := findAllDuplicateGroups tbl in
     let run := markDuplicates tbl in
     run.2.1 = length groups
     ∧ run.2.2 = length (filter (λ p, p.1 ≠ p.2) (zip tbl run.1))
     ∧ Forall2
         (λ r r',
            (∀ g original,
               g ∈ groups → g_original g = Some original → r ∈ g_duplicates g →
               Files.status r = st_pending →
               r' = apply_update (keeping r (Files.current_path r) st_duplicate
                                          (Some (Files.id original))) r
               ∧ Files.status r' = st_duplicate
               ∧ Files.duplicate_of r' = Some (Files.id original)
               ∧ original ∈ tbl
               ∧ Files.id original ≠ Files.id r
               ∧ Files.hash_sha256 original = Files.hash_sha256 r
               ∧ Files.created_timestamp original ≤ Files.created_timestamp r)
            ∧ ((∀ g, g ∈ groups → r ∈ g_duplicates g → Files.status r ≠ st_pending) →
               r' = r))
         tbl run.1
     ∧ markDuplicates run.1 = (run.1, (run.2.1, 0))).
Proof.
  assert (NoDup (Files.id <$> Demo.catalog_with_error_row)) as Hnd.
  { apply (bool_decide_unpack _). vm_compute. reflexivity. }
  split; [exact Hnd|].
  exact (markDuplicates_spec Demo.catalog_with_error_row Hnd).
Defined.

(** ** organizer.js: the accounting of a batch *)
Section OrganizerAccounting.
Context `{Platform}.

Local Ltac tally_types :=
  cbn; rewrite ?length_app; cbn; repeat split; try done;
  repeat case_decide; try done; cbn; try lia.

(** What one [organizeFile] adds to the counters, the ledger, the errors
    and the catalog. *)
Lemma organizeFile_counts (fuel : nat) (file : Files.row) (base : string)
    (batchId : nat) (dryRun : bool) (st st' : OrganizeStatus) (s s' : State) :
  organizeFile fuel file base batchId dryRun st s = Some (st', s') →
  ∃ e errs,
    let count t := length (filter (λ e, Operations.operation_type e = t) [e]) in
    tbl_operations s' = tbl_operations s ++ [e]
    ∧ tbl_errors s' = tbl_errors s ++ errs
    ∧ Operations.file_id e = Files.id file
    ∧ count op_move + count op_skip + count op_duplicate + count op_error = 1
    ∧ os_movedFiles st' = os_movedFiles st + count op_move
    ∧ os_skippedFiles st' = os_skippedFiles st + count op_skip
    ∧ os_duplicateFiles st' = os_duplicateFiles st + count op_duplicate
    ∧ os_errorFiles st' = os_errorFiles st + count op_error
    ∧ length errs = count op_error
    ∧ length (os_operations st') = length (os_operations st) + count op_move
    ∧ os_processedFiles st' = os_processedFiles st
    ∧ os_totalFiles st' = os_totalFiles st
    ∧ (dryRun = true → count op_error = 0)
    ∧ Files.id <$> tbl_files s' = Files.id <$> tbl_files s
    ∧ (∀ r, r ∈ tbl_files s → Files.id r ≠ Files.id file → r ∈ tbl_files s').
Proof.
  unfold organizeFile. destruct (plan_file fuel file base s) as [plan|]; [|done].
  cbn [mbind option_bind]. intros [= Hrun]. destruct plan as [|existing|destPath].
  - simplify_eq. exists (Operations.mk
      (next_id (Operations.id <$> tbl_operations s)) batchId (Files.id file) op_skip
      (sourcePath_of file) None (Files.hash_sha256 file) "Source file not found"
      completed (CURRENT_TIMESTAMP (next_id (Operations.id <$> tbl_operations s)))), [].
    cbn. rewrite app_nil_r. tally_types.
  - simplify_eq. eexists _, []. cbn. rewrite app_nil_r.
    split; [reflexivity|]. tally_types.
    + apply updateFile_ids.
    + intros r Hr Hne. by apply updateFile_other.
  - destruct dryRun.
    + simplify_eq. eexists _, []. cbn. rewrite app_nil_r.
      split; [reflexivity|]. tally_types.
    + destruct (fs_mkdir _ s) as [s1|e1] eqn:Hmk.
      2:{ unfold organize_failed in Hrun. simplify_eq. eexists _, [_]. cbn.
          split; [reflexivity|]. tally_types. }
      apply fs_mkdir_frame in Hmk as (_ & _ & Htf1 & Hops1 & Hte1 & _).
      destruct (fs_rename _ _ s1) as [s2|e2] eqn:Hren.
      2:{ unfold organize_failed in Hrun. simplify_eq. eexists _, [_]. cbn.
          rewrite Hops1, Hte1, Htf1. split; [reflexivity|]. tally_types. }
      apply fs_rename_tables in Hren as (Htf2 & Hops2 & Hte2 & _).
      simplify_eq. eexists _, []. cbn. rewrite Hops2, Hops1, Hte2, Hte1, Htf2, Htf1.
      rewrite app_nil_r. split; [reflexivity|]. tally_types.
      * apply updateFile_ids.
      * intros r Hr Hne. by apply updateFile_other.
Qed.

(** The same for the loop of [organizeFiles]. *)
Lemma organize_loop_counts (fuel : nat) (files : list Files.row) (base : string)
    (batchId : nat) (dryRun : bool) (st st' : OrganizeStatus) (s s' : State) :
  organize_loop fuel files base batchId dryRun st s = Some (st', s') →
  ∃ entries errs,
    let count t := length (filter (λ e, Operations.operation_type e = t) entries) in
    tbl_operations s' = tbl_operations s ++ entries
    ∧ tbl_errors s' = tbl_errors s ++ errs
    ∧ Operations.file_id <$> entries = Files.id <$> files
    ∧ count op_move + count op_skip + count op_duplicate + count op_error
      = length files
    ∧ os_movedFiles st' = os_movedFiles st + count op_move
    ∧ os_skippedFiles st' = os_skippedFiles st + count op_skip
    ∧ os_duplicateFiles st' = os_duplicateFiles st + count op_duplicate
    ∧ os_errorFiles st' = os_errorFiles st + count op_error
    ∧ length errs = count op_error
    ∧ length (os_operations st') = length (os_operations st) + count op_move
    ∧ os_processedFiles st' = os_processedFiles st + length files
    ∧ os_totalFiles st' = os_totalFiles st
    ∧ (dryRun = true → count op_error = 0)
    ∧ Files.id <$> tbl_files s' = Files.id <$> tbl_files s
    ∧ (∀ r, r ∈ tbl_files s → Files.id r ∉ Files.id <$> files → r ∈ tbl_files s').
Proof.
  revert st s. induction files as [|file rest IH]; intros st s; cbn [organize_loop].
  { intros [= <- <-]. exists [], []. cbn. rewrite !app_nil_r.
    repeat split; try done; lia. }
  destruct (organizeFile fuel file base batchId dryRun st s) as [[st1 s1]|] eqn:Hone;
    [|done].
  cbn [mbind option_bind]. intros Hrest.
  apply organizeFile_counts in Hone
    as (e & errs1 & Hops1 & Herrs1 & Hid1 & Hsum1 & Hm1 & Hs1 & Hd1 & He1 & Hl1 & Ho1
        & Hp1 & Ht1 & Hdry1 & Hids1 & Hkeep1).
  apply IH in Hrest
    as (entries & errs2 & Hops2 & Herrs2 & Hid2 & Hsum2 & Hm2 & Hs2 & Hd2 & He2 & Hl2
        & Ho2 & Hp2 & Ht2 & Hdry2 & Hids2 & Hkeep2).
  exists (e :: entries), (errs1 ++ errs2). cbv zeta in *.
  rewrite Hops2, Hops1, Herrs2, Herrs1, <- !app_assoc, Hids2, Hids1.
  split; [done|]. split; [done|]. split; [cbn; by f_equal|].
  assert (∀ t, length (filter (λ e, Operations.operation_type e = t) (e :: entries))
               = length (filter (λ e, Operations.operation_type e = t) [e])
                 + length (filter (λ e, Operations.operation_type e = t) entries))
    as Hcount.
  { intros t. change (e :: entries) with ([e] ++ entries).
    by rewrite filter_app, length_app. }
  rewrite !Hcount, length_app. cbn [length os_movedFiles os_skippedFiles
    os_duplicateFiles os_errorFiles os_operations os_processedFiles os_totalFiles
    count_processed] in *.
  repeat split; try lia.
  - intros Hdry. specialize (Hdry1 Hdry). specialize (Hdry2 Hdry). lia.
  - intros r Hr Hnot. apply Hkeep2.
    + apply Hkeep1; [done|]. intros Heq. apply Hnot. rewrite fmap_cons, Heq. left.
    + intros Hin. apply Hnot. rewrite fmap_cons. by right.
Qed.

(** X16: the accounting of [organizeFiles], dry run or real. It returns,
    with status ['completed']; every selected file is processed and counted
    once, as moved, skipped, duplicate or in error; it adds one ledger row
    for each selected file, in order, of the kind that was counted, and one
    error row for each file in error; [operations] has one element for each
    move; a dry run counts no file as in error; the catalog keeps its ids,
    and the rows of files that were not selected are untouched. *)
Theorem organizeFiles_accounting (base : string) (dryRun : bool)
    (fileIds : option (list nat)) (s : State) :
  ∃ fuel0 st s', ∀ fuel, fuel0 ≤ fuel →
    organizeFiles fuel base dryRun fileIds s = Some (st, s')
    ∧ ∃ entries errs,
        let selected := filesToOrganize fileIds (tbl_files s) in
        let count t := length (filter (λ e, Operations.operation_type e = t) entries) in
        os_status st = "completed"
        ∧ os_totalFiles st = length selected
        ∧ os_processedFiles st = length selected
        ∧ os_movedFiles st + os_skippedFiles st + os_duplicateFiles st
          + os_errorFiles st = length selected
        ∧ tbl_operations s' = tbl_operations s ++ entries
        ∧ Operations.file_id <$> entries = Files.id <$> selected
        ∧ os_movedFiles st = count op_move
        ∧ os_skippedFiles st = count op_skip
        ∧ os_duplicateFiles st = count op_duplicate
        ∧ os_errorFiles st = count op_error
        ∧ length (os_operations st) = os_movedFiles st
        ∧ tbl_errors s' = tbl_errors s ++ errs
        ∧ length errs = os_errorFiles st
        ∧ (dryRun = true → os_errorFiles st = 0)
        ∧ Files.id <$> tbl_files s' = Files.id <$> tbl_files s
        ∧ (∀ r, r ∈ tbl_files s → Files.id r ∉ Files.id <$> selected →
                r ∈ tbl_files s').
Proof.
  destruct (organizeFiles_total base dryRun fileIds s) as (fuel0 & st & s' & Hrun).
  exists fuel0, st, s'. intros fuel Hfuel. specialize (Hrun fuel Hfuel).
  split; [done|].
  apply organizeFiles_unfold in Hrun as (st1 & Hloop & ->).
  apply organize_loop_counts in Hloop
    as (entries & errs & Hops & Herrs & Hid & Hsum & Hm & Hs & Hd & He & Hl & Ho
        & Hp & Ht & Hdry & Hids & Hkeep).
  exists entries, errs. cbv zeta in *.
  cbn [os_movedFiles os_skippedFiles os_duplicateFiles os_errorFiles os_operations
       os_processedFiles os_totalFiles os_status finish uuidv4 snd tbl_operations
       tbl_errors tbl_files length] in *.
  repeat split; try done; try lia.
  intros Hd0. specialize (Hdry Hd0). lia.
Qed.

End OrganizerAccounting.

(** ** metadata.js: the metadata of a file *)
Section MetadataFacts.
Context `{Platform}.

Lemma config_extensions_disjoint :
  Forall (λ ext, (ext ∉ config.imageExtensions)) config.videoExtensions
  ∧ Forall (λ ext, (ext ∉ config.imageExtensions) ∧ (ext ∉ config.videoExtensions))
           config.documentExtensions.
Proof. split; apply (bool_decide_unpack _); vm_compute; reflexivity. Qed.

(** X17: [extractAllMetadata] throws when the file cannot be read;
    otherwise the metadata has the base name of the path, the length of the
    content, the extension in lower case and the category of that
    extension, the three lists of extensions being disjoint. The EXIF data
    and the EXIF date are kept for images only: for a file of another
    category [resolveDate] never answers with source ['exif'], whatever the
    file holds, and when it answers ['exif'] the file is an image with a
    usable EXIF date. *)
Theorem extractAllMetadata_spec (filePath : string) (fi : FileInfo) :
  extractAllMetadata filePath None = Throw ENOENT
  ∧ ∃ metadata,
      extractAllMetadata filePath (Some fi) = Ok metadata
      ∧ md_filename metadata = NodePath.basename filePath ""
      ∧ md_originalPath metadata = filePath
      ∧ md_size metadata = String.length (fi_content fi)
      ∧ md_extension metadata = toLowerCase (NodePath.extname filePath)
      ∧ (md_category metadata = "image"
         ↔ md_extension metadata ∈ config.imageExtensions)
      ∧ (md_category metadata = "video"
         ↔ md_extension metadata ∈ config.videoExtensions)
      ∧ (md_category metadata = "document"
         ↔ md_extension metadata ∈ config.documentExtensions)
      ∧ md_category metadata ∈ ["image"; "video"; "document"; "other"]
      ∧ (md_category metadata = "image" →
         md_exif metadata = fi_exif fi ∧ exifDate metadata = fi_exifDate fi)
      ∧ (md_category metadata ≠ "image" →
         md_exif metadata = None ∧ exifDate metadata = None
         ∧ source (resolveDate metadata) ∈ ["created"; "modified"; "discovered"])
      ∧ (source (resolveDate metadata) = "exif" →
         md_category metadata = "image" ∧ ∃ t, usable (fi_exifDate fi) t).
Proof.
  split; [done|]. unfold extractAllMetadata, getFileTypeInfo.
  set (ext := toLowerCase (NodePath.extname filePath)).
  destruct config_extensions_disjoint as [Hvideo Hdoc].
  rewrite Forall_forall in Hvideo, Hdoc.
  eexists. split; [reflexivity|]. cbn [md_filename md_originalPath md_size md_extension
    md_category md_exif exifDate].
  do 4 (split; [reflexivity|]).
  assert (Hsource : ∀ m, exifDate m = None →
            source (resolveDate m) ∈ ["created"; "modified"; "discovered"]).
  { intros m Hm. unfold resolveDate. rewrite Hm. cbn.
    destruct (candidate (createdAt m)), (candidate (modifiedAt m)); cbn;
      rewrite !elem_of_cons; auto. }
  destruct (decide (ext ∈ config.imageExtensions)) as [Himg|Himg].
  { rewrite (bool_decide_eq_true_2 _ Himg). cbn [bool_decide].
    rewrite bool_decide_eq_true_2 by done.
    split; [done|]. split; [split; [done|]; intros Hv; by destruct (Hvideo _ Hv)|].
    split; [split; [done|]; intros Hd; by destruct (Hdoc _ Hd)|].
    split; [rewrite !elem_of_cons; auto|]. split; [done|]. split; [done|].
    intros Hexif. split; [done|]. unfold resolveDate in Hexif.
    cbn [exifDate createdAt modifiedAt] in Hexif.
    destruct (candidate (fi_exifDate fi)) as [t|] eqn:Hc.
    - exists t. by apply candidate_usable.
    - exfalso. by repeat case_match. }
  rewrite (bool_decide_eq_false_2 _ Himg).
  assert (Hno : ∀ category,
            category ≠ "image" →
            bool_decide (category = "image") = false) by
    (intros ? ?; by apply bool_decide_eq_false_2).
  destruct (decide (ext ∈ config.videoExtensions)) as [Hvid|Hvid].
  { rewrite (bool_decide_eq_true_2 _ Hvid), Hno by done.
    split; [done|]. split; [done|].
    split; [split; [done|]; intros Hd; by destruct (Hdoc _ Hd)|].
    split; [rewrite !elem_of_cons; auto|]. split; [done|].
    split; [intros _; split; [done|]; split; [done|]; by apply Hsource|].
    intros Hexif. exfalso.
    match type of Hexif with
    | source (resolveDate ?m) = _ => pose proof (Hsource m eq_refl) as Hs
    end. rewrite Hexif in Hs. rewrite !elem_of_cons, elem_of_nil in Hs.
    by destruct Hs as [?|[?|[?|?]]]. }
  rewrite (bool_decide_eq_false_2 _ Hvid).
  destruct (decide (ext ∈ config.documentExtensions)) as [Hd|Hd].
  { rewrite (bool_decide_eq_true_2 _ Hd), Hno by done.
    split; [done|]. split; [done|]. split; [done|].
    split; [rewrite !elem_of_cons; auto|]. split; [done|].
    split; [intros _; split; [done|]; split; [done|]; by apply Hsource|].
    intros Hexif. exfalso.
    match type of Hexif with
    | source (resolveDate ?m) = _ => pose proof (Hsource m eq_refl) as Hs
    end. rewrite Hexif in Hs. rewrite !elem_of_cons, elem_of_nil in Hs.
    by destruct Hs as [?|[?|[?|?]]]. }
  rewrite (bool_decide_eq_false_2 _ Hd), Hno by done.
  split; [done|]. split; [done|]. split; [done|].
  split; [rewrite !elem_of_cons; auto 6|]. split; [done|].
  split; [intros _; split; [done|]; split; [done|]; by apply Hsource|].
  intros Hexif. exfalso.
  match type of Hexif with
  | source (resolveDate ?m) = _ => pose proof (Hsource m eq_refl) as Hs
  end. rewrite Hexif in Hs. rewrite !elem_of_cons, elem_of_nil in Hs.
  by destruct Hs as [?|[?|[?|?]]].
Qed.

End MetadataFacts.

(** ** revert.js: the ledger under reverts *)
Section LedgerFacts.
Context `{Platform}.

Lemma ledger_extends_refl (tbl : list Operations.row) : ledger_extends tbl tbl.
Proof.
  exists tbl, []. rewrite app_nil_r. split; [done|]. split; [|constructor].
  apply Forall_Forall2_diag, Forall_forall. intros o _. by left.
Qed.

Lemma set_status_twice (o : Operations.row) :
  set_status reverted (set_status reverted o) = set_status reverted o.
Proof. done. Qed.

(** The ledger after one more entry is reverted. *)
Lemma ledger_extends_revert (tbl tbl' : list Operations.row) (i : nat)
    (e : Operations.row) :
  ledger_extends tbl tbl' → Operations.operation_type e = op_revert →
  ledger_extends tbl (updateOperationStatus reverted i tbl' ++ [e]).
Proof.
  intros (old & new & -> & Hold & Hnew) He. unfold updateOperationStatus.
  rewrite fmap_app, <- app_assoc.
  eexists _, _. split; [reflexivity|]. split.
  - apply Forall2_fmap_r. eapply Forall2_impl; [exact Hold|].
    intros o o' [->| ->]; cbn; case_bool_decide; auto.
  - apply Forall_app. split; [|by constructor].
    apply Forall_fmap. eapply Forall_impl; [exact Hnew|].
    intros o Ho. cbn. by case_bool_decide.
Qed.

Lemma revertOperation_ledger (operation : Operations.row) (s : State)
    (tbl : list Operations.row) :
  ledger_extends tbl (tbl_operations s) →
  ledger_extends tbl (tbl_operations (revertOperation operation s).2).
Proof.
  intros Hext. destruct (revertOperation operation s) as [[r|e] s'] eqn:Hrun; cbn [snd].
  - apply revertOperation_ok in Hrun
      as (file & cp & s0 & s2 & _ & _ & _ & _ & _ & _ & _ & _ & _ & _ & _ & _
          & -> & _).
    unfold insertOperation. by apply ledger_extends_revert.
  - by apply revertOperation_throw_frame in Hrun as (_ & _ & _ & -> & _).
Qed.

Lemma sweep_ledger (operations : list Operations.row) :
  ∀ s tbl, ledger_extends tbl (tbl_operations s) →
           ledger_extends tbl (tbl_operations (sweep operations s).2).
Proof.
  induction operations as [|o ops IH]; intros s tbl Hext; [done|].
  rewrite sweep_cons. cbn [snd]. by apply IH, revertOperation_ledger.
Qed.

(** X18: the ledger is append-only under reverts. After [revertOperation]
    and after [revertBatch], whether they return or throw, every row that
    was in the ledger is still there, in its place, as it was or with its
    status set to ['reverted'], and the rows that follow are of type
    ['revert']. So the history of a file never loses an entry. *)
Theorem revert_keeps_the_ledger (operation : Operations.row) (batchId fileId : nat)
    (s : State) :
  let after s' :=
    ledger_extends (tbl_operations s) (tbl_operations s')
    ∧ length (getFileHistory fileId s) ≤ length (getFileHistory fileId s')
    ∧ ∀ o, o ∈ getFileHistory fileId s →
           o ∈ getFileHistory fileId s'
           ∨ set_status reverted o ∈ getFileHistory fileId s' in
  after (revertOperation operation s).2 ∧ after (revertBatch batchId s).2.
Proof.
  assert (Hhistory : ∀ s',
            ledger_extends (tbl_operations s) (tbl_operations s') →
            length (getFileHistory fileId s) ≤ length (getFileHistory fileId s')
            ∧ ∀ o, o ∈ getFileHistory fileId s →
                   o ∈ getFileHistory fileId s'
                   ∨ set_status reverted o ∈ getFileHistory fileId s').
  { intros s' (old & new & Heq & Hold & _).
    unfold getFileHistory, getOperationsByFile, order_by_desc.
    rewrite Heq. split.
    - rewrite !length_order_by, filter_app, length_app.
      assert (length (filter (λ o, Operations.file_id o = fileId) (tbl_operations s))
              = length (filter (λ o, Operations.file_id o = fileId) old)) as ->; [|lia].
      clear Heq. induction Hold as [|o o' l l' Ho _ IH]; [done|]. rewrite !filter_cons.
      assert (Operations.file_id o' = Operations.file_id o) as Hid
        by (by destruct Ho as [->| ->]).
      rewrite Hid. destruct (decide (Operations.file_id o = fileId)); cbn [length];
        [f_equal|]; exact IH.
    - intros o. rewrite !elem_of_order_by, !list_elem_of_filter.
      intros [Hid Ho]. apply list_elem_of_lookup in Ho as [i Hi].
      destruct (Forall2_lookup_l _ _ _ _ _ Hold Hi) as (o' & Hi' & Ho').
      apply list_elem_of_lookup_2 in Hi'.
      destruct Ho' as [->| ->]; [left|right]; (split; [done|]);
        apply elem_of_app; by left. }
  split.
  - pose proof (revertOperation_ledger operation s (tbl_operations s)
                  (ledger_extends_refl _)) as Hext.
    split; [done|]. by apply Hhistory.
  - assert (ledger_extends (tbl_operations s) (tbl_operations (revertBatch batchId s).2))
      as Hext.
    { rewrite revertBatch_state. apply sweep_ledger, ledger_extends_refl. }
    split; [done|]. by apply Hhistory.
Qed.

End LedgerFacts.

(** ** scanner.js: the files a scan reaches *)
Section ScanReachFacts.
Context `{Platform}.

Lemma files_of_elem (dirPath : string) (entries : list Dirent)
    (file : string * option FileInfo) :
  file ∈ files_of dirPath entries
  ↔ ∃ name info, FileEntry name info ∈ entries ∧ shouldSkipFile name = false
                 ∧ file = (NodePath.join dirPath name, info).
Proof.
  unfold files_of. rewrite list_elem_of_omap. split.
  - intros ([name info|name sub|name] & Hin & Hfile); try done.
    destruct (shouldSkipFile name) eqn:Hskip; [done|]. injection Hfile as <-.
    by exists name, info.
  - intros (name & info & Hin & Hskip & ->). exists (FileEntry name info).
    split; [done|]. by rewrite Hskip.
Qed.

(** The files a scan visits are those it reaches. *)
Lemma visited_reaches (dir : Dir) (recursive : bool) :
  ∀ dirPath file,
    file ∈ visited (events dirPath dir recursive)
    ↔ scan_reaches recursive dirPath dir file.
Proof.
  induction dir as [e|entries IH] using Dir_nested_ind; intros dirPath file.
  { cbn. split; [by intros ?%elem_of_nil|]. intros Hr. inversion Hr. }
  cbn [events]. rewrite !visited_app, visited_skipped, visited_files. cbn [app].
  rewrite elem_of_app, files_of_elem.
  assert (Hsubs :
    file ∈ visited
      ((fix subdirs_events (l : list Dirent) : list ScanEvent :=
          match l with
          | [] => []
          | DirEntry name sub :: l' =>
              (if recursive && negb (shouldSkipDirectory name)
               then events (NodePath.join dirPath name) sub recursive else [])
              ++ subdirs_events l'
          | _ :: l' => subdirs_events l'
          end) entries)
    ↔ ∃ name sub, DirEntry name sub ∈ entries ∧ recursive = true
                  ∧ shouldSkipDirectory name = false
                  ∧ scan_reaches recursive (NodePath.join dirPath name) sub file).
  { induction IH as [|entry l Hentry Hl IHl].
    { cbn. split; [by intros ?%elem_of_nil|].
      by intros (? & ? & ?%elem_of_nil & _). }
    destruct entry as [name info|name sub|name].
    - rewrite IHl. split; intros (n & d & Hin & Hrest); exists n, d.
      + split; [by right|done].
      + apply elem_of_cons in Hin as [|]; [done|]. by split.
    - rewrite visited_app, elem_of_app, IHl. split.
      + intros [Hhere|(n & d & Hin & Hrest)].
        * destruct recursive; [|by apply elem_of_nil in Hhere].
          destruct (shouldSkipDirectory name) eqn:Hskip;
            [by apply elem_of_nil in Hhere|].
          cbn in Hhere. exists name, sub. split; [left|].
          split; [done|]. split; [done|]. by apply Hentry.
        * exists n, d. split; [by right|done].
      + intros (n & d & Hin & Hrec & Hskip & Hreach).
        apply elem_of_cons in Hin as [[= -> ->]|Hin].
        * left. rewrite Hrec, Hskip. cbn. rewrite <- Hrec. by apply Hentry.
        * right. by exists n, d.
    - rewrite IHl. split; intros (n & d & Hin & Hrest); exists n, d.
      + split; [by right|done].
      + apply elem_of_cons in Hin as [|]; [done|]. by split. }
  rewrite Hsubs. split.
  - intros [(name & info & Hin & Hskip & ->)|(name & sub & Hin & Hrec & Hskip & Hreach)].
    + by apply reaches_file.
    + by eapply reaches_subdirectory.
  - intros Hr. inversion Hr as [? ? name info Hin Hskip|? ? name sub ? Hin Hrec Hskip Hreach];
      subst.
    + left. by exists name, info.
    + right. by exists name, sub.
Qed.

(** X19: which files a scan catalogues. Every row [scanDirectory] adds is
    the row of a file it reaches: a file of the root or, in a recursive scan
    only, of a directory reached through directories that
    [shouldSkipDirectory] lets through, with a name that [shouldSkipFile] lets
    through. Every file it reaches is in the catalog at the end, unless
    reading it throws; a scan that is not recursive reaches the files of the
    root only, and a root that cannot be listed has no file to reach. *)
Theorem scanDirectory_reaches (sourcePath : string) (root : Dir) (recursive : bool)
    (sessionId : option nat) (tbl_f : list Files.row) (tbl_e : list Errors.row)
    (tbl_s : list SessionRow) :
  let w := scanDirectory sourcePath root recursive sessionId tbl_f tbl_e tbl_s in
  (∃ rows, w_files w = tbl_f ++ rows
           ∧ Forall (λ r, ∃ file, scan_reaches recursive sourcePath root file
                                  ∧ scanned_row file r) rows)
  ∧ (∀ file, scan_reaches recursive sourcePath root file →
       is_Some (getFileByPath file.1 (w_files w)) ∨ file.2 = None)
  ∧ (∀ file, scan_reaches false sourcePath root file →
       ∃ entries name, root = Listing entries ∧ FileEntry name file.2 ∈ entries
                       ∧ shouldSkipFile name = false
                       ∧ file.1 = NodePath.join sourcePath name)
  ∧ (∀ e file, ¬ scan_reaches recursive sourcePath (Unreadable e) file).
Proof.
  intros w.
  destruct (scanDirectory_events sourcePath root recursive sessionId tbl_f tbl_e tbl_s)
    as (_ & Hfiles & _).
  fold w in Hfiles. rewrite Hfiles. cbn [w_files map_status].
  set (w0 := mkWorld _ tbl_f tbl_e tbl_s).
  split; [|split; [|split]].
  - destruct (foldl_handle_rows (events sourcePath root recursive) w0)
      as (rows & Hf & _ & _ & _ & Hrows & _).
    exists rows. split; [done|]. eapply Forall_impl; [exact Hrows|].
    intros r [(file & Hin & Hrow) _]. exists file. split; [|done].
    by apply visited_reaches.
  - intros file Hreach%visited_reaches.
    destruct (foldl_handle_catalogued _ w0 file Hreach) as [?|Hread]; [by left|].
    right. unfold readable, extractAllMetadata in Hread.
    destruct (file.2) as [fi|]; [|done]. exfalso.
    destruct (getFileTypeInfo file.1). cbn [md_size] in Hread.
    by rewrite calculateHashes_of_content in Hread.
  - intros file Hr.
    inversion Hr as [? entries name info Hin Hskip|? ? ? ? ? ? Hrec]; subst; [|done].
    by exists entries, name.
  - intros e file Hr. inversion Hr.
Qed.

End ScanReachFacts.

(** ** organizer.js: one file *)
Section OrganizeFileOutcomes.
Context `{Platform}.

Lemma checkForExistingDuplicate_Some (hash : option string) (excludeFileId : nat)
    (tbl : list Files.row) (existing : Files.row) :
  checkForExistingDuplicate hash excludeFileId tbl = Some existing →
  existing ∈ tbl ∧ Files.status existing = st_moved
  ∧ hash ≠ None ∧ Files.hash_sha256 existing = hash
  ∧ (excludeFileId = 0 ∨ Files.id existing ≠ excludeFileId).
Proof.
  unfold checkForExistingDuplicate. destruct hash as [h|]; [|done].
  intros [Hin Hp]%find_some. apply list_elem_of_In in Hin.
  apply andb_true_iff in Hp as [[Hh%bool_decide_eq_true Hst%bool_decide_eq_true]%andb_true_iff
                                Hid%orb_true_iff].
  repeat split; try done.
  destruct Hid as [?%bool_decide_eq_true|?%negb_true_iff%bool_decide_eq_false]; auto.
Qed.

(** X20: what [organizeFile] does with a file in a real run. It returns
    and writes one ledger row, for the file and the batch, of one of four
    kinds. ['skip']: nothing is at the source; no file and no catalog row
    changes. ['duplicate']: a row with status ['moved'] has the
    fingerprint; the file stays where it is and its row is linked to that
    row. ['move']: what was at the source is at the recorded destination and
    the row has status ['moved'] and the destination as current path; for a
    regular file, its content is at the destination, the source is gone and
    the directory of the destination exists; for a directory (the catalogued
    path holds a directory now), the directory is at the destination with
    all that was below it, and nothing is left at or below the source.
    ['error']: creating the directory or renaming threw; no file and no
    catalog row changes and one error row is written. *)
Theorem organizeFile_outcomes (file : Files.row) (base : string) (batchId : nat)
    (st : OrganizeStatus) (s : State) :
  ∃ fuel0 st' s', ∀ fuel, fuel0 ≤ fuel →
    organizeFile fuel file base batchId false st s = Some (st', s')
    ∧ ∃ e,
        let there := fileExists (sourcePath_of file) s in
        let check := checkForExistingDuplicate (Files.hash_sha256 file) (Files.id file)
                                               (tbl_files s) in
        tbl_operations s' = tbl_operations s ++ [e]
        ∧ Operations.file_id e = Files.id file
        ∧ Operations.batch_id e = batchId
        ∧ Operations.source_path e = sourcePath_of file
        ∧ Operations.hash_used e = Files.hash_sha256 file
        ∧ ((Operations.operation_type e = op_skip ∧ there = false
            ∧ fs_files s' = fs_files s ∧ tbl_files s' = tbl_files s
            ∧ tbl_errors s' = tbl_errors s)
           ∨ (Operations.operation_type e = op_duplicate ∧ there = true
              ∧ ∃ existing,
                  check = Some existing
                  ∧ Files.status existing = st_moved
                  ∧ Files.hash_sha256 existing = Files.hash_sha256 file
                  ∧ Operations.destination_path e = Files.current_path existing
                  ∧ fs_files s' = fs_files s
                  ∧ tbl_files s'
                    = updateFile (keeping file (Files.current_path file) st_duplicate
                                          (Some (Files.id existing))) (tbl_files s)
                  ∧ tbl_errors s' = tbl_errors s)
           ∨ (Operations.operation_type e = op_move ∧ there = true ∧ check = None
              ∧ ∃ dst,
                  Operations.destination_path e = Some dst
                  ∧ tbl_files s'
                    = updateFile (keeping file (Some dst) st_moved None) (tbl_files s)
                  ∧ tbl_errors s' = tbl_errors s
                  ∧ ((∃ content,
                        fs_files s !! sourcePath_of file = Some content
                        ∧ fs_files s' = <[dst := content]>
                                          (delete (sourcePath_of file) (fs_files s))
                        ∧ NodePath.dirname dst ∈ fs_dirs s')
                     ∨ (fs_files s !! sourcePath_of file = None
                        ∧ sourcePath_of file ∈ fs_dirs s
                        ∧ dst ∈ fs_dirs s'
                        ∧ tree_files_moved (sourcePath_of file) dst
                                           (fs_files s) (fs_files s')
                        ∧ tree_dirs_moved (sourcePath_of file) dst
                            (fs_dirs s ∪ list_to_set (ancestors (NodePath.dirname dst)))
                            (fs_dirs s'))))
           ∨ (Operations.operation_type e = op_error ∧ there = true ∧ check = None
              ∧ fs_files s' = fs_files s ∧ tbl_files s' = tbl_files s
              ∧ tbl_errors s'
                = tbl_errors s ++ [Errors.mk (Some (Files.id file)) (sourcePath_of file)
                                             "organize_error" (Operations.reason e)])).
Proof.
  unfold organizeFile, plan_file, fileExists.
  destruct (is_ok (fs_access (Some (sourcePath_of file)) s)) eqn:Hthere; cycle 1.
  { exists 0. eexists _, _. intros fuel _. cbn. split; [reflexivity|].
    eexists. split; [reflexivity|]. cbn. do 4 (split; [done|]). by left. }
  cbn [negb].
  destruct (checkForExistingDuplicate _ _ _) as [existing|] eqn:Hcheck.
  { exists 0. eexists _, _. intros fuel _. cbn. split; [reflexivity|].
    eexists. split; [reflexivity|]. cbn. do 4 (split; [done|]). right. left.
    apply checkForExistingDuplicate_Some in Hcheck as (_ & Hst & _ & Hh & _).
    split; [done|]. split; [done|]. exists existing. by repeat split. }
  destruct (handleCollision_total
              (generateDestinationPath base (Files.resolved_date file)
                                       (Files.filename file))
              (Files.hash_sha256 file) s) as (fuel0 & dst & Hrun).
  exists fuel0.
  destruct (fs_mkdir (NodePath.dirname dst) s) as [s1|e1] eqn:Hmk.
  2:{ eexists _, _. intros fuel Hfuel. rewrite (Hrun fuel Hfuel). cbn. rewrite Hmk.
      split; [reflexivity|]. eexists. split; [reflexivity|]. cbn.
      do 4 (split; [done|]). right. right. right. by repeat split. }
  pose proof (fs_mkdir_frame _ _ _ Hmk) as (Hf1 & Hd1 & Ht1 & Ho1 & He1 & Hu1).
  destruct (fs_rename (sourcePath_of file) dst s1) as [s2|e2] eqn:Hren.
  2:{ eexists _, _. intros fuel Hfuel. rewrite (Hrun fuel Hfuel). cbn. rewrite Hmk, Hren.
      split; [reflexivity|]. eexists. split; [cbn; rewrite Ho1; reflexivity|]. cbn.
      do 4 (split; [done|]). right. right. right. rewrite Hf1, Ht1, He1.
      by repeat split. }
  pose proof (fs_rename_tables _ _ _ _ Hren) as (Ht2 & Ho2 & He2 & Hu2).
  eexists _, _. intros fuel Hfuel. rewrite (Hrun fuel Hfuel). cbn. rewrite Hmk, Hren.
  split; [reflexivity|]. eexists. split; [cbn; rewrite Ho2, Ho1; reflexivity|]. cbn.
  do 4 (split; [done|]). right. right. left. do 3 (split; [done|]).
  exists dst. rewrite Ht2, Ht1, He2, He1. do 3 (split; [done|]).
  destruct (fs_rename_cases _ _ _ _ Hren)
    as [(content & Hsrc & Hf2 & Hnd & Hparent & Hd2)
       |(Hsrc & Hdir & Htree & Hdtree & Hdst)].
  - left. exists content. rewrite Hf2, Hd2, Hf1. by rewrite <- Hf1.
  - right. rewrite Hf1 in Hsrc, Htree. rewrite Hd1 in Hdtree.
    split; [done|]. split; [|done].
    unfold fs_access, occupied, is_file, is_dir in Hthere. rewrite Hsrc in Hthere.
    rewrite bool_decide_eq_false_2 in Hthere by (by intros [? ?]). cbn in Hthere.
    by case_bool_decide.
Qed.

End OrganizeFileOutcomes.

(** A catalogued path that holds a directory now: [fs.access] passes,
    [fs.rename] moves the directory with the file in it, and the row gets
    the status ['moved']. The revert of the batch then fails where
    [calculateHash] reads the destination. *)
Example organizeFiles_moves_a_directory :
  ('(st, s1) ← @organizeFiles Demo.platform 101 "/dest" false None Demo.directory_world;
   let reverted := @revertBatch Demo.platform (os_batchId st) s1 in
   Some (os_operations st,
         (λ r, (Files.status r, Files.current_path r)) <$> tbl_files s1,
         map_to_list (fs_files s1),
         bool_decide ("/src/a.txt" ∈ fs_dirs s1),
         bool_decide ("/dest/2023/07/15/a.txt" ∈ fs_dirs s1),
         reverted.1))
  = Some ([mkOrgOp 1 "/src/a.txt" "/dest/2023/07/15/a.txt" "moved"],
          [(st_moved, Some "/dest/2023/07/15/a.txt")],
          [("/dest/2023/07/15/a.txt/inner.txt", "hello")],
          false, true,
          Ok (mkBatchResult 1 1 0 1 0
                [mkBatchError 1 "illegal operation on a directory"])).
Proof. vm_compute. reflexivity. Qed.

(** ** routes/files.js *)
Section FileRouteFacts.
Context `{Platform}.

(** X21: [GET /api/files/duplicates/all] against [findAllDuplicateGroups].
    The route lists a group for each fingerprint that at least two rows
    have, with all the rows of that fingerprint. Every group of
    [findAllDuplicateGroups] is among them, with the same members; the route
    lists more when a fingerprint has two rows only when the rows in error
    are counted, and lists the same fingerprints in the same order when no
    row is in error. *)
Theorem get_duplicates_all_against_service (tbl : list Files.row) :
  let route := get_duplicates_all tbl in
  route.2 = length route.1
  ∧ NoDup (rg_hash <$> route.1)
  ∧ (∀ h, h ∈ rg_hash <$> route.1
          ↔ 1 < length (filter (λ r, Files.hash_sha256 r = Some h) tbl))
  ∧ Forall (λ rg, rg_files rg = filter (λ r, Files.hash_sha256 r = Some (rg_hash rg)) tbl
                  ∧ rg_count rg = length (rg_files rg)) route.1
  ∧ Forall (λ g, ∃ rg, rg ∈ route.1 ∧ rg_hash rg = g_hash g
                       ∧ rg_files rg ≡ₚ g_files g ∧ rg_count rg = g_count g)
           (findAllDuplicateGroups tbl)
  ∧ (Forall (λ r, Files.status r ≠ st_error) tbl →
     rg_hash <$> route.1 = g_hash <$> findAllDuplicateGroups tbl).
Proof.
  intros route. unfold route, get_duplicates_all. cbn [fst snd].
  set (hashes := filter _ (remove_dups (omap Files.hash_sha256 tbl))).
  assert (Hhashes : ∀ h, h ∈ hashes
            ↔ 1 < length (filter (λ r, Files.hash_sha256 r = Some h) tbl)).
  { intros h. unfold hashes. rewrite list_elem_of_filter, elem_of_remove_dups.
    split; [by intros [? _]|]. intros Hlen. split; [done|].
    apply list_elem_of_omap.
    destruct (filter (λ r, Files.hash_sha256 r = Some h) tbl) as [|r rest] eqn:Hf;
      [cbn in Hlen; lia|].
    assert (r ∈ filter (λ r, Files.hash_sha256 r = Some h) tbl) as Hr
      by (rewrite Hf; left).
    apply list_elem_of_filter in Hr as [Hh Hr]. by exists r. }
  assert (Hnames : ∀ l : list string,
            rg_hash <$> ((λ h, mkRouteGroup h
                                 (length (filter (λ r, Files.hash_sha256 r = Some h) tbl))
                                 (filter (λ r, Files.hash_sha256 r = Some h) tbl)) <$> l)
            = l).
  { intros l. rewrite <- list_fmap_compose. apply list_fmap_id. }
  split; [done|]. rewrite Hnames.
  split; [apply NoDup_filter, NoDup_remove_dups|]. split; [done|]. split.
  { apply Forall_fmap, Forall_forall. by intros h _. }
  split.
  - unfold findAllDuplicateGroups. apply Forall_fmap, Forall_forall.
    intros h Hh%duplicateHashes_files. cbn.
    unfold files_with_hash, order_by_asc in Hh. rewrite length_order_by in Hh.
    eexists. split.
    + by apply list_elem_of_fmap_2, Hhashes.
    + cbn. split; [done|]. unfold files_with_hash, order_by_asc.
      split; [symmetry; apply order_by_perm|]. by rewrite length_order_by.
  - intros Hok. unfold findAllDuplicateGroups. rewrite <- list_fmap_compose.
    transitivity (duplicateHashes tbl); [|symmetry; apply list_fmap_id].
    unfold hashes, duplicateHashes.
    assert (omap (λ r, if countable_row r then Files.hash_sha256 r else None) tbl
            = omap Files.hash_sha256 tbl) as ->.
    { clear -Hok. induction Hok as [|r l Hr _ IH]; [done|]. cbn. rewrite IH.
      unfold countable_row. rewrite (bool_decide_eq_true_2 _ Hr), andb_true_r.
      by destruct (Files.hash_sha256 r). }
    apply filter_ext_in. intros h _. unfold hash_count.
    assert (filter (λ r, countable_row r = true ∧ Files.hash_sha256 r = Some h) tbl
            = filter (λ r, Files.hash_sha256 r = Some h) tbl) as ->; [|done].
    apply filter_ext_in. intros r Hr. rewrite Forall_forall in Hok.
    unfold countable_row. rewrite (bool_decide_eq_true_2 _ (Hok r Hr)), andb_true_r.
    split; [by intros [_ ?]|]. intros Hh. split; [|done].
    apply bool_decide_eq_true. by rewrite Hh.
Qed.

End FileRouteFacts.

(** ** routes/organize.js *)
Section OrganizeRouteFacts.
Context `{Platform}.

(** X22: [GET /api/organize/preview] against [generateDestinationPath].
    Without a destination the answer is 400. Otherwise [totalFiles] counts
    the pending rows that have a resolved date and [preview] holds at most
    100 entries, each for one of these rows, with the original path as
    source. The destination shown is the one [organizeFile] computes when the
    resolved date is valid; for a date that parses but is out of range the
    route shows the folder of that date while [organizeFile] uses the folder
    of the current day, and for a date that does not parse the route shows
    the folder NaN/NaN/NaN. *)
Theorem get_organize_preview_against_service (destinationPath : option string)
    (tbl : list Files.row) :
  (truthy destinationPath = false →
   get_organize_preview destinationPath tbl
   = JsonError 400 "destinationPath query parameter is required")
  ∧ (∀ base, destinationPath = Some base → base ≠ "" →
     ∃ pendingFiles,
       pendingFiles ≡ₚ filter (λ r, Files.status r = st_pending
                                    ∧ Files.resolved_date r ≠ None) tbl
       ∧ get_organize_preview destinationPath tbl
         = Json 200 (length pendingFiles,
                     route_preview_entry base <$> take 100 pendingFiles)
       ∧ Forall
           (λ file,
              let p := route_preview_entry base file in
              let folder c := base +:+ "/" +:+ year c +:+ "/" +:+ month c +:+ "/"
                                   +:+ day c +:+ "/" +:+ Files.filename file in
              rpv_id p = Files.id file
              ∧ rpv_sourcePath p = Files.original_path file
              ∧ (isValidDate (new_Date (Files.resolved_date file)) = true →
                 rpv_destinationPath p
                 = generateDestinationPath base (Files.resolved_date file)
                                           (Files.filename file))
              ∧ (∀ t, new_Date (Files.resolved_date file) = Some t →
                      rpv_destinationPath p = folder (components_of t)
                      ∧ (isValidDate (Some t) = false →
                         generateDestinationPath base (Files.resolved_date file)
                                                 (Files.filename file)
                         = folder (components_of now)))
              ∧ (new_Date (Files.resolved_date file) = None →
                 rpv_destinationPath p
                 = base +:+ "/NaN/NaN/NaN/" +:+ Files.filename file))
           pendingFiles).
Proof.
  split.
  { unfold get_organize_preview. destruct destinationPath as [base|]; [|done].
    by intros ->. }
  intros base -> Hbase. unfold get_organize_preview.
  assert (truthy (Some base) = true) as ->.
  { cbn. by rewrite bool_decide_eq_false_2. }
  eexists. split; [apply order_by_perm|]. split.
  { by rewrite length_fmap, fmap_take. }
  apply Forall_forall. intros file _. cbv zeta.
  unfold route_preview_entry, generateDestinationPath, extractDateComponents.
  cbn [rpv_id rpv_sourcePath rpv_destinationPath].
  do 2 (split; [done|]).
  destruct (new_Date (Files.resolved_date file)) as [t|] eqn:Hdate; cbn [or_NaN].
  - split; [by intros ->|]. split; [|done]. intros t' [= <-]. split; [done|].
    by intros ->.
  - split; [done|]. split; [done|]. intros _. cbn [padStart2 String.length].
    reflexivity.
Qed.

End OrganizeRouteFacts.

(** ** revert.js: a revert that succeeds *)
Section RevertSuccess.
Context `{Platform}.

(** After a revert of a regular file the directory of the original path is
    there: the cleanup does not remove the directory of the file it put
    back. *)
Lemma revertOperation_ok_parent (operation : Operations.row) (s s' : State)
    (r : RevertResult) (currentPath : string) :
  revertOperation operation s = (Ok r, s') →
  Operations.destination_path operation = Some currentPath →
  is_Some (fs_files s !! currentPath) →
  NodePath.dirname (Operations.source_path operation) ∈ fs_dirs s'.
Proof.
  intros Hrun Hdest0 [content0 Hthere]. revert Hrun. unfold revertOperation.
  fold (after_directory_step (Operations.source_path operation) s).
  case_bool_decide as Htype; [done|]. case_bool_decide as Hst; [done|].
  destruct (getFileById _ _) as [file|] eqn:Hfile; [|done].
  rewrite Hdest0.
  destruct (fs_access (Some currentPath) s) as [[]|] eqn:Hacc; [|done].
  destruct (if truthy (Operations.hash_used operation) then _ else _)
    as [[]|] eqn:Hint; [|done].
  destruct (after_directory_step _ s) as [s1|] eqn:Hdir; [|done].
  destruct (fs_access (Some (Operations.source_path operation)) s1)
    as [|e] eqn:Horig; [done|].
  case_bool_decide as Hcode; [done|].
  destruct (fs_rename currentPath _ s1) as [s2|] eqn:Hren; [|done].
  intros [= <- <-].
  pose proof (after_directory_step_frame _ _ _ Hdir) as (Hf1 & _).
  apply fs_rename_cases in Hren
    as [(content & Hsrc & Hfiles & Hnd & Hparent & Hdirs)|(Hsrc & _)];
    [|rewrite Hf1 in Hsrc; congruence].
  unfold cleanupEmptyDirectories.
  match goal with |- _ ∈ fs_dirs (cleanup_loop ?f ?d ?s6) =>
    destruct (decide (NodePath.dirname (Operations.source_path operation)
                      ∈ fs_dirs (cleanup_loop f d s6))) as [|Hgone]; [done|];
    destruct (cleanup_loop_removed f d s6
                (NodePath.dirname (Operations.source_path operation)))
      as [_ Hempty]; [by cbn; rewrite Hdirs|done|]
  end.
  assert (Operations.source_path operation
          = NodePath.dirname (Operations.source_path operation)) as Heq.
  { apply Hempty; [|done]. apply elem_of_union. left. apply elem_of_dom. cbn.
    rewrite Hfiles, lookup_insert_eq. by eexists. }
  exfalso. apply Hnd. rewrite Heq. exact Hparent.
Qed.

(** X23: what a revert that succeeds has done. The entry was a move that
    was not reverted, and nothing was at its source. What was at its
    destination is at its source. For a regular file: its content is at the
    source, with the fingerprint the entry recorded, nothing is at the
    destination, every other file is as it was, and the directory of the
    source is there. For a directory (which passes only when the entry
    records no fingerprint): the directory and all that was below it are at
    the source and nothing is left at or below the destination. The row of
    the file has status ['pending'], the source as current path and no
    duplicate link; the entry, read again, has status ['reverted'], and the
    ledger ends with a row of type ['revert'] from the destination back to
    the source. *)
Theorem revertOperation_success (operation : Operations.row) (s : State) :
  is_ok (revertOperation operation s).1 = true →
  let s' := (revertOperation operation s).2 in
  let originalPath := Operations.source_path operation in
  ∃ file currentPath row e,
    Operations.operation_type operation = op_move
    ∧ Operations.status operation ≠ reverted
    ∧ Operations.destination_path operation = Some currentPath
    ∧ (revertOperation operation s).1
      = Ok (mkRevertResult true (Operations.id operation) (Files.id file)
                           originalPath currentPath)
    ∧ fs_files s !! originalPath = None
    ∧ (originalPath ∉ fs_dirs s)
    ∧ ((∃ content,
          fs_files s !! currentPath = Some content
          ∧ fs_files s' !! originalPath = Some content
          ∧ fs_files s' !! currentPath = None
          ∧ (∀ p, p ≠ originalPath → p ≠ currentPath →
                  fs_files s' !! p = fs_files s !! p)
          ∧ (truthy (Operations.hash_used operation) = true →
             calculateHash originalPath s' = Ok (sha256 content)
             ∧ Operations.hash_used operation = Some (sha256 content))
          ∧ NodePath.dirname originalPath ∈ fs_dirs s')
       ∨ (truthy (Operations.hash_used operation) = false
          ∧ fs_files s !! currentPath = None
          ∧ currentPath ∈ fs_dirs s
          ∧ tree_files_moved currentPath originalPath (fs_files s) (fs_files s')
          ∧ ∀ p, p ∈ fs_dirs s' →
                 below currentPath p = false ∨ below originalPath p = true))
    ∧ getFileById (Operations.file_id operation) (tbl_files s) = Some file
    ∧ getFileById (Operations.file_id operation) (tbl_files s') = Some row
    ∧ Files.status row = st_pending
    ∧ Files.current_path row = Some originalPath
    ∧ Files.duplicate_of row = None
    ∧ Files.hash_sha256 row = Files.hash_sha256 file
    ∧ (∀ again,
         getOperationById (Operations.id operation) (tbl_operations s) = Some again →
         getOperationById (Operations.id operation) (tbl_operations s')
         = Some (set_status reverted again))
    ∧ last (tbl_operations s') = Some e
    ∧ Operations.operation_type e = op_revert
    ∧ Operations.file_id e = Files.id file
    ∧ Operations.source_path e = currentPath
    ∧ Operations.destination_path e = Some originalPath.
Proof.
  destruct (revertOperation operation s) as [[r|err] s'] eqn:Hrun; [|done].
  intros _. cbn [fst snd].
  pose proof (revertOperation_ok _ _ _ _ Hrun)
    as (file & currentPath & s1 & s2 & Htype & Hst & Hfile & Hdst & Hocc & Hhash
        & Hstep & Hfree & Hren & Hfiles & Hdirs & Htbl & Hops & _ & _ & ->).
  pose proof (after_directory_step_frame _ _ _ Hstep) as (Hf1 & Hd1 & _).
  pose proof (occupied_mono _ _ _ Hf1 Hd1 Hfree) as Hfree0.
  assert (fs_files s !! Operations.source_path operation = None
          ∧ Operations.source_path operation ∉ fs_dirs s) as [Hnone Hnodir].
  { unfold occupied, is_file, is_dir in Hfree0.
    apply orb_false_iff in Hfree0 as [Hf Hd]. apply bool_decide_eq_false in Hf, Hd.
    split; [|done].
    destruct (fs_files s !! Operations.source_path operation) eqn:Hlook; [|done].
    exfalso. apply Hf. by eexists. }
  pose proof (getFileById_Some _ _ _ Hfile) as Hid.
  eexists file, currentPath, _, _.
  do 6 (split; [done|]). split.
  { destruct (fs_rename_cases _ _ _ _ Hren)
      as [(content & Hsrc & Hf2 & Hnd & Hparent & Hd2)
         |(Hsrc & Hdir & Htree & [_ Hdtree] & _)]; rewrite Hf1 in Hsrc.
    - left. exists content. rewrite Hfiles, Hf2, Hf1.
      assert (Operations.source_path operation ≠ currentPath) as Hne.
      { intros Heq. rewrite Heq in Hnone. congruence. }
      split; [done|]. split; [by rewrite lookup_insert_eq|].
      split; [by rewrite lookup_insert_ne, lookup_delete_eq|].
      split; [intros p Hp1 Hp2; by rewrite lookup_insert_ne, lookup_delete_ne|].
      split.
      + intros Htr. destruct (Hhash Htr) as (c' & Hc' & Hh).
        assert (c' = content) as -> by congruence. split; [|done].
        unfold calculateHash. by rewrite Hfiles, Hf2, lookup_insert_eq.
      + by eapply revertOperation_ok_parent.
    - right. split.
      { destruct (truthy (Operations.hash_used operation)) eqn:Htr; [|done].
        destruct (Hhash eq_refl) as (c & Hc & _). congruence. }
      split; [done|]. split.
      { unfold occupied, is_file, is_dir in Hocc. rewrite Hsrc in Hocc.
        rewrite bool_decide_eq_false_2 in Hocc by (by intros [? ?]). cbn in Hocc.
        by case_bool_decide. }
      split; [by rewrite Hfiles, <- Hf1|].
      intros p Hp%Hdirs.
      destruct (below (Operations.source_path operation) p) eqn:Hb; [by right|left].
      apply Hdtree in Hp; [|done]. by destruct Hp. }
  split; [done|]. rewrite Htbl, getFileById_updateFile, Hfile.
  split; [reflexivity|]. unfold apply_update. cbn [Files.u_id keeping].
  rewrite bool_decide_eq_true_2 by done. do 4 (split; [reflexivity|]).
  rewrite Hops. unfold insertOperation. split.
  { intros again Hagain. by apply getOperationById_reverted. }
  rewrite last_snoc. by repeat split.
Qed.

End RevertSuccess.

(** X23 on the first move of the organized demo world. *)
Lemma revertOperation_success_witness :
  is_ok (@revertOperation Demo.platform Demo.first_move Demo.organized_world).1 = true
  ∧ (let operation := Demo.first_move in
     let s := Demo.organized_world in
     let s' := (@revertOperation Demo.platform operation s).2 in
     let originalPath := Operations.source_path operation in
     ∃ file currentPath row e,
       Operations.operation_type operation = op_move
       ∧ Operations.status operation ≠ reverted
       ∧ Operations.destination_path operation = Some currentPath
       ∧ (@revertOperation Demo.platform operation s).1
         = Ok (mkRevertResult true (Operations.id operation) (Files.id file)
                              originalPath currentPath)
       ∧ fs_files s !! originalPath = None
       ∧ (originalPath ∉ fs_dirs s)
       ∧ ((∃ content,
             fs_files s !! currentPath = Some content
             ∧ fs_files s' !! originalPath = Some content
             ∧ fs_files s' !! currentPath = None
             ∧ (∀ p, p ≠ originalPath → p ≠ currentPath →
                     fs_files s' !! p = fs_files s !! p)
             ∧ (truthy (Operations.hash_used operation) = true →
                @calculateHash Demo.platform originalPath s' = Ok (Demo.digest content)
                ∧ Operations.hash_used operation = Some (Demo.digest content))
             ∧ NodePath.dirname originalPath ∈ fs_dirs s')
          ∨ (truthy (Operations.hash_used operation) = false
             ∧ fs_files s !! currentPath = None
             ∧ currentPath ∈ fs_dirs s
             ∧ tree_files_moved currentPath originalPath (fs_files s) (fs_files s')
             ∧ ∀ p, p ∈ fs_dirs s' →
                    below currentPath p = false ∨ below originalPath p = true))
       ∧ getFileById (Operations.file_id operation) (tbl_files s) = Some file
       ∧ getFileById (Operations.file_id operation) (tbl_files s') = Some row
       ∧ Files.status row = st_pending
       ∧ Files.current_path row = Some originalPath
       ∧ Files.duplicate_of row = None
       ∧ Files.hash_sha256 row = Files.hash_sha256 file
       ∧ (∀ again,
            getOperationById (Operations.id operation) (tbl_operations s) = Some again →
            getOperationById (Operations.id operation) (tbl_operations s')
            = Some (set_status reverted again))
       ∧ last (tbl_operations s') = Some e
       ∧ Operations.operation_type e = op_revert
       ∧ Operations.file_id e = Files.id file
       ∧ Operations.source_path e = currentPath
       ∧ Operations.destination_path e = Some originalPath).
Proof.
  assert (is_ok (@revertOperation Demo.platform Demo.first_move
                   Demo.organized_world).1 = true) as Hok
    by (vm_compute; reflexivity).
  split; [exact Hok|].
  exact (@revertOperation_success Demo.platform Demo.first_move Demo.organized_world Hok).
Defined.

(** ** organizer.js and revert.js: a batch and its revert *)
Section Relocation.

Lemma relocated_nil (m0 m : gmap string string) : relocated [] m0 m ↔ m = m0.
Proof.
  split.
  - intros [_ Hrest]. apply map_eq. intros p. apply Hrest; apply not_elem_of_nil.
  - intros ->. split; [|done]. intros src dst Hin. by apply elem_of_nil in Hin.
Qed.

Lemma relocated_perm (moves moves' : list (string * string))
    (m0 m : gmap string string) :
  moves ≡ₚ moves' → relocated moves m0 m → relocated moves' m0 m.
Proof.
  intros Hperm [Hmoved Hrest]. split.
  - intros src dst Hin. apply Hmoved. by rewrite Hperm.
  - intros p Hsrc Hdst. apply Hrest; by rewrite Hperm.
Qed.

(** A path that holds no file and is no destination is no source. *)
Lemma moved_by_absent (m m' : gmap string string) (moves : list (string * string))
    (p : string) :
  moved_by m moves m' → m !! p = None → p ∉ moves.*2 → p ∉ moves.*1.
Proof.
  induction 1 as [m|m src dst content moves m' Hsrc Hrun IH]; intros Hp Hdst.
  { apply not_elem_of_nil. }
  cbn in *. apply not_elem_of_cons in Hdst as [Hne Hdst].
  apply not_elem_of_cons. split; [by intros ->; rewrite Hsrc in Hp|].
  apply IH; [|done]. rewrite lookup_insert_ne by done.
  destruct (decide (src = p)) as [->|Hne']; [by rewrite lookup_delete_eq|].
  by rewrite lookup_delete_ne.
Qed.

(** Moves of files that were there from the start onto free paths, no two
    onto one path, leave every file at its destination; no file is moved
    twice. *)
Lemma moved_by_relocated (m m' : gmap string string) (moves : list (string * string)) :
  moved_by m moves m' →
  (∀ src dst, (src, dst) ∈ moves → is_Some (m !! src) ∧ m !! dst = None) →
  NoDup moves.*2 →
  relocated moves m m' ∧ NoDup moves.*1.
Proof.
  induction 1 as [m|m src dst content moves m' Hsrc Hrun IH]; intros Hfree Hnd.
  { split; [by apply relocated_nil|constructor]. }
  cbn in Hnd. apply NoDup_cons in Hnd as [Hdst Hnd].
  assert (m !! dst = None) as Hdst0 by (apply (Hfree src); left).
  assert (src ≠ dst) as Hne by (intros ->; congruence).
  set (m1 := <[dst := content]> (delete src m)) in *.
  assert (∀ p, p ≠ src → p ≠ dst → m1 !! p = m !! p) as Hm1.
  { intros p ? ?. unfold m1. by rewrite lookup_insert_ne, lookup_delete_ne. }
  assert (m1 !! src = None) as Hsrc1.
  { unfold m1. by rewrite lookup_insert_ne, lookup_delete_eq. }
  assert (m1 !! dst = Some content) as Hdst1 by (unfold m1; by rewrite lookup_insert_eq).
  assert (src ∉ moves.*2) as Hsrc2.
  { intros ([s d] & -> & Hin)%list_elem_of_fmap. cbn in Hsrc.
    destruct (Hfree s d) as [_ Hnone]; [by right|]. congruence. }
  pose proof (moved_by_absent _ _ _ _ Hrun Hsrc1 Hsrc2) as Hsrc_once.
  assert (dst ∉ moves.*1) as Hdst_src.
  { intros ([s d] & -> & Hin)%list_elem_of_fmap. cbn in *.
    destruct (Hfree s d) as [[? Hsome] _]; [by right|]. congruence. }
  assert (∀ s d, (s, d) ∈ moves → m1 !! s = m !! s ∧ m1 !! d = m !! d) as Hsame.
  { intros s d Hin. split; apply Hm1; intros ->.
    - apply Hsrc_once. apply list_elem_of_fmap. by exists (src, d).
    - apply Hdst_src. apply list_elem_of_fmap. by exists (dst, d).
    - apply Hsrc2. apply list_elem_of_fmap. by exists (s, src).
    - apply Hdst. apply list_elem_of_fmap. by exists (s, dst). }
  destruct IH as ([Hmoved Hrest] & Hnd1); [|done|].
  { intros s d Hin. destruct (Hsame s d Hin) as [-> ->]. apply Hfree. by right. }
  split; [split|].
  - intros s d [[= -> ->]|Hin]%elem_of_cons.
    + rewrite !Hrest by done. by rewrite Hdst1, Hsrc1, Hsrc.
    + destruct (Hmoved s d Hin) as [-> ->]. split; [|done]. by apply (Hsame s d).
  - intros p [? ?]%not_elem_of_cons [? ?]%not_elem_of_cons. cbn in *.
    rewrite Hrest by done. by apply Hm1.
  - cbn. by apply NoDup_cons.
Qed.

(** Taking one file back. *)
Lemma relocated_undo (src dst content : string) (moves : list (string * string))
    (m0 m : gmap string string) :
  relocated ((src, dst) :: moves) m0 m →
  m0 !! src = Some content → m0 !! dst = None →
  src ∉ moves.*1 → src ∉ moves.*2 → dst ∉ moves.*1 → dst ∉ moves.*2 →
  relocated moves m0 (<[src := content]> (delete dst m)).
Proof.
  intros [Hmoved Hrest] Hsrc Hdst Hs1 Hs2 Hd1 Hd2.
  assert (src ≠ dst) as Hne by (intros ->; congruence).
  split.
  - intros s d Hin.
    assert (s ≠ src ∧ s ≠ dst ∧ d ≠ src ∧ d ≠ dst) as (? & ? & ? & ?).
    { repeat split; intros ->.
      - apply Hs1, list_elem_of_fmap. by exists (src, d).
      - apply Hd1, list_elem_of_fmap. by exists (dst, d).
      - apply Hs2, list_elem_of_fmap. by exists (s, src).
      - apply Hd2, list_elem_of_fmap. by exists (s, dst). }
    rewrite !lookup_insert_ne, !lookup_delete_ne by done.
    apply Hmoved. by right.
  - intros p Hp1 Hp2. destruct (decide (p = src)) as [->|Hps].
    { by rewrite lookup_insert_eq. }
    rewrite lookup_insert_ne by done. destruct (decide (p = dst)) as [->|Hpd].
    { by rewrite lookup_delete_eq. }
    rewrite lookup_delete_ne by done. apply Hrest; cbn; by apply not_elem_of_cons.
Qed.

End Relocation.

Section RoundTripFacts.
Context `{Platform}.

(** One real [organizeFile]: it writes one row; it moves the file, to a
    path that is no directory, or leaves the files as they are. *)
Lemma organizeFile_real_step (fuel : nat) (file : Files.row) (base : string)
    (batchId : nat) (st st' : OrganizeStatus) (s s' : State) :
  organizeFile fuel file base batchId false st s = Some (st', s') →
  is_Some (fs_files s !! sourcePath_of file) →
  ∃ e moved,
    tbl_operations s' = tbl_operations s ++ [e]
    ∧ Operations.batch_id e = batchId ∧ Operations.status e = completed
    ∧ Files.id <$> tbl_files s' = Files.id <$> tbl_files s
    ∧ fs_dirs s ⊆ fs_dirs s' ∧ uuid_counter s' = uuid_counter s
    ∧ os_batchId st' = os_batchId st
    ∧ match moved with
      | None =>
          os_operations st' = os_operations st
          ∧ Operations.operation_type e ≠ op_move ∧ fs_files s' = fs_files s
      | Some dst =>
          os_operations st' = os_operations st ++ [moved_op (file, dst)]
          ∧ move_entry batchId file dst e
          ∧ (dst ∉ fs_dirs s)
          ∧ ∃ content,
              fs_files s !! sourcePath_of file = Some content
              ∧ fs_files s' = <[dst := content]>
                                (delete (sourcePath_of file) (fs_files s))
      end.
Proof.
  unfold organizeFile. destruct (plan_file fuel file base s) as [[|existing|dst]|];
    cbn [mbind option_bind]; [| | |done].
  - intros [= <- <-] _. eexists _, None. cbn. by repeat split.
  - intros [= <- <-] _. eexists _, None. cbn. rewrite updateFile_ids. by repeat split.
  - destruct (fs_mkdir (NodePath.dirname dst) s) as [s1|e1] eqn:Hmk.
    2:{ intros [= <- <-] _. eexists _, None. cbn. by repeat split. }
    apply fs_mkdir_frame in Hmk as (Hf1 & Hd1 & Ht1 & Ho1 & He1 & Hu1).
    assert (fs_dirs s ⊆ fs_dirs s1) as Hsub.
    { rewrite Hd1. apply union_subseteq_l. }
    destruct (fs_rename (sourcePath_of file) dst s1) as [s2|e2] eqn:Hren.
    2:{ intros [= <- <-] _. eexists _, None. cbn. rewrite Ho1, Ht1, Hf1, Hu1.
        by repeat split. }
    pose proof (fs_rename_tables _ _ _ _ Hren) as (Ht2 & Ho2 & He2 & Hu2).
    intros [= <- <-] [content0 Hthere].
    apply fs_rename_cases in Hren
      as [(content & Hsrc & Hf2 & Hnd & _ & Hd2)|(Hsrc & _)];
      [|rewrite Hf1 in Hsrc; congruence].
    eexists _, (Some dst). cbn.
    rewrite updateFile_ids, Ho2, Ho1, Ht2, Ht1, Hd2, Hu2, Hu1, Hf2, Hf1.
    repeat split; try done; [by intros ?; apply Hnd, Hsub|].
    exists content. by rewrite <- Hf1.
Qed.

(** The loop of a real [organizeFiles]: the files it moves, with their
    destinations, in order; their rows in the ledger; and the renames as
    the files see them. *)
Lemma organize_loop_real (fuel : nat) (base : string) (batchId : nat)
    (files : list Files.row) :
  NoDup (sourcePath_of <$> files) →
  ∀ (st st' : OrganizeStatus) (s s' : State),
    organize_loop fuel files base batchId false st s = Some (st', s') →
    Forall (λ f, is_Some (fs_files s !! sourcePath_of f)) files →
    ∃ (entries : list Operations.row) (moved : list (Files.row * string)),
      tbl_operations s' = tbl_operations s ++ entries
      ∧ Forall (λ e, Operations.batch_id e = batchId
                     ∧ Operations.status e = completed) entries
      ∧ os_operations st' = os_operations st ++ (moved_op <$> moved)
      ∧ sublist moved.*1 files
      ∧ Forall2 (λ move e, move_entry batchId move.1 move.2 e) moved
                (filter (λ e, Operations.operation_type e = op_move) entries)
      ∧ Forall (λ move, move.2 ∉ fs_dirs s) moved
      ∧ moved_by (fs_files s) ((λ move, (sourcePath_of move.1, move.2)) <$> moved)
                 (fs_files s')
      ∧ Files.id <$> tbl_files s' = Files.id <$> tbl_files s
      ∧ fs_dirs s ⊆ fs_dirs s' ∧ uuid_counter s' = uuid_counter s
      ∧ os_batchId st' = os_batchId st.
Proof.
  induction files as [|file files IH]; intros Hsources st st' s s';
    cbn [organize_loop].
  { intros [= <- <-] _. exists [], []. rewrite !(right_id [] app).
    repeat split; try done; constructor. }
  destruct (organizeFile fuel file base batchId false st s) as [[st1 s1]|] eqn:Hstep;
    cbn [mbind option_bind]; [|done].
  intros Hloop [Hthere Hrest]%Forall_cons.
  cbn [fmap list_fmap] in Hsources. apply NoDup_cons in Hsources as [Hfirst Hsources].
  apply organizeFile_real_step in Hstep
    as (e & moved1 & Hops1 & Hb1 & Hc1 & Hids1 & Hdirs1 & Hu1 & Hbatch1 & Hcase);
    [|done].
  apply (IH Hsources) in Hloop
    as (entries & moved & Hops & Hall & Host & Hsub & Hentries & Hfree & Hmoved
        & Hids & Hdirs & Hu & Hbatch).
  2:{ destruct moved1 as [dst|].
      - destruct Hcase as (_ & _ & _ & content & _ & ->).
        apply Forall_forall. intros g Hg. rewrite Forall_forall in Hrest.
        destruct (decide (sourcePath_of g = dst)) as [->|Hne].
        { rewrite lookup_insert_eq. by eexists. }
        rewrite lookup_insert_ne, lookup_delete_ne; [by apply Hrest|..|done].
        intros Heq. apply Hfirst. rewrite Heq. by apply list_elem_of_fmap_2.
      - destruct Hcase as (_ & _ & ->). done. }
  cbn in Hbatch. rewrite Hbatch1 in Hbatch.
  assert (Forall (λ move, move.2 ∉ fs_dirs s) moved) as Hfree'.
  { eapply Forall_impl; [exact Hfree|]. intros move Hmove ?. by apply Hmove, Hdirs1. }
  exists (e :: entries).
  destruct moved1 as [dst|].
  - destruct Hcase as (Host1 & Hentry & Hdst & content & Hsrc & Hfiles1).
    exists ((file, dst) :: moved). cbn [fmap list_fmap fst snd].
    rewrite Hops, Hops1, <- (assoc app). split; [done|].
    split; [by constructor|]. split.
    { rewrite Host. cbn. rewrite Host1, <- (assoc app). done. }
    split; [by constructor|]. split.
    { rewrite filter_cons, decide_True by apply Hentry. by constructor. }
    split; [by constructor|]. split.
    { econstructor; [exact Hsrc|]. by rewrite <- Hfiles1. }
    split; [by rewrite Hids|]. split; [by etrans|]. split; [by rewrite Hu|done].
  - destruct Hcase as (Host1 & Hentry & Hfiles1).
    exists moved. rewrite Hops, Hops1, <- (assoc app). split; [done|].
    split; [by constructor|]. split.
    { rewrite Host. cbn. by rewrite Host1. }
    split; [by constructor|]. split.
    { by rewrite filter_cons, decide_False. }
    split; [done|]. split; [by rewrite <- Hfiles1|].
    split; [by rewrite Hids|]. split; [by etrans|]. split; [by rewrite Hu|done].
Qed.

Lemma existsb_none {A} (f : A → bool) (l : list A) :
  (∀ x, x ∈ l → f x = false) → existsb f l = false.
Proof.
  induction l as [|x l IH]; intros Hall; [done|]. cbn.
  rewrite (Hall x) by left. apply IH. intros y Hy. apply Hall. by right.
Qed.

Lemma ancestors_self (dir : string) : dir ∈ ancestors dir.
Proof.
  unfold ancestors. rewrite Nat.add_comm. cbn [Nat.add chain]. apply elem_of_cons. by left.
Qed.

Lemma after_directory_step_dirs (p : string) (s s' : State) :
  after_directory_step p s = Ok s' →
  fs_dirs s' ⊆ fs_dirs s ∪ list_to_set (ancestors (NodePath.dirname p))
  ∧ (is_file (NodePath.dirname p) s = false → NodePath.dirname p ∈ fs_dirs s').
Proof.
  unfold after_directory_step, fs_access, occupied, is_dir.
  destruct (is_file _ s) eqn:Hfile; cbn.
  { intros [= <-]. split; [apply union_subseteq_l|done]. }
  case_bool_decide as Hdir.
  { intros [= <-]. split; [apply union_subseteq_l|done]. }
  intros (_ & -> & _)%fs_mkdir_frame. split; [done|]. intros _.
  apply elem_of_union. right. apply elem_of_list_to_set, ancestors_self.
Qed.

(** What suffices for [revertOperation] to go through. *)
Lemma revertOperation_succeeds (e : Operations.row) (s : State)
    (file : Files.row) (dst content : string) :
  Operations.operation_type e = op_move →
  Operations.status e = completed →
  getFileById (Operations.file_id e) (tbl_files s) = Some file →
  Operations.destination_path e = Some dst →
  fs_files s !! dst = Some content →
  (truthy (Operations.hash_used e) = true →
   Operations.hash_used e = Some (sha256 content)) →
  (∀ a, a ∈ ancestors (NodePath.dirname (Operations.source_path e)) →
        fs_files s !! a = None) →
  fs_files s !! Operations.source_path e = None →
  Operations.source_path e ∉ fs_dirs s →
  Operations.source_path e ∉ ancestors (NodePath.dirname (Operations.source_path e)) →
  ∃ r s', revertOperation e s = (Ok r, s').
Proof.
  intros Htype Hst Hfile Hdst Hthere Hhash Hchain Hfree Hnodir Hnochain.
  unfold revertOperation.
  fold (after_directory_step (Operations.source_path e) s).
  rewrite bool_decide_eq_false_2 by (by intros []).
  rewrite bool_decide_eq_false_2 by (by rewrite Hst).
  rewrite Hfile, Hdst. cbn [fs_access]. unfold occupied at 1, is_file at 1.
  rewrite bool_decide_eq_true_2 by (by rewrite Hthere). cbn [orb].
  assert ((if truthy (Operations.hash_used e)
           then match calculateHash dst s with
                | Ok currentHash =>
                    if bool_decide (Some currentHash ≠ Operations.hash_used e)
                    then Throw E_modified else Ok ()
                | Throw err => Throw err
                end
           else Ok ()) = Ok ()) as ->.
  { destruct (truthy (Operations.hash_used e)) eqn:Htruthy; [|done].
    unfold calculateHash. rewrite Hthere, (Hhash eq_refl).
    by rewrite bool_decide_eq_false_2 by (by intros []). }
  assert (∃ s1, after_directory_step (Operations.source_path e) s = Ok s1)
    as [s1 Hstep].
  { unfold after_directory_step. destruct (fs_access _ s); [by eexists|].
    unfold fs_mkdir. rewrite existsb_none; [by eexists|].
    intros a Ha. unfold is_file.
    rewrite bool_decide_eq_false_2; [done|]. rewrite (Hchain a Ha). by intros [? ?]. }
  rewrite Hstep.
  pose proof (after_directory_step_frame _ _ _ Hstep) as (Hf1 & _).
  pose proof (after_directory_step_dirs _ _ _ Hstep) as [Hd1 Hparent].
  assert (Operations.source_path e ∉ fs_dirs s1) as Hnodir1.
  { intros [?|Hin%elem_of_list_to_set]%Hd1%elem_of_union; [done|]. by apply Hnochain. }
  unfold fs_access, occupied, is_file, is_dir.
  rewrite Hf1, (bool_decide_eq_false_2 (is_Some _)) by (rewrite Hfree; by intros [? ?]).
  rewrite (bool_decide_eq_false_2 _ Hnodir1). cbn [orb].
  rewrite bool_decide_eq_false_2 by (by intros []).
  unfold fs_rename, is_dir. rewrite Hf1, Hthere.
  rewrite (bool_decide_eq_false_2 _ Hnodir1), bool_decide_eq_true_2.
  { cbn. by eexists _, _. }
  apply Hparent. unfold is_file. apply bool_decide_eq_false_2.
  rewrite (Hchain _ (ancestors_self _)). by intros [? ?].
Qed.

(** [revertOperation] touches the rows of its own file only. *)
Lemma revertOperation_rows (e : Operations.row) (s : State) :
  Files.id <$> tbl_files (revertOperation e s).2 = Files.id <$> tbl_files s
  ∧ ∀ i, i ≠ Operations.file_id e →
         getFileById i (tbl_files (revertOperation e s).2) = getFileById i (tbl_files s).
Proof.
  destruct (revertOperation e s) as [[r|err] s'] eqn:Hrun; cbn [snd].
  - apply revertOperation_ok in Hrun
      as (file & dst & content & s1 & _ & _ & Hfile & _ & _ & _ & _ & _ & _ & _ & _
          & -> & _).
    split; [apply updateFile_ids|]. intros i Hi. rewrite getFileById_updateFile.
    destruct (getFileById i (tbl_files s)) as [r'|] eqn:Hrow; [|done]. cbn.
    unfold apply_update. rewrite bool_decide_eq_false_2; [done|]. cbn.
    apply getFileById_Some in Hfile, Hrow. congruence.
  - by apply revertOperation_throw_frame in Hrun as (_ & _ & -> & _).
Qed.

Lemma sweep_rows (operations : list Operations.row) :
  ∀ s, Files.id <$> tbl_files (sweep operations s).2 = Files.id <$> tbl_files s
       ∧ ∀ i, i ∉ Operations.file_id <$> operations →
              getFileById i (tbl_files (sweep operations s).2)
              = getFileById i (tbl_files s).
Proof.
  induction operations as [|e rest IH]; intros s; [done|].
  rewrite sweep_cons. cbn [snd].
  destruct (IH (revertOperation e s).2) as [Hids Hrows].
  destruct (revertOperation_rows e s) as [Hids1 Hrows1].
  split; [by rewrite Hids|]. intros i [? ?]%not_elem_of_cons.
  rewrite Hrows by done. by apply Hrows1.
Qed.

(** What a successful revert of a regular file has done. *)
Lemma revertOperation_ok_file (e : Operations.row) (s s' : State) (r : RevertResult)
    (dst content : string) :
  revertOperation e s = (Ok r, s') →
  Operations.destination_path e = Some dst →
  fs_files s !! dst = Some content →
  ∃ file s1,
    getFileById (Operations.file_id e) (tbl_files s) = Some file
    ∧ after_directory_step (Operations.source_path e) s = Ok s1
    ∧ fs_files s' = <[Operations.source_path e := content]> (delete dst (fs_files s))
    ∧ fs_dirs s' ⊆ fs_dirs s1
    ∧ tbl_files s' = updateFile (keeping file (Some (Operations.source_path e))
                                         st_pending None) (tbl_files s).
Proof.
  intros Hrun Hdst Hthere.
  apply revertOperation_ok in Hrun
    as (file & dst' & s1 & s2 & _ & _ & Hfile & Hdst' & _ & _ & Hstep & _ & Hren
        & Hfiles & Hdirs & Htbl & _).
  assert (dst' = dst) as -> by congruence.
  pose proof (after_directory_step_frame _ _ _ Hstep) as (Hf1 & _).
  apply fs_rename_cases in Hren
    as [(content' & Hsrc & Hf2 & _ & _ & Hd2)|(Hsrc & _)];
    [|rewrite Hf1 in Hsrc; congruence].
  rewrite Hf1 in Hsrc. assert (content' = content) as -> by congruence.
  exists file, s1. do 2 (split; [done|]).
  split; [by rewrite Hfiles, Hf2, Hf1|]. split; [by rewrite <- Hd2|done].
Qed.

(** The sweep of [revertBatch] over rows that are ready, in any order:
    every revert goes through, the files are back where they were, and the
    row of each file has its path again. *)
Lemma sweep_restores (m0 : gmap string string) (operations : list Operations.row) :
  ∀ s,
    relocated (move_of <$> operations) m0 (fs_files s) →
    NoDup (move_of <$> operations).*1 →
    NoDup (move_of <$> operations).*2 →
    NoDup (Operations.file_id <$> operations) →
    Forall (revert_ready m0 (move_of <$> operations).*2) operations →
    (∀ e, e ∈ operations → Operations.file_id e ∈ Files.id <$> tbl_files s) →
    (∀ e, e ∈ operations → Operations.source_path e ∉ fs_dirs s) →
    Forall succeeded (sweep operations s).1
    ∧ fs_files (sweep operations s).2 = m0
    ∧ ∀ e, e ∈ operations →
        ∃ r, getFileById (Operations.file_id e) (tbl_files (sweep operations s).2)
             = Some r
             ∧ Files.current_path r = Some (Operations.source_path e)
             ∧ Files.status r = st_pending.
Proof.
  induction operations as [|e rest IH]; intros s Hrel Hnd1 Hnd2 Hndf Hready Hids Hnodir.
  { cbn. split; [constructor|]. split; [by apply relocated_nil|].
    by intros e ?%elem_of_nil. }
  apply Forall_cons in Hready as [He Hrest].
  destruct He as (Htype & Hst & (dst & Hdst & Hdst0) & (content & Hsrc0 & Hhash) & Hchain).
  set (src := Operations.source_path e) in *.
  assert (move_of e = (src, dst)) as Hmove by (unfold move_of; by rewrite Hdst).
  cbn [fmap list_fmap] in *. rewrite Hmove in *. cbn [fst snd] in *.
  apply NoDup_cons in Hnd1 as [Hs1 Hnd1]. apply NoDup_cons in Hnd2 as [Hd2 Hnd2].
  apply NoDup_cons in Hndf as [Hf Hndf].
  assert (∀ p, p ∈ (move_of <$> rest).*1 → is_Some (m0 !! p)) as Hsources.
  { intros p (mv & -> & (e' & -> & He')%list_elem_of_fmap)%list_elem_of_fmap.
    rewrite Forall_forall in Hrest.
    destruct (Hrest e' He') as (_ & _ & _ & (c & Hc & _) & _). by exists c. }
  assert (∀ p, p ∈ (move_of <$> rest).*2 → m0 !! p = None) as Hdests.
  { intros p (mv & -> & (e' & -> & He')%list_elem_of_fmap)%list_elem_of_fmap.
    rewrite Forall_forall in Hrest.
    destruct (Hrest e' He') as (_ & _ & (d & Hd & Hd0) & _). unfold move_of.
    by rewrite Hd. }
  assert (src ∉ (move_of <$> rest).*2) as Hs2.
  { intros Hin. apply Hdests in Hin. congruence. }
  assert (dst ∉ (move_of <$> rest).*1) as Hd1.
  { intros [c Hc]%Hsources. congruence. }
  assert (∀ a, a ∈ ancestors (NodePath.dirname src) → a ∉ src :: (move_of <$> rest).*1)
    as Hchain_src.
  { intros a [Ha _]%Hchain [->|[c Hc]%Hsources]%elem_of_cons; congruence. }
  destruct Hrel as [Hmoved Hother].
  destruct (Hmoved src dst) as [Hthere Hfree]; [by left|]. rewrite Hsrc0 in Hthere.
  destruct (getFileById_is_Some (Operations.file_id e) (tbl_files s)) as [file Hfile].
  { apply Hids. by left. }
  destruct (revertOperation_succeeds e s file dst content) as (r & s1 & Hrun);
    try done.
  { intros a Ha. rewrite Hother; [by apply Hchain|by apply Hchain_src|by apply Hchain]. }
  { by apply Hnodir; left. }
  { intros [Hnone _]%Hchain. fold src in Hnone. congruence. }
  pose proof (revertOperation_ok_file _ _ _ _ _ _ Hrun Hdst Hthere)
    as (file' & sdir & Hfile' & Hstep & Hfiles1 & Hdirs1 & Htbl1).
  fold src in Hfiles1, Htbl1, Hstep.
  assert (file' = file) as -> by congruence.
  apply after_directory_step_dirs in Hstep as [Hsdir _].
  rewrite sweep_cons, Hrun. cbn [fst snd].
  destruct (IH s1) as (Hok & Hfiles & Hrows); try done.
  { rewrite Hfiles1. by apply relocated_undo. }
  { eapply Forall_impl; [exact Hrest|]. intros e' (? & ? & ? & ? & Hchain').
    repeat split; try done; [by apply Hchain'|].
    intros Hin. apply (Hchain' a); [done|by right]. }
  { intros e' He'. rewrite Htbl1, updateFile_ids. apply Hids. by right. }
  { intros e' He' [Hin|Hin%elem_of_list_to_set]%Hdirs1%Hsdir%elem_of_union.
    - apply (Hnodir e'); [by right|done].
    - apply Hchain in Hin as [Hnone _].
      destruct (Hsources (Operations.source_path e')) as [c Hc]; [|congruence].
      apply list_elem_of_fmap. exists (move_of e'). split; [done|].
      by apply list_elem_of_fmap_2. }
  split; [by constructor|]. split; [done|].
  intros e' [->|He']%elem_of_cons; [|by apply Hrows].
  destruct (sweep_rows rest s1) as [_ Hkeep]. rewrite Hkeep by done.
  rewrite Htbl1, getFileById_updateFile, Hfile. cbn. eexists. split; [done|].
  unfold apply_update. by rewrite bool_decide_eq_true_2.
Qed.

Lemma Forall2_elem_l {A B} (P : A → B → Prop) (l : list A) (k : list B) (x : A) :
  Forall2 P l k → x ∈ l → ∃ y, y ∈ k ∧ P x y.
Proof.
  induction 1 as [|x' y' l k Hxy Hlk IH]; [by intros ?%elem_of_nil|].
  intros [->|Hin]%elem_of_cons.
  - exists y'. split; [by left|done].
  - destruct (IH Hin) as (y & ? & ?). exists y. split; [by right|done].
Qed.

Lemma Forall2_elem_r {A B} (P : A → B → Prop) (l : list A) (k : list B) (y : B) :
  Forall2 P l k → y ∈ k → ∃ x, x ∈ l ∧ P x y.
Proof.
  induction 1 as [|x' y' l k Hxy Hlk IH]; [by intros ?%elem_of_nil|].
  intros [->|Hin]%elem_of_cons.
  - exists x'. split; [by left|done].
  - destruct (IH Hin) as (x & ? & ?). exists x. split; [by right|done].
Qed.

Lemma Forall2_fmap_eq {A B C} (f : A → C) (g : B → C) (l : list A) (k : list B) :
  Forall2 (λ x y, f x = g y) l k → f <$> l = g <$> k.
Proof. induction 1 as [|x y l k Hxy Hlk IH]; [done|]. cbn. by rewrite Hxy, IH. Qed.

Lemma all_succeeded (outcomes : list (Operations.row * result RevertResult)) :
  Forall succeeded outcomes →
  filter succeeded outcomes = outcomes
  ∧ filter (λ o, ¬ succeeded o) outcomes = []
  ∧ omap failure_of outcomes = [].
Proof.
  intros Hall. rewrite Forall_forall in Hall. split; [by apply filter_all|].
  split; [apply filter_none; intros o Ho Hno; by apply Hno, Hall|].
  induction outcomes as [|[e r] outcomes IH]; [done|]. cbn.
  assert (succeeded (e, r)) as Hr by (apply Hall; left).
  unfold succeeded in Hr. cbn in Hr. destruct r as [r|err]; [|done].
  unfold failure_of at 1. cbn. apply IH. intros o Ho. apply Hall. by right.
Qed.

(** A real batch, then the sweep of [revertBatch] on it. *)
Lemma organizeFiles_then_sweep (fuel : nat) (base : string)
    (fileIds : option (list nat)) (s0 s1 : State) (st : OrganizeStatus) :
  NoDup (Files.id <$> tbl_files s0) →
  (∀ e, e ∈ tbl_operations s0 → Operations.batch_id e ≠ uuid_counter s0) →
  (∀ p, p ∈ fs_dirs s0 → fs_files s0 !! p = None) →
  (∀ f, f ∈ filesToOrganize fileIds (tbl_files s0) →
        (∃ content, fs_files s0 !! sourcePath_of f = Some content
                    ∧ Files.hash_sha256 f = Some (sha256 content))
        ∧ ∀ a, a ∈ ancestors (NodePath.dirname (sourcePath_of f)) → a ∈ fs_dirs s0) →
  NoDup (sourcePath_of <$> filesToOrganize fileIds (tbl_files s0)) →
  organizeFiles fuel base false fileIds s0 = Some (st, s1) →
  NoDup (oo_destination <$> os_operations st) →
  (∀ op, op ∈ os_operations st →
         fs_files s0 !! oo_destination op = None ∧ oo_source op ∉ fs_dirs s1) →
  ∃ moved : list (Files.row * string),
    let selected := select_revertible (os_batchId st) (tbl_operations s1) in
    os_operations st = moved_op <$> moved
    ∧ (∀ mv, mv ∈ moved → mv.1 ∈ filesToOrganize fileIds (tbl_files s0))
    ∧ relocated ((λ mv, (sourcePath_of mv.1, mv.2)) <$> moved)
                (fs_files s0) (fs_files s1)
    ∧ (∀ mv, mv ∈ moved →
         ∃ e, e ∈ selected ∧ e ∈ tbl_operations s1
              ∧ move_entry (os_batchId st) mv.1 mv.2 e)
    ∧ length selected = length moved
    ∧ Forall succeeded (sweep selected s1).1
    ∧ fs_files (sweep selected s1).2 = fs_files s0
    ∧ ∀ e, e ∈ selected →
        ∃ r, getFileById (Operations.file_id e) (tbl_files (sweep selected s1).2)
             = Some r
             ∧ Files.current_path r = Some (Operations.source_path e)
             ∧ Files.status r = st_pending.
Proof.
  intros Hids Hfresh Hwf Hsel Hsources (st1 & Hloop & ->)%organizeFiles_unfold Hnd Hops.
  cbn [os_operations os_batchId finish] in *.
  apply organize_loop_real in Hloop
    as (entries & moved & Hops1 & Hall & Host & Hsub & Hentries & Hfree & Hmoved
        & Hids1 & Hdirs & Hu & Hbatch); [|done|].
  2:{ apply Forall_forall. intros f Hf. destruct (Hsel f Hf) as [(c & Hc & _) _].
      by exists c. }
  cbn in Hops1, Host, Hfree, Hmoved, Hids1, Hdirs, Hbatch. rewrite Hbatch.
  set (b := uuid_counter s0) in *.
  set (files := filesToOrganize fileIds (tbl_files s0)) in *.
  set (moves := (λ mv : Files.row * string, (sourcePath_of mv.1, mv.2)) <$> moved) in *.
  set (E := filter (λ e, Operations.operation_type e = op_move) entries) in *.
  destruct (filesToOrganize_spec fileIds (tbl_files s0) Hids) as [Hfiles_nd Hfiles].
  fold files in Hfiles_nd, Hfiles. rewrite Forall_forall in Hfiles.
  assert (∀ mv, mv ∈ moved → mv.1 ∈ files) as Hmoved_files.
  { intros mv Hmv. eapply elem_of_sublist; [|exact Hsub]. by apply list_elem_of_fmap_2. }
  exists moved. cbv zeta. rewrite Host in Hnd, Hops.
  assert (∀ mv, mv ∈ moved →
                fs_files s0 !! mv.2 = None ∧ sourcePath_of mv.1 ∉ fs_dirs s1) as Hdest.
  { intros mv Hmv. apply (Hops (moved_op mv)). by apply list_elem_of_fmap_2. }
  assert (moves.*2 = moved.*2) as Hdsts.
  { unfold moves. rewrite <- list_fmap_compose. done. }
  assert (moved.*2 = oo_destination <$> (moved_op <$> moved)) as Hdsts'.
  { rewrite <- list_fmap_compose. done. }
  destruct (moved_by_relocated _ _ _ Hmoved) as [Hrel Hsrc_nd].
  { intros src dst (mv & [= -> ->] & Hmv)%list_elem_of_fmap.
    destruct (Hsel mv.1 (Hmoved_files mv Hmv)) as [(c & Hc & _) _].
    split; [by exists c|by apply Hdest]. }
  { by rewrite Hdsts, Hdsts'. }
  set (selected := select_revertible b (tbl_operations s1)).
  assert (selected ≡ₚ E) as Hperm.
  { destruct (select_revertible_spec b (tbl_operations s1)) as [Hp _].
    fold selected in Hp. rewrite Hp, Hops1, filter_app.
    rewrite filter_none by (intros e He [Hb _]; by apply (Hfresh e)).
    cbn. rewrite Forall_forall in Hall. unfold E.
    erewrite filter_ext_in; [done|]. intros e He. destruct (Hall e He) as [? ?].
    split; [by intros (_ & ? & _)|by intros ?]. }
  assert (move_of <$> E = moves) as Hmoves.
  { unfold moves. symmetry. apply Forall2_fmap_eq.
    eapply Forall2_impl; [exact Hentries|]. intros mv e (_ & _ & _ & Hs & Hd & _).
    unfold move_of. by rewrite Hs, Hd. }
  assert (Operations.file_id <$> E = Files.id <$> moved.*1) as Hfile_ids.
  { rewrite <- list_fmap_compose. symmetry. apply Forall2_fmap_eq.
    eapply Forall2_impl; [exact Hentries|]. by intros mv e (_ & -> & _). }
  assert (∀ e, e ∈ selected →
               ∃ mv, mv ∈ moved ∧ move_entry b mv.1 mv.2 e) as Hback.
  { intros e He. rewrite Hperm in He. by apply (Forall2_elem_r _ _ _ _ Hentries). }
  destruct (sweep_restores (fs_files s0) selected s1) as (Hok & Hfs & Hrows).
  { eapply relocated_perm; [|exact Hrel]. by rewrite Hperm, Hmoves. }
  { by rewrite Hperm, Hmoves. }
  { by rewrite Hperm, Hmoves, Hdsts, Hdsts'. }
  { rewrite Hperm, Hfile_ids.
    eapply sublist_NoDup; [exact Hfiles_nd|by apply fmap_sublist]. }
  { apply Forall_forall. intros e (mv & Hmv & Hentry)%Hback.
    destruct Hentry as (_ & _ & Htype & Hsrc & Hdst & Hhash & Hst).
    destruct (Hsel mv.1 (Hmoved_files mv Hmv)) as [(c & Hc & Hh) Hchain].
    split; [done|]. split; [done|]. split.
    { exists mv.2. split; [done|]. by apply Hdest. }
    split.
    { exists c. rewrite Hsrc. split; [done|]. intros _. by rewrite Hhash. }
    intros a Ha. rewrite Hsrc in Ha. apply Hchain in Ha. split; [by apply Hwf|].
    rewrite Hperm, Hmoves, Hdsts. intros (mv' & -> & Hmv')%list_elem_of_fmap.
    rewrite Forall_forall in Hfree. by apply (Hfree mv' Hmv'). }
  { intros e (mv & Hmv & (_ & -> & _))%Hback. rewrite Hids1.
    apply list_elem_of_fmap_2. by apply Hfiles, Hmoved_files. }
  { intros e (mv & Hmv & (_ & _ & _ & -> & _))%Hback. by apply Hdest. }
  split; [done|]. split; [done|]. split; [done|]. split.
  { intros mv Hmv. destruct (Forall2_elem_l _ _ _ _ Hentries Hmv) as (e & He & Hentry).
    exists e. split; [by rewrite Hperm|]. split; [|done].
    rewrite Hops1. apply elem_of_app. right.
    by apply list_elem_of_filter in He as [_ ?]. }
  split; [|done].
  rewrite Hperm. symmetry. by apply (Forall2_length _ _ _ Hentries).
Qed.

(** A real batch that returns, then [revertBatch]: under the conditions
    on the state before the batch and on the destinations the batch chose,
    every revert goes through and the files and rows are as before. *)
Lemma organize_revert_restores (fuel : nat) (base : string)
    (fileIds : option (list nat)) (s0 s1 : State) (st : OrganizeStatus) :
  NoDup (Files.id <$> tbl_files s0) →
  (∀ e, e ∈ tbl_operations s0 → Operations.batch_id e ≠ uuid_counter s0) →
  (∀ p, p ∈ fs_dirs s0 → fs_files s0 !! p = None) →
  (∀ f, f ∈ filesToOrganize fileIds (tbl_files s0) →
        (∃ content, fs_files s0 !! sourcePath_of f = Some content
                    ∧ Files.hash_sha256 f = Some (sha256 content))
        ∧ ∀ a, a ∈ ancestors (NodePath.dirname (sourcePath_of f)) → a ∈ fs_dirs s0) →
  NoDup (sourcePath_of <$> filesToOrganize fileIds (tbl_files s0)) →
  organizeFiles fuel base false fileIds s0 = Some (st, s1) →
  NoDup (oo_destination <$> os_operations st) →
  (∀ op, op ∈ os_operations st →
         fs_files s0 !! oo_destination op = None ∧ oo_source op ∉ fs_dirs s1) →
  let reverted := revertBatch (os_batchId st) s1 in
  fs_files reverted.2 = fs_files s0
  ∧ (os_operations st ≠ [] →
     reverted.1 = Ok (mkBatchResult (os_batchId st) (length (os_operations st))
                        (length (os_operations st)) 0 0 []))
  ∧ ∀ op, op ∈ os_operations st →
      ∃ f content e r,
        f ∈ tbl_files s0 ∧ Files.id f = oo_fileId op
        ∧ sourcePath_of f = oo_source op
        ∧ fs_files s0 !! oo_source op = Some content
        ∧ fs_files s1 !! oo_destination op = Some content
        ∧ fs_files s1 !! oo_source op = None
        ∧ e ∈ tbl_operations s1
        ∧ move_entry (os_batchId st) f (oo_destination op) e
        ∧ fs_files reverted.2 !! oo_source op = Some content
        ∧ calculateHash (oo_source op) reverted.2 = Ok (sha256 content)
        ∧ Operations.hash_used e = Some (sha256 content)
        ∧ getFileById (oo_fileId op) (tbl_files reverted.2) = Some r
        ∧ Files.current_path r = Some (oo_source op)
        ∧ Files.status r = st_pending.
Proof.
  intros Hids Hfresh Hwf Hsel Hsources Hrun Hnd Hops.
  destruct (organizeFiles_then_sweep fuel base fileIds s0 s1 st)
    as (moved & Hst & Hfiles & Hrel & Hent & Hlen & Hok & Hfs & Hrows); try done.
  cbv zeta in *. rewrite revertBatch_state. split; [done|]. split.
  - intros Hne.
    pose proof (revertBatch_runs (os_batchId st) s1) as Hruns. cbv zeta in Hruns.
    destruct Hruns as [-> Houts].
    { intros Hnil. rewrite Hnil in Hlen. destruct moved; [|done]. by rewrite Hst in Hne. }
    cbn [fst]. destruct (all_succeeded _ Hok) as (Hall & Hnone & Hnoerr).
    rewrite Hall, Hnone, Hnoerr, Hst, !length_fmap, <- Hlen. cbn [length].
    pose proof (f_equal length Houts) as Hsame. rewrite length_fmap in Hsame.
    by rewrite Hsame.
  - intros op Hop. rewrite Hst in Hop. apply list_elem_of_fmap in Hop as (mv & -> & Hmv).
    destruct (Hent mv Hmv) as (e & Hesel & Hetbl & Hentry).
    destruct (Hrows e Hesel) as (r & Hr & Hcp & Hstat).
    destruct (Hsel mv.1 (Hfiles mv Hmv)) as [(content & Hc & Hh) _].
    destruct (filesToOrganize_spec fileIds (tbl_files s0) Hids) as [_ Hall].
    rewrite Forall_forall in Hall. destruct (Hall mv.1 (Hfiles mv Hmv)) as [Hin _].
    destruct Hrel as [Hmovedto _].
    destruct (Hmovedto (sourcePath_of mv.1) mv.2) as [Hdst Hsrc].
    { apply list_elem_of_fmap. by exists mv. }
    pose proof Hentry as (_ & Hfid & _ & Hsp & _ & Hhash & _).
    rewrite Hfid in Hr. rewrite Hsp in Hcp.
    exists mv.1, content, e, r. cbn [moved_op oo_fileId oo_source oo_destination].
    unfold calculateHash. rewrite Hfs, Hc, Hdst, Hc, Hhash, Hh.
    do 7 (split; [done|]). split; [exact Hentry|]. by repeat split.
Qed.

End RoundTripFacts.

Section RoundTripTheorem.
Context `{Platform}.


End RoundTripTheorem.

